(* ===== verification/_CoqProject ===== *)
-Q . S2P
Prelude.v
Effect.v
Bitmap.v
Types.v
Layout.v
Region.v
World.v
Threads.v
Words.v
Caches.v
Runtime.v
Ownership.v
Token.v
Transfer.v
Policies.v
PolicySafety.v
Exclusion.v
StakeClaim.v
Recovery.v
Lifecycle.v
Quiet.v
Registry.v
Departure.v
Tournament.v
Demand.v
Failover.v
Admission.v
Peer.v
Session.v
Cohort.v
Pins.v
Leases.v
Wire.v
Area.v
Manager.v
Turn.v
Participation.v
Facade.v
Reconcile.v
Client.v
Bringup.v
Requester.v
Workers.v
Dispatch.v
Control.v
Handshake.v
KvConfig.v
KvParse.v
Settings.v
Memory.v
Inspector.v
Monitor.v
Holds.v
Provision.v
Startup.v
Posix.v
Returns.v
Loop.v
Bindings.v
Telemetry.v
