(* ===== verification/Prelude.v ===== *)
(** * CME: a verification development of the ownership coordination library

    The program lets hosts that share a CXL memory region coordinate exclusive
    ownership of domains.  [src/src] is the library: a peer per process maps the
    region, keeps a heartbeat in it, and hands each domain around as a token, by
    one of four successor policies.  [src/daemon] shares one peer among the
    processes of a host: requesters reach a daemon over a socket and a shared
    area, and ride the turns the daemon takes in the region.  [src/common] holds
    what both use, and [src/tools] the program that lays a region out.

    ** The files and what they model

    - [Prelude]: machine words, integer ranges, little-endian codecs, automation.
    - [Effect]: handlers as [run R S A], an environment read, a state threaded,
      [None] for a loop out of turns; [wp], total correctness, and [wlp].
    - [Bitmap]: [common/bitmap.hpp], [Bits] and [AtomicBits].
    - [Types]: ids, limits, errors, [config.hpp], [common/timing.hpp].
    - [Layout]: the line types and [Geometry]'s placement of the sections.
    - [Region]: the region as a map of lines, and its format.
    - [World]: the peer's DRAM state ([local_peer_state.hpp],
      [local_domain_view.cpp]), the environment ([Env]: clock, wall clock, random
      draws, the other peers' steps before each access) and the line accesses of
      [util/coherency.hpp].
    - [Threads]: the workers and the poll thread of one peer, interleaving at
      every access to the pin word, the belief and the truth record.
    - [Words]: [common/ordered.hpp] and [util/endian.hpp]; [Caches]: the
      instructions of [util/coherency.hpp], run by hosts with store buffers and
      caches that nothing keeps coherent.
    - [Runtime]: [local_peer_state.cpp] and the demand lines.
    - [Ownership]: [ownership_transfer.cpp].
    - [Policies]: the four successor policies behind the class [SuccessorPolicy].
    - [StakeClaim], [Recovery], [Lifecycle], [Admission], [Peer]:
      [stake_claim.hpp], [liveness_heartbeat.cpp], [recovery_authority.cpp] and
      [recovery.cpp], [lifecycle.cpp], [admission/claim.cpp], [peer.cpp].
    - [Wire]: the daemon's messages, names and lookup ([shared/protocol]).
    - [Area]: the shared area and the robust mutex, written once against the
      class [AreaWorld] of the processes that map it.
    - [Manager]: [domain/manager.cpp] and [local_domain.hpp], against the class
      [RegionSession] of what libcme promises.
    - [Client]: [client/session.cpp] and [guard.cpp]; [Bringup]: the area's file
      and mappings ([shared/posix], [served_area.cpp], [area.cpp]).
    - [Workers]: the dispatcher and the pool ([serve]), as a machine of their
      shared accesses.
    - [Control]: the control loop ([control]).
    - [Session]: the public facade, [shared.cpp]; [Cohort]: the per-process tier
      over it, [serializers/shared_session.cpp], as a machine of its threads'
      shared accesses; [Participation]: joining and leaving around those tiers,
      over any [RegionSession].
    - [Memory]: uris and the three backends of [src/src/memory], over an
      operating system that may answer anything; the state is the calls made.
    - [Inspector]: [observe/inspector.cpp] and the profile lines; [Monitor]:
      [tools/cme_top.cpp], one frame over the observer, the deltas between
      frames, the command line and the loop.
    - [Holds]: [observe/failpoint.cpp], the armed boundary and the held ones, as
      a machine of the words the threads share.
    - [Provision]: format, open and observe composed, and [tools/cme_format.cpp]
      against the class [Libcme] of what it asks of the library.
    - [KvConfig]: the configuration files, [common/kv_config.hpp]; [Settings]:
      the settings of the daemon and of a requester, accounts, and the command
      line ([common/args.hpp]).
    - [Startup]: [daemon/main.cpp] up to the run, the lock file, the armed
      boundaries and the stop signal.
    - [Posix]: [shared/posix/socket.cpp], [seqpacket_socket.cpp] and
      [shared/util/futex.cpp].
    - [Loop]: the control loop on its epoll and event descriptors, and the
      service notification.
    - [Bindings]: [pybind11/cme.cpp], the box of a turn and [with] around it.
    - [Telemetry]: counters, snapshots and spans of a peer and of a daemon.

    The theorems are in [Token], [Transfer] (the token protocol as rely and
    guarantee relations, the contract of a policy as the class [TokenPolicy]),
    [PolicySafety], [Pins] (the pin counts across every handler, the class
    [PinPolicy]), [Exclusion], [Quiet], [Registry], [Departure], [Tournament],
    [Demand], [Failover], [Leases], [Turn], [Facade] (the instance of
    [RegionSession] the library is), [Reconcile], [Requester], [Dispatch],
    [Handshake], [Returns] (the handlers of the control loop come back) and
    [KvParse]; those of the last group of files above stand beside what they
    are about.

    ** What they show

    - The token: a peer between lock and unlock is the recorded holder at every
      step, whatever the other peers do under the protocol ([Exclusion]); the
      transfer, the wait and the belief on every branch; the shadow group.  The
      threads of a peer keep it too: no hand-off passes a section, and no two
      peers are in sections of one domain at once ([Threads]).
    - Below the token: on hosts whose caches are not coherent, a reader that sees
      a hand-off sees what was set before it, which a load fence in place of the
      full one would lose ([Caches]); fields round trip across byte orders
      ([Words]).
    - The registry and membership: create, delete and join under the control
      lock, by the fields of the record and the bits of the live set, with names
      that resolve ([Registry]); a peer that leaves while the others work strands
      no domain ([Departure]).
    - Region and layout: sections tile the region, a format establishes its
      well-formedness and its last store, the header, is the commit point; bitmaps
      refine finite sets ([Layout], [Region], [Bitmap]).
    - Peterson: exclusion at a node as a machine and the code against it, climb
      paths, all or nothing ([Tournament]).  Demand: the aggregated codec, the
      waiters behind a bit, who is granted ([Demand]).
    - Failure: the detector, one watcher per dead peer, a takeover pass among
      live peers with its claim looked at before every domain, the end of a
      recovery ([Failover]).
    - Leases: the contract of one tick against any word, and exclusion over every
      timed history of the lease word that hosts running the procedure make,
      reclaimed nonces included, as long as they are prompt ([Leases]).
    - The daemon: a section rides a held turn on every interleaving, and
      [serveLock] implements that machine ([Turn]); a refresh reconciles the
      table with the region ([Reconcile]); one worker per domain and what can
      lose a request ([Dispatch]); the order of the handshake ([Handshake]);
      frames round trip, a later build's longer ones too ([Wire]).
    - The library as the daemon and an application see it: a lock by handle owns
      the incarnation the handle named, and while the daemon serves a slot its
      turn is a domain the region gave it ([Facade]); the threads of one process exclude each
      other, their cohorts are bounded, and a quiet process holds nothing
      ([Cohort]); a leave gives the domain back before the session hears of it
      ([Participation]).
    - From a uri to a region: factories leak no descriptor and no mapping on any
      path ([Memory]); what a format made through the operating system's files,
      every later mapping of the uri can bind and observe unless a call is
      refused, and the format tool takes no live region ([Provision],
      [Inspector]); a frame of the monitor shows the region, calls stale exactly
      the peers the detector would, and compares nothing across a gap
      ([Monitor]).
    - A process and its surroundings: configuration text round trips and typed
      reads answer the number written or refuse it ([KvParse]); a daemon runs only on settings it can
      honour and meets its requesters on one path ([Settings]), alone
      ([Startup]); messages arrive whole and no wake is lost ([Posix]); the area
      a daemon serves is one its requesters attach, and no descriptor, mapping
      or session is left behind on any path ([Bringup]); the handlers of the
      control loop return ([Returns]), a stop that is posted ends it, and nothing
      else does short of a failed wait ([Loop]); a Python program
      strands no turn ([Bindings]); a snapshot agrees with the events and a
      report loses no span ([Telemetry]).
    - Where the code does not keep what it means to keep, the theorem says what
      it does instead: a grant published past its requester ([Turn]), a stale
      name in the index and a join counted twice ([Reconcile]), guards that are
      not counted and a failed move that closes a session ([Requester]), a
      repeated offer ([Dispatch]), names with a NUL byte ([Registry]), an
      ownership stranded by a timed-out [tryLock] ([Cohort]), numbers that wrap
      or narrow ([KvParse], [Settings], [Monitor]), a released thread that the
      next hold takes back ([Holds]), a layout an observer keeps past its
      region ([Inspector]), a stop lost between two words ([Startup]), the
      limits of a socket ([Posix]), caller data that goes stale after a flush
      ([Caches]), an area taken at its word for its size ([Bringup]), a nested
      [with] that gives up the outer turn ([Bindings]), a lane kept by its
      first peer ([Telemetry]), and a lease two hosts hold when one slept through
      its own timeout ([Leases]).

    ** Other processes, clocks and fuel

    Before each access to shared memory the environment takes a step.  Theorems
    on exclusion let it be any step the protocol allows (the relations of [Token]
    and the machines of [Tournament], [Turn] and [Dispatch]); theorems on an
    operation's whole effect run it quietly, as under the control lock.  A clock
    is a stream of readings; loops with a deadline take at most [fuel] turns more
    than one, and the theorems ask of the clock only that it reaches the budget
    within that many readings ([clock_advances], [clock_reaches]), so every
    [wp] proves that the loop ends.  Loops whose bound is in the code take that
    bound as their measure.

    ** What is not modelled

    The construction of the components inside [run] of the daemon, each of which
    is modelled by itself; log lines; the pauses and clocks of the processor;
    the calls of the Python bindings that only forward; the examples and tests.

    Where the model is coarser than the machine: [Threads] and the machines of
    shared accesses are sequentially consistent, and weaker orders are
    represented where two words are read across each other ([Startup], [Posix])
    and below the line accesses ([Caches]).  In the other files one thread of a
    peer runs at a time and its mutexes are not represented.  A line of the
    region moves whole, so the builds that copy it byte by byte, where a reader
    can see half a line, are not covered. *)

From stdpp Require Export base tactics numbers list gmap.
From Stdlib Require Export ZArith Lia.

#[global] Open Scope Z_scope.

(** ** Machine words

    Unsigned words are integers of [Z] kept in range by an explicit
    reduction at each arithmetic operation the source performs on them. *)

Definition u32 (value : Z) : Z := value mod 2 ^ 32.
Definition u64 (value : Z) : Z := value mod 2 ^ 64.

(** Conversion of a 64-bit unsigned word to the signed type of that width. *)
Definition s64 (value : Z) : Z :=
  if value mod 2 ^ 64 <? 2 ^ 63 then value mod 2 ^ 64 else value mod 2 ^ 64 - 2 ^ 64.

Definition in_u32 (value : Z) : Prop := 0 <= value < 2 ^ 32.
Definition in_u64 (value : Z) : Prop := 0 <= value < 2 ^ 64.

Lemma u32_range value : in_u32 (u32 value).
Proof. unfold in_u32, u32. apply Z.mod_pos_bound. lia. Qed.

Lemma u64_range value : in_u64 (u64 value).
Proof. unfold in_u64, u64. apply Z.mod_pos_bound. lia. Qed.

Lemma u32_small value : in_u32 value -> u32 value = value.
Proof. intros H. unfold u32. apply Z.mod_small, H. Qed.

Lemma u64_small value : in_u64 value -> u64 value = value.
Proof. intros H. unfold u64. apply Z.mod_small, H. Qed.

Lemma s64_small value : 0 <= value < 2 ^ 63 -> s64 value = value.
Proof.
  intros H. unfold s64. rewrite Z.mod_small by lia.
  destruct (Z.ltb_spec value (2 ^ 63)); lia.
Qed.

(** ** Hint databases of the development *)

Create HintDb cme.
Create Rewrite HintDb cme_rw.
#[export] Hint Resolve u32_range u64_range : cme.

(** ** Automation *)

(** Turn the boolean comparisons of the executable definitions into
    propositions, wherever they stand. *)
Ltac zbool :=
  repeat match goal with
  | H : (_ =? _) = true |- _ => apply Z.eqb_eq in H
  | H : (_ =? _) = false |- _ => apply Z.eqb_neq in H
  | H : (_ <? _) = true |- _ => apply Z.ltb_lt in H
  | H : (_ <? _) = false |- _ => apply Z.ltb_ge in H
  | H : (_ <=? _) = true |- _ => apply Z.leb_le in H
  | H : (_ <=? _) = false |- _ => apply Z.leb_gt in H
  | H : (_ && _)%bool = true |- _ => apply andb_prop in H; destruct H
  | H : (_ || _)%bool = false |- _ => apply orb_false_iff in H; destruct H
  | H : negb _ = true |- _ => apply negb_true_iff in H
  | H : negb _ = false |- _ => apply negb_false_iff in H
  end.

(** Case analysis on the scrutinee of an [if] or [match] of the goal. *)
Ltac case_if :=
  match goal with
  | |- context [if ?b then _ else _] => let E := fresh "E" in destruct b eqn:E
  end.

Ltac case_match_hyp H :=
  match type of H with
  | context [if ?b then _ else _] => let E := fresh "E" in destruct b eqn:E
  | context [match ?b with _ => _ end] => let E := fresh "E" in destruct b eqn:E
  end.

(** ** Integers *)

Lemma div_mod_eq_pair (a b n : Z) :
  0 < n -> a / n = b / n -> a mod n = b mod n -> a = b.
Proof.
  intros Hn Hd Hm. rewrite (Z.div_mod a n), (Z.div_mod b n) by lia. congruence.
Qed.

(** Two slots of a table of blocks of [stride] entries coincide only when
    both the block and the offset coincide. *)
Lemma block_index_inj (stride block block' offset offset' : Z) :
  0 <= offset < stride -> 0 <= offset' < stride ->
  block * stride + offset = block' * stride + offset' ->
  block = block' /\ offset = offset'.
Proof. intros H H' Heq. assert (block = block') by nia. nia. Qed.

Lemma ceil_div_bound (n d : Z) : 0 < d -> n <= (n + d - 1) / d * d.
Proof. intros Hd. pose proof (Z.div_mod (n + d - 1) d). pose proof (Z.mod_pos_bound (n + d - 1) d). nia. Qed.

(** ** Ranges of identifiers *)

(** [zrange lo hi] is the half-open range [lo, hi) in increasing order, what a
    range-based [for] over an id range walks. *)
Definition zrange (lo hi : Z) : list Z := seqZ lo (hi - lo).

Lemma elem_of_zrange lo hi x : x ∈ zrange lo hi <-> lo <= x < hi.
Proof. unfold zrange. rewrite elem_of_seqZ. lia. Qed.

Lemma NoDup_zrange lo hi : NoDup (zrange lo hi).
Proof. apply NoDup_seqZ. Qed.

Lemma zrange_nil lo hi : hi <= lo -> zrange lo hi = [].
Proof. intros H. unfold zrange. apply seqZ_nil. lia. Qed.

Lemma zrange_cons lo hi : lo < hi -> zrange lo hi = lo :: zrange (lo + 1) hi.
Proof.
  intros H. unfold zrange. rewrite seqZ_cons by lia. f_equal. f_equal; lia.
Qed.

(** A decidable fact about every id of a range, by evaluation. *)
Lemma zrange_check (P : Z -> bool) lo hi :
  forallb P (zrange lo hi) = true -> forall x, lo <= x < hi -> P x = true.
Proof.
  intros Hall x Hx. rewrite forallb_forall in Hall. apply Hall.
  by rewrite <-list_elem_of_In, elem_of_zrange.
Qed.

(** ** First match in a list *)

(** The loops of the source that return the first id satisfying a test. *)
Definition find_first {A} (P : A -> bool) (l : list A) : option A :=
  List.find P l.

Lemma find_first_Some {A} (P : A -> bool) l x :
  find_first P l = Some x -> x ∈ l /\ P x = true.
Proof. intros H%List.find_some. by rewrite list_elem_of_In. Qed.

Lemma find_first_None {A} (P : A -> bool) l :
  find_first P l = None -> forall x, x ∈ l -> P x = false.
Proof. intros H x Hx%list_elem_of_In. eapply List.find_none in H; eauto. Qed.

(** On an id range the first match is the least one. *)
Lemma find_first_zrange_least (P : Z -> bool) lo hi x :
  find_first P (zrange lo hi) = Some x ->
  lo <= x < hi /\ P x = true /\ forall y, lo <= y < x -> P y = false.
Proof.
  unfold find_first. remember (Z.to_nat (hi - lo)) as n eqn:Hn.
  revert lo Hn; induction n as [|n IH]; intros lo Hn H.
  - rewrite zrange_nil in H by lia. discriminate.
  - rewrite zrange_cons in H by lia. cbn in H. destruct (P lo) eqn:E.
    + injection H as <-. repeat split; [lia|lia|done|lia].
    + apply IH in H as (? & ? & Hleast); [|lia].
      repeat split; [lia|lia|done|]. intros y Hy.
      destruct (decide (y = lo)) as [->|]; [done|]. apply Hleast. lia.
Qed.

Lemma find_first_zrange_None (P : Z -> bool) lo hi :
  find_first P (zrange lo hi) = None -> forall x, lo <= x < hi -> P x = false.
Proof. intros H x Hx. eapply find_first_None; eauto. by apply elem_of_zrange. Qed.

(** ** Total tables

    A table of region lines is memory: reading a slot no write reached
    yields the zero line that [memset] left, which is what the total lookup
    of stdpp does with the [Inhabited] instance of the line type. *)

Lemma tbl_lookup_insert `{Inhabited A} (m : gmap Z A) i j x :
  <[i := x]> m !!! j = if decide (i = j) then x else m !!! j.
Proof.
  case_decide as E; [subst; apply lookup_total_insert_eq | by apply lookup_total_insert_ne].
Qed.

(** A loop that updates one slot per iteration, in iteration order. *)
Lemma tbl_fold_update `{Inhabited A} {I} (key : I -> Z) (upd : I -> A -> A) (l : list I) (m : gmap Z A) k :
  foldl (fun m i => <[key i := upd i (m !!! key i)]> m) m l !!! k
  = foldl (fun a i => if decide (key i = k) then upd i a else a) (m !!! k) l.
Proof.
  revert m; induction l as [|i l IH]; intros m; [done|]. cbn [foldl]. rewrite IH. f_equal.
  rewrite tbl_lookup_insert. case_decide as E; [by rewrite E|done].
Qed.

Lemma fold_update_notin `{Inhabited A} {I} (key : I -> Z) (upd : I -> A -> A) (l : list I) (a : A) k :
  (forall i, i ∈ l -> key i <> k) ->
  foldl (fun a i => if decide (key i = k) then upd i a else a) a l = a.
Proof.
  revert a; induction l as [|i l IH]; intros a Hn; [done|]. cbn [foldl].
  rewrite decide_False by (apply Hn; left). apply IH. intros j Hj. apply Hn. by right.
Qed.

Lemma fold_update_once `{Inhabited A} {I} (key : I -> Z) (upd : I -> A -> A) (l : list I) (a : A) i0 :
  NoDup l -> i0 ∈ l -> (forall i, i ∈ l -> key i = key i0 -> i = i0) ->
  foldl (fun a i => if decide (key i = key i0) then upd i a else a) a l = upd i0 a.
Proof.
  revert a; induction l as [|i l IH]; intros a Hnd Hin Hinj; [by apply not_elem_of_nil in Hin|].
  inversion Hnd as [|? ? Hi Hnd']; subst. cbn [foldl].
  apply elem_of_cons in Hin as [<-|Hin].
  - rewrite decide_True by done. apply fold_update_notin. intros j Hj Heq.
    rewrite (Hinj j) in Hj; [done|by right|done].
  - rewrite decide_False.
    + apply IH; [done|done|]. intros j Hj. apply Hinj. by right.
    + intros Heq. rewrite (Hinj i) in Hi; [done|by left|done].
Qed.

Lemma tbl_fold_insert_once `{Inhabited A} {I} (key : I -> Z) (upd : I -> A -> A) (l : list I) (m : gmap Z A) i0 :
  NoDup l -> i0 ∈ l -> (forall i, i ∈ l -> key i = key i0 -> i = i0) ->
  foldl (fun m i => <[key i := upd i (m !!! key i)]> m) m l !!! key i0 = upd i0 (m !!! key i0).
Proof. intros. rewrite tbl_fold_update. by apply fold_update_once. Qed.

(** Nested loops over two ranges visit their product. *)
Lemma elem_of_list_prod {A B} (l : list A) (l' : list B) x y :
  (x, y) ∈ list_prod l l' <-> x ∈ l /\ y ∈ l'.
Proof. by rewrite !list_elem_of_In, in_prod_iff. Qed.

Lemma NoDup_list_prod {A B} (l : list A) (l' : list B) :
  NoDup l -> NoDup l' -> NoDup (list_prod l l').
Proof.
  intros Hl Hl'. induction Hl as [|x l Hx Hl IH]; cbn; [constructor|].
  apply NoDup_app. split_and!; [|intros [a b] Ha Hb|done].
  - apply NoDup_fmap; [|done]. by intros ? ? [= ->].
  - apply list_elem_of_fmap in Ha as (? & [= -> ->] & _).
    by apply elem_of_list_prod in Hb as [? _].
Qed.

(** ** Bytes *)

(** The little-endian bytes of a word and back. *)
Fixpoint le_bytes (count : nat) (word : Z) : list Z :=
  match count with
  | O => []
  | S count => word mod 256 :: le_bytes count (word / 256)
  end.

Fixpoint le_word (bytes : list Z) : Z :=
  match bytes with
  | [] => 0
  | byte :: rest => byte + 256 * le_word rest
  end.

Lemma le_bytes_length n word : length (le_bytes n word) = n.
Proof. revert word. induction n as [|n IH]; intros word; [done|]. cbn. by rewrite IH. Qed.

Lemma le_word_bytes n word : le_word (le_bytes n word) = word mod 256 ^ Z.of_nat n.
Proof.
  revert word. induction n as [|n IH]; intros word; [by rewrite Z.mod_1_r|].
  cbn [le_bytes le_word]. rewrite IH, Nat2Z.inj_succ, Z.pow_succ_r by lia.
  rewrite Z.rem_mul_r by (apply Z.pow_nonzero || lia; lia). lia.
Qed.

(** ** Counting over a table of threads

    A table that lists where each thread stands; a thread it does not list
    stands at [rest]. *)
Section counting.
Context {A : Type} (counted : A -> bool) (rest : A).
Hypothesis Hrest : counted rest = false.

Definition standing (m : gmap Z A) (thread : Z) : A := default rest (m !! thread).
Definition those (m : gmap Z A) : gmap Z A := filter (fun e => counted e.2 = true) m.

Lemma standing_insert m thread other p :
  standing (<[thread := p]> m) other = if decide (thread = other) then p else standing m other.
Proof. unfold standing. case_decide as Hd; [subst; by rewrite lookup_insert_eq|by rewrite lookup_insert_ne]. Qed.

Lemma those_lookup m thread : counted (standing m thread) = true -> those m !! thread = Some (standing m thread).
Proof.
  unfold standing, those. intros Hc. destruct (m !! thread) as [p|] eqn:Hl; cbn in *; [|congruence].
  by apply map_lookup_filter_Some.
Qed.

(** The number counted after one thread moved. *)
Lemma those_insert m thread p :
  Z.of_nat (size (those (<[thread := p]> m)))
  = Z.of_nat (size (those m)) + (if counted p then 1 else 0) - (if counted (standing m thread) then 1 else 0).
Proof.
  unfold those. rewrite map_filter_insert. cbn [snd]. fold (those m). set (old := counted (standing m thread)).
  assert (those m !! thread = if old then m !! thread else None) as Hf.
  { unfold those, old, standing. rewrite map_lookup_filter. destruct (m !! thread) as [q|]; cbn; [|by rewrite Hrest].
    destruct (counted q); done. }
  assert (old = true -> is_Some (m !! thread)) as Ho.
  { unfold old, standing. destruct (m !! thread); cbn; [eauto|congruence]. }
  assert (size (<[thread := p]> (those m)) = size (those m) + (if old then 0 else 1))%nat as Hi.
  { rewrite map_size_insert, Hf. destruct old; [destruct (Ho eq_refl) as [? ->]|]; cbn; lia. }
  assert (size (delete thread (those m)) = size (those m) - (if old then 1 else 0))%nat as Hd.
  { rewrite map_size_delete, Hf. destruct old; [destruct (Ho eq_refl) as [? ->]; cbn; lia|cbn; lia]. }
  assert (old = true -> size (those m) <> 0%nat) as Hz.
  { intros E Hz. apply map_size_empty_iff in Hz. rewrite E, Hz, lookup_empty in Hf. destruct (Ho E) as [? Hx]. congruence. }
  destruct (counted p) eqn:Hp.
  - rewrite decide_True by done. destruct old; lia.
  - rewrite decide_False by congruence. rewrite map_filter_delete. fold (those m). destruct old; [specialize (Hz eq_refl)|]; lia.
Qed.

Lemma those_pos m thread : counted (standing m thread) = true -> 1 <= Z.of_nat (size (those m)).
Proof.
  intros Hc. apply those_lookup in Hc. destruct (decide (size (those m) = 0)%nat) as [Hz|]; [|lia].
  apply map_size_empty_iff in Hz. by rewrite Hz, lookup_empty in Hc.
Qed.

(** Two threads that are counted are counted twice. *)
Lemma those_two m thread other :
  counted (standing m thread) = true -> counted (standing m other) = true -> thread <> other -> 2 <= Z.of_nat (size (those m)).
Proof.
  intros Ht Ho Hne. pose proof (those_insert m thread rest) as Hs. rewrite Ht, Hrest in Hs.
  pose proof (those_pos (<[thread := rest]> m) other) as Hp. rewrite standing_insert, decide_False in Hp by done.
  specialize (Hp Ho). lia.
Qed.
End counting.

