(* ===== verification/Effect.v ===== *)
(** * Effect: the effects of the handlers

    One shape serves every process of the system: a handler reads an
    environment, threads a state and answers a value.  [None] is a loop that
    used up its turns, so a statement in [wp] proves that the handler returns. *)

From S2P Require Import Prelude.

Definition run (R S A : Type) : Type := R -> S -> option (A * S).

Definition ret {R S A} (a : A) : run R S A := fun _ s => Some (a, s).
Definition bind {R S A B} (m : run R S A) (k : A -> run R S B) : run R S B :=
  fun E s => match m E s with Some (a, s) => k a E s | None => None end.

Declare Scope cme_scope.
Delimit Scope cme_scope with cme.
Notation "'let!' x ':=' m 'in' k" := (bind m (fun x => k))
  (at level 10, x pattern, m at level 100, k at level 200) : cme_scope.
Notation "m ';;;' k" := (bind m (fun _ => k))
  (at level 199, k at level 200, right associativity) : cme_scope.
#[global] Open Scope cme_scope.

Definition outOfFuel {R S A} : run R S A := fun _ _ => None.

Definition when {R S} (b : bool) (m : run R S unit) : run R S unit := if b then m else ret tt.

(** Range-based loops: to the end, and to the first hit. *)
Fixpoint forM {R S A} (l : list A) (body : A -> run R S unit) : run R S unit :=
  match l with
  | [] => ret tt
  | x :: rest => body x ;;; forM rest body
  end.

Fixpoint findM {R S A} (l : list A) (test : A -> run R S bool) : run R S (option A) :=
  match l with
  | [] => ret None
  | x :: rest => let! hit := test x in if hit then ret (Some x) else findM rest test
  end.

(** A loop that accumulates. *)
Fixpoint foldM {R S A C} (l : list A) (acc : C) (body : C -> A -> run R S C) : run R S C :=
  match l with
  | [] => ret acc
  | x :: rest => let! acc := body acc x in foldM rest acc body
  end.

(** ** Total correctness *)

(** [wp m E Q s]: run from [s] under [E], [m] returns and its answer and final
    state satisfy [Q]. *)
Definition wp {R S A} (m : run R S A) (E : R) (Q : A -> S -> Prop) (s : S) : Prop :=
  match m E s with Some (a, s') => Q a s' | None => False end.

Lemma wp_elim {R S A} (m : run R S A) E Q s : wp m E Q s -> exists a s', m E s = Some (a, s') /\ Q a s'.
Proof. unfold wp. destruct (m E s) as [[a s']|]; [eauto|done]. Qed.

(** The answer of a run, for concrete inputs. *)
Definition answer {R S A} (m : run R S A) (E : R) (s : S) : option A :=
  match m E s with Some (a, _) => Some a | None => None end.

Lemma answer_run {R S A} (m : run R S A) E s a s' b : m E s = Some (a, s') -> answer m E s = Some b -> a = b.
Proof. unfold answer. intros ->. congruence. Qed.

Section wp_rules.
Context {R S : Type} (E : R).

Lemma wp_mono {A} (m : run R S A) (Q Q' : A -> S -> Prop) s :
  wp m E Q s -> (forall a s', Q a s' -> Q' a s') -> wp m E Q' s.
Proof. unfold wp. destruct (m E s) as [[a s']|]; auto. Qed.

Lemma wp_ret {A} (a : A) (Q : A -> S -> Prop) s : Q a s -> wp (ret a) E Q s.
Proof. done. Qed.

Lemma wp_bind {A B} (m : run R S A) (k : A -> run R S B) Q s :
  wp m E (fun a s' => wp (k a) E Q s') s -> wp (bind m k) E Q s.
Proof. unfold wp, bind. by destruct (m E s) as [[a s']|]. Qed.

Lemma wp_when b (m : run R S unit) (Q : unit -> S -> Prop) s :
  (b = true -> wp m E Q s) -> (b = false -> Q tt s) -> wp (when b m) E Q s.
Proof. destruct b; cbn; auto. Qed.

(** A loop keeps what each of its turns keeps. *)
Lemma wp_forM {A} (l : list A) (body : A -> run R S unit) (I : S -> Prop) s :
  I s -> (forall x s, x ∈ l -> I s -> wp (body x) E (fun _ => I) s) ->
  wp (forM l body) E (fun _ => I) s.
Proof.
  revert s. induction l as [|x rest IH]; intros s Hs Hb; [done|].
  cbn [forM]. apply wp_bind. eapply wp_mono; [apply Hb; [left|done]|].
  intros ? s' Hs'. apply IH; [done|]. intros y s'' Hy. apply Hb. by right.
Qed.

Lemma wp_foldM {A C} (l : list A) (acc : C) (body : C -> A -> run R S C) (I : C -> S -> Prop) s :
  I acc s -> (forall x acc s, x ∈ l -> I acc s -> wp (body acc x) E I s) ->
  wp (foldM l acc body) E I s.
Proof.
  revert acc s. induction l as [|x rest IH]; intros acc s Hs Hb; [done|].
  cbn [foldM]. apply wp_bind. eapply wp_mono; [apply Hb; [left|done]|].
  intros acc' s' Hs'. apply IH; [done|]. intros y acc'' s'' Hy. apply Hb. by right.
Qed.

(** A search answers its first hit; [I] holds between tests and [H x] records
    what a hit on [x] established. *)
Lemma wp_findM {A} (l : list A) (test : A -> run R S bool) (I : S -> Prop) (H : A -> S -> Prop) s :
  I s -> (forall x s, x ∈ l -> I s -> wp (test x) E (fun hit s' => if hit then H x s' else I s') s) ->
  wp (findM l test) E
    (fun found s' => match found with Some x => x ∈ l /\ H x s' | None => I s' end) s.
Proof.
  revert s. induction l as [|x rest IH]; intros s Hs Hb; [done|].
  cbn [findM]. apply wp_bind. eapply wp_mono; [apply Hb; [left|done]|].
  intros [] s' Hs'; [by split; [left|]|].
  eapply wp_mono; [apply IH; [done|]|].
  - intros y s'' Hy. apply Hb. by right.
  - intros [y|] s'' Hy; [|done]. destruct Hy. split; [by right|done].
Qed.

(** A search that may fail: [N x] records what a miss on [x] established. *)
Lemma wp_findM_miss {A} (l : list A) (test : A -> run R S bool) (I : S -> Prop) (N : A -> Prop) s :
  I s -> (forall x s, x ∈ l -> I s -> wp (test x) E (fun hit s' => I s' /\ (hit = false -> N x)) s) ->
  wp (findM l test) E
    (fun found s' => I s' /\ match found with Some x => x ∈ l | None => Forall N l end) s.
Proof.
  revert s. induction l as [|x rest IH]; intros s Hs Hb; [done|].
  cbn [findM]. apply wp_bind. eapply wp_mono; [apply Hb; [left|done]|].
  intros [] s' [Hs' Hn]; [by split; [|left]|].
  eapply wp_mono; [apply IH; [done|]|].
  - intros y s'' Hy. apply Hb. by right.
  - intros [y|] s'' [? Hy]; (split; [done|]); [by right|constructor; auto].
Qed.
End wp_rules.

(** ** What a run that returns leaves *)

Definition wlp {R S A} (m : run R S A) (E : R) (Q : A -> S -> Prop) (s : S) : Prop :=
  match m E s with Some (a, s') => Q a s' | None => True end.

Section wlp_rules.
Context {R S : Type} (E : R).

Lemma wlp_elim {A} (m : run R S A) Q s a s' : wlp m E Q s -> m E s = Some (a, s') -> Q a s'.
Proof. unfold wlp. by intros H Hm; rewrite Hm in H. Qed.

Lemma wlp_mono {A} (m : run R S A) (Q Q' : A -> S -> Prop) s :
  wlp m E Q s -> (forall a s', Q a s' -> Q' a s') -> wlp m E Q' s.
Proof. unfold wlp. destruct (m E s) as [[a s']|]; auto. Qed.

Lemma wlp_ret {A} (a : A) (Q : A -> S -> Prop) s : Q a s -> wlp (ret a) E Q s.
Proof. done. Qed.

Lemma wlp_bind {A B} (m : run R S A) (k : A -> run R S B) Q s :
  wlp m E (fun a s' => wlp (k a) E Q s') s -> wlp (bind m k) E Q s.
Proof. unfold wlp, bind. by destruct (m E s) as [[a s']|]. Qed.

Lemma wlp_forM {A} (l : list A) (body : A -> run R S unit) (I : S -> Prop) s :
  I s -> (forall x s, x ∈ l -> I s -> wlp (body x) E (fun _ => I) s) -> wlp (forM l body) E (fun _ => I) s.
Proof.
  revert s. induction l as [|x rest IH]; intros s Hs Hb; [done|].
  cbn [forM]. apply wlp_bind. eapply wlp_mono; [apply Hb; [left|done]|].
  intros ? s' Hs'. apply IH; [done|]. intros y s'' Hy. apply Hb. by right.
Qed.

(** A run that returns with [Q] and, if it returns, leaves [Q'] does both. *)
Lemma wp_wlp {A} (m : run R S A) (Q Q' : A -> S -> Prop) s :
  wp m E Q s -> wlp m E Q' s -> wp m E (fun a s' => Q a s' /\ Q' a s') s.
Proof. unfold wp, wlp. by destruct (m E s) as [[a s']|]. Qed.

Lemma wp_to_wlp {A} (m : run R S A) (Q : A -> S -> Prop) s : wp m E Q s -> wlp m E Q s.
Proof. unfold wp, wlp. by destruct (m E s) as [[a s']|]. Qed.
End wlp_rules.
