(* ===== verification/Bitmap.v ===== *)
(** * Bitmap: fixed sets of ids packed into 64-bit words

    Models [common/common/bitmap.hpp]: the value form [Bits] and the
    concurrent form [AtomicBits], whose read-modify-writes are single atomic
    steps on one word.  A set over [bitCount] ids is the list of its words. *)

From Stdlib Require Import Sorted.
From S2P Require Import Prelude.

(** ** Words *)

Definition BitsPerWord : Z := 64.
Definition NoIndex : Z := 2 ^ 32 - 1.

Definition countWords (bitCount : Z) : Z := u32 (bitCount + BitsPerWord - 1) / BitsPerWord.
Definition makeMask (index : Z) : Z := Z.shiftl 1 (index mod BitsPerWord).

(** Complement of a 64-bit word. *)
Definition lnot64 (word : Z) : Z := Z.lxor word (Z.ones 64).

(** [__builtin_ctzll], which is defined on nonzero words only. *)
Fixpoint pos_ctz (p : positive) : Z :=
  match p with
  | xO q => 1 + pos_ctz q
  | _ => 0
  end.

Definition ctz (word : Z) : Z :=
  match word with Zpos p => pos_ctz p | _ => 0 end.

Lemma pos_ctz_nonneg p : 0 <= pos_ctz p.
Proof. induction p; cbn [pos_ctz]; lia. Qed.

Lemma pos_ctz_testbit p : Z.testbit (Zpos p) (pos_ctz p) = true.
Proof.
  induction p as [p IH|p IH|]; cbn [pos_ctz]; [done| |done].
  replace (1 + pos_ctz p) with (Z.succ (pos_ctz p)) by lia.
  rewrite (Pos2Z.inj_xO p), Z.testbit_even_succ by apply pos_ctz_nonneg. done.
Qed.

Lemma pos_ctz_below p i : 0 <= i < pos_ctz p -> Z.testbit (Zpos p) i = false.
Proof.
  revert i; induction p as [p IH|p IH|]; cbn [pos_ctz]; intros i Hi; [lia| |lia].
  rewrite (Pos2Z.inj_xO p). destruct (decide (i = 0)) as [->|]; [apply Z.testbit_even_0|].
  replace i with (Z.succ (i - 1)) by lia. rewrite Z.testbit_even_succ by lia. apply IH. lia.
Qed.

Lemma land_pred_double a : Z.land (2 * a) (2 * a - 1) = 2 * Z.land a (a - 1).
Proof.
  apply Z.bits_inj'. intros n Hn. rewrite Z.land_spec.
  destruct (decide (n = 0)) as [->|].
  - by rewrite !Z.testbit_even_0.
  - replace n with (Z.succ (n - 1)) by lia. rewrite !Z.testbit_even_succ by lia.
    replace (2 * a - 1) with (2 * (a - 1) + 1) by lia.
    rewrite Z.testbit_odd_succ by lia. by rewrite Z.land_spec.
Qed.

(** [word &= word - 1] takes down exactly the lowest set bit. *)
Lemma land_pred_testbit p i :
  0 <= i ->
  Z.testbit (Z.land (Zpos p) (Zpos p - 1)) i
  = Z.testbit (Zpos p) i && negb (i =? pos_ctz p).
Proof.
  revert i; induction p as [p IH|p IH|]; intros i Hi; cbn [pos_ctz].
  - replace (Zpos p~1 - 1) with (2 * Zpos p) by lia.
    rewrite Z.land_spec, (Pos2Z.inj_xI p).
    destruct (Z.eqb_spec i 0) as [->|].
    + by rewrite Z.testbit_even_0, andb_comm, andb_comm.
    + replace i with (Z.succ (i - 1)) by lia.
      rewrite Z.testbit_odd_succ, Z.testbit_even_succ by lia.
      by rewrite andb_diag, andb_true_r.
  - rewrite (Pos2Z.inj_xO p), land_pred_double.
    destruct (decide (i = 0)) as [->|].
    + by rewrite !Z.testbit_even_0.
    + replace i with (Z.succ (i - 1)) by lia. rewrite !Z.testbit_even_succ by lia.
      rewrite IH by lia. f_equal. f_equal.
      destruct (Z.eqb_spec (i - 1) (pos_ctz p)), (Z.eqb_spec (Z.succ (i - 1)) (1 + pos_ctz p)); lia.
  - replace (1 - 1) with 0 by lia. rewrite Z.land_0_r, Z.bits_0.
    destruct (Z.eqb_spec i 0) as [->|]; [done|].
    rewrite andb_true_r. symmetry. apply (Z.bits_above_log2 1); cbn; lia.
Qed.

Lemma pos_ctz_lt_64 p : Zpos p < 2 ^ 64 -> pos_ctz p < 64.
Proof.
  intros Hp. destruct (Z.lt_ge_cases (pos_ctz p) 64) as [|Hge]; [done|].
  pose proof (pos_ctz_testbit p) as Hb.
  rewrite Z.bits_above_log2 in Hb; [done|lia|].
  apply Z.log2_lt_pow2; [lia|]. pose proof (Z.pow_le_mono_r 2 64 (pos_ctz p)). lia.
Qed.

Lemma makeMask_testbit index i :
  0 <= i -> Z.testbit (makeMask index) i = (i =? index mod BitsPerWord).
Proof.
  intros Hi. unfold makeMask. pose proof (Z.mod_pos_bound index BitsPerWord).
  rewrite Z.shiftl_1_l, Z.pow2_bits_eqb by (unfold BitsPerWord in *; lia). apply Z.eqb_sym.
Qed.

Lemma makeMask_range index : in_u64 (makeMask index).
Proof.
  unfold makeMask, in_u64, BitsPerWord. pose proof (Z.mod_pos_bound index 64).
  rewrite Z.shiftl_1_l. split; [lia|].
  apply Z.pow_lt_mono_r; lia.
Qed.

Lemma lnot64_testbit word i :
  0 <= i -> Z.testbit (lnot64 word) i = xorb (Z.testbit word i) (i <? 64).
Proof.
  intros Hi. unfold lnot64. rewrite Z.lxor_spec. f_equal.
  destruct (Z.ltb_spec i 64); [apply Z.ones_spec_low | apply Z.ones_spec_high]; lia.
Qed.

(** A word test against a one-bit mask reads that bit. *)
Lemma land_mask_nonzero word index :
  negb (Z.land word (makeMask index) =? 0) = Z.testbit word (index mod BitsPerWord).
Proof.
  pose proof (Z.mod_pos_bound index BitsPerWord ltac:(done)) as Hm.
  destruct (Z.testbit word (index mod BitsPerWord)) eqn:E.
  - apply negb_true_iff, Z.eqb_neq. intros H0.
    apply (f_equal (fun z => Z.testbit z (index mod BitsPerWord))) in H0.
    rewrite Z.land_spec, makeMask_testbit, Z.eqb_refl, Z.bits_0, E in H0 by lia. done.
  - apply negb_false_iff, Z.eqb_eq. apply Z.bits_inj'. intros n Hn.
    rewrite Z.land_spec, makeMask_testbit, Z.bits_0 by done.
    destruct (Z.eqb_spec n (index mod BitsPerWord)) as [->|]; [by rewrite E|].
    apply andb_false_r.
Qed.

(** ** The value form *)

Module Bits.

(** [words_], indexed by the id's word number. *)
Record t := mk { words_ : list Z }.

#[global] Instance t_eq_dec : EqDecision t.
Proof. solve_decision. Defined.

Definition WordCount (bitCount : Z) : Z := countWords bitCount.

Definition empty (bitCount : Z) : t := mk (replicate (Z.to_nat (WordCount bitCount)) 0).

Definition setWord (b : t) (index value : Z) : t := mk (<[Z.to_nat index := value]> (words_ b)).
Definition getWord (b : t) (index : Z) : Z := default 0 (words_ b !! Z.to_nat index).

Definition set (b : t) (index : Z) : t :=
  setWord b (index / BitsPerWord) (Z.lor (getWord b (index / BitsPerWord)) (makeMask index)).

Definition clear (b : t) (index : Z) : t :=
  setWord b (index / BitsPerWord)
    (Z.land (getWord b (index / BitsPerWord)) (lnot64 (makeMask index))).

Definition has (b : t) (index : Z) : bool :=
  negb (Z.land (getWord b (index / BitsPerWord)) (makeMask index) =? 0).

Definition isEmpty (b : t) : bool := forallb (fun word => word =? 0) (words_ b).

(** [operator&], [operator|=] and [dropAll] work word by word. *)
Definition inter (b other : t) : t := mk (zip_with Z.land (words_ b) (words_ other)).
Definition union (b other : t) : t := mk (zip_with Z.lor (words_ b) (words_ other)).
Definition dropAll (b other : t) : t :=
  mk (zip_with (fun word drop => Z.land word (lnot64 drop)) (words_ b) (words_ other)).

(** The scan of [popLowest] from word number [number] on. *)
Fixpoint popLowest_from (number : Z) (words : list Z) : option (Z * list Z) :=
  match words with
  | [] => None
  | word :: rest =>
      if negb (word =? 0) then
        Some (u32 (number * BitsPerWord + ctz word), Z.land word (word - 1) :: rest)
      else
        match popLowest_from (number + 1) rest with
        | Some (found, rest') => Some (found, word :: rest')
        | None => None
        end
  end.

Definition popLowest (b : t) : Z * t :=
  match popLowest_from 0 (words_ b) with
  | Some (found, words) => (found, mk words)
  | None => (0, b)
  end.

(** [while (!bits.isEmpty()) { found = bits.popLowest(); ... }]: the ids in the
    order the loop takes them. *)
Fixpoint drain (fuel : nat) (b : t) : list Z :=
  match fuel with
  | O => []
  | S fuel => if isEmpty b then [] else let '(found, b') := popLowest b in found :: drain fuel b'
  end.

(** [iterator::nextSet]: the loop steps at most [bitCount] times. *)
Fixpoint nextSet (fuel : nat) (bitCount : Z) (b : t) (from : Z) : Z :=
  match fuel with
  | O => from
  | S fuel => if (from <? bitCount) && negb (has b from) then nextSet fuel bitCount b (from + 1) else from
  end.

(** A range-based [for] over the set: [begin()] to [end()] by [operator++]. *)
Fixpoint iterate_from (fuel : nat) (bitCount : Z) (b : t) (index : Z) : list Z :=
  match fuel with
  | O => []
  | S fuel =>
      if index =? bitCount then []
      else index :: iterate_from fuel bitCount b (nextSet (Z.to_nat bitCount) bitCount b (index + 1))
  end.

Definition iterate (bitCount : Z) (b : t) : list Z :=
  iterate_from (S (Z.to_nat bitCount)) bitCount b (nextSet (Z.to_nat bitCount) bitCount b 0).

(** *** Well-formedness: the right number of 64-bit words, and no id at or
    above [bitCount]. *)
Record wf (bitCount : Z) (b : t) : Prop := {
  wf_len : length (words_ b) = Z.to_nat (WordCount bitCount);
  wf_word : Forall in_u64 (words_ b);
  wf_pad : forall index, bitCount <= index -> has b index = false;
}.

(** *** Lemmas on single words *)

Lemma has_testbit b index :
  has b index = Z.testbit (getWord b (index / BitsPerWord)) (index mod BitsPerWord).
Proof. apply land_mask_nonzero. Qed.

Lemma getWord_setWord b k k' value :
  0 <= k -> 0 <= k' < Z.of_nat (length (words_ b)) ->
  getWord (setWord b k value) k' = if k =? k' then value else getWord b k'.
Proof.
  intros Hk Hk'. unfold getWord, setWord; cbn.
  destruct (Z.eqb_spec k k') as [->|Hne].
  - rewrite list_lookup_insert_eq by lia. done.
  - rewrite list_lookup_insert_ne by lia. done.
Qed.

Lemma getWord_out b k : Z.of_nat (length (words_ b)) <= k -> getWord b k = 0.
Proof.
  intros H. unfold getWord. by rewrite lookup_ge_None_2 by lia.
Qed.

Lemma getWord_range b k : Forall in_u64 (words_ b) -> in_u64 (getWord b k).
Proof.
  intros HF. unfold getWord.
  destruct (words_ b !! Z.to_nat k) eqn:E; cbn.
  - by eapply Forall_lookup_1 in E; eauto.
  - unfold in_u64; lia.
Qed.

Lemma land_range a b : in_u64 a -> in_u64 b -> in_u64 (Z.land a b).
Proof.
  unfold in_u64. intros [Ha Ha'] [Hb Hb']. split; [apply Z.land_nonneg; lia|].
  destruct (decide (Z.land a b = 0)) as [->|]; [lia|].
  apply Z.log2_lt_pow2; [pose proof (proj2 (Z.land_nonneg a b)); lia|].
  pose proof (Z.log2_land a b ltac:(lia) ltac:(lia)).
  assert (Z.log2 a < 64); [|lia].
  destruct (decide (a = 0)) as [->|]; [cbn; lia|]. apply Z.log2_lt_pow2; lia.
Qed.

Lemma lor_range a b : in_u64 a -> in_u64 b -> in_u64 (Z.lor a b).
Proof.
  unfold in_u64. intros [Ha Ha'] [Hb Hb']. split; [apply Z.lor_nonneg; lia|].
  destruct (decide (Z.lor a b = 0)) as [->|]; [lia|].
  apply Z.log2_lt_pow2; [pose proof (proj2 (Z.lor_nonneg a b)); lia|].
  rewrite Z.log2_lor by lia.
  assert (forall c, 0 <= c < 2 ^ 64 -> Z.log2 c < 64) as Hlog.
  { intros c Hc. destruct (decide (c = 0)) as [->|]; [cbn; lia|]. apply Z.log2_lt_pow2; lia. }
  apply Z.max_lub_lt; apply Hlog; lia.
Qed.

Lemma lnot64_range a : in_u64 a -> in_u64 (lnot64 a).
Proof.
  unfold in_u64, lnot64. intros [Ha Ha'].
  assert (0 <= Z.ones 64) as Hones by (vm_compute; discriminate).
  assert (0 <= Z.lxor a (Z.ones 64)) by (apply Z.lxor_nonneg; lia).
  split; [done|]. destruct (decide (Z.lxor a (Z.ones 64) = 0)) as [->|]; [lia|].
  apply Z.log2_lt_pow2; [lia|].
  pose proof (Z.log2_lxor a (Z.ones 64) ltac:(lia) Hones).
  change (Z.log2 (Z.ones 64)) with 63 in *.
  assert (Z.log2 a < 64) by (destruct (decide (a = 0)) as [->|]; [cbn; lia|]; apply Z.log2_lt_pow2; lia).
  lia.
Qed.

(** *** Membership after each operation *)

Lemma div_word_range bitCount index :
  in_u32 (bitCount + BitsPerWord - 1) -> 0 <= index < bitCount ->
  0 <= index / BitsPerWord < WordCount bitCount.
Proof.
  intros Hb Hi. unfold WordCount, countWords. rewrite u32_small by done.
  unfold BitsPerWord in *. split; [apply Z.div_pos; lia|].
  apply Z.div_lt_upper_bound; [lia|].
  pose proof (ceil_div_bound bitCount 64 ltac:(lia)). lia.
Qed.

Lemma has_update b index index' f :
  0 <= index -> 0 <= index' -> index / BitsPerWord < Z.of_nat (length (words_ b)) ->
  has (setWord b (index / BitsPerWord) (f (getWord b (index / BitsPerWord)))) index'
  = if index / BitsPerWord =? index' / BitsPerWord
    then Z.testbit (f (getWord b (index' / BitsPerWord))) (index' mod BitsPerWord)
    else has b index'.
Proof.
  intros Hi Hi' Hlen. rewrite !has_testbit.
  pose proof (Z.div_pos index BitsPerWord Hi ltac:(done)).
  pose proof (Z.div_pos index' BitsPerWord Hi' ltac:(done)).
  destruct (Z.lt_ge_cases (index' / BitsPerWord) (Z.of_nat (length (words_ b)))) as [Hin|Hout].
  - rewrite getWord_setWord by lia. destruct (Z.eqb_spec (index / BitsPerWord) (index' / BitsPerWord)) as [->|]; done.
  - destruct (Z.eqb_spec (index / BitsPerWord) (index' / BitsPerWord)); [lia|].
    rewrite !getWord_out; [done|done|]. unfold setWord; cbn. rewrite length_insert. done.
Qed.

Lemma same_word_same_id index index' :
  index / BitsPerWord = index' / BitsPerWord ->
  (index' mod BitsPerWord =? index mod BitsPerWord) = (index' =? index).
Proof.
  intros Hd. destruct (Z.eqb_spec index' index) as [->|Hne]; [apply Z.eqb_refl|].
  apply Z.eqb_neq. intros Hm. apply Hne. by apply (div_mod_eq_pair _ _ BitsPerWord).
Qed.

Section membership.
Context (b : t) (index index' : Z).
Hypothesis (Hi : 0 <= index) (Hi' : 0 <= index').
Hypothesis Hlen : index / BitsPerWord < Z.of_nat (length (words_ b)).

Lemma has_set : has (set b index) index' = (index' =? index) || has b index'.
Proof.
  unfold set. rewrite (has_update b index index' (fun w => Z.lor w (makeMask index))) by done.
  destruct (Z.eqb_spec (index / BitsPerWord) (index' / BitsPerWord)) as [He|Hne].
  - rewrite Z.lor_spec, <-has_testbit, makeMask_testbit, same_word_same_id by
      (done || (apply Z.mod_pos_bound; done)). apply orb_comm.
  - destruct (Z.eqb_spec index' index) as [->|]; done.
Qed.

Lemma has_clear : has (clear b index) index' = negb (index' =? index) && has b index'.
Proof.
  unfold clear. rewrite (has_update b index index' (fun w => Z.land w (lnot64 (makeMask index)))) by done.
  pose proof (Z.mod_pos_bound index' BitsPerWord ltac:(done)) as Hm.
  destruct (Z.eqb_spec (index / BitsPerWord) (index' / BitsPerWord)) as [He|Hne].
  - rewrite Z.land_spec, <-has_testbit, lnot64_testbit, makeMask_testbit, same_word_same_id by (done || lia).
    replace (index' mod BitsPerWord <? 64) with true by (symmetry; apply Z.ltb_lt; unfold BitsPerWord in *; lia).
    rewrite xorb_true_r. apply andb_comm.
  - destruct (Z.eqb_spec index' index) as [->|]; done.
Qed.
End membership.

Lemma getWord_zip f b other k :
  length (words_ b) = length (words_ other) -> f 0 0 = 0 ->
  getWord (mk (zip_with f (words_ b) (words_ other))) k = f (getWord b k) (getWord other k).
Proof.
  intros Hl Hf. unfold getWord; cbn. rewrite lookup_zip_with.
  destruct (words_ b !! Z.to_nat k) eqn:E1, (words_ other !! Z.to_nat k) eqn:E2; cbn; try done.
  - apply lookup_lt_Some in E1. apply lookup_ge_None in E2. lia.
  - apply lookup_lt_Some in E2. apply lookup_ge_None in E1. lia.
Qed.

Section whole_sets.
Context (b other : t) (index : Z).
Hypothesis Hlen : length (words_ b) = length (words_ other).

Lemma has_inter : has (inter b other) index = has b index && has other index.
Proof. rewrite !has_testbit. unfold inter. rewrite getWord_zip by done. apply Z.land_spec. Qed.

Lemma has_union : has (union b other) index = has b index || has other index.
Proof. rewrite !has_testbit. unfold union. rewrite getWord_zip by done. apply Z.lor_spec. Qed.

Lemma has_dropAll : has (dropAll b other) index = has b index && negb (has other index).
Proof.
  rewrite !has_testbit. unfold dropAll.
  rewrite (getWord_zip (fun word drop => Z.land word (lnot64 drop))) by done.
  pose proof (Z.mod_pos_bound index BitsPerWord ltac:(done)) as Hm.
  rewrite Z.land_spec, lnot64_testbit by lia.
  replace (index mod BitsPerWord <? 64) with true by (symmetry; apply Z.ltb_lt; unfold BitsPerWord in *; lia).
  by rewrite xorb_true_r.
Qed.
End whole_sets.

Lemma getWord_empty bitCount k : getWord (empty bitCount) k = 0.
Proof.
  unfold getWord, empty; cbn. destruct (replicate _ _ !! _) eqn:E; [|done].
  by apply lookup_replicate_1 in E as [-> _].
Qed.

Lemma has_empty bitCount index : has (empty bitCount) index = false.
Proof. by rewrite has_testbit, getWord_empty, Z.bits_0. Qed.

(** Two well-formed sets with the same members are the same words. *)
Lemma bits_ext bitCount b b' :
  wf bitCount b -> wf bitCount b' ->
  (forall index, 0 <= index -> has b index = has b' index) -> b = b'.
Proof.
  intros [Hl Hw _] [Hl' Hw' _] Hext. destruct b as [ws], b' as [ws']; cbn in *. f_equal.
  apply list_eq_same_length with (n := length ws); [lia|done|].
  intros k word word' Hk E E'.
  assert (forall m n, 0 <= m < 2 ^ 64 -> 64 <= n -> Z.testbit m n = false) as Hhigh.
  { intros m n Hm Hn. destruct (decide (m = 0)) as [->|]; [apply Z.bits_0|].
    apply Z.bits_above_log2; [lia|]. assert (Z.log2 m < 64); [apply Z.log2_lt_pow2; lia | lia]. }
  rewrite Forall_lookup in Hw, Hw'. pose proof (Hw _ _ E) as Hr. pose proof (Hw' _ _ E') as Hr'.
  apply Z.bits_inj'. intros n Hn. destruct (Z.lt_ge_cases n 64) as [Hlt|Hge].
  - specialize (Hext (Z.of_nat k * 64 + n) ltac:(lia)). rewrite !has_testbit in Hext.
    unfold getWord, BitsPerWord in Hext. cbn in Hext.
    replace ((Z.of_nat k * 64 + n) / 64) with (Z.of_nat k) in Hext
      by (apply Z.div_unique with n; lia).
    replace ((Z.of_nat k * 64 + n) mod 64) with n in Hext
      by (apply Z.mod_unique with (Z.of_nat k); lia).
    rewrite Nat2Z.id, E, E' in Hext. done.
  - by rewrite !Hhigh.
Qed.

(** *** Popping the lowest id *)

Lemma popLowest_from_spec number words :
  Forall in_u64 words -> 0 <= number ->
  in_u32 ((number + Z.of_nat (length words)) * BitsPerWord) ->
  match popLowest_from number words with
  | Some (found, words') =>
      exists k word,
        words !! k = Some word /\ (forall j word', (j < k)%nat -> words !! j = Some word' -> word' = 0) /\
        word <> 0 /\ found = (number + Z.of_nat k) * BitsPerWord + ctz word /\
        words' = <[k := Z.land word (word - 1)]> words
  | None => Forall (fun word => word = 0) words
  end.
Proof.
  revert number; induction words as [|word words IH]; intros number HF Hnum Hu32; cbn [popLowest_from].
  - done.
  - inversion HF as [|? ? Hw HF']; subst. cbn [length] in Hu32.
    destruct (Z.eqb_spec word 0) as [->|Hne]; cbn [negb].
    + specialize (IH (number + 1) HF' ltac:(lia)).
      destruct (popLowest_from (number + 1) words) as [[found words']|].
      * destruct IH as (k & w & Hk & Hbefore & Hnz & -> & ->).
        { unfold in_u32, BitsPerWord in *. lia. }
        exists (S k), w. split_and!; [done| |done|lia|done].
        intros [|j] word' Hj Hlook; cbn in Hlook; [by injection Hlook|].
        apply (Hbefore j); [lia|done].
      * constructor; [done|]. apply IH. unfold in_u32, BitsPerWord in *. lia.
    + exists O, word. split_and!; [done|intros; lia|done| |done].
      destruct word as [|p|p]; [done| |destruct Hw; lia].
      cbn [ctz]. destruct Hw as [_ Hw]. pose proof (pos_ctz_lt_64 p Hw). pose proof (pos_ctz_nonneg p).
      unfold in_u32, BitsPerWord in *. rewrite u32_small by (unfold in_u32; lia). lia.
Qed.

Lemma isEmpty_spec b : isEmpty b = true <-> Forall (fun word => word = 0) (words_ b).
Proof.
  unfold isEmpty. rewrite forallb_forall, Forall_forall. split; intros H x Hx.
  - apply Z.eqb_eq, H. by apply list_elem_of_In.
  - apply Z.eqb_eq, H. by apply list_elem_of_In.
Qed.

(** What [popLowest] does to a word it finds nonzero. *)
Lemma popLowest_word b k word index :
  words_ b !! k = Some word -> word <> 0 -> in_u64 word -> 0 <= index ->
  has (mk (<[k := Z.land word (word - 1)]> (words_ b))) index
  = has b index && negb (index =? Z.of_nat k * BitsPerWord + ctz word).
Proof.
  intros Hk Hnz Hr Hi. rewrite !has_testbit.
  pose proof (Z.mod_pos_bound index BitsPerWord ltac:(done)) as Hm.
  pose proof (Z.div_mod index BitsPerWord ltac:(done)) as Hdm.
  pose proof (Z.div_pos index BitsPerWord Hi ltac:(done)) as Hdp.
  destruct word as [|p|p]; [done| |destruct Hr; lia]. cbn [ctz].
  pose proof (pos_ctz_nonneg p). pose proof (pos_ctz_lt_64 p ltac:(destruct Hr; lia)).
  unfold getWord; cbn [words_]. destruct (decide (Z.to_nat (index / BitsPerWord) = k)) as [<-|Hne].
  - rewrite list_lookup_insert_eq, Hk by (by apply lookup_lt_Some in Hk). cbn [from_option id].
    rewrite land_pred_testbit by lia. do 2 f_equal. rewrite Z2Nat.id by done.
    unfold BitsPerWord in *.
    destruct (Z.eqb_spec (index mod 64) (pos_ctz p)), (Z.eqb_spec index (index / 64 * 64 + pos_ctz p)); lia.
  - rewrite list_lookup_insert_ne by done.
    replace (index =? Z.of_nat k * BitsPerWord + pos_ctz p) with false; [by rewrite andb_true_r|].
    symmetry. apply Z.eqb_neq. unfold BitsPerWord in *. intros ->. apply Hne.
    replace ((Z.of_nat k * 64 + pos_ctz p) / 64) with (Z.of_nat k); [lia|].
    apply Z.div_unique with (pos_ctz p); lia.
Qed.

Definition fits (bitCount : Z) : Prop := 0 < bitCount /\ in_u32 (bitCount + BitsPerWord).

Lemma fits_words bitCount b :
  fits bitCount -> wf bitCount b -> in_u32 (Z.of_nat (length (words_ b)) * BitsPerWord).
Proof.
  intros [Hpos Hf] [Hl _ _]. rewrite Hl. unfold in_u32, BitsPerWord in *.
  unfold WordCount, countWords. rewrite u32_small by (unfold in_u32, BitsPerWord; lia).
  unfold BitsPerWord. pose proof (Z.div_mod (bitCount + 64 - 1) 64 ltac:(done)).
  pose proof (Z.mod_pos_bound (bitCount + 64 - 1) 64 ltac:(done)). lia.
Qed.

Lemma in_words_len bitCount b index :
  fits bitCount -> wf bitCount b -> 0 <= index < bitCount ->
  index / BitsPerWord < Z.of_nat (length (words_ b)).
Proof.
  intros [Hpos Hf] [Hl _ _] Hi. rewrite Hl.
  pose proof (div_word_range bitCount index ltac:(unfold in_u32, BitsPerWord in *; lia) Hi). lia.
Qed.

(** The specification of [popLowest]: on a nonempty set it answers the least
    member and leaves exactly the others. *)
Lemma popLowest_spec bitCount b :
  fits bitCount -> wf bitCount b -> isEmpty b = false ->
  let '(found, b') := popLowest b in
  has b found = true /\ 0 <= found < bitCount /\
  (forall index, 0 <= index < found -> has b index = false) /\
  (forall index, 0 <= index -> has b' index = has b index && negb (index =? found)).
Proof.
  intros Hfit Hwf Hne. pose proof (fits_words _ _ Hfit Hwf) as Hu. destruct Hwf as [Hl Hw Hpad].
  pose proof (popLowest_from_spec 0 (words_ b) Hw ltac:(lia) ltac:(by rewrite Z.add_0_l)) as Hpop.
  unfold popLowest. destruct (popLowest_from 0 (words_ b)) as [[found words']|] eqn:Epop.
  2:{ apply isEmpty_spec in Hpop. congruence. }
  destruct Hpop as (k & word & Hk & Hbefore & Hnz & -> & ->). rewrite Z.add_0_l.
  pose proof (Forall_lookup_1 _ _ _ _ Hw Hk) as Hr.
  assert (forall index, 0 <= index -> has (mk (<[k:=Z.land word (word - 1)]> (words_ b))) index =
    has b index && negb (index =? Z.of_nat k * BitsPerWord + ctz word)) as Hafter.
  { intros. by apply popLowest_word. }
  destruct word as [|p|p]; [done| |destruct Hr; lia]. cbn [ctz] in *.
  pose proof (pos_ctz_nonneg p) as Hc0. pose proof (pos_ctz_lt_64 p ltac:(destruct Hr; lia)) as Hc1.
  unfold BitsPerWord in *.
  assert (forall n, 0 <= n < 64 -> (Z.of_nat k * 64 + n) / 64 = Z.of_nat k /\ (Z.of_nat k * 64 + n) mod 64 = n) as Hdm.
  { intros n Hn. split; symmetry; [apply Z.div_unique with n | apply Z.mod_unique with (Z.of_nat k)]; lia. }
  assert (has b (Z.of_nat k * 64 + pos_ctz p) = true) as Hhas.
  { rewrite has_testbit. unfold BitsPerWord. destruct (Hdm (pos_ctz p) ltac:(lia)) as [-> ->].
    unfold getWord. rewrite Nat2Z.id, Hk. apply pos_ctz_testbit. }
  split; [done|]. split.
  { split; [lia|]. destruct (Z.lt_ge_cases (Z.of_nat k * 64 + pos_ctz p) bitCount) as [|Hge]; [done|].
    rewrite Hpad in Hhas by done. done. }
  split; [|done].
  intros index Hi. rewrite has_testbit. unfold getWord, BitsPerWord.
  pose proof (Z.div_mod index 64 ltac:(done)). pose proof (Z.mod_pos_bound index 64 ltac:(done)).
  pose proof (Z.div_pos index 64 ltac:(lia) ltac:(done)).
  destruct (decide (index / 64 = Z.of_nat k)) as [Hd|Hd].
  - rewrite Hd, Nat2Z.id, Hk. cbn. apply pos_ctz_below. lia.
  - destruct (words_ b !! Z.to_nat (index / 64)) as [w|] eqn:Ew; cbn; [|by rewrite Z.bits_0].
    rewrite (Hbefore (Z.to_nat (index / 64)) w); [by rewrite Z.bits_0| lia |done].
Qed.

(** *** Well-formedness is preserved *)

Lemma wf_empty bitCount : wf bitCount (empty bitCount).
Proof.
  split.
  - apply length_replicate.
  - apply Forall_replicate. unfold in_u64; lia.
  - intros. apply has_empty.
Qed.

Lemma wf_setWord b k value :
  Forall in_u64 (words_ b) -> in_u64 value -> Forall in_u64 (words_ (setWord b k value)).
Proof. intros. by apply Forall_insert. Qed.

Lemma wf_set bitCount b index :
  fits bitCount -> wf bitCount b -> 0 <= index < bitCount -> wf bitCount (set b index).
Proof.
  intros Hfit Hwf Hi. pose proof (in_words_len _ _ _ Hfit Hwf Hi) as Hlen.
  destruct Hwf as [Hl Hw Hpad]. split.
  - unfold set, setWord; cbn. by rewrite length_insert.
  - apply wf_setWord; [done|]. apply lor_range; [by apply getWord_range | apply makeMask_range].
  - intros i Hge. rewrite has_set, Hpad by (done || lia).
    destruct (Z.eqb_spec i index); [lia|done].
Qed.

Lemma wf_clear bitCount b index :
  fits bitCount -> wf bitCount b -> 0 <= index < bitCount -> wf bitCount (clear b index).
Proof.
  intros Hfit Hwf Hi. pose proof (in_words_len _ _ _ Hfit Hwf Hi) as Hlen.
  destruct Hwf as [Hl Hw Hpad]. split.
  - unfold clear, setWord; cbn. by rewrite length_insert.
  - apply wf_setWord; [done|]. apply land_range; [by apply getWord_range | apply lnot64_range, makeMask_range].
  - intros i Hge. rewrite has_clear, Hpad by (done || lia). apply andb_false_r.
Qed.

Lemma Forall_zip_range f l l' :
  (forall a c, in_u64 a -> in_u64 c -> in_u64 (f a c)) ->
  Forall in_u64 l -> Forall in_u64 l' -> Forall in_u64 (zip_with f l l').
Proof.
  intros Hf Hl. revert l'. induction Hl as [|x l Hx Hl IH]; intros l' Hl'; [constructor|].
  destruct Hl' as [|y l' Hy Hl']; cbn; constructor; auto.
Qed.

Lemma wf_zip bitCount f b other :
  (forall a c, in_u64 a -> in_u64 c -> in_u64 (f a c)) ->
  (forall index, has b index = false -> has (mk (zip_with f (words_ b) (words_ other))) index = false) \/
  (forall index, has b index = false -> has other index = false ->
     has (mk (zip_with f (words_ b) (words_ other))) index = false) ->
  wf bitCount b -> wf bitCount other -> wf bitCount (mk (zip_with f (words_ b) (words_ other))).
Proof.
  intros Hf Hh [Hl Hw Hpad] [Hl' Hw' Hpad']. split; cbn [words_].
  - rewrite length_zip_with, Hl, Hl'. lia.
  - by apply Forall_zip_range.
  - intros i Hi. destruct Hh as [Hh|Hh]; apply Hh; auto.
Qed.

Lemma wf_same_len bitCount b other :
  wf bitCount b -> wf bitCount other -> length (words_ b) = length (words_ other).
Proof. intros [Hl _ _] [Hl' _ _]. by rewrite Hl, Hl'. Qed.

Lemma wf_inter bitCount b other : wf bitCount b -> wf bitCount other -> wf bitCount (inter b other).
Proof.
  intros H H'. apply wf_zip; [apply land_range| |done|done].
  left. intros i Hi. change (has (inter b other) i = false).
  rewrite has_inter by (by eapply wf_same_len). by rewrite Hi.
Qed.

Lemma wf_union bitCount b other : wf bitCount b -> wf bitCount other -> wf bitCount (union b other).
Proof.
  intros H H'. apply wf_zip; [apply lor_range| |done|done].
  right. intros i Hi Hi'. change (has (union b other) i = false).
  rewrite has_union by (by eapply wf_same_len). by rewrite Hi, Hi'.
Qed.

Lemma wf_dropAll bitCount b other : wf bitCount b -> wf bitCount other -> wf bitCount (dropAll b other).
Proof.
  intros H H'. apply wf_zip; [intros; apply land_range; [done|by apply lnot64_range]| |done|done].
  left. intros i Hi. change (has (dropAll b other) i = false).
  rewrite has_dropAll by (by eapply wf_same_len). by rewrite Hi.
Qed.

Lemma wf_popLowest bitCount b :
  fits bitCount -> wf bitCount b -> isEmpty b = false -> wf bitCount (snd (popLowest b)).
Proof.
  intros Hfit Hwf Hne. pose proof (fits_words _ _ Hfit Hwf) as Hu.
  pose proof (popLowest_spec _ _ Hfit Hwf Hne) as Hspec. destruct Hwf as [Hl Hw Hpad].
  pose proof (popLowest_from_spec 0 (words_ b) Hw ltac:(lia) ltac:(by rewrite Z.add_0_l)) as Hpop.
  unfold popLowest in *. destruct (popLowest_from 0 (words_ b)) as [[found words']|]; [|done].
  destruct Hpop as (k & word & Hk & _ & _ & _ & ->). cbn [snd]. split; cbn [words_].
  - by rewrite length_insert.
  - apply Forall_insert; [done|]. pose proof (Forall_lookup_1 _ _ _ _ Hw Hk) as Hr.
    assert (in_u64 (word - 1) \/ word = 0) as [?| ->] by (unfold in_u64 in *; lia).
    + by apply land_range.
    + rewrite Z.land_0_l. unfold in_u64; lia.
  - destruct Hspec as (_ & Hf & _ & Hafter). intros i Hi.
    destruct (Z.lt_ge_cases i 0) as [Hneg|Hpos]; [destruct Hfit; lia|].
    by rewrite Hafter, Hpad by (done || lia).
Qed.

(** *** Iteration *)

Lemma nextSet_spec fuel bitCount b from :
  0 <= from <= bitCount -> (Z.to_nat (bitCount - from) <= fuel)%nat ->
  let next := nextSet fuel bitCount b from in
  from <= next <= bitCount /\
  (forall index, from <= index < next -> has b index = false) /\
  (next < bitCount -> has b next = true).
Proof.
  revert from; induction fuel as [|fuel IH]; intros from Hfrom Hfuel; cbn [nextSet]; cbv zeta.
  - split; [lia|]. split; intros; lia.
  - destruct (Z.ltb_spec from bitCount) as [Hlt|Hge]; cbn [andb].
    + destruct (has b from) eqn:E; cbn [negb].
      * split; [lia|]. split; [intros; lia|done].
      * destruct (IH (from + 1) ltac:(lia) ltac:(lia)) as (? & Hnone & Hhit).
        split; [lia|]. split; [|done]. intros i Hi.
        destruct (decide (i = from)) as [->|]; [done|]. apply Hnone. lia.
    + split; [lia|]. split; intros; lia.
Qed.

Lemma filter_zrange_none (P : Z -> bool) lo hi :
  (forall i, lo <= i < hi -> P i = false) -> List.filter P (zrange lo hi) = [].
Proof.
  remember (Z.to_nat (hi - lo)) as n eqn:Hn. revert lo Hn; induction n as [|n IH]; intros lo Hn H.
  - by rewrite zrange_nil by lia.
  - rewrite zrange_cons by lia. cbn. rewrite H by lia. apply IH; [lia|]. intros; apply H; lia.
Qed.

Lemma zrange_split lo mid hi : lo <= mid <= hi -> zrange lo hi = zrange lo mid ++ zrange mid hi.
Proof.
  intros H. unfold zrange. replace (hi - lo) with ((mid - lo) + (hi - mid)) by lia.
  rewrite seqZ_app by lia. do 2 f_equal. lia.
Qed.

Lemma iterate_from_spec fuel bitCount b from :
  0 <= from <= bitCount -> (Z.to_nat (bitCount - from) < fuel)%nat ->
  iterate_from fuel bitCount b (nextSet (Z.to_nat bitCount) bitCount b from)
  = List.filter (has b) (zrange from bitCount).
Proof.
  revert from; induction fuel as [|fuel IH]; intros from Hfrom Hfuel; [lia|].
  destruct (nextSet_spec (Z.to_nat bitCount) bitCount b from Hfrom ltac:(lia)) as (Hr & Hnone & Hhit).
  set (next := nextSet _ _ _ from) in *. cbn [iterate_from].
  rewrite (zrange_split from next bitCount), List.filter_app, filter_zrange_none by (done || lia).
  destruct (Z.eqb_spec next bitCount) as [->|Hne]; [by rewrite zrange_nil by lia|].
  rewrite zrange_cons by lia. cbn. rewrite Hhit by lia. f_equal. apply IH; lia.
Qed.

(** A range-based [for] visits the members, each once, in increasing order. *)
Lemma iterate_spec bitCount b :
  0 <= bitCount -> iterate bitCount b = List.filter (has b) (zrange 0 bitCount).
Proof. intros H. apply iterate_from_spec; lia. Qed.

Lemma elem_of_iterate bitCount b index :
  0 <= bitCount -> index ∈ iterate bitCount b <-> 0 <= index < bitCount /\ has b index = true.
Proof.
  intros H. rewrite iterate_spec by done. rewrite list_elem_of_In, List.filter_In, <-list_elem_of_In, elem_of_zrange.
  done.
Qed.

(** *** Refinement: the packed words implement a finite set of ids *)

(** The ids the words stand for, bit by bit. *)
Definition to_set (bitCount : Z) (b : t) : gset Z :=
  list_to_set (List.filter (fun id => Z.testbit (default 0 (words_ b !! Z.to_nat (id / 64))) (id mod 64)) (zrange 0 bitCount)).

Lemma elem_of_to_set bitCount b index :
  0 <= bitCount -> index ∈ to_set bitCount b <-> 0 <= index < bitCount /\ has b index = true.
Proof.
  intros H. unfold to_set. rewrite elem_of_list_to_set, list_elem_of_In, List.filter_In, <-list_elem_of_In, elem_of_zrange.
  by rewrite has_testbit.
Qed.

(** Ascending and without repeats. *)
Lemma zrange_sorted lo hi : StronglySorted Z.lt (zrange lo hi).
Proof.
  remember (Z.to_nat (hi - lo)) as n eqn:Hn. revert lo Hn. induction n as [|n IH]; intros lo Hn.
  - rewrite zrange_nil by lia. constructor.
  - rewrite zrange_cons by lia. constructor; [apply IH; lia|]. apply Forall_forall. intros x Hx%elem_of_zrange. lia.
Qed.

Lemma filter_sorted (P : Z -> bool) l : StronglySorted Z.lt l -> StronglySorted Z.lt (List.filter P l).
Proof.
  induction 1 as [|x l _ IH Hx]; cbn; [constructor|]. destruct (P x); [|done]. constructor; [done|].
  rewrite Forall_forall in *. intros y Hy. apply list_elem_of_In, List.filter_In in Hy as [Hy _]. by apply Hx, list_elem_of_In.
Qed.

Lemma isEmpty_false_has bitCount b :
  fits bitCount -> wf bitCount b -> isEmpty b = false -> exists index, index ∈ to_set bitCount b.
Proof.
  intros Hfit Hwf Hne. pose proof (popLowest_spec _ _ Hfit Hwf Hne) as Hpop.
  destruct (popLowest b) as [found b']. exists found.
  apply elem_of_to_set; [destruct Hfit; lia|]. destruct Hpop as (? & ? & _). done.
Qed.

Lemma isEmpty_true_has b index : isEmpty b = true -> has b index = false.
Proof.
  intros H%isEmpty_spec. rewrite has_testbit. unfold getWord.
  destruct (words_ b !! _) eqn:E; cbn; [|apply Z.bits_0].
  rewrite (Forall_lookup_1 _ _ _ _ H E). apply Z.bits_0.
Qed.

Lemma to_set_isEmpty bitCount b :
  fits bitCount -> wf bitCount b -> isEmpty b = true <-> to_set bitCount b = ∅.
Proof.
  intros Hfit Hwf. assert (0 <= bitCount) by (destruct Hfit; lia). split.
  - intros He. apply set_eq. intros i. rewrite elem_of_to_set by done.
    rewrite (isEmpty_true_has b i He). set_solver.
  - intros Hs. destruct (isEmpty b) eqn:E; [done|].
    destruct (isEmpty_false_has _ _ Hfit Hwf E). set_solver.
Qed.

(** Draining a set takes its members, each once, in increasing order. *)
Lemma drain_from bitCount fuel b lo :
  fits bitCount -> wf bitCount b -> 0 <= lo <= bitCount -> bitCount - lo <= Z.of_nat fuel ->
  (forall index, 0 <= index < lo -> has b index = false) ->
  drain fuel b = List.filter (has b) (zrange lo bitCount).
Proof.
  intros Hfit. revert b lo. induction fuel as [|fuel IH]; intros b lo Hwf Hlo Hf Hlow; cbn [drain].
  { by rewrite zrange_nil by lia. }
  destruct (isEmpty b) eqn:He.
  { rewrite filter_zrange_none; [done|]. intros. by apply isEmpty_true_has. }
  pose proof (popLowest_spec _ _ Hfit Hwf He) as Hpop. pose proof (wf_popLowest _ _ Hfit Hwf He) as Hwf'.
  destruct (popLowest b) as [found b']. destruct Hpop as (Hhas & Hr & Hmin & Hpop). cbn [snd] in Hwf'.
  assert (lo <= found) as Hge.
  { destruct (Z.le_gt_cases lo found); [done|]. rewrite Hlow in Hhas by lia. done. }
  rewrite (zrange_split lo found bitCount) by lia. rewrite List.filter_app, filter_zrange_none by (intros; apply Hmin; lia).
  rewrite (zrange_cons found) by lia. cbn. rewrite Hhas. f_equal.
  rewrite (IH b' (found + 1)); [|done|lia|lia|].
  - apply List.filter_ext_in. intros i Hi%list_elem_of_In%elem_of_zrange. rewrite Hpop by lia.
    rewrite (proj2 (Z.eqb_neq i found)) by lia. by rewrite andb_true_r.
  - intros i Hi. rewrite Hpop by lia. destruct (Z.eqb_spec i found); [by rewrite andb_false_r|].
    rewrite Hmin by lia. done.
Qed.

Lemma drain_spec bitCount b :
  fits bitCount -> wf bitCount b ->
  drain (Z.to_nat bitCount) b = List.filter (has b) (zrange 0 bitCount).
Proof.
  intros Hfit Hwf. apply drain_from; [done|done|destruct Hfit; lia|destruct Hfit; lia|]. intros. lia.
Qed.

(** One-word sets: what a 64-id bitmap is. *)
Lemma wf_one_word word : in_u64 word -> wf 64 (mk [word]).
Proof.
  intros Hr. split; [done|by apply Forall_singleton|].
  intros index Hi. rewrite has_testbit, getWord_out; [apply Z.bits_0|].
  cbn. unfold BitsPerWord. apply Z.div_le_lower_bound; lia.
Qed.

Lemma fits_64 : fits 64.
Proof. unfold fits, in_u32, BitsPerWord. lia. Qed.

(** C12: the packed-word bitmap refines a finite set of ids.  On a well-formed
    set, every operation of the class (default construction, [set], [clear],
    [has], [isEmpty], intersection, union and difference) computes the
    corresponding operation on the set of ids whose bits stand in the words.  The
    iterator and the loop that pops to exhaustion both list exactly that set,
    each id once, in ascending order; and [popLowest] of a set that is not empty
    answers its least id and leaves the others. *)
Theorem bits_refines_set (bitCount : Z) (b other : t) (index : Z) :
  fits bitCount -> wf bitCount b -> wf bitCount other -> 0 <= index < bitCount ->
  to_set bitCount (empty bitCount) = ∅ /\
  to_set bitCount (set b index) = {[index]} ∪ to_set bitCount b /\
  to_set bitCount (clear b index) = to_set bitCount b ∖ {[index]} /\
  has b index = bool_decide (index ∈ to_set bitCount b) /\
  isEmpty b = bool_decide (to_set bitCount b = ∅) /\
  to_set bitCount (inter b other) = to_set bitCount b ∩ to_set bitCount other /\
  to_set bitCount (union b other) = to_set bitCount b ∪ to_set bitCount other /\
  to_set bitCount (dropAll b other) = to_set bitCount b ∖ to_set bitCount other /\
  (StronglySorted Z.lt (iterate bitCount b) /\ forall id, id ∈ iterate bitCount b <-> id ∈ to_set bitCount b) /\
  drain (Z.to_nat bitCount) b = iterate bitCount b /\
  (to_set bitCount b <> ∅ ->
    (popLowest b).1 ∈ to_set bitCount b /\ (forall id, id ∈ to_set bitCount b -> (popLowest b).1 <= id) /\
    to_set bitCount (popLowest b).2 = to_set bitCount b ∖ {[(popLowest b).1]}).
Proof.
  intros Hfit Hwf Hwf' Hi. pose proof (in_words_len _ _ _ Hfit Hwf Hi) as Hlen.
  pose proof (wf_same_len _ _ _ Hwf Hwf') as Hsame.
  assert (Hb : 0 <= bitCount) by (destruct Hfit; lia).
  split_and!.
  - apply set_eq. intros i. rewrite elem_of_to_set, has_empty by done. set_solver.
  - apply set_eq. intros i. rewrite elem_of_union, elem_of_singleton, !elem_of_to_set by done.
    split; [intros [Hr Hh]; rewrite has_set in Hh by lia; apply orb_prop in Hh as [?%Z.eqb_eq|]; auto|].
    intros [->|[Hr Hh]]; (split; [done|]); rewrite has_set by lia; [by rewrite Z.eqb_refl|by rewrite Hh, orb_true_r].
  - apply set_eq. intros i. rewrite elem_of_difference, elem_of_singleton, !elem_of_to_set by done.
    split.
    + intros [Hr Hh]. rewrite has_clear in Hh by lia. zbool. done.
    + intros [[Hr Hh] Hne]. split; [done|]. rewrite has_clear by lia. rewrite Hh.
      by rewrite (proj2 (Z.eqb_neq i index) Hne).
  - symmetry. destruct (has b index) eqn:E; [apply bool_decide_eq_true_2 | apply bool_decide_eq_false_2];
      rewrite elem_of_to_set by done; [done|]. intros [_ ?]; congruence.
  - symmetry. destruct (isEmpty b) eqn:E; [apply bool_decide_eq_true_2 | apply bool_decide_eq_false_2].
    + by apply to_set_isEmpty.
    + intros H%to_set_isEmpty; [congruence|done|done].
  - apply set_eq. intros i. rewrite elem_of_intersection, !elem_of_to_set, has_inter, andb_true_iff by done. tauto.
  - apply set_eq. intros i. rewrite elem_of_union, !elem_of_to_set, has_union, orb_true_iff by done. tauto.
  - apply set_eq. intros i. rewrite elem_of_difference, !elem_of_to_set, has_dropAll, andb_true_iff, negb_true_iff by done.
    destruct (has other i); intuition congruence.
  - rewrite iterate_spec by done. apply filter_sorted, zrange_sorted.
  - intros id. by rewrite elem_of_iterate, elem_of_to_set.
  - by rewrite drain_spec, iterate_spec.
  - intros Hne. assert (isEmpty b = false) as He by (destruct (isEmpty b) eqn:He; [by destruct Hne; apply to_set_isEmpty|done]).
    pose proof (popLowest_spec bitCount b Hfit Hwf He) as Hpop. destruct (popLowest b) as [found b']. cbn [fst snd].
    destruct Hpop as (Hf & Hr & Hleast & Hrest). split_and!.
    + by apply elem_of_to_set.
    + intros id [Hid Hh]%elem_of_to_set; [|done]. destruct (Z.le_gt_cases found id); [done|]. rewrite Hleast in Hh by lia. done.
    + apply set_eq. intros id. rewrite elem_of_difference, elem_of_singleton, !elem_of_to_set by done. split.
      * intros [Hid Hh]. rewrite Hrest in Hh by lia. zbool. done.
      * intros [[Hid Hh] Hne']. split; [done|]. rewrite Hrest, Hh by lia. by rewrite (proj2 (Z.eqb_neq id found) Hne').
Qed.

(** On the ids 0 and 2: 7 joins, and the least of them is popped. *)
Lemma bits_refines_set_witness :
  to_set 64 (set (mk [5]) 7) = {[7]} ∪ to_set 64 (mk [5]) /\ popLowest (mk [5]) = (0, mk [4]) /\
  to_set 64 (mk [4]) = to_set 64 (mk [5]) ∖ {[0]}.
Proof.
  destruct (bits_refines_set 64 (mk [5]) (mk [6]) 7 fits_64 (wf_one_word 5 ltac:(unfold in_u64; lia))
    (wf_one_word 6 ltac:(unfold in_u64; lia)) ltac:(lia)) as (_ & Hs & _ & _ & _ & _ & _ & _ & _ & _ & Hpop).
  split; [exact Hs|]. split; [vm_compute; reflexivity|]. apply Hpop. vm_compute. discriminate.
Defined.

End Bits.

#[export] Hint Resolve Bits.wf_empty Bits.wf_set Bits.wf_clear Bits.wf_inter Bits.wf_union
  Bits.wf_dropAll Bits.wf_popLowest Bits.fits_64 : cme.
#[export] Hint Rewrite Bits.has_empty : cme_rw.

(** ** The concurrent form

    A read-modify-write of one word is one atomic step.  The daemon's sets hold
    64 ids, so each operation here is one step on the whole set, but for
    [takeLowest], which looks and then takes. *)
Module AtomicBits.
Import Bits.

Definition claim (b : t) (index : Z) : bool * t := (negb (has b index), set b index).
Definition release (b : t) (index : Z) : bool * t := (has b index, clear b index).

(** One look of [takeLowest]: the lowest id standing. *)
Definition lowest (b : t) : option Z := if isEmpty b then None else Some (popLowest b).1.

Definition takeSnapshot (b : t) : t := b.
Definition takeAll (bitCount : Z) (b : t) : t * t := (b, empty bitCount).
Definition dropAll (b taking : t) : t := Bits.dropAll b taking.

Lemma lowest_Some b index : Bits.wf 64 b -> lowest b = Some index -> has b index = true /\ 0 <= index < 64.
Proof.
  intros Hwf. unfold lowest. destruct (isEmpty b) eqn:He; [done|]. intros [= <-].
  pose proof (popLowest_spec 64 b Bits.fits_64 Hwf He) as H. destruct (popLowest b). cbn. tauto.
Qed.

(** Membership after the updates of a 64-id set. *)
Lemma has_set64 b index index' :
  wf 64 b -> 0 <= index < 64 -> 0 <= index' -> has (set b index) index' = (index' =? index) || has b index'.
Proof. intros Hwf Hi Hi'. apply has_set; [lia|lia|]. eapply in_words_len; [apply fits_64|done|done]. Qed.

Lemma has_clear64 b index index' :
  wf 64 b -> 0 <= index < 64 -> 0 <= index' -> has (clear b index) index' = negb (index' =? index) && has b index'.
Proof. intros Hwf Hi Hi'. apply has_clear; [lia|lia|]. eapply in_words_len; [apply fits_64|done|done]. Qed.

Lemma has_dropAll64 b taking index :
  wf 64 b -> wf 64 taking -> has (Bits.dropAll b taking) index = has b index && negb (has taking index).
Proof. intros Hb Ht. apply has_dropAll. by eapply wf_same_len. Qed.
End AtomicBits.
