(* ===== verification/Types.v ===== *)
(** * Types: identifiers, limits, tunable constants and clocks

    Models [include/cme/limits.hpp], [src/core/types.hpp],
    [src/core/domain_bitmap.hpp], [src/config.hpp] and
    [common/common/timing.hpp].  Durations and instants are nanosecond counts. *)

From S2P Require Import Prelude Bitmap.

(** ** Limits *)

Definition MaxPeers : Z := 64.
Definition MaxDomains : Z := 64.
Definition MaxDomainNameLen : Z := 16.
Definition CacheLineBytes : Z := 64.

(** ** Identifiers *)

(** [PeerId] and [DomainId] are 32-bit unsigned words. *)
Definition NoPeer : Z := 2 ^ 32 - 1.
Definition isNoPeer (peerId : Z) : bool := peerId =? NoPeer.
Definition NoDomain : Z := 2 ^ 32 - 1.
Definition isNoDomain (domainId : Z) : bool := domainId =? NoDomain.
Definition ControlDomainId : Z := 0.
Definition isControlDomain (domainId : Z) : bool := domainId =? ControlDomainId.

Definition isValidDomainCount (count : Z) : bool := (0 <? count) && (count <=? MaxDomains).
Definition isValidPeerCount (count : Z) : bool := (0 <? count) && (count <=? MaxPeers).

(** [DomainBitmap] is [Bits<MaxDomains>]: one word. *)
Definition DomainWordCount : Z := Bits.WordCount MaxDomains.
Definition DomainBitmap_empty : Bits.t := Bits.empty MaxDomains.

(** The id a range-based [for] over [IdRange(begin, end)] yields. *)
Definition IdRange (begin_ end_ : Z) : list Z := zrange begin_ end_.

(** [IdRing(start, bound)]: steps 1 to [bound - 1], each yielding
    [(start + step) % bound] in 32-bit arithmetic. *)
Definition IdRing_deref (start bound step : Z) : Z := u32 (start + step) mod bound.
Definition IdRing (start bound : Z) : list Z :=
  map (IdRing_deref start bound) (zrange 1 bound).

(** [OwnershipResult]. *)
Inductive OwnershipResult := Arrived | NotArrived.

#[export] Instance OwnershipResult_eq_dec : EqDecision OwnershipResult.
Proof. solve_decision. Defined.

(** [Strategy] and [CoherencyMode], the public enumerations of [shared.hpp]. *)
Inductive Strategy := Order | Request | RequestAgg | Peterson.
Inductive CoherencyMode := CacheCoherent | Uncached | Flush.

#[export] Instance Strategy_eq_dec : EqDecision Strategy.
Proof. solve_decision. Defined.
#[export] Instance CoherencyMode_eq_dec : EqDecision CoherencyMode.
Proof. solve_decision. Defined.

Definition Strategy_to_u32 (strategy : Strategy) : Z :=
  match strategy with Order => 0 | Request => 1 | RequestAgg => 2 | Peterson => 3 end.

(** [makeSuccessorPolicy]: which policy a stored kind builds; a value that is
    no enumerator builds none. *)
Definition makeSuccessorPolicy (kind : Z) : option Strategy :=
  match kind with
  | 0 => Some Order | 1 => Some Request | 2 => Some RequestAgg | 3 => Some Peterson
  | _ => None
  end.

(** The exception types of [include/cme/errors.hpp]. *)
Inductive Error :=
| FormatError | InvalidArgumentError | BackendError
| RegionInvalidError | RegionNotFormattedError
| JoinError | NoFreeSlotError
| UnknownDomainError | DomainExistsError | DomainLimitError
| NotParticipatingError | DomainBusyError | LockTimeoutError.

#[export] Instance Error_eq_dec : EqDecision Error.
Proof. solve_decision. Defined.

(** ** Handles *)

(** [DomainHandle_t] of [shared.hpp]: a slot and the incarnation it carried. *)
Module DomainHandle_t.
Record t := mk { id : Z; incarnation : Z }.
End DomainHandle_t.
Notation handle := DomainHandle_t.t.

(** ** Clocks *)

Module timing.

Definition Nanos (count : Z) : Z := count.
Definition Micros (count : Z) : Z := count * 1000.
Definition Millis (count : Z) : Z := count * 1000000.
Definition Secs (count : Z) : Z := count * 1000000000.

(** The two-field kernel shapes: whole seconds truncated toward zero, and the
    remainder of the subtraction in the finer unit. *)
Definition toTimespec (span : Z) : Z * Z :=
  let seconds := Z.quot span (Secs 1) in
  (seconds, span - Secs seconds).

Definition toTimeval (span : Z) : Z * Z :=
  let seconds := Z.quot span (Secs 1) in
  (seconds, Z.quot (span - Secs seconds) (Micros 1)).

(** [WallStamp], a wall-clock instant another node stamped. *)
Module WallStamp.
Definition isUnset (nanos : Z) : bool := nanos =? 0.

Definition ageAt (nanos nowNanos : Z) : option Z :=
  if nowNanos <=? nanos then None else Some (s64 (nowNanos - nanos)).

Definition aheadAt (nanos nowNanos : Z) : option Z :=
  if nanos <=? nowNanos then None else Some (s64 (nanos - nowNanos)).
End WallStamp.

(** [wallAfter]: the stamp for an instant [ahead] of [stamped]. *)
Definition wallAfter (stamped ahead : Z) : Z :=
  if ahead <=? 0 then stamped else u64 (stamped + ahead).

(** [Deadline]: the instant its budget ends. *)
Module Deadline.
Record t := mk { ends_ : Z }.

Definition make (now timeout : Z) : t := mk (now + timeout).

(** [remaining<T_Duration>] in a unit of [unit_] nanoseconds. *)
Definition remaining (unit_ : Z) (deadline : t) (now : Z) : option Z :=
  let left := Z.quot (ends_ deadline - now) unit_ in
  if left <=? 0 then None else Some left.

Definition expiredAt (deadline : t) (instant : Z) : bool := ends_ deadline <=? instant.
End Deadline.

(** [Stopwatch]: the instant it was last restarted at. *)
Definition elapsed (began now : Z) : Z := now - began.

(** [PeriodicGate]: the next due instant, starting at the clock's origin. *)
Module PeriodicGate.
Definition isDue (next instant period : Z) : bool * Z :=
  if instant <? next then (false, next) else (true, instant + period).
End PeriodicGate.

End timing.

(** ** Polling waits *)

(** [polling::waitUntil]: look, then the deadline test, then sleep and look
    again.  [wanted n] is what the n-th look answers, [clock 0] the time the
    deadline was built at and [clock (S n)] the time the test after it reads.  [None] is fuel exhausted; otherwise the
    answer and the number of looks taken. *)
Fixpoint waitUntil (fuel : nat) (wanted : nat -> bool) (clock : nat -> Z)
    (waiting : timing.Deadline.t) (look : nat) : option (bool * nat) :=
  match fuel with
  | O => None
  | S fuel =>
      if wanted look then Some (true, S look)
      else if timing.Deadline.expiredAt waiting (clock (S look)) then Some (false, S look)
      else waitUntil fuel wanted clock waiting (S look)
  end.

(** ** Tunable constants *)

Module config.

Module acquire.
Definition Timeout : Z := timing.Secs 1.
Definition SpinWindow : Z := timing.Millis 1.
Definition SpinPausesMin : Z := 1.
Definition SpinPausesMax : Z := 1.
Definition WithdrawSettle : Z := timing.Micros 10.
End acquire.

Module poll_thread.
Definition Interval : Z := timing.Micros 10.
Definition OwnershipCheckInterval : Z := timing.Millis 50.
Definition ScanRefreshInterval : Z := timing.Millis 50.
Definition RoundsPerAcquire : Z := 4.
End poll_thread.

Module membership.
Definition CacheTTL : Z := timing.Micros 5.
Definition LeaveDrainWindow : Z := timing.Millis 1.
End membership.

Module liveness.
Definition DeadWindow : Z := timing.Millis 500.
Definition ClockSkewBound : Z := timing.Millis 50.
Definition DeadWindowEffective : Z := DeadWindow + ClockSkewBound + membership.CacheTTL.
End liveness.

Module stake.
Definition Settle : Z := timing.Millis 5.
Definition Window : Z := timing.Millis 1.
Definition StoreVisibilityLag : Z := timing.Millis 2.
End stake.

Module lease.
Definition Timeout : Z := timing.Millis 200.
Definition PollGap : Z := timing.Millis 2.
Definition AcquireDeadline : Z := timing.Secs 5.
Definition WriterStall : Z := timing.Millis 50.
Definition LateStakeHold : Z := WriterStall + stake.StoreVisibilityLag * 2.
End lease.

Module recovery.
Definition QuietCycles : Z := 100.
Definition SeizeEpochGap : Z := 8.
Definition SweepControlTimeout : Z := timing.Millis 2.
Definition TickStall : Z := timing.Millis 100.
Definition LateStakeHold : Z := TickStall + stake.StoreVisibilityLag * 2.
End recovery.

(** The [static_assert]s of the file. *)
Lemma asserts :
  (poll_thread.OwnershipCheckInterval + poll_thread.ScanRefreshInterval)
    * poll_thread.RoundsPerAcquire <= acquire.Timeout /\
  stake.Window + stake.StoreVisibilityLag * 2 <= stake.Settle /\
  stake.Settle + lease.WriterStall + stake.StoreVisibilityLag < lease.Timeout /\
  lease.LateStakeHold + lease.WriterStall + stake.StoreVisibilityLag < lease.Timeout /\
  membership.LeaveDrainWindow <= recovery.QuietCycles * poll_thread.Interval.
Proof. by vm_compute. Qed.

End config.

(** ** The ring walks every other slot once *)

Lemma elem_of_IdRing start bound peer :
  0 <= start < bound -> bound <= 2 ^ 31 ->
  peer ∈ IdRing start bound <-> 0 <= peer < bound /\ peer <> start.
Proof.
  intros Hs Hb. unfold IdRing. rewrite list_elem_of_fmap. unfold IdRing_deref.
  assert (forall step, 1 <= step < bound -> u32 (start + step) mod bound =
    if start + step <? bound then start + step else start + step - bound) as Hstep.
  { intros step Hr. rewrite u32_small by (unfold in_u32; lia).
    destruct (Z.ltb_spec (start + step) bound).
    - apply Z.mod_small; lia.
    - symmetry. apply Z.mod_unique with 1; lia. }
  split.
  - intros (step & -> & Hr%elem_of_zrange). rewrite Hstep by lia.
    destruct (Z.ltb_spec (start + step) bound); lia.
  - intros [Hp Hne]. destruct (Z.lt_ge_cases start peer).
    + exists (peer - start). rewrite elem_of_zrange. split; [|lia].
      rewrite Hstep by lia. destruct (Z.ltb_spec (start + (peer - start)) bound); lia.
    + exists (peer - start + bound). rewrite elem_of_zrange. split; [|lia].
      rewrite Hstep by lia. destruct (Z.ltb_spec (start + (peer - start + bound)) bound); lia.
Qed.

(** Whatever the bound, a walk from [start] never yields [start]. *)
Lemma IdRing_ne start bound peer :
  in_u32 start -> in_u32 bound -> peer ∈ IdRing start bound -> 0 <= peer < bound /\ peer <> start.
Proof.
  unfold in_u32. intros Hs Hb. unfold IdRing. rewrite list_elem_of_fmap. unfold IdRing_deref.
  intros (step & -> & Hr%elem_of_zrange).
  pose proof (Z.mod_pos_bound (u32 (start + step)) bound ltac:(lia)) as Hm. split; [done|]. intros Heq.
  assert (u32 (start + step) = start + step \/ u32 (start + step) = start + step - 2 ^ 32) as [Hu|Hu].
  { unfold u32. destruct (Z.lt_ge_cases (start + step) (2 ^ 32)).
    - left. apply Z.mod_small. lia.
    - right. symmetry. apply Z.mod_unique with 1; lia. }
  - rewrite Hu in *. pose proof (Z.div_mod (start + step) bound ltac:(lia)) as Hdm.
    rewrite Heq in Hdm. set (q := (start + step) / bound) in *. clearbody q.
    assert (q <= 0 \/ 1 <= q) as [?|?] by lia; nia.
  - pose proof (u32_range (start + step)) as Hv. unfold in_u32 in Hv. rewrite Hu in *.
    rewrite Z.mod_small in Heq; lia.
Qed.

Lemma NoDup_IdRing start bound :
  0 <= start < bound -> bound <= 2 ^ 31 -> NoDup (IdRing start bound).
Proof.
  intros Hs Hb. unfold IdRing. apply NoDup_fmap_2_strong; [|apply NoDup_zrange].
  intros x y Hx%elem_of_zrange Hy%elem_of_zrange. unfold IdRing_deref.
  rewrite !u32_small by (unfold in_u32; lia). intros Heq.
  pose proof (Z.div_mod (start + x) bound). pose proof (Z.div_mod (start + y) bound).
  assert ((start + x) / bound = (start + y) / bound \/
          (start + x) / bound <> (start + y) / bound) as [He|Hne] by lia; nia.
Qed.

(** The ring's order: the walk meets [peer] at clockwise distance
    [(peer - start) mod bound], and yields ids by increasing distance. *)
Lemma IdRing_lookup start bound i :
  0 <= start < bound -> bound <= 2 ^ 31 -> (i < Z.to_nat (bound - 1))%nat ->
  IdRing start bound !! i = Some ((start + 1 + Z.of_nat i) mod bound).
Proof.
  intros Hs Hb Hi. unfold IdRing, zrange. rewrite list_lookup_fmap.
  rewrite lookup_seqZ_lt by lia. cbn. unfold IdRing_deref.
  rewrite u32_small by (unfold in_u32; lia). do 2 f_equal. lia.
Qed.
