(* ===== verification/Layout.v ===== *)
(** * Layout: the on-region records and where they sit

    Models [src/core/layout/geometry.hpp], [geometry.cpp],
    [geometry_profile.hpp], the private layouts of the policies
    ([recovery_authority_layout.hpp], [request_demand_region.hpp],
    [successor_request_agg_layout.hpp], [successor_peterson_layout.hpp]) and
    the area sizing of [successor.cpp].

    A record is one 64-byte line; its reserved bytes carry nothing and are not
    represented.  [endian::Field_t] is the identity on the one byte order the
    library builds for.  The table of a section is memory, so a slot no write
    reached reads as the zero line [memset] left. *)

From S2P Require Import Prelude Bitmap Types.

(** ** Bitmap words embedded in a record *)

(** [loadActiveDomains], [loadParticipatingDomains] and [DemandLine_t::load]:
    copy each on-region word, a 64-bit field, into a fresh bitmap. *)
Definition load_words (words : list Z) : Bits.t :=
  foldl (fun bits word => Bits.setWord bits word (u64 (default 0 (words !! Z.to_nat word))))
    DomainBitmap_empty (IdRange 0 DomainWordCount).

(** The matching stores. *)
Definition store_words (bits : Bits.t) : list Z :=
  map (Bits.getWord bits) (IdRange 0 DomainWordCount).

Lemma load_words_eq words : load_words words = Bits.mk [u64 (default 0 (words !! 0%nat))].
Proof. reflexivity. Qed.

Lemma wf_load_words words : Bits.wf MaxDomains (load_words words).
Proof. rewrite load_words_eq. apply Bits.wf_one_word, u64_range. Qed.

Lemma load_store_words bits : Bits.wf MaxDomains bits -> load_words (store_words bits) = bits.
Proof.
  intros [Hlen Hw _]. rewrite load_words_eq. destruct bits as [words]; cbn [Bits.words_] in *.
  change (Z.to_nat (Bits.WordCount MaxDomains)) with 1%nat in Hlen.
  destruct words as [|word [|? ?]]; try done. apply (Forall_inv (l := [])) in Hw.
  change (store_words (Bits.mk [word])) with [word].
  change (default 0 ([word] !! 0%nat)) with word. by rewrite u64_small.
Qed.

(** ** The core records *)

Module Header_t.
Definition Magic : Z := 0x434D4548.
Definition Version : Z := 1.

Record t := mk {
  magic : Z;
  version : Z;
  strategy : Z;
  numDomains : Z;
  maxPeers : Z;
  aggregatorGroups : Z;
  formatGeneration : Z;
  totalSize : Z;
  activeDomains : list Z;
}.

Definition zero : t := mk 0 0 0 0 0 0 0 0 [0].
#[global] Instance t_inhabited : Inhabited t := populate zero.

Definition isValidMagic (h : t) : bool := magic h =? Magic.
Definition isSupportedVersion (h : t) : bool := version h =? Version.
Definition isFormatted (h : t) : bool := isValidMagic h && isSupportedVersion h.
(** [static_cast<Strategy>]: the enumeration is 8 bits wide. *)
Definition getStrategy (h : t) : Z := strategy h mod 2 ^ 8.
Definition getAggregatorGroups (h : t) : Z := aggregatorGroups h.
Definition loadActiveDomains (h : t) : Bits.t := load_words (activeDomains h).
Definition storeActiveDomains (h : t) (bits : Bits.t) : t :=
  mk (magic h) (version h) (strategy h) (numDomains h) (maxPeers h) (aggregatorGroups h)
     (formatGeneration h) (totalSize h) (store_words bits).
End Header_t.

Module AdmissionControl_t.
Definition Magic : Z := 0x434D4F43.
Record t := mk { magic : Z; nonce : Z }.
Definition zero : t := mk 0 0.
#[global] Instance t_inhabited : Inhabited t := populate zero.
Definition isValidMagic (a : t) : bool := magic a =? Magic.
End AdmissionControl_t.

Module PeerBound_t.
Definition Magic : Z := 0x434D5042.
Record t := mk { magic : Z; peerScanBound : Z }.
Definition zero : t := mk 0 0.
#[global] Instance t_inhabited : Inhabited t := populate zero.
Definition isValidMagic (p : t) : bool := magic p =? Magic.
End PeerBound_t.

Module DomainRecord_t.
Definition Magic : Z := 0x434D4554.
Definition MaxNameLen : Z := MaxDomainNameLen.

Inductive State := Free | Active.
Definition State_to_u32 (state : State) : Z := match state with Free => 0 | Active => 1 end.

(** [name] holds the bytes of the fixed-width field. *)
Record t := mk {
  magic : Z;
  state : Z;
  generation : Z;
  epoch : Z;
  holder : Z;
  name : list Z;
}.

Definition zero : t := mk 0 0 0 0 0 (replicate 16 0).
#[global] Instance t_inhabited : Inhabited t := populate zero.
#[global] Instance t_eq_dec : EqDecision t.
Proof. solve_decision. Defined.

Definition with_magic (v : Z) (r : t) := mk v (state r) (generation r) (epoch r) (holder r) (name r).
Definition setState (v : State) (r : t) :=
  mk (magic r) (State_to_u32 v) (generation r) (epoch r) (holder r) (name r).
Definition with_generation (v : Z) (r : t) := mk (magic r) (state r) v (epoch r) (holder r) (name r).
Definition with_epoch (v : Z) (r : t) := mk (magic r) (state r) (generation r) v (holder r) (name r).
Definition with_holder (v : Z) (r : t) := mk (magic r) (state r) (generation r) (epoch r) v (name r).
Definition with_name (v : list Z) (r : t) := mk (magic r) (state r) (generation r) (epoch r) (holder r) v.

Definition isValidMagic (r : t) : bool := magic r =? Magic.
Definition hasState (r : t) (expected : State) : bool := state r =? State_to_u32 expected.

(** The bytes up to the first NUL, or all of them. *)
Fixpoint until_nul (bytes : list Z) : list Z :=
  match bytes with
  | [] => []
  | byte :: rest => if byte =? 0 then [] else byte :: until_nul rest
  end.

Lemma until_nul_app bytes rest :
  Forall (fun b => b <> 0) bytes -> until_nul (bytes ++ 0 :: rest) = bytes.
Proof.
  induction 1 as [|b bytes Hb _ IH]; [done|]. cbn. rewrite (proj2 (Z.eqb_neq b 0)) by done. by rewrite IH.
Qed.

Definition getName (r : t) : list Z := until_nul (name r).
Definition getHolder (r : t) : Z := holder r.
Definition isHeldBy (r : t) (peer : Z) : bool := getHolder r =? peer.
End DomainRecord_t.

Module Member_t.
Definition Magic : Z := 0x434D454D.

Inductive Status := None_ | Active | Recovering | Leaving.
Definition Status_to_u32 (status : Status) : Z :=
  match status with None_ => 0 | Active => 1 | Recovering => 2 | Leaving => 3 end.

Record t := mk {
  magic : Z;
  status : Z;
  lastSeenNanos : Z;
  participatingDomains : list Z;
}.

Definition zero : t := mk 0 0 0 [0].
#[global] Instance t_inhabited : Inhabited t := populate zero.
#[global] Instance t_eq_dec : EqDecision t.
Proof. solve_decision. Defined.

Definition with_magic (v : Z) (m : t) := mk v (status m) (lastSeenNanos m) (participatingDomains m).
Definition with_lastSeenNanos (v : Z) (m : t) := mk (magic m) (status m) v (participatingDomains m).

Definition isValidMagic (m : t) : bool := magic m =? Magic.
Definition hasStatus (m : t) (expected : Status) : bool := status m =? Status_to_u32 expected.
Definition isRecovering (m : t) : bool := hasStatus m Recovering.
Definition setStatus (value : Status) (m : t) : t :=
  mk (magic m) (Status_to_u32 value) (lastSeenNanos m) (participatingDomains m).
Definition loadParticipatingDomains (m : t) : Bits.t := load_words (participatingDomains m).
Definition storeParticipatingDomains (bits : Bits.t) (m : t) : t :=
  mk (magic m) (status m) (lastSeenNanos m) (store_words bits).
End Member_t.

(** ** Policy-private records *)

Module RecoveryClaim_t.
Definition Magic : Z := 0x434D4552.
Record t := mk { magic : Z; recoveryAuthority : Z }.
Definition zero : t := mk 0 0.
#[global] Instance t_inhabited : Inhabited t := populate zero.
Definition isValidMagic (c : t) : bool := magic c =? Magic.
Definition isAuthoredBy (c : t) (peer : Z) : bool := recoveryAuthority c =? peer.
End RecoveryClaim_t.

(** A demand line carries no magic: a zero line reads as no demand. *)
Module DemandLine_t.
Record t := mk { pending : list Z }.
Definition zero : t := mk [0].
#[global] Instance t_inhabited : Inhabited t := populate zero.
Definition load (line : t) : Bits.t := load_words (pending line).
Definition store (bits : Bits.t) : t := mk (store_words bits).
End DemandLine_t.

Module AggregatorRecord_t.
Definition Magic : Z := 0x43414747.
Record t := mk { magic : Z; aggregatorPeerId : Z }.
Definition zero : t := mk 0 0.
#[global] Instance t_inhabited : Inhabited t := populate zero.
Definition isValidMagic (r : t) : bool := magic r =? Magic.
End AggregatorRecord_t.

Module AggregatedRequest_t.
Record t := mk { packedBitmaps : list Z }.
Definition zero : t := mk (replicate 64 0).
#[global] Instance t_inhabited : Inhabited t := populate zero.
End AggregatedRequest_t.

(** A tournament node is three lines: one interest line per role, one turn line. *)
Module PetersonNode_t.
Inductive Role := Peer0 | Peer1.
Definition Role_to_u32 (role : Role) : Z := match role with Peer0 => 0 | Peer1 => 1 end.
Definition other (role : Role) : Role := match role with Peer0 => Peer1 | Peer1 => Peer0 end.
#[global] Instance Role_eq_dec : EqDecision Role.
Proof. solve_decision. Defined.

Record t := mk { owner0 : Z; owner1 : Z; turn : Z }.
Definition zero : t := mk 0 0 0.
#[global] Instance t_inhabited : Inhabited t := populate zero.

Definition getPeerLine (node : t) (role : Role) : Z :=
  match role with Peer0 => owner0 node | Peer1 => owner1 node end.
Definition setPeerLine (role : Role) (owner : Z) (node : t) : t :=
  match role with Peer0 => mk owner (owner1 node) (turn node) | Peer1 => mk (owner0 node) owner (turn node) end.
Definition setFairness (v : Z) (node : t) : t := mk (owner0 node) (owner1 node) v.
End PetersonNode_t.

(** ** Sizing *)

Definition sizeof_line : Z := CacheLineBytes.
Definition sizeof_PetersonNode : Z := 3 * CacheLineBytes.

Definition ceilDiv (numerator denominator : Z) : Z := u32 (numerator + denominator - 1) / denominator.

Definition ShadowGroupSize : Z := 1.
Definition getGroupCount (peerCount : Z) : Z := u32 (peerCount + ShadowGroupSize - 1) / ShadowGroupSize.
Definition getGroupIndex (peerIndex : Z) : Z := peerIndex / ShadowGroupSize.
Definition getRecordsPerDomain (peerCount : Z) : Z := u32 (getGroupCount peerCount + 1).

Definition getRecoveryAuthorityAreaSize (peerCount : Z) : Z := u64 (peerCount * sizeof_line).
Definition getRegionBytes (peerCount : Z) : Z := u64 (peerCount * sizeof_line).
Definition getProfileAreaSize (ProfileEnabled : bool) (peerCount : Z) : Z :=
  if ProfileEnabled then u64 (peerCount * sizeof_line) else 0.

Module RequestAggLayout.
Definition getBitmapBytes (domainCount : Z) : Z := ceilDiv domainCount 8.

Definition getMembersPerSlot (domainCount : Z) : Z :=
  let bitmapBytes := getBitmapBytes domainCount in
  let perSlot := if bitmapBytes =? 0 then 0 else 64 / bitmapBytes in
  if perSlot =? 0 then 1 else perSlot.

Definition getGroupCount (aggregatorGroups domainCount peerCount : Z) : Z :=
  let minGroups := ceilDiv peerCount (getMembersPerSlot domainCount) in
  if aggregatorGroups <? minGroups then minGroups else aggregatorGroups.

Definition getAreaBytes (domainCount peerCount aggregatorGroups : Z) : Z :=
  let groups := getGroupCount aggregatorGroups domainCount peerCount in
  u64 (getRegionBytes peerCount + groups * (sizeof_line + sizeof_line)).
End RequestAggLayout.

Module peterson_tree.
(** [while (rounded < count) rounded <<= 1], in 32 bits: 32 doublings reach any
    count the loop can reach. *)
Fixpoint roundUpPow2_from (fuel : nat) (rounded count : Z) : Z :=
  match fuel with
  | O => rounded
  | S fuel => if rounded <? count then roundUpPow2_from fuel (u32 (Z.shiftl rounded 1)) count else rounded
  end.
Definition roundUpPow2 (count : Z) : Z := roundUpPow2_from 32 1 count.

Definition getNodesPerDomain (maxNumPeers : Z) : Z := u32 (roundUpPow2 maxNumPeers - 1).
Definition getTournamentTreeBytes (maxNumPeers domains : Z) : Z :=
  u64 (sizeof_PetersonNode * getNodesPerDomain maxNumPeers * domains).
End peterson_tree.

(** [getRegionAreaSize] of each policy, reached through [getSuccessorAreaSize]. *)
Definition getSuccessorAreaSize (strategy domainCount peerCount aggregatorGroups : Z) : Z :=
  match makeSuccessorPolicy strategy with
  | Some Order => 0
  | Some Request => getRegionBytes peerCount
  | Some RequestAgg => RequestAggLayout.getAreaBytes domainCount peerCount aggregatorGroups
  | Some Peterson => peterson_tree.getTournamentTreeBytes peerCount domainCount
  | None => 0
  end.

Definition computeAreaSize (ProfileEnabled : bool)
    (domainCount peerCount strategy aggregatorGroups : Z) : Z :=
  u64 (sizeof_line + sizeof_line + sizeof_line +
       domainCount * getRecordsPerDomain peerCount * sizeof_line +
       peerCount * sizeof_line +
       getRecoveryAuthorityAreaSize peerCount +
       getProfileAreaSize ProfileEnabled peerCount +
       getSuccessorAreaSize strategy domainCount peerCount aggregatorGroups).

(** ** The view of a mapped region *)

Module Geometry.

(** A null section pointer is [None]; [memory_] is its base and mapped size. *)
Record t := mk {
  memoryBase : option Z;
  mappedSize : Z;
  domainCount_ : Z;
  peerCount_ : Z;
  strategy_ : Z;
  admissionControlBase_ : option Z;
  peerBoundBase_ : option Z;
  domainRecordBase_ : option Z;
  membershipBase_ : option Z;
  recoveryAuthorityAreaBase_ : option Z;
  successorAreaBase_ : option Z;
  profileBase_ : option Z;
  areaSize_ : Z;
  bound_ : bool;
}.

(** The open-mode constructor: nothing bound yet. *)
Definition unbound (memoryBase : option Z) (mappedSize : Z) : t :=
  mk memoryBase mappedSize 0 0 (Strategy_to_u32 Request)
     None None None None None None None 0 false.

Section with_profile.
Context (ProfileEnabled : bool).

Definition buildLayout (g : t) (domainCount peerCount strategy aggregatorGroups : Z) : t :=
  let at_ cursor := option_map (fun base => base + cursor) (memoryBase g) in
  let cursor := sizeof_line in
  let admissionControlBase := at_ cursor in
  let cursor := u64 (cursor + sizeof_line) in
  let peerBoundBase := at_ cursor in
  let cursor := u64 (cursor + sizeof_line) in
  let domainRecordBase := at_ cursor in
  let cursor := u64 (cursor + domainCount * getRecordsPerDomain peerCount * sizeof_line) in
  let membershipBase := at_ cursor in
  let cursor := u64 (cursor + peerCount * sizeof_line) in
  let recoveryAuthorityAreaBase := at_ cursor in
  let cursor := u64 (cursor + getRecoveryAuthorityAreaSize peerCount) in
  let succBytes := getSuccessorAreaSize strategy domainCount peerCount aggregatorGroups in
  let successorAreaBase := if negb (succBytes =? 0) then at_ cursor else None in
  let cursor := u64 (cursor + succBytes) in
  let profileBase := if ProfileEnabled then at_ cursor else None in
  let cursor := u64 (cursor + getProfileAreaSize ProfileEnabled peerCount) in
  mk (memoryBase g) (mappedSize g) domainCount peerCount strategy
     admissionControlBase peerBoundBase domainRecordBase membershipBase
     recoveryAuthorityAreaBase successorAreaBase profileBase cursor true.

Definition clearLayout (g : t) : t :=
  mk (memoryBase g) (mappedSize g) 0 0 (strategy_ g)
     None None None None None None None 0 false.

Definition aligned (addr : Z) : bool := Z.land addr (CacheLineBytes - 1) =? 0.

(** A null pointer converts to address zero. *)
Definition isLayoutAligned (g : t) : bool :=
  aligned (default 0 (memoryBase g)) &&
  forallb (fun sectionBase => match sectionBase with None => true | Some addr => aligned addr end)
    [admissionControlBase_ g; peerBoundBase_ g; domainRecordBase_ g; membershipBase_ g;
     recoveryAuthorityAreaBase_ g; successorAreaBase_ g; profileBase_ g] &&
  (Z.land (areaSize_ g) (CacheLineBytes - 1) =? 0).

(** [isHeaderReady] on one look at the header line. *)
Definition isHeaderReady (g : t) (look : Header_t.t) : bool :=
  match memoryBase g with None => false | Some _ => Header_t.isFormatted look end.

(** The creator's constructor, after [Memory::create] mapped [mappedSize]. *)
Definition construct (memoryBase : option Z) (mappedSize domainCount peerCount strategy aggregatorGroups : Z) : t + Error :=
  if negb (isValidDomainCount domainCount) || negb (isValidPeerCount peerCount) then inr FormatError
  else if mappedSize <? computeAreaSize ProfileEnabled domainCount peerCount strategy aggregatorGroups then inr FormatError
  else
    let g := buildLayout (unbound memoryBase mappedSize) domainCount peerCount strategy aggregatorGroups in
    if negb (isLayoutAligned g) then inr FormatError else inl g.

(** [bindBlocking].  [looks n] is the header line as the n-th read of it finds
    it: the ready test takes one look, and the fields are then read again. *)
Definition bindBlocking (fuel : nat) (g : t) (looks : nat -> Header_t.t) (clock : nat -> Z)
    (timeout : Z) : option (t + Error) :=
  if bound_ g then Some (inl g)
  else match memoryBase g with
  | None => Some (inr RegionInvalidError)
  | Some _ =>
      match waitUntil fuel (fun n => isHeaderReady g (looks n)) clock
              (timing.Deadline.make (clock 0%nat) timeout) 0 with
      | None => None
      | Some (false, _) => Some (inr RegionNotFormattedError)
      | Some (true, looked) =>
          let header := looks looked in
          let domainCount := Header_t.numDomains header in
          let peerCount := Header_t.maxPeers header in
          let strategy := Header_t.getStrategy header in
          let aggregatorGroups := Header_t.getAggregatorGroups header in
          if negb (isValidDomainCount domainCount) || negb (isValidPeerCount peerCount) ||
             (peerCount <? aggregatorGroups)
          then Some (inr RegionInvalidError)
          else if mappedSize g <? computeAreaSize ProfileEnabled domainCount peerCount strategy aggregatorGroups
          then Some (inr RegionInvalidError)
          else
            let g := buildLayout g domainCount peerCount strategy aggregatorGroups in
            if negb (isLayoutAligned g) then Some (inr RegionInvalidError) else Some (inl g)
      end
  end.

(** [rebind], the Inspector's re-validation: a look at the header, then the
    fields read again. *)
Definition rebind (g : t) (look header : Header_t.t) : bool * t :=
  if negb (isHeaderReady g look) then (false, clearLayout g)
  else
    let domainCount := Header_t.numDomains header in
    let peerCount := Header_t.maxPeers header in
    let strategy := Header_t.getStrategy header in
    let aggregatorGroups := Header_t.getAggregatorGroups header in
    if negb (isValidDomainCount domainCount) || negb (isValidPeerCount peerCount) ||
       (peerCount <? aggregatorGroups)
    then (false, clearLayout g)
    else if mappedSize g <? computeAreaSize ProfileEnabled domainCount peerCount strategy aggregatorGroups
    then (false, clearLayout g)
    else
      let g :=
        if negb (bound_ g) || negb (domainCount_ g =? domainCount) || negb (peerCount_ g =? peerCount) ||
           negb (strategy_ g =? strategy)
        then buildLayout g domainCount peerCount strategy aggregatorGroups else g in
      if negb (isLayoutAligned g) then (false, clearLayout g) else (true, g).

End with_profile.

(** Slot addresses: [getSlot] strides by the line size from a section base. *)
Definition getSlot (sectionBase : option Z) (index : Z) : option Z :=
  option_map (fun base => base + index * sizeof_line) sectionBase.

(** Flat index of a domain's truth copy, and of the shadow [peerIndex]'s group polls. *)
Definition recordIndex (peerCount domainIndex : Z) : Z :=
  u64 (domainIndex * getRecordsPerDomain peerCount).
Definition shadowIndex (peerCount domainIndex peerIndex : Z) : Z :=
  u64 (domainIndex * getRecordsPerDomain peerCount + 1 + getGroupIndex peerIndex).

Definition getDomainRecord (g : t) (domainIndex : Z) : option Z :=
  getSlot (domainRecordBase_ g) (recordIndex (peerCount_ g) domainIndex).
Definition getDomainRecordShadow (g : t) (domainIndex peerIndex : Z) : option Z :=
  getSlot (domainRecordBase_ g) (shadowIndex (peerCount_ g) domainIndex peerIndex).
Definition getMemberSlot (g : t) (peerIndex : Z) : option Z := getSlot (membershipBase_ g) peerIndex.
Definition getProfileSlot (g : t) (peerIndex : Z) : option Z := getSlot (profileBase_ g) peerIndex.

End Geometry.

(** ** The layout is sound for every admitted dimension *)

Record valid_dims (domainCount peerCount aggregatorGroups : Z) : Prop := {
  vd_domains : isValidDomainCount domainCount = true;
  vd_peers : isValidPeerCount peerCount = true;
  vd_groups : 0 <= aggregatorGroups <= peerCount;
}.

Lemma valid_dims_range dc pc ag :
  valid_dims dc pc ag -> 1 <= dc <= 64 /\ 1 <= pc <= 64 /\ 0 <= ag <= 64.
Proof.
  intros [Hd Hp Ha]. unfold isValidDomainCount, isValidPeerCount in *. zbool.
  change MaxDomains with 64 in *. change MaxPeers with 64 in *. lia.
Qed.

Lemma getRecordsPerDomain_eq pc : 0 <= pc <= 64 -> getRecordsPerDomain pc = pc + 1.
Proof.
  intros H. unfold getRecordsPerDomain, getGroupCount, ShadowGroupSize.
  rewrite Z.div_1_r. rewrite (u32_small (pc + 1 - 1)) by (unfold in_u32; lia).
  rewrite u32_small by (unfold in_u32; lia). lia.
Qed.

Lemma recordIndex_eq pc d :
  0 <= pc <= 64 -> 0 <= d < 2 ^ 32 -> Geometry.recordIndex pc d = d * (pc + 1).
Proof.
  intros Hp Hd. unfold Geometry.recordIndex. rewrite getRecordsPerDomain_eq by done.
  apply u64_small. unfold in_u64. nia.
Qed.

Lemma shadowIndex_eq pc d p :
  0 <= pc <= 64 -> 0 <= d < 2 ^ 32 -> 0 <= p < 2 ^ 32 ->
  Geometry.shadowIndex pc d p = d * (pc + 1) + 1 + p.
Proof.
  intros Hp Hd Hq. unfold Geometry.shadowIndex, getGroupIndex, ShadowGroupSize.
  rewrite getRecordsPerDomain_eq, Z.div_1_r by done. apply u64_small. unfold in_u64. nia.
Qed.

(** No two of a region's record copies share a line. *)
Lemma record_slots_distinct pc d d' p p' :
  0 <= pc <= 64 -> 0 <= d < 2 ^ 32 -> 0 <= d' < 2 ^ 32 -> 0 <= p < pc -> 0 <= p' < pc ->
  (Geometry.recordIndex pc d = Geometry.recordIndex pc d' -> d = d') /\
  Geometry.recordIndex pc d <> Geometry.shadowIndex pc d' p /\
  (Geometry.shadowIndex pc d p = Geometry.shadowIndex pc d' p' -> d = d' /\ p = p').
Proof.
  intros Hpc Hd Hd' Hp Hp'.
  rewrite !recordIndex_eq, !shadowIndex_eq by lia. split_and!.
  - intros H. apply (block_index_inj (pc + 1) d d' 0 0); lia.
  - intros H. destruct (block_index_inj (pc + 1) d d' 0 (1 + p)); lia.
  - intros H. destruct (block_index_inj (pc + 1) d d' (1 + p) (1 + p')); lia.
Qed.

Lemma roundUpPow2_small count :
  0 <= count <= 64 ->
  count <= peterson_tree.roundUpPow2 count <= 64 /\ 1 <= peterson_tree.roundUpPow2 count.
Proof.
  intros Hc. pose proof (zrange_check (fun count => let r := peterson_tree.roundUpPow2 count in
    (count <=? r) && (r <=? 64) && (1 <=? r)) 0 65 eq_refl count ltac:(lia)) as H.
  cbv beta zeta in H. zbool. lia.
Qed.

(** A slot packs at least one member and never more than its 64 bytes hold. *)
Lemma members_per_slot_bound dc :
  1 <= dc <= 64 ->
  1 <= RequestAggLayout.getMembersPerSlot dc /\
  RequestAggLayout.getMembersPerSlot dc * RequestAggLayout.getBitmapBytes dc <= 64 /\
  1 <= RequestAggLayout.getBitmapBytes dc <= 8.
Proof.
  intros Hc. pose proof (zrange_check (fun dc =>
    let m := RequestAggLayout.getMembersPerSlot dc in let w := RequestAggLayout.getBitmapBytes dc in
    (1 <=? m) && (m * w <=? 64) && (1 <=? w) && (w <=? 8)) 1 65 eq_refl dc ltac:(lia)) as H.
  cbv beta zeta in H. zbool. lia.
Qed.

Lemma agg_group_count_bound dc pc ag :
  valid_dims dc pc ag -> 1 <= RequestAggLayout.getGroupCount ag dc pc <= 64.
Proof.
  intros Hv. apply valid_dims_range in Hv as (Hd & Hp & Ha).
  destruct (members_per_slot_bound dc Hd) as (Hm & Hm' & Hw).
  unfold RequestAggLayout.getGroupCount, ceilDiv.
  set (m := RequestAggLayout.getMembersPerSlot dc) in *.
  rewrite u32_small by (unfold in_u32; nia).
  assert (1 <= (pc + m - 1) / m <= 64) as Hc.
  { split; [apply Z.div_le_lower_bound; lia|]. apply Z.div_le_upper_bound; nia. }
  destruct (Z.ltb_spec ag ((pc + m - 1) / m)); lia.
Qed.

Lemma succ_area_bound dc pc ag strategy :
  valid_dims dc pc ag ->
  0 <= getSuccessorAreaSize strategy dc pc ag <= 2 ^ 20 /\
  getSuccessorAreaSize strategy dc pc ag mod 64 = 0.
Proof.
  intros Hv. pose proof (agg_group_count_bound _ _ _ Hv) as Hg.
  apply valid_dims_range in Hv as (Hd & Hp & Ha).
  assert (forall k, 0 <= k <= 2 ^ 14 -> u64 (k * 64) = k * 64 /\ 0 <= k * 64 <= 2 ^ 20 /\ (k * 64) mod 64 = 0) as Hk.
  { intros k Hk. rewrite u64_small by (unfold in_u64; lia). split; [done|]. split; [lia|]. apply Z.mod_mul. done. }
  unfold getSuccessorAreaSize. destruct (makeSuccessorPolicy strategy) as [[| | |]|]; try (split; [lia|done]).
  - unfold getRegionBytes, sizeof_line, CacheLineBytes. destruct (Hk pc ltac:(lia)) as (-> & ? & ?). done.
  - unfold RequestAggLayout.getAreaBytes, getRegionBytes, sizeof_line, CacheLineBytes.
    destruct (Hk pc ltac:(lia)) as (-> & ? & ?).
    set (G := RequestAggLayout.getGroupCount ag dc pc) in *.
    replace (pc * 64 + G * (64 + 64)) with ((pc + 2 * G) * 64) by lia.
    destruct (Hk (pc + 2 * G) ltac:(lia)) as (-> & ? & ?). done.
  - unfold peterson_tree.getTournamentTreeBytes, peterson_tree.getNodesPerDomain, sizeof_PetersonNode, CacheLineBytes.
    destruct (roundUpPow2_small pc ltac:(lia)) as [? ?]. set (R := peterson_tree.roundUpPow2 pc) in *.
    rewrite (u32_small (R - 1)) by (unfold in_u32; lia).
    replace (3 * 64 * (R - 1) * dc) with ((3 * (R - 1) * dc) * 64) by lia.
    destruct (Hk (3 * (R - 1) * dc) ltac:(nia)) as (-> & ? & ?). done.
Qed.

(** The sections in address order, each with its byte length. *)
Definition sections (ProfileEnabled : bool) (g : Geometry.t) (aggregatorGroups : Z) : list (option Z * Z) :=
  [(Geometry.admissionControlBase_ g, sizeof_line);
   (Geometry.peerBoundBase_ g, sizeof_line);
   (Geometry.domainRecordBase_ g,
      Geometry.domainCount_ g * getRecordsPerDomain (Geometry.peerCount_ g) * sizeof_line);
   (Geometry.membershipBase_ g, Geometry.peerCount_ g * sizeof_line);
   (Geometry.recoveryAuthorityAreaBase_ g, Geometry.peerCount_ g * sizeof_line);
   (Geometry.successorAreaBase_ g,
      getSuccessorAreaSize (Geometry.strategy_ g) (Geometry.domainCount_ g) (Geometry.peerCount_ g) aggregatorGroups);
   (Geometry.profileBase_ g, getProfileAreaSize ProfileEnabled (Geometry.peerCount_ g))].

(** Each present section starts where the one before it ended; an absent one
    has no bytes.  Answers the address after the last. *)
Fixpoint tiled (cursor : Z) (secs : list (option Z * Z)) : option Z :=
  match secs with
  | [] => Some cursor
  | (Some base, len) :: rest => if base =? cursor then tiled (cursor + len) rest else None
  | (None, len) :: rest => if len =? 0 then tiled cursor rest else None
  end.

Lemma aligned_spec addr : Geometry.aligned addr = (addr mod 64 =? 0).
Proof.
  unfold Geometry.aligned. change (CacheLineBytes - 1) with (Z.ones 6).
  rewrite Z.land_ones by lia. done.
Qed.

Section layout_sound.
Context (ProfileEnabled : bool) (base mapped dc pc strategy ag : Z).
Hypothesis Hv : valid_dims dc pc ag.

Definition built := Geometry.buildLayout ProfileEnabled (Geometry.unbound (Some base) mapped) dc pc strategy ag.
Definition succBytes := getSuccessorAreaSize strategy dc pc ag.
Definition profBytes := getProfileAreaSize ProfileEnabled pc.

Lemma profile_area_eq : profBytes = if ProfileEnabled then pc * 64 else 0.
Proof.
  pose proof (valid_dims_range _ _ _ Hv) as (Hd & Hp & Ha).
  unfold profBytes, getProfileAreaSize, sizeof_line, CacheLineBytes. destruct ProfileEnabled; [|done].
  apply u64_small. unfold in_u64. lia.
Qed.

(** The cursor never wraps, so the layout is what its increments add up to. *)
Lemma buildLayout_eq :
  built = Geometry.mk (Some base) mapped dc pc strategy
    (Some (base + 64)) (Some (base + 128)) (Some (base + 192))
    (Some (base + (192 + dc * (pc + 1) * 64)))
    (Some (base + (192 + dc * (pc + 1) * 64 + pc * 64)))
    (if negb (succBytes =? 0) then Some (base + (192 + dc * (pc + 1) * 64 + pc * 64 + pc * 64)) else None)
    (if ProfileEnabled then Some (base + (192 + dc * (pc + 1) * 64 + pc * 64 + pc * 64 + succBytes)) else None)
    (192 + dc * (pc + 1) * 64 + pc * 64 + pc * 64 + succBytes + profBytes) true.
Proof.
  pose proof (valid_dims_range _ _ _ Hv) as (Hd & Hp & Ha).
  pose proof (succ_area_bound dc pc ag strategy Hv) as [Hs _]. fold succBytes in Hs.
  pose proof profile_area_eq as HP.
  assert (0 <= profBytes <= 64 * 64) as HPr by (rewrite HP; destruct ProfileEnabled; lia).
  unfold built, Geometry.buildLayout, Geometry.unbound; cbn [Geometry.memoryBase Geometry.mappedSize option_map].
  fold succBytes profBytes. unfold getRecoveryAuthorityAreaSize, sizeof_line, CacheLineBytes.
  rewrite getRecordsPerDomain_eq by lia.
  assert (0 <= dc * (pc + 1) * 64 <= 64 * 65 * 64) by nia.
  rewrite (u64_small (pc * 64)), (u64_small (64 + 64)) by (unfold in_u64; lia).
  rewrite (u64_small (64 + 64 + 64)) by (unfold in_u64; lia).
  rewrite (u64_small (64 + 64 + 64 + dc * (pc + 1) * 64)) by (unfold in_u64; lia).
  rewrite (u64_small (64 + 64 + 64 + dc * (pc + 1) * 64 + pc * 64)) by (unfold in_u64; lia).
  rewrite (u64_small (64 + 64 + 64 + dc * (pc + 1) * 64 + pc * 64 + pc * 64)) by (unfold in_u64; lia).
  rewrite (u64_small (64 + 64 + 64 + dc * (pc + 1) * 64 + pc * 64 + pc * 64 + succBytes)) by (unfold in_u64; lia).
  rewrite (u64_small (64 + 64 + 64 + dc * (pc + 1) * 64 + pc * 64 + pc * 64 + succBytes + profBytes)) by (unfold in_u64; lia).
  done.
Qed.

Lemma computeAreaSize_eq :
  computeAreaSize ProfileEnabled dc pc strategy ag = 192 + dc * (pc + 1) * 64 + pc * 64 + pc * 64 + succBytes + profBytes /\
  0 < computeAreaSize ProfileEnabled dc pc strategy ag <= 1400000.
Proof.
  pose proof (valid_dims_range _ _ _ Hv) as (Hd & Hp & Ha).
  pose proof (succ_area_bound dc pc ag strategy Hv) as [Hs _]. fold succBytes in Hs.
  pose proof profile_area_eq as HP.
  assert (0 <= profBytes <= 64 * 64) as HPr by (rewrite HP; destruct ProfileEnabled; lia).
  assert (0 <= dc * (pc + 1) * 64 <= 64 * 65 * 64) by nia.
  unfold computeAreaSize. fold succBytes profBytes. unfold getRecoveryAuthorityAreaSize, sizeof_line, CacheLineBytes.
  rewrite getRecordsPerDomain_eq, (u64_small (pc * 64)) by (lia || (unfold in_u64; lia)).
  rewrite u64_small by (unfold in_u64; lia). lia.
Qed.

Lemma buildLayout_aligned : base mod 64 = 0 -> Geometry.isLayoutAligned built = true.
Proof.
  pose proof (valid_dims_range _ _ _ Hv) as (Hd & Hp & Ha).
  pose proof (succ_area_bound dc pc ag strategy Hv) as [Hs Hsm]. fold succBytes in Hs, Hsm.
  pose proof profile_area_eq as HP.
  assert (profBytes mod 64 = 0) as HPm by (rewrite HP; destruct ProfileEnabled; [apply Z.mod_mul|]; done).
  intros Hb. rewrite buildLayout_eq. unfold Geometry.isLayoutAligned; cbn -[Z.land Z.mul Z.add Geometry.aligned].
  fold (Geometry.aligned (192 + dc * (pc + 1) * 64 + pc * 64 + pc * 64 + succBytes + profBytes)).
  assert (exists s, succBytes = s * 64) as [s Es] by (exists (succBytes / 64); pose proof (Z.div_mod succBytes 64 ltac:(done)); lia).
  assert (exists p, profBytes = p * 64) as [p Ep] by (exists (profBytes / 64); pose proof (Z.div_mod profBytes 64 ltac:(done)); lia).
  assert (exists b, base = b * 64) as [b Eb] by (exists (base / 64); pose proof (Z.div_mod base 64 ltac:(done)); lia).
  assert (forall a k, a = k * 64 -> Geometry.aligned a = true) as Hal.
  { intros a k ->. rewrite aligned_spec, Z.mod_mul by done. done. }
  rewrite (Hal base b Eb), (Hal _ (b + 1)), (Hal _ (b + 2)), (Hal _ (b + 3)), (Hal _ (b + 3 + dc * (pc + 1))),
    (Hal _ (b + 3 + dc * (pc + 1) + pc)) by lia.
  rewrite (Hal (192 + dc * (pc + 1) * 64 + pc * 64 + pc * 64 + succBytes + profBytes) (3 + dc * (pc + 1) + 2 * pc + s + p)) by lia.
  destruct (negb (succBytes =? 0)), ProfileEnabled; cbn [andb];
    rewrite ?(Hal _ (b + 3 + dc * (pc + 1) + 2 * pc)), ?(Hal _ (b + 3 + dc * (pc + 1) + 2 * pc + s)) by lia; done.
Qed.

(** C13: [buildLayout] tiles the region exactly.  For every dimension the
    creator admits, the sections follow one another from just past the header
    with no gap and no overlap, they end at [areaSize_], that size is what
    [computeAreaSize] promised the allocation, it stays below 1.4 MB, and on a
    64-byte aligned base the alignment check never refuses. *)
Theorem buildLayout_tiles :
  tiled (base + sizeof_line) (sections ProfileEnabled built ag) = Some (base + Geometry.areaSize_ built) /\
  Geometry.areaSize_ built = computeAreaSize ProfileEnabled dc pc strategy ag /\
  Geometry.areaSize_ built <= 1400000 /\
  (base mod 64 = 0 -> Geometry.isLayoutAligned built = true).
Proof.
  pose proof (valid_dims_range _ _ _ Hv) as (Hd & Hp & Ha).
  pose proof (succ_area_bound dc pc ag strategy Hv) as [Hs Hsm]. fold succBytes in Hs, Hsm.
  pose proof profile_area_eq as HP.
  assert (0 <= profBytes <= 64 * 64 /\ profBytes mod 64 = 0) as [HPr HPm].
  { rewrite HP; destruct ProfileEnabled; [split; [lia|apply Z.mod_mul; done]|done]. }
  assert (0 <= dc * (pc + 1) * 64 <= 64 * 65 * 64) by nia.
  rewrite buildLayout_eq. split_and!.
  - unfold sections; cbn [Geometry.admissionControlBase_ Geometry.peerBoundBase_ Geometry.domainRecordBase_
      Geometry.membershipBase_ Geometry.recoveryAuthorityAreaBase_ Geometry.successorAreaBase_
      Geometry.profileBase_ Geometry.areaSize_ Geometry.domainCount_ Geometry.peerCount_ Geometry.strategy_].
    fold succBytes profBytes. rewrite getRecordsPerDomain_eq by lia. unfold sizeof_line, CacheLineBytes.
    cbn [tiled]. rewrite !(proj2 (Z.eqb_eq _ _)) by lia.
    destruct (Z.eqb_spec succBytes 0) as [HS|HS]; cbn [negb tiled].
    all: destruct ProfileEnabled; cbn [tiled]; rewrite ?HP;
      repeat (rewrite (proj2 (Z.eqb_eq _ _)) by lia; cbn [tiled]); f_equal; lia.
  - symmetry. apply computeAreaSize_eq.
  - cbn [Geometry.areaSize_]. lia.
  - rewrite <- buildLayout_eq. apply buildLayout_aligned.
Qed.
End layout_sound.

Lemma buildLayout_tiles_witness :
  valid_dims 8 4 2 /\
  Geometry.isLayoutAligned (built true 4096 100000 8 4 2 2) = true.
Proof.
  assert (valid_dims 8 4 2) as H by (split; [done|done|lia]).
  split; [exact H|]. apply (buildLayout_tiles true 4096 100000 8 4 2 2 H). reflexivity.
Defined.
