(* ===== verification/Region.v ===== *)
(** * Region: the shared memory, and the one-time format

    The region as the tables of its sections, addressed the way
    [LocalPeerState] and [Geometry] address them, and [Geometry::format] of
    [src/core/layout/geometry.cpp] with the format hooks of the policies. *)

From S2P Require Import Prelude Bitmap Types Layout.

Module Region.

Record t := mk {
  header : Header_t.t;
  admission : AdmissionControl_t.t;
  peerBound : PeerBound_t.t;
  records : gmap Z DomainRecord_t.t;   (* truth and shadow copies, by flat index *)
  members : gmap Z Member_t.t;
  claims : gmap Z RecoveryClaim_t.t;   (* by the peer being recovered *)
  demand : gmap Z DemandLine_t.t;
  aggRecords : gmap Z AggregatorRecord_t.t;
  aggSlots : gmap Z AggregatedRequest_t.t;
  nodes : gmap Z PetersonNode_t.t;
}.

Definition with_header v (r : t) := mk v (admission r) (peerBound r) (records r) (members r) (claims r) (demand r) (aggRecords r) (aggSlots r) (nodes r).
Definition with_admission v (r : t) := mk (header r) v (peerBound r) (records r) (members r) (claims r) (demand r) (aggRecords r) (aggSlots r) (nodes r).
Definition with_peerBound v (r : t) := mk (header r) (admission r) v (records r) (members r) (claims r) (demand r) (aggRecords r) (aggSlots r) (nodes r).
Definition with_records v (r : t) := mk (header r) (admission r) (peerBound r) v (members r) (claims r) (demand r) (aggRecords r) (aggSlots r) (nodes r).
Definition with_members v (r : t) := mk (header r) (admission r) (peerBound r) (records r) v (claims r) (demand r) (aggRecords r) (aggSlots r) (nodes r).
Definition with_claims v (r : t) := mk (header r) (admission r) (peerBound r) (records r) (members r) v (demand r) (aggRecords r) (aggSlots r) (nodes r).
Definition with_demand v (r : t) := mk (header r) (admission r) (peerBound r) (records r) (members r) (claims r) v (aggRecords r) (aggSlots r) (nodes r).
Definition with_aggRecords v (r : t) := mk (header r) (admission r) (peerBound r) (records r) (members r) (claims r) (demand r) v (aggSlots r) (nodes r).
Definition with_aggSlots v (r : t) := mk (header r) (admission r) (peerBound r) (records r) (members r) (claims r) (demand r) (aggRecords r) v (nodes r).
Definition with_nodes v (r : t) := mk (header r) (admission r) (peerBound r) (records r) (members r) (claims r) (demand r) (aggRecords r) (aggSlots r) v.

(** [memset(base, 0, totalSize)]. *)
Definition zeroed : t :=
  mk Header_t.zero AdmissionControl_t.zero PeerBound_t.zero ∅ ∅ ∅ ∅ ∅ ∅ ∅.

(** The truth copy of a domain, and the shadow a peer's group polls. *)
Definition truth (maxPeers : Z) (r : t) (domainId : Z) : DomainRecord_t.t :=
  records r !!! Geometry.recordIndex maxPeers domainId.
Definition shadow (maxPeers : Z) (r : t) (domainId peerId : Z) : DomainRecord_t.t :=
  records r !!! Geometry.shadowIndex maxPeers domainId peerId.
Definition member (r : t) (peerId : Z) : Member_t.t := members r !!! peerId.
Definition claim (r : t) (deadPeerId : Z) : RecoveryClaim_t.t := claims r !!! deadPeerId.

(** Whole-line stores. *)
Definition setTruth (maxPeers domainId : Z) (line : DomainRecord_t.t) (r : t) : t :=
  with_records (<[Geometry.recordIndex maxPeers domainId := line]> (records r)) r.
Definition setShadow (maxPeers domainId peerId : Z) (line : DomainRecord_t.t) (r : t) : t :=
  with_records (<[Geometry.shadowIndex maxPeers domainId peerId := line]> (records r)) r.
Definition setMember (peerId : Z) (line : Member_t.t) (r : t) : t :=
  with_members (<[peerId := line]> (members r)) r.
Definition setClaim (deadPeerId : Z) (line : RecoveryClaim_t.t) (r : t) : t :=
  with_claims (<[deadPeerId := line]> (claims r)) r.
Definition setDemand (peerId : Z) (line : DemandLine_t.t) (r : t) : t :=
  with_demand (<[peerId := line]> (demand r)) r.
Definition setAggRecord (groupId : Z) (line : AggregatorRecord_t.t) (r : t) : t :=
  with_aggRecords (<[groupId := line]> (aggRecords r)) r.
Definition setAggSlot (groupId : Z) (line : AggregatedRequest_t.t) (r : t) : t :=
  with_aggSlots (<[groupId := line]> (aggSlots r)) r.
Definition setNode (index : Z) (line : PetersonNode_t.t) (r : t) : t :=
  with_nodes (<[index := line]> (nodes r)) r.

End Region.

(** ** A store changes its own line only *)

Lemma truth_setTruth_eq pc d rec r : Region.truth pc (Region.setTruth pc d rec r) d = rec.
Proof. apply lookup_total_insert_eq. Qed.

Lemma shadow_setShadow_eq pc d p rec r : Region.shadow pc (Region.setShadow pc d p rec r) d p = rec.
Proof. apply lookup_total_insert_eq. Qed.

Lemma member_setMember_eq p m r : Region.member (Region.setMember p m r) p = m.
Proof. apply lookup_total_insert_eq. Qed.

Lemma claim_setClaim_eq p c r : Region.claim (Region.setClaim p c r) p = c.
Proof. apply lookup_total_insert_eq. Qed.

Lemma claim_setClaim_ne p q c r : p <> q -> Region.claim (Region.setClaim p c r) q = Region.claim r q.
Proof. apply lookup_total_insert_ne. Qed.

Section record_lines.
Context (pc : Z) (Hpc : 0 <= pc <= 64).

Lemma truth_setTruth_ne d d' rec r :
  0 <= d < 2 ^ 32 -> 0 <= d' < 2 ^ 32 -> d <> d' ->
  Region.truth pc (Region.setTruth pc d rec r) d' = Region.truth pc r d'.
Proof.
  intros Hd Hd' Hne. apply lookup_total_insert_ne. rewrite !recordIndex_eq by done. nia.
Qed.

Lemma truth_setShadow d d' p rec r :
  0 <= d < 64 -> 0 <= d' < 64 -> 0 <= p < pc ->
  Region.truth pc (Region.setShadow pc d p rec r) d' = Region.truth pc r d'.
Proof.
  intros Hd Hd' Hp. apply lookup_total_insert_ne.
  destruct (record_slots_distinct pc d' d p p) as (_ & H & _); [lia..|]. by apply not_eq_sym.
Qed.

Lemma shadow_setTruth d d' p rec r :
  0 <= d < 64 -> 0 <= d' < 64 -> 0 <= p < pc ->
  Region.shadow pc (Region.setTruth pc d rec r) d' p = Region.shadow pc r d' p.
Proof.
  intros Hd Hd' Hp. apply lookup_total_insert_ne.
  destruct (record_slots_distinct pc d d' p p) as (_ & H & _); [lia..|]. done.
Qed.

Lemma shadow_setShadow_ne d d' p p' rec r :
  0 <= d < 64 -> 0 <= d' < 64 -> 0 <= p < pc -> 0 <= p' < pc -> (d, p) <> (d', p') ->
  Region.shadow pc (Region.setShadow pc d p rec r) d' p' = Region.shadow pc r d' p'.
Proof.
  intros Hd Hd' Hp Hp' Hne. apply lookup_total_insert_ne. intros Heq.
  destruct (record_slots_distinct pc d d' p p') as (_ & _ & H); [lia..|].
  destruct (H Heq) as [-> ->]. done.
Qed.
End record_lines.

(** ** Formatting *)

Module format.
Import Region.

(** Where a copy of a domain's record sits: the truth at copy 0, the shadow of group
    [copyIndex - 1] otherwise. *)
Definition copyIndex_slot (peerCount domainIndex copyIndex : Z) : Z :=
  if copyIndex =? 0 then Geometry.recordIndex peerCount domainIndex
  else Geometry.shadowIndex peerCount domainIndex ((copyIndex - 1) * ShadowGroupSize).

Definition stampRecord (domainIndex : Z) (record : DomainRecord_t.t) : DomainRecord_t.t :=
  let isControl := isControlDomain domainIndex in
  let initState := if isControl then DomainRecord_t.Active else DomainRecord_t.Free in
  let initHolder := if isControl then 0 else NoPeer in
  DomainRecord_t.with_holder initHolder
    (DomainRecord_t.setState initState (DomainRecord_t.with_magic DomainRecord_t.Magic record)).

(** [format] as the writes it makes, in their order: a plain store, the fence
    that flushes the first [bytes] of the region, and a [coherency::set]. *)
Inductive Write :=
| Store (store : t -> t)
| Wmb (bytes : Z)
| Set_ (store : t -> t).
Definition land (r : t) (w : Write) : t :=
  match w with Store store | Set_ store => store r | Wmb _ => r end.
Definition runWrites (writes : list Write) (before : t) : t := foldl land before writes.

Definition stampRecords (domainCount peerCount : Z) : list Write :=
  map (fun copy => Store (fun r =>
      with_records (<[copyIndex_slot peerCount (fst copy) (snd copy) :=
        stampRecord (fst copy) (records r !!! copyIndex_slot peerCount (fst copy) (snd copy))]> (records r)) r))
    (list_prod (IdRange 0 domainCount) (IdRange 0 (getGroupCount peerCount + 1))).

Definition stampMembers (peerCount : Z) : list Write :=
  map (fun peerIndex => Store (fun r =>
      with_members (<[peerIndex := Member_t.with_magic Member_t.Magic (members r !!! peerIndex)]> (members r)) r))
    (IdRange 0 peerCount).

(** [ChainRecoveryAuthorityPolicy::formatClaimRegion]. *)
Definition formatClaimRegion (maxPeers : Z) : list Write :=
  map (fun peerId => Store (setClaim peerId (RecoveryClaim_t.mk RecoveryClaim_t.Magic NoPeer))) (IdRange 0 maxPeers).

(** [RequestAggPolicy::format]: group [g]'s first aggregator is peer [g]. *)
Definition formatAggregators (domainCount peerCount aggregatorGroups : Z) : list Write :=
  map (fun groupId => Store (setAggRecord groupId (AggregatorRecord_t.mk AggregatorRecord_t.Magic groupId)))
    (IdRange 0 (RequestAggLayout.getGroupCount aggregatorGroups domainCount peerCount)).

(** [initTournamentTree]: an interest line is default-constructed, so idle. *)
Definition initTournamentTree (maxNumPeers domains : Z) : list Write :=
  map (fun index => Store (setNode index (PetersonNode_t.mk NoPeer NoPeer 0)))
    (IdRange 0 (u32 (peterson_tree.getNodesPerDomain maxNumPeers * domains))).

(** The policy's [format] hook: [Order] and [Request] have none. *)
Definition formatPolicy (strategy : Strategy) (domainCount peerCount aggregatorGroups : Z) : list Write :=
  match strategy with
  | Order | Request => []
  | RequestAgg => formatAggregators domainCount peerCount aggregatorGroups
  | Peterson => initTournamentTree peerCount domainCount
  end.

(** The writes up to the fence: the [memset], then the slots. *)
Definition stampWrites (domainCount peerCount : Z) (strategy : Strategy) (aggregatorGroups : Z) : list Write :=
  Store (fun _ => zeroed) ::
  stampRecords domainCount peerCount ++
  stampMembers peerCount ++
  [Store (with_admission (AdmissionControl_t.mk AdmissionControl_t.Magic 0));
   Store (with_peerBound (PeerBound_t.mk PeerBound_t.Magic 0))] ++
  formatClaimRegion peerCount ++
  formatPolicy strategy domainCount peerCount aggregatorGroups.

(** The state a crash at the commit point leaves. *)
Definition beforeHeader (domainCount peerCount : Z) (strategy : Strategy) (aggregatorGroups : Z) : t :=
  runWrites (stampWrites domainCount peerCount strategy aggregatorGroups) zeroed.

(** [Geometry::format] on a bound geometry; [generation] is the wall clock it
    reads and [totalSize] the area size. *)
Definition formatWrites (g : Geometry.t) (strategy : Strategy) (aggregatorGroups generation : Z) : list Write + Error :=
  if negb (Geometry.bound_ g) then inr FormatError
  else if Geometry.peerCount_ g <? aggregatorGroups then inr FormatError
  else match Geometry.memoryBase g with
  | None => inr FormatError
  | Some _ =>
      let activeDomains := Bits.set DomainBitmap_empty ControlDomainId in
      let header := Header_t.storeActiveDomains
        (Header_t.mk Header_t.Magic Header_t.Version (Strategy_to_u32 strategy)
           (Geometry.domainCount_ g) (Geometry.peerCount_ g) aggregatorGroups generation
           (Geometry.areaSize_ g) [0]) activeDomains in
      inl (stampWrites (Geometry.domainCount_ g) (Geometry.peerCount_ g) strategy aggregatorGroups ++
           [Wmb (Geometry.areaSize_ g); Set_ (with_header header)])
  end.

(** What it leaves in the region.  The first write clears whatever was there. *)
Definition format (g : Geometry.t) (strategy : Strategy) (aggregatorGroups generation : Z) : t + Error :=
  match formatWrites g strategy aggregatorGroups generation with
  | inr error => inr error
  | inl writes => inl (runWrites writes zeroed)
  end.

End format.

(** ** The region invariant *)

(** What every peer of a region relies on: the dimensions the header records are
    admitted ones, and every line of every core section carries its magic. *)
Record wf_region (dc pc : Z) (r : Region.t) : Prop := {
  wfr_header : Header_t.isFormatted (Region.header r) = true;
  wfr_dc : Header_t.numDomains (Region.header r) = dc;
  wfr_pc : Header_t.maxPeers (Region.header r) = pc;
  wfr_dims : isValidDomainCount dc = true /\ isValidPeerCount pc = true;
  wfr_admission : AdmissionControl_t.isValidMagic (Region.admission r) = true;
  wfr_bound : PeerBound_t.isValidMagic (Region.peerBound r) = true;
  wfr_truth : forall d, 0 <= d < dc -> DomainRecord_t.isValidMagic (Region.truth pc r d) = true;
  wfr_shadow : forall d p, 0 <= d < dc -> 0 <= p < pc ->
    DomainRecord_t.isValidMagic (Region.shadow pc r d p) = true;
  wfr_member : forall p, 0 <= p < pc -> Member_t.isValidMagic (Region.member r p) = true;
  wfr_claim : forall p, 0 <= p < pc -> RecoveryClaim_t.isValidMagic (Region.claim r p) = true;
}.

Section format_correct.
Context (dc pc ag : Z) (strategy : Strategy) (generation base mapped : Z) (ProfileEnabled : bool).
Hypothesis Hv : valid_dims dc pc ag.

Lemma copy_slot_inj d d' c c' :
  0 <= d < dc -> 0 <= d' < dc -> 0 <= c < pc + 1 -> 0 <= c' < pc + 1 ->
  format.copyIndex_slot pc d c = format.copyIndex_slot pc d' c' -> (d, c) = (d', c').
Proof.
  pose proof (valid_dims_range _ _ _ Hv) as (Hd & Hp & Ha).
  intros Hd1 Hd2 Hc1 Hc2. unfold format.copyIndex_slot, ShadowGroupSize. rewrite !Z.mul_1_r.
  assert (forall d c, 0 <= d < dc -> 0 <= c < pc + 1 ->
    (if c =? 0 then Geometry.recordIndex pc d else Geometry.shadowIndex pc d (c - 1)) = d * (pc + 1) + c) as Heq.
  { intros d0 c0 ? ?. destruct (Z.eqb_spec c0 0) as [->|]; [rewrite recordIndex_eq by lia; lia|].
    rewrite shadowIndex_eq by lia. lia. }
  rewrite !Heq by done. intros H. destruct (block_index_inj (pc + 1) d d' c c'); try lia. congruence.
Qed.

(** Writes to one table are an update of that table. *)
Lemma runWrites_records {K} (slot : K -> Z) (f : K -> DomainRecord_t.t -> DomainRecord_t.t) l r :
  format.runWrites (map (fun k => format.Store (fun r =>
    Region.with_records (<[slot k := f k (Region.records r !!! slot k)]> (Region.records r)) r)) l) r
  = Region.with_records (foldl (fun tbl k => <[slot k := f k (tbl !!! slot k)]> tbl) (Region.records r) l) r.
Proof. revert r. induction l as [|k l IH]; intros r; [by destruct r|]. cbn. unfold format.runWrites in IH. by rewrite IH. Qed.

Lemma runWrites_members (f : Z -> Member_t.t -> Member_t.t) l r :
  format.runWrites (map (fun k => format.Store (fun r =>
    Region.with_members (<[k := f k (Region.members r !!! k)]> (Region.members r)) r)) l) r
  = Region.with_members (foldl (fun tbl k => <[k := f k (tbl !!! k)]> tbl) (Region.members r) l) r.
Proof. revert r. induction l as [|k l IH]; intros r; [by destruct r|]. cbn. unfold format.runWrites in IH. by rewrite IH. Qed.

Lemma runWrites_claims (c : RecoveryClaim_t.t) l r :
  format.runWrites (map (fun k => format.Store (Region.setClaim k c)) l) r
  = Region.with_claims (foldl (fun tbl k => <[k := c]> tbl) (Region.claims r) l) r.
Proof. revert r. induction l as [|k l IH]; intros r; [by destruct r|]. cbn. unfold format.runWrites in IH. by rewrite IH. Qed.

Lemma runWrites_app ws ws' r : format.runWrites (ws ++ ws') r = format.runWrites ws' (format.runWrites ws r).
Proof. apply foldl_app. Qed.

Lemma stampRecords_slot r d c :
  0 <= d < dc -> 0 <= c < pc + 1 ->
  Region.records (format.runWrites (format.stampRecords dc pc) r) !!! format.copyIndex_slot pc d c
  = format.stampRecord d (Region.records r !!! format.copyIndex_slot pc d c).
Proof.
  pose proof (valid_dims_range _ _ _ Hv) as (Hd & Hp & Ha). intros Hd1 Hc1. unfold format.stampRecords.
  rewrite (runWrites_records (fun copy => format.copyIndex_slot pc (fst copy) (snd copy)) (fun copy => format.stampRecord (fst copy))).
  cbn [Region.records Region.with_records].
  assert (getGroupCount pc + 1 = pc + 1) as ->.
  { unfold getGroupCount, ShadowGroupSize. rewrite Z.div_1_r, u32_small by (unfold in_u32; lia). lia. }
  apply (tbl_fold_insert_once (fun copy => format.copyIndex_slot pc (fst copy) (snd copy))
    (fun copy => format.stampRecord (fst copy)) _ (Region.records r) (d, c)).
  - apply NoDup_list_prod; apply NoDup_zrange.
  - apply elem_of_list_prod. unfold IdRange. rewrite !elem_of_zrange. lia.
  - intros [d' c']. cbn [fst snd]. rewrite elem_of_list_prod. unfold IdRange. rewrite !elem_of_zrange. intros [? ?].
    apply copy_slot_inj; lia.
Qed.

Lemma stampMembers_slot r p :
  0 <= p < pc ->
  Region.members (format.runWrites (format.stampMembers pc) r) !!! p
  = Member_t.with_magic Member_t.Magic (Region.members r !!! p).
Proof.
  intros Hp. unfold format.stampMembers. rewrite (runWrites_members (fun _ => Member_t.with_magic Member_t.Magic)).
  apply (tbl_fold_insert_once (fun p => p) (fun _ => Member_t.with_magic Member_t.Magic)).
  - apply NoDup_zrange.
  - by apply elem_of_zrange.
  - done.
Qed.

Lemma formatClaimRegion_slot r p :
  0 <= p < pc ->
  Region.claims (format.runWrites (format.formatClaimRegion pc) r) !!! p = RecoveryClaim_t.mk RecoveryClaim_t.Magic NoPeer.
Proof.
  intros Hp. unfold format.formatClaimRegion. rewrite runWrites_claims.
  apply (tbl_fold_insert_once (fun p => p) (fun _ _ => RecoveryClaim_t.mk RecoveryClaim_t.Magic NoPeer)).
  - apply NoDup_zrange.
  - by apply elem_of_zrange.
  - done.
Qed.

(** Writes that leave the header line alone. *)
Definition sparesHeader (w : format.Write) : Prop := forall r, Region.header (format.land r w) = Region.header r.

Lemma spares_run ws r : Forall sparesHeader ws -> Region.header (format.runWrites ws r) = Region.header r.
Proof. intros H. revert r. induction H as [|w ws Hw _ IH]; intros r; [done|]. cbn. unfold format.runWrites in IH. by rewrite IH. Qed.

Lemma spares_stores {K} (f : K -> Region.t -> Region.t) l :
  (forall k r, Region.header (f k r) = Region.header r) -> Forall sparesHeader (map (fun k => format.Store (f k)) l).
Proof. intros H. apply Forall_forall. intros w Hw. apply list_elem_of_fmap in Hw as (k & -> & _). intros r. apply H. Qed.

(** Every write between the [memset] and the fence spares it. *)
Lemma slots_spare : Forall sparesHeader (tail (format.stampWrites dc pc strategy ag)).
Proof.
  cbn [tail format.stampWrites]. rewrite !Forall_app. split_and!; try (by apply spares_stores); [by repeat constructor|].
  destruct strategy; cbn [format.formatPolicy]; try constructor; by apply spares_stores.
Qed.

(** The policy hook leaves the core sections alone. *)
Lemma formatPolicy_core r :
  let r' := format.runWrites (format.formatPolicy strategy dc pc ag) r in
  Region.header r' = Region.header r /\ Region.admission r' = Region.admission r /\
  Region.peerBound r' = Region.peerBound r /\ Region.records r' = Region.records r /\
  Region.members r' = Region.members r /\ Region.claims r' = Region.claims r.
Proof.
  assert (forall {K} (f : K -> Region.t -> Region.t) l r,
    (forall k r, Region.header (f k r) = Region.header r /\ Region.admission (f k r) = Region.admission r /\
      Region.peerBound (f k r) = Region.peerBound r /\ Region.records (f k r) = Region.records r /\
      Region.members (f k r) = Region.members r /\ Region.claims (f k r) = Region.claims r) ->
    let r' := format.runWrites (map (fun k => format.Store (f k)) l) r in
    Region.header r' = Region.header r /\ Region.admission r' = Region.admission r /\
    Region.peerBound r' = Region.peerBound r /\ Region.records r' = Region.records r /\
    Region.members r' = Region.members r /\ Region.claims r' = Region.claims r) as Hcore.
  { intros K f l. induction l as [|k l IH]; intros r0 Hf; [done|]. cbn. destruct (Hf k r0) as (H1 & H2 & H3 & H4 & H5 & H6).
    specialize (IH (f k r0) Hf). cbv zeta in IH. unfold format.runWrites in IH. by rewrite H1, H2, H3, H4, H5, H6 in IH. }
  unfold format.formatPolicy. destruct strategy; try done; by apply Hcore.
Qed.

Definition g := built ProfileEnabled base mapped dc pc (Strategy_to_u32 strategy) ag.

Lemma truth_stamped r d :
  0 <= d < dc -> Region.records r = Region.records (format.runWrites (format.stampRecords dc pc) Region.zeroed) ->
  Region.truth pc r d = format.stampRecord d DomainRecord_t.zero.
Proof.
  pose proof (valid_dims_range _ _ _ Hv) as (Hd & Hp & Ha). intros Hd1 Hr.
  pose proof (stampRecords_slot Region.zeroed d 0 Hd1 ltac:(lia)) as Hs.
  unfold Region.truth. rewrite Hr. exact Hs.
Qed.

Lemma shadow_stamped r d p :
  0 <= d < dc -> 0 <= p < pc -> Region.records r = Region.records (format.runWrites (format.stampRecords dc pc) Region.zeroed) ->
  Region.shadow pc r d p = format.stampRecord d DomainRecord_t.zero.
Proof.
  pose proof (valid_dims_range _ _ _ Hv) as (Hd & Hp & Ha). intros Hd1 Hp1 Hr.
  pose proof (stampRecords_slot Region.zeroed d (p + 1) Hd1 ltac:(lia)) as Hs.
  unfold Region.shadow. rewrite Hr. unfold format.copyIndex_slot in Hs.
  rewrite (proj2 (Z.eqb_neq (p + 1) 0)) in Hs by lia.
  replace ((p + 1 - 1) * ShadowGroupSize) with p in Hs by (unfold ShadowGroupSize; lia).
  rewrite Hs. f_equal.
Qed.

(** C14: [format] establishes the region invariant, and the header is its
    commit point.  On admitted dimensions it succeeds whatever the region held
    before; its last two writes are the flush of the whole area and the store of
    the header line, and no prefix of them from the clearing of the region on
    reads as formatted, so a joiner never binds to slots that are not laid down.
    Then every record copy, member slot and claim slot carries its magic; only
    the control domain is live, held by peer 0 at epoch 0, every other record is
    a spare with no holder; no slot is taken and no claim stands; the
    live-domain bitmap is exactly the control domain. *)
Theorem format_establishes :
  exists writes header r, format.formatWrites g strategy ag generation = inl writes /\
    format.format g strategy ag generation = inl r /\
    (forall before, format.runWrites writes before = r) /\
    (exists slots, writes = slots ++ [format.Wmb (Geometry.areaSize_ g); format.Set_ (Region.with_header header)]) /\
    (forall before n, (0 < n < length writes)%nat ->
      Header_t.isFormatted (Region.header (format.runWrites (take n writes) before)) = false) /\
    wf_region dc pc r /\
    Header_t.getStrategy (Region.header r) = Strategy_to_u32 strategy /\
    Header_t.loadActiveDomains (Region.header r) = Bits.set DomainBitmap_empty ControlDomainId /\
    (forall d, 0 <= d < dc ->
      DomainRecord_t.hasState (Region.truth pc r d) DomainRecord_t.Active = isControlDomain d /\
      DomainRecord_t.getHolder (Region.truth pc r d) = (if isControlDomain d then 0 else NoPeer) /\
      DomainRecord_t.epoch (Region.truth pc r d) = 0 /\
      forall p, 0 <= p < pc -> Region.shadow pc r d p = Region.truth pc r d) /\
    (forall p, 0 <= p < pc ->
      Member_t.hasStatus (Region.member r p) Member_t.None_ = true /\
      Bits.isEmpty (Member_t.loadParticipatingDomains (Region.member r p)) = true /\
      RecoveryClaim_t.recoveryAuthority (Region.claim r p) = NoPeer).
Proof.
  pose proof (valid_dims_range _ _ _ Hv) as (Hd & Hp & Ha).
  set (r0 := format.beforeHeader dc pc strategy ag).
  set (r1 := format.runWrites (format.formatClaimRegion pc)
    (Region.with_peerBound (PeerBound_t.mk PeerBound_t.Magic 0)
      (Region.with_admission (AdmissionControl_t.mk AdmissionControl_t.Magic 0)
        (format.runWrites (format.stampMembers pc) (format.runWrites (format.stampRecords dc pc) Region.zeroed))))).
  destruct (formatPolicy_core r1) as (Hh & Had & Hpb & Hrec & Hmem & Hcl).
  assert (format.runWrites (format.formatPolicy strategy dc pc ag) r1 = r0) as Hr0.
  { unfold r0, format.beforeHeader, format.stampWrites. cbn [format.runWrites foldl format.land].
    rewrite !foldl_app. reflexivity. }
  cbv zeta in Hh, Had, Hpb, Hrec, Hmem, Hcl. rewrite Hr0 in *.
  assert (Region.records r1 = Region.records (format.runWrites (format.stampRecords dc pc) Region.zeroed) /\
    Region.members r1 = Region.members (format.runWrites (format.stampMembers pc) (format.runWrites (format.stampRecords dc pc) Region.zeroed)) /\
    Region.admission r1 = AdmissionControl_t.mk AdmissionControl_t.Magic 0 /\ Region.peerBound r1 = PeerBound_t.mk PeerBound_t.Magic 0)
    as (Hrec1 & Hmem1 & Had1 & Hpb1).
  { unfold r1, format.formatClaimRegion. rewrite runWrites_claims. split_and!; [|done..]. cbn.
    unfold format.stampMembers. by rewrite (runWrites_members (fun _ => Member_t.with_magic Member_t.Magic)). }
  rewrite Hrec1 in Hrec. rewrite Hmem1 in Hmem. rewrite Had1 in Had. rewrite Hpb1 in Hpb.
  unfold format.format, format.formatWrites, g. rewrite buildLayout_eq by done.
  cbn [Geometry.bound_ Geometry.peerCount_ Geometry.memoryBase Geometry.domainCount_ negb].
  rewrite (proj2 (Z.ltb_ge pc ag)) by (destruct Hv; lia).
  set (slots := format.stampWrites dc pc strategy ag).
  assert (forall before, format.runWrites slots before = r0) as Hany by done.
  assert (Region.header r0 = Header_t.zero) as Hzero by (exact (spares_run _ Region.zeroed slots_spare)).
  eexists (slots ++ _), _, _. split; [reflexivity|]. split; [reflexivity|].
  split; [intros before; by rewrite !runWrites_app|]. split; [by eexists|]. split.
  { intros before n Hn. rewrite length_app in Hn. cbn [length] in Hn.
    destruct (decide (length slots < n)%nat) as [Hlt|Hge].
    - replace n with (length slots + 1)%nat by lia. rewrite take_app_add', runWrites_app, Hany by done. cbn [take format.runWrites foldl format.land]. by rewrite Hzero.
    - rewrite take_app_le by lia. destruct n as [|n]; [lia|].
      change (Header_t.isFormatted (Region.header (format.runWrites (take n (tail slots)) Region.zeroed)) = false).
      rewrite spares_run by apply Forall_take, slots_spare. done. }
  rewrite runWrites_app, Hany. cbn [format.runWrites foldl format.land].
  assert (forall d, 0 <= d < dc -> Region.truth pc r0 d = format.stampRecord d DomainRecord_t.zero) as Htruth.
  { intros d Hd1. by apply truth_stamped. }
  assert (forall d p, 0 <= d < dc -> 0 <= p < pc ->
    Region.shadow pc r0 d p = format.stampRecord d DomainRecord_t.zero) as Hshadow.
  { intros d p Hd1 Hp1. by apply shadow_stamped. }
  assert (forall p, 0 <= p < pc -> Region.member r0 p = Member_t.with_magic Member_t.Magic Member_t.zero) as Hm.
  { intros p Hp1. unfold Region.member. rewrite Hmem. rewrite stampMembers_slot by done. unfold format.stampRecords.
    by rewrite (runWrites_records (fun copy => format.copyIndex_slot pc (fst copy) (snd copy)) (fun copy => format.stampRecord (fst copy))). }
  assert (forall p, 0 <= p < pc -> Region.claim r0 p = RecoveryClaim_t.mk RecoveryClaim_t.Magic NoPeer) as Hc.
  { intros p Hp1. unfold Region.claim. rewrite Hcl. by apply formatClaimRegion_slot. }
  split; [|split; [by destruct strategy|]; split; [|split]].
  - split; cbn [Region.header Region.with_header Region.admission Region.peerBound]; try done.
    + destruct Hv; done.
    + by rewrite Had.
    + by rewrite Hpb.
    + intros d Hd1. change (DomainRecord_t.isValidMagic (Region.truth pc r0 d) = true). by rewrite Htruth.
    + intros d p Hd1 Hp1. change (DomainRecord_t.isValidMagic (Region.shadow pc r0 d p) = true). by rewrite Hshadow.
    + intros p Hp1. change (Member_t.isValidMagic (Region.member r0 p) = true). by rewrite Hm.
    + intros p Hp1. change (RecoveryClaim_t.isValidMagic (Region.claim r0 p) = true). by rewrite Hc.
  - reflexivity.
  - intros d Hd1.
    change (Region.truth pc (Region.with_header ?h r0) d) with (Region.truth pc r0 d).
    rewrite Htruth by done. unfold format.stampRecord, isControlDomain.
    split_and!; [by destruct (d =? ControlDomainId) ..|].
    intros p Hp1. change (Region.shadow pc (Region.with_header ?h r0) d p) with (Region.shadow pc r0 d p).
    by rewrite Hshadow.
  - intros p Hp1. change (Region.member (Region.with_header ?h r0) p) with (Region.member r0 p).
    change (Region.claim (Region.with_header ?h r0) p) with (Region.claim r0 p).
    rewrite Hm, Hc by done. done.
Qed.
End format_correct.

Lemma format_establishes_witness :
  exists r, format.format (g 3 2 0 Request 4096 100000 false) Request 0 77 = inl r /\ wf_region 3 2 r.
Proof.
  destruct (format_establishes 3 2 0 Request 77 4096 100000 false) as (_ & _ & r & _ & Hr & _ & _ & _ & Hwf & _).
  - split; [done|done|lia].
  - exists r. split; [exact Hr|exact Hwf].
Defined.
