(* ===== verification/World.v ===== *)
(** * World: one peer's state, the shared region, and the effects of the code

    Models the data of [src/core/runtime/local_peer_state.hpp] and
    [local_domain_view.hpp], the line accesses of [src/util/coherency.hpp], and
    the clock reads of [common/common/timing.hpp].

    A handler of the library runs in a small state monad over a [World.t]: the
    region and this peer's DRAM state.  The other peers act between any two of
    its line accesses: before each access the environment [interf] replaces the
    region, so every theorem that quantifies over [Env.t] covers every
    interleaving at line granularity.  Clocks and random draws are oracles of
    the environment.  Failpoints and telemetry are not represented.

    [steps] is ghost state: the region before and after each write this peer
    made, which is what a guarantee of the handler is stated over. *)

From S2P Require Import Prelude Effect Bitmap Types Layout Region.

(** ** Per-domain DRAM view *)

Module LocalDomainView.
(** [pin_], [ownership_], [poll_] and [worker_]; [ownershipCheck] is the next
    due instant of its [PeriodicGate]. *)
Record t := mk {
  pinCount : Z;
  pinStart : Z;
  isHolder : bool;
  ownershipCheck : Z;
  lastOwnershipEpoch : Z;
}.

Definition with_pinCount (v : Z) (s : t) : t :=
  mk v (pinStart s) (isHolder s) (ownershipCheck s) (lastOwnershipEpoch s).
Definition with_pinStart (v : Z) (s : t) : t :=
  mk (pinCount s) v (isHolder s) (ownershipCheck s) (lastOwnershipEpoch s).
Definition with_isHolder (v : bool) (s : t) : t :=
  mk (pinCount s) (pinStart s) v (ownershipCheck s) (lastOwnershipEpoch s).
Definition with_ownershipCheck (v : Z) (s : t) : t :=
  mk (pinCount s) (pinStart s) (isHolder s) v (lastOwnershipEpoch s).
Definition with_lastOwnershipEpoch (v : Z) (s : t) : t :=
  mk (pinCount s) (pinStart s) (isHolder s) (ownershipCheck s) v.

Definition zero : t := mk 0 0 false 0 0.
#[global] Instance t_inhabited : Inhabited t := populate zero.

(** The pin word while a transfer publish holds it. *)
Definition TransferringPins : Z := 2 ^ 32 - 1.

(** [pinOwnership]: spins the latch out, then adds one.  The spin ends with the
    latch's release, which stores zero. *)
Definition isFirstPin (s : t) : bool := (pinCount s =? TransferringPins) || (pinCount s =? 0).
Definition pinOwnership (now : Z) (s : t) : t :=
  let cur := if pinCount s =? TransferringPins then 0 else pinCount s in
  let s := with_pinCount (u32 (cur + 1)) s in
  if cur =? 0 then with_pinStart now s else s.

Definition unpinOwnership (s : t) : t :=
  if (0 <? pinCount s) && negb (pinCount s =? TransferringPins)
  then with_pinCount (pinCount s - 1) s else s.

Definition tryBeginOwnershipTransfer (s : t) : bool * t :=
  if pinCount s =? 0 then (true, with_pinCount TransferringPins s) else (false, s).

Definition endOwnershipTransfer (s : t) : t := with_pinCount 0 s.
Definition resetOwnershipPins (s : t) : t := with_pinCount 0 s.
Definition canTransferOwnership (s : t) : bool := pinCount s =? 0.
Definition hasOwnershipPins (s : t) : bool :=
  negb (pinCount s =? 0) && negb (pinCount s =? TransferringPins).
Definition getOwnershipPinCount (s : t) : Z := pinCount s.

Definition becomeHolder (s : t) : t := with_isHolder true s.
Definition loseHolder (s : t) : t := with_isHolder false s.

Definition isTurnToCheckOwnership (now : Z) (s : t) : bool * t :=
  let '(due, next) := timing.PeriodicGate.isDue (ownershipCheck s) now
                        config.poll_thread.OwnershipCheckInterval in
  (due, with_ownershipCheck next s).

End LocalDomainView.

(** ** The member cache and the claim state machine's data *)

Module CachedMember_t.
Record t := mk {
  participating : list Z;
  lastSeenNanos : Z;
  stampNs : Z;
  status : Z;
  valid : bool;
}.

Definition with_participating (v : list Z) (s : t) : t :=
  mk v (lastSeenNanos s) (stampNs s) (status s) (valid s).
Definition with_lastSeenNanos (v : Z) (s : t) : t :=
  mk (participating s) v (stampNs s) (status s) (valid s).
Definition with_stampNs (v : Z) (s : t) : t :=
  mk (participating s) (lastSeenNanos s) v (status s) (valid s).
Definition with_status (v : Z) (s : t) : t :=
  mk (participating s) (lastSeenNanos s) (stampNs s) v (valid s).
Definition with_valid (v : bool) (s : t) : t :=
  mk (participating s) (lastSeenNanos s) (stampNs s) (status s) v.

(** Never refreshed: [INT64_MIN] as its stamp. *)
Definition zero : t := mk [0] 0 (- 2 ^ 63) 0 false.
#[global] Instance t_inhabited : Inhabited t := populate zero.
End CachedMember_t.

Module Claim.
(** [stake::Claim]'s phases and fields; [watchedSince_] is the instant its
    stopwatch was last restarted. *)
Inductive Phase := Idle | Watching | Settling | Holding.
#[global] Instance Phase_eq_dec : EqDecision Phase.
Proof. solve_decision. Defined.

Record t := mk {
  phase_ : Phase;
  mine_ : Z;
  watched_ : Z;
  watchedSince_ : Z;
  stalled_ : option Z;
  window_ : timing.Deadline.t;
}.

Definition with_phase_ (v : Phase) (s : t) : t :=
  mk v (mine_ s) (watched_ s) (watchedSince_ s) (stalled_ s) (window_ s).
Definition with_mine_ (v : Z) (s : t) : t :=
  mk (phase_ s) v (watched_ s) (watchedSince_ s) (stalled_ s) (window_ s).
Definition with_watched_ (v : Z) (s : t) : t :=
  mk (phase_ s) (mine_ s) v (watchedSince_ s) (stalled_ s) (window_ s).
Definition with_watchedSince_ (v : Z) (s : t) : t :=
  mk (phase_ s) (mine_ s) (watched_ s) v (stalled_ s) (window_ s).
Definition with_stalled_ (v : option Z) (s : t) : t :=
  mk (phase_ s) (mine_ s) (watched_ s) (watchedSince_ s) v (window_ s).
Definition with_window_ (v : timing.Deadline.t) (s : t) : t :=
  mk (phase_ s) (mine_ s) (watched_ s) (watchedSince_ s) (stalled_ s) v.

Definition initial : t := mk Idle 0 0 0 None (timing.Deadline.mk 0).

Definition isStaked (c : t) : bool :=
  match phase_ c with Settling | Holding => true | Idle | Watching => false end.
End Claim.

(** ** The peer's DRAM state *)

Module LocalPeerState.
(** Mutexes serialise this peer's own threads and are not represented.
    [claimTarget_] and [stake_] are the recovery-authority policy's;
    [reconcileGate_], [groupId_], [slotLocalIndex_] and [climbWon] (a domain's
    [DomainClimb_t::won]) belong to the successor policy. *)
Record t := mk {
  peerId_ : Z;
  selfMember_ : Member_t.t;
  active_ : bool;
  peerScanBound_ : Z;
  memberCache_ : gmap Z CachedMember_t.t;
  domains_ : gmap Z LocalDomainView.t;
  activeDomains_ : Bits.t;
  selfPending_ : Bits.t;
  pendingWaiters_ : gmap Z Z;
  numDomains : Z;
  maxPeers : Z;
  aggregatorGroups : Z;
  successorPolicyKind : Strategy;
  recoveryCycles : Z;
  recoveryTarget : Z;
  orphanSweepPending : bool;
  tickTime : Z;
  scanRefresh : Z;
  claimTarget_ : Z;
  stake_ : Claim.t;
  reconcileGate_ : Z;
  groupId_ : Z;
  slotLocalIndex_ : Z;
  climbWon : gmap Z bool;
  stop : bool;
  freeze : bool;
}.

Definition with_peerId_ (v : Z) (s : t) : t :=
    mk v (selfMember_ s) (active_ s) (peerScanBound_ s) (memberCache_ s) (domains_ s) (activeDomains_ s)
    (selfPending_ s) (pendingWaiters_ s) (numDomains s) (maxPeers s) (aggregatorGroups s)
    (successorPolicyKind s) (recoveryCycles s) (recoveryTarget s) (orphanSweepPending s) (tickTime s)
    (scanRefresh s) (claimTarget_ s) (stake_ s) (reconcileGate_ s) (groupId_ s) (slotLocalIndex_ s)
    (climbWon s) (stop s) (freeze s).
Definition with_selfMember_ (v : Member_t.t) (s : t) : t :=
    mk (peerId_ s) v (active_ s) (peerScanBound_ s) (memberCache_ s) (domains_ s) (activeDomains_ s)
    (selfPending_ s) (pendingWaiters_ s) (numDomains s) (maxPeers s) (aggregatorGroups s)
    (successorPolicyKind s) (recoveryCycles s) (recoveryTarget s) (orphanSweepPending s) (tickTime s)
    (scanRefresh s) (claimTarget_ s) (stake_ s) (reconcileGate_ s) (groupId_ s) (slotLocalIndex_ s)
    (climbWon s) (stop s) (freeze s).
Definition with_active_ (v : bool) (s : t) : t :=
    mk (peerId_ s) (selfMember_ s) v (peerScanBound_ s) (memberCache_ s) (domains_ s) (activeDomains_ s)
    (selfPending_ s) (pendingWaiters_ s) (numDomains s) (maxPeers s) (aggregatorGroups s)
    (successorPolicyKind s) (recoveryCycles s) (recoveryTarget s) (orphanSweepPending s) (tickTime s)
    (scanRefresh s) (claimTarget_ s) (stake_ s) (reconcileGate_ s) (groupId_ s) (slotLocalIndex_ s)
    (climbWon s) (stop s) (freeze s).
Definition with_peerScanBound_ (v : Z) (s : t) : t :=
    mk (peerId_ s) (selfMember_ s) (active_ s) v (memberCache_ s) (domains_ s) (activeDomains_ s)
    (selfPending_ s) (pendingWaiters_ s) (numDomains s) (maxPeers s) (aggregatorGroups s)
    (successorPolicyKind s) (recoveryCycles s) (recoveryTarget s) (orphanSweepPending s) (tickTime s)
    (scanRefresh s) (claimTarget_ s) (stake_ s) (reconcileGate_ s) (groupId_ s) (slotLocalIndex_ s)
    (climbWon s) (stop s) (freeze s).
Definition with_memberCache_ (v : gmap Z CachedMember_t.t) (s : t) : t :=
    mk (peerId_ s) (selfMember_ s) (active_ s) (peerScanBound_ s) v (domains_ s) (activeDomains_ s)
    (selfPending_ s) (pendingWaiters_ s) (numDomains s) (maxPeers s) (aggregatorGroups s)
    (successorPolicyKind s) (recoveryCycles s) (recoveryTarget s) (orphanSweepPending s) (tickTime s)
    (scanRefresh s) (claimTarget_ s) (stake_ s) (reconcileGate_ s) (groupId_ s) (slotLocalIndex_ s)
    (climbWon s) (stop s) (freeze s).
Definition with_domains_ (v : gmap Z LocalDomainView.t) (s : t) : t :=
    mk (peerId_ s) (selfMember_ s) (active_ s) (peerScanBound_ s) (memberCache_ s) v (activeDomains_ s)
    (selfPending_ s) (pendingWaiters_ s) (numDomains s) (maxPeers s) (aggregatorGroups s)
    (successorPolicyKind s) (recoveryCycles s) (recoveryTarget s) (orphanSweepPending s) (tickTime s)
    (scanRefresh s) (claimTarget_ s) (stake_ s) (reconcileGate_ s) (groupId_ s) (slotLocalIndex_ s)
    (climbWon s) (stop s) (freeze s).
Definition with_activeDomains_ (v : Bits.t) (s : t) : t :=
    mk (peerId_ s) (selfMember_ s) (active_ s) (peerScanBound_ s) (memberCache_ s) (domains_ s) v
    (selfPending_ s) (pendingWaiters_ s) (numDomains s) (maxPeers s) (aggregatorGroups s)
    (successorPolicyKind s) (recoveryCycles s) (recoveryTarget s) (orphanSweepPending s) (tickTime s)
    (scanRefresh s) (claimTarget_ s) (stake_ s) (reconcileGate_ s) (groupId_ s) (slotLocalIndex_ s)
    (climbWon s) (stop s) (freeze s).
Definition with_selfPending_ (v : Bits.t) (s : t) : t :=
    mk (peerId_ s) (selfMember_ s) (active_ s) (peerScanBound_ s) (memberCache_ s) (domains_ s)
    (activeDomains_ s) v (pendingWaiters_ s) (numDomains s) (maxPeers s) (aggregatorGroups s)
    (successorPolicyKind s) (recoveryCycles s) (recoveryTarget s) (orphanSweepPending s) (tickTime s)
    (scanRefresh s) (claimTarget_ s) (stake_ s) (reconcileGate_ s) (groupId_ s) (slotLocalIndex_ s)
    (climbWon s) (stop s) (freeze s).
Definition with_pendingWaiters_ (v : gmap Z Z) (s : t) : t :=
    mk (peerId_ s) (selfMember_ s) (active_ s) (peerScanBound_ s) (memberCache_ s) (domains_ s)
    (activeDomains_ s) (selfPending_ s) v (numDomains s) (maxPeers s) (aggregatorGroups s)
    (successorPolicyKind s) (recoveryCycles s) (recoveryTarget s) (orphanSweepPending s) (tickTime s)
    (scanRefresh s) (claimTarget_ s) (stake_ s) (reconcileGate_ s) (groupId_ s) (slotLocalIndex_ s)
    (climbWon s) (stop s) (freeze s).
Definition with_numDomains (v : Z) (s : t) : t :=
    mk (peerId_ s) (selfMember_ s) (active_ s) (peerScanBound_ s) (memberCache_ s) (domains_ s)
    (activeDomains_ s) (selfPending_ s) (pendingWaiters_ s) v (maxPeers s) (aggregatorGroups s)
    (successorPolicyKind s) (recoveryCycles s) (recoveryTarget s) (orphanSweepPending s) (tickTime s)
    (scanRefresh s) (claimTarget_ s) (stake_ s) (reconcileGate_ s) (groupId_ s) (slotLocalIndex_ s)
    (climbWon s) (stop s) (freeze s).
Definition with_maxPeers (v : Z) (s : t) : t :=
    mk (peerId_ s) (selfMember_ s) (active_ s) (peerScanBound_ s) (memberCache_ s) (domains_ s)
    (activeDomains_ s) (selfPending_ s) (pendingWaiters_ s) (numDomains s) v (aggregatorGroups s)
    (successorPolicyKind s) (recoveryCycles s) (recoveryTarget s) (orphanSweepPending s) (tickTime s)
    (scanRefresh s) (claimTarget_ s) (stake_ s) (reconcileGate_ s) (groupId_ s) (slotLocalIndex_ s)
    (climbWon s) (stop s) (freeze s).
Definition with_aggregatorGroups (v : Z) (s : t) : t :=
    mk (peerId_ s) (selfMember_ s) (active_ s) (peerScanBound_ s) (memberCache_ s) (domains_ s)
    (activeDomains_ s) (selfPending_ s) (pendingWaiters_ s) (numDomains s) (maxPeers s) v
    (successorPolicyKind s) (recoveryCycles s) (recoveryTarget s) (orphanSweepPending s) (tickTime s)
    (scanRefresh s) (claimTarget_ s) (stake_ s) (reconcileGate_ s) (groupId_ s) (slotLocalIndex_ s)
    (climbWon s) (stop s) (freeze s).
Definition with_successorPolicyKind (v : Strategy) (s : t) : t :=
    mk (peerId_ s) (selfMember_ s) (active_ s) (peerScanBound_ s) (memberCache_ s) (domains_ s)
    (activeDomains_ s) (selfPending_ s) (pendingWaiters_ s) (numDomains s) (maxPeers s)
    (aggregatorGroups s) v (recoveryCycles s) (recoveryTarget s) (orphanSweepPending s) (tickTime s)
    (scanRefresh s) (claimTarget_ s) (stake_ s) (reconcileGate_ s) (groupId_ s) (slotLocalIndex_ s)
    (climbWon s) (stop s) (freeze s).
Definition with_recoveryCycles (v : Z) (s : t) : t :=
    mk (peerId_ s) (selfMember_ s) (active_ s) (peerScanBound_ s) (memberCache_ s) (domains_ s)
    (activeDomains_ s) (selfPending_ s) (pendingWaiters_ s) (numDomains s) (maxPeers s)
    (aggregatorGroups s) (successorPolicyKind s) v (recoveryTarget s) (orphanSweepPending s) (tickTime
    s) (scanRefresh s) (claimTarget_ s) (stake_ s) (reconcileGate_ s) (groupId_ s) (slotLocalIndex_ s)
    (climbWon s) (stop s) (freeze s).
Definition with_recoveryTarget (v : Z) (s : t) : t :=
    mk (peerId_ s) (selfMember_ s) (active_ s) (peerScanBound_ s) (memberCache_ s) (domains_ s)
    (activeDomains_ s) (selfPending_ s) (pendingWaiters_ s) (numDomains s) (maxPeers s)
    (aggregatorGroups s) (successorPolicyKind s) (recoveryCycles s) v (orphanSweepPending s) (tickTime
    s) (scanRefresh s) (claimTarget_ s) (stake_ s) (reconcileGate_ s) (groupId_ s) (slotLocalIndex_ s)
    (climbWon s) (stop s) (freeze s).
Definition with_orphanSweepPending (v : bool) (s : t) : t :=
    mk (peerId_ s) (selfMember_ s) (active_ s) (peerScanBound_ s) (memberCache_ s) (domains_ s)
    (activeDomains_ s) (selfPending_ s) (pendingWaiters_ s) (numDomains s) (maxPeers s)
    (aggregatorGroups s) (successorPolicyKind s) (recoveryCycles s) (recoveryTarget s) v (tickTime s)
    (scanRefresh s) (claimTarget_ s) (stake_ s) (reconcileGate_ s) (groupId_ s) (slotLocalIndex_ s)
    (climbWon s) (stop s) (freeze s).
Definition with_tickTime (v : Z) (s : t) : t :=
    mk (peerId_ s) (selfMember_ s) (active_ s) (peerScanBound_ s) (memberCache_ s) (domains_ s)
    (activeDomains_ s) (selfPending_ s) (pendingWaiters_ s) (numDomains s) (maxPeers s)
    (aggregatorGroups s) (successorPolicyKind s) (recoveryCycles s) (recoveryTarget s)
    (orphanSweepPending s) v (scanRefresh s) (claimTarget_ s) (stake_ s) (reconcileGate_ s) (groupId_ s)
    (slotLocalIndex_ s) (climbWon s) (stop s) (freeze s).
Definition with_scanRefresh (v : Z) (s : t) : t :=
    mk (peerId_ s) (selfMember_ s) (active_ s) (peerScanBound_ s) (memberCache_ s) (domains_ s)
    (activeDomains_ s) (selfPending_ s) (pendingWaiters_ s) (numDomains s) (maxPeers s)
    (aggregatorGroups s) (successorPolicyKind s) (recoveryCycles s) (recoveryTarget s)
    (orphanSweepPending s) (tickTime s) v (claimTarget_ s) (stake_ s) (reconcileGate_ s) (groupId_ s)
    (slotLocalIndex_ s) (climbWon s) (stop s) (freeze s).
Definition with_claimTarget_ (v : Z) (s : t) : t :=
    mk (peerId_ s) (selfMember_ s) (active_ s) (peerScanBound_ s) (memberCache_ s) (domains_ s)
    (activeDomains_ s) (selfPending_ s) (pendingWaiters_ s) (numDomains s) (maxPeers s)
    (aggregatorGroups s) (successorPolicyKind s) (recoveryCycles s) (recoveryTarget s)
    (orphanSweepPending s) (tickTime s) (scanRefresh s) v (stake_ s) (reconcileGate_ s) (groupId_ s)
    (slotLocalIndex_ s) (climbWon s) (stop s) (freeze s).
Definition with_stake_ (v : Claim.t) (s : t) : t :=
    mk (peerId_ s) (selfMember_ s) (active_ s) (peerScanBound_ s) (memberCache_ s) (domains_ s)
    (activeDomains_ s) (selfPending_ s) (pendingWaiters_ s) (numDomains s) (maxPeers s)
    (aggregatorGroups s) (successorPolicyKind s) (recoveryCycles s) (recoveryTarget s)
    (orphanSweepPending s) (tickTime s) (scanRefresh s) (claimTarget_ s) v (reconcileGate_ s) (groupId_
    s) (slotLocalIndex_ s) (climbWon s) (stop s) (freeze s).
Definition with_reconcileGate_ (v : Z) (s : t) : t :=
    mk (peerId_ s) (selfMember_ s) (active_ s) (peerScanBound_ s) (memberCache_ s) (domains_ s)
    (activeDomains_ s) (selfPending_ s) (pendingWaiters_ s) (numDomains s) (maxPeers s)
    (aggregatorGroups s) (successorPolicyKind s) (recoveryCycles s) (recoveryTarget s)
    (orphanSweepPending s) (tickTime s) (scanRefresh s) (claimTarget_ s) (stake_ s) v (groupId_ s)
    (slotLocalIndex_ s) (climbWon s) (stop s) (freeze s).
Definition with_groupId_ (v : Z) (s : t) : t :=
    mk (peerId_ s) (selfMember_ s) (active_ s) (peerScanBound_ s) (memberCache_ s) (domains_ s)
    (activeDomains_ s) (selfPending_ s) (pendingWaiters_ s) (numDomains s) (maxPeers s)
    (aggregatorGroups s) (successorPolicyKind s) (recoveryCycles s) (recoveryTarget s)
    (orphanSweepPending s) (tickTime s) (scanRefresh s) (claimTarget_ s) (stake_ s) (reconcileGate_ s) v
    (slotLocalIndex_ s) (climbWon s) (stop s) (freeze s).
Definition with_slotLocalIndex_ (v : Z) (s : t) : t :=
    mk (peerId_ s) (selfMember_ s) (active_ s) (peerScanBound_ s) (memberCache_ s) (domains_ s)
    (activeDomains_ s) (selfPending_ s) (pendingWaiters_ s) (numDomains s) (maxPeers s)
    (aggregatorGroups s) (successorPolicyKind s) (recoveryCycles s) (recoveryTarget s)
    (orphanSweepPending s) (tickTime s) (scanRefresh s) (claimTarget_ s) (stake_ s) (reconcileGate_ s)
    (groupId_ s) v (climbWon s) (stop s) (freeze s).
Definition with_climbWon (v : gmap Z bool) (s : t) : t :=
    mk (peerId_ s) (selfMember_ s) (active_ s) (peerScanBound_ s) (memberCache_ s) (domains_ s)
    (activeDomains_ s) (selfPending_ s) (pendingWaiters_ s) (numDomains s) (maxPeers s)
    (aggregatorGroups s) (successorPolicyKind s) (recoveryCycles s) (recoveryTarget s)
    (orphanSweepPending s) (tickTime s) (scanRefresh s) (claimTarget_ s) (stake_ s) (reconcileGate_ s)
    (groupId_ s) (slotLocalIndex_ s) v (stop s) (freeze s).
Definition with_stop (v : bool) (s : t) : t :=
    mk (peerId_ s) (selfMember_ s) (active_ s) (peerScanBound_ s) (memberCache_ s) (domains_ s)
    (activeDomains_ s) (selfPending_ s) (pendingWaiters_ s) (numDomains s) (maxPeers s)
    (aggregatorGroups s) (successorPolicyKind s) (recoveryCycles s) (recoveryTarget s)
    (orphanSweepPending s) (tickTime s) (scanRefresh s) (claimTarget_ s) (stake_ s) (reconcileGate_ s)
    (groupId_ s) (slotLocalIndex_ s) (climbWon s) v (freeze s).
Definition with_freeze (v : bool) (s : t) : t :=
    mk (peerId_ s) (selfMember_ s) (active_ s) (peerScanBound_ s) (memberCache_ s) (domains_ s)
    (activeDomains_ s) (selfPending_ s) (pendingWaiters_ s) (numDomains s) (maxPeers s)
    (aggregatorGroups s) (successorPolicyKind s) (recoveryCycles s) (recoveryTarget s)
    (orphanSweepPending s) (tickTime s) (scanRefresh s) (claimTarget_ s) (stake_ s) (reconcileGate_ s)
    (groupId_ s) (slotLocalIndex_ s) (climbWon s) (stop s) v.

Definition isValidPeer (s : t) (peerId : Z) : bool := peerId <? maxPeers s.
Definition getDomain (s : t) (domainId : Z) : LocalDomainView.t := domains_ s !!! domainId.
Definition upd_domain (domainId : Z) (f : LocalDomainView.t -> LocalDomainView.t) (s : t) : t :=
  with_domains_ (<[domainId := f (getDomain s domainId)]> (domains_ s)) s.

Definition getDomainIdRange (s : t) : list Z := IdRange 0 (numDomains s).
Definition getDataDomainIdRange (s : t) : list Z := IdRange 1 (numDomains s).
Definition getActiveDomainRange (s : t) : list Z := Bits.iterate MaxDomains (activeDomains_ s).
Definition getPeerScanBound (s : t) : Z :=
  if negb (peerScanBound_ s =? 0) then peerScanBound_ s else maxPeers s.
Definition getPeerIdRange (s : t) : list Z := IdRange 0 (getPeerScanBound s).
Definition getPeerRing (s : t) : list Z := IdRing (peerId_ s) (getPeerScanBound s).

Definition getParticipating (s : t) : Bits.t := Member_t.loadParticipatingDomains (selfMember_ s).
Definition isParticipating (s : t) (domainId : Z) : bool := Bits.has (getParticipating s) domainId.
Definition isPendingDomain (s : t) (domainId : Z) : bool := Bits.has (selfPending_ s) domainId.

(** The takeover-span countdown of the recovery state machine. *)
Definition isRecoveryArmed (s : t) (targetPeerId : Z) : bool :=
  (0 <? recoveryCycles s) && (recoveryTarget s =? targetPeerId).
Definition setRecoveryCycles (targetPeerId : Z) (s : t) : t :=
  with_recoveryTarget targetPeerId (with_recoveryCycles config.recovery.QuietCycles s).
Definition resetRecoveryCycles (s : t) : t :=
  with_recoveryTarget NoPeer (with_recoveryCycles 0 s).
Definition isRecoveryOngoing (s : t) : bool * t :=
  if recoveryCycles s =? 0 then (false, s)
  else
    let s := with_recoveryCycles (recoveryCycles s - 1) s in
    if recoveryCycles s =? 0 then (false, with_recoveryTarget NoPeer s) else (true, s).

Definition requestOrphanSweep (s : t) : t := with_orphanSweepPending true s.
Definition clearOrphanSweep (s : t) : t := with_orphanSweepPending false s.

Definition tickPeriodicScan (s : t) : bool * t :=
  let '(due, next) := timing.PeriodicGate.isDue (scanRefresh s) (tickTime s)
                        config.poll_thread.ScanRefreshInterval in
  (due, with_scanRefresh next s).

End LocalPeerState.

(** ** Worlds and effects *)

Module Env.
Record t := mk {
  clock : nat -> Z;          (* timing::now, by read *)
  wall : nat -> Z;           (* timing::wall<Nanos>, by read *)
  draw : nat -> Z;           (* the nonce engine, by draw *)
  interf : nat -> Region.t -> Region.t;   (* the other peers, before each access *)
  fuel : nat;                (* turns a deadline loop may take *)
}.
End Env.

Module World.
Record t := mk {
  region : Region.t;
  local : LocalPeerState.t;
  accesses : nat;
  clockReads : nat;
  wallReads : nat;
  draws : nat;
  steps : list (Region.t * Region.t);
}.

Definition with_region (v : Region.t) (s : t) : t :=
  mk v (local s) (accesses s) (clockReads s) (wallReads s) (draws s) (steps s).
Definition with_local (v : LocalPeerState.t) (s : t) : t :=
  mk (region s) v (accesses s) (clockReads s) (wallReads s) (draws s) (steps s).
Definition with_accesses (v : nat) (s : t) : t :=
  mk (region s) (local s) v (clockReads s) (wallReads s) (draws s) (steps s).
Definition with_clockReads (v : nat) (s : t) : t :=
  mk (region s) (local s) (accesses s) v (wallReads s) (draws s) (steps s).
Definition with_wallReads (v : nat) (s : t) : t :=
  mk (region s) (local s) (accesses s) (clockReads s) v (draws s) (steps s).
Definition with_draws (v : nat) (s : t) : t :=
  mk (region s) (local s) (accesses s) (clockReads s) (wallReads s) v (steps s).
Definition with_steps (v : list (Region.t * Region.t)) (s : t) : t :=
  mk (region s) (local s) (accesses s) (clockReads s) (wallReads s) (draws s) v.
End World.

(** The handlers of one peer: the runs of [Effect] over the region and this
    peer's process. *)
Definition M : Type -> Type := run Env.t World.t.

(** The world once the other peers' writes up to this access have landed. *)
Definition tick (E : Env.t) (w : World.t) : World.t :=
  World.with_accesses (S (World.accesses w))
    (World.with_region (Env.interf E (World.accesses w) (World.region w)) w).

(** The world after this peer's store [f], the step on record. *)
Definition put (f : Region.t -> Region.t) (w : World.t) : World.t :=
  World.with_steps ((World.region w, f (World.region w)) :: World.steps w)
    (World.with_region (f (World.region w)) w).

(** [coherency::get] of a line: [f] selects it. *)
Definition read {A} (f : Region.t -> A) : M A := fun E w =>
  let w := tick E w in Some (f (World.region w), w).

(** [coherency::set] of a line. *)
Definition write (f : Region.t -> Region.t) : M unit := fun E w => Some (tt, put f (tick E w)).

(** [coherency::rmw]: a whole-line get, then the whole line set back; another
    writer may land between the two. *)
Definition rmw {T} (slot : Region.t -> T) (store : T -> Region.t -> Region.t) (mutate : T -> T) : M unit :=
  let! copy := read slot in
  write (store (mutate copy)).

(** [coherency::rmwIfTrue]: a [None] of [mutate] leaves the slot unwritten. *)
Definition rmwIfTrue {T} (slot : Region.t -> T) (store : T -> Region.t -> Region.t)
    (mutate : T -> option T) : M bool :=
  let! copy := read slot in
  match mutate copy with
  | None => ret false
  | Some copy => write (store copy) ;;; ret true
  end.

(** The same with a [mutate] that itself looks at the region. *)
Definition rmwIfTrueM {T} (slot : Region.t -> T) (store : T -> Region.t -> Region.t)
    (mutate : T -> M (option T)) : M bool :=
  let! copy := read slot in
  let! changed := mutate copy in
  match changed with
  | None => ret false
  | Some copy => write (store copy) ;;; ret true
  end.

Definition get {A} (f : LocalPeerState.t -> A) : M A := fun _ w => Some (f (World.local w), w).
Definition modify (f : LocalPeerState.t -> LocalPeerState.t) : M unit :=
  fun _ w => Some (tt, World.with_local (f (World.local w)) w).
(** A query that also changes the DRAM state. *)
Definition query {A} (f : LocalPeerState.t -> A * LocalPeerState.t) : M A :=
  fun _ w => let '(a, l) := f (World.local w) in Some (a, World.with_local l w).

Definition now : M Z := fun E w =>
  Some (Env.clock E (World.clockReads w), World.with_clockReads (S (World.clockReads w)) w).
Definition wallNow : M Z := fun E w =>
  Some (Env.wall E (World.wallReads w), World.with_wallReads (S (World.wallReads w)) w).
Definition drawNonce : M Z := fun E w =>
  Some (Env.draw E (World.draws w), World.with_draws (S (World.draws w)) w).
Definition getFuel : M nat := fun E w => Some (Env.fuel E, w).
(** ** Total correctness: the rules of the accesses *)

Section wp_rules.
Context (E : Env.t).

Lemma wp_read {A} (f : Region.t -> A) (Q : A -> World.t -> Prop) w :
  Q (f (World.region (tick E w))) (tick E w) -> wp (read f) E Q w.
Proof. done. Qed.

Lemma wp_write f (Q : unit -> World.t -> Prop) w : Q tt (put f (tick E w)) -> wp (write f) E Q w.
Proof. done. Qed.

Lemma wp_get {A} (f : LocalPeerState.t -> A) (Q : A -> World.t -> Prop) w :
  Q (f (World.local w)) w -> wp (get f) E Q w.
Proof. done. Qed.

Lemma wp_modify f (Q : unit -> World.t -> Prop) w :
  Q tt (World.with_local (f (World.local w)) w) -> wp (modify f) E Q w.
Proof. done. Qed.

Lemma wp_query {A} (f : LocalPeerState.t -> A * LocalPeerState.t) (Q : A -> World.t -> Prop) w :
  Q (f (World.local w)).1 (World.with_local (f (World.local w)).2 w) -> wp (query f) E Q w.
Proof. unfold wp, query. by destruct (f (World.local w)). Qed.

Lemma wp_now (Q : Z -> World.t -> Prop) w :
  Q (Env.clock E (World.clockReads w)) (World.with_clockReads (S (World.clockReads w)) w) ->
  wp now E Q w.
Proof. done. Qed.

Lemma wp_wallNow (Q : Z -> World.t -> Prop) w :
  Q (Env.wall E (World.wallReads w)) (World.with_wallReads (S (World.wallReads w)) w) ->
  wp wallNow E Q w.
Proof. done. Qed.

Lemma wp_drawNonce (Q : Z -> World.t -> Prop) w :
  Q (Env.draw E (World.draws w)) (World.with_draws (S (World.draws w)) w) -> wp drawNonce E Q w.
Proof. done. Qed.

Lemma wp_getFuel (Q : nat -> World.t -> Prop) w : Q (Env.fuel E) w -> wp getFuel E Q w.
Proof. done. Qed.

End wp_rules.

(** One step of symbolic execution. *)
Ltac wp_step :=
  match goal with
  | |- wp (bind _ _) _ _ _ => apply wp_bind
  | |- wp (ret _) _ _ _ => apply wp_ret
  | |- wp (read _) _ _ _ => apply wp_read
  | |- wp (write _) _ _ _ => apply wp_write
  | |- wp (get _) _ _ _ => apply wp_get
  | |- wp (modify _) _ _ _ => apply wp_modify
  | |- wp (query _) _ _ _ => apply wp_query
  | |- wp now _ _ _ => apply wp_now
  | |- wp wallNow _ _ _ => apply wp_wallNow
  | |- wp drawNonce _ _ _ => apply wp_drawNonce
  | |- wp getFuel _ _ _ => apply wp_getFuel
  | |- wp (rmw _ _ _) _ _ _ => unfold rmw
  | |- wp (rmwIfTrue _ _ _) _ _ _ => unfold rmwIfTrue
  | |- wp (match ?x with _ => _ end) _ _ _ => let E := fresh "Hc" in destruct x eqn:E
  end.
Ltac wp_run := repeat (wp_step; cbv beta).

(** The same where only a run that returns matters. *)
Ltac wlp_step :=
  lazymatch goal with
  | |- wlp (bind _ _) _ _ _ => apply wlp_bind
  | |- wlp (match ?x with _ => _ end) _ _ _ => let E := fresh "Hc" in destruct x eqn:E
  | |- wlp _ _ _ _ => apply wp_to_wlp; wp_step
  end; cbv beta.

(** ** Rely and guarantee *)

(** The other peers only take steps of [R]. *)
Definition respects (E : Env.t) (R : Region.t -> Region.t -> Prop) : Prop :=
  forall n r, R r (Env.interf E n r).

(** Every store this peer made is a step of [G]. *)
Definition guarantees (G : Region.t -> Region.t -> Prop) (w : World.t) : Prop :=
  Forall (fun step => G step.1 step.2) (World.steps w).

(** No other peer acts. *)
Definition quiet (E : Env.t) : Prop := forall n r, Env.interf E n r = r.

Lemma tick_respects E R w : respects E R -> R (World.region w) (World.region (tick E w)).
Proof. intros H. apply H. Qed.

Lemma tick_quiet E w : quiet E -> World.region (tick E w) = World.region w.
Proof. intros H. apply H. Qed.

Lemma tick_guarantees E G w : guarantees G w -> guarantees G (tick E w).
Proof. done. Qed.

Lemma put_guarantees G f w :
  guarantees G w -> G (World.region w) (f (World.region w)) -> guarantees G (put f w).
Proof. intros. by constructor. Qed.

Lemma with_local_guarantees G l w : guarantees G w -> guarantees G (World.with_local l w).
Proof. done. Qed.

Lemma with_clockReads_guarantees G n w : guarantees G w -> guarantees G (World.with_clockReads n w).
Proof. done. Qed.

Lemma with_wallReads_guarantees G n w : guarantees G w -> guarantees G (World.with_wallReads n w).
Proof. done. Qed.

Lemma with_draws_guarantees G n w : guarantees G w -> guarantees G (World.with_draws n w).
Proof. done. Qed.

#[export] Hint Resolve tick_guarantees put_guarantees with_local_guarantees
  with_clockReads_guarantees with_wallReads_guarantees with_draws_guarantees : cme.

(** Within [Env.fuel] readings of the clock at least [budget] passes: the loops
    that wait on a deadline of that budget return. *)
Definition clock_advances (E : Env.t) (budget : Z) : Prop :=
  forall n, Env.clock E n + budget <= Env.clock E (n + Env.fuel E)%nat.

Definition clock_monotone (E : Env.t) : Prop :=
  forall n m, (n <= m)%nat -> Env.clock E n <= Env.clock E m.

(** A loop of [fuel] turns that reads the clock once per turn, from reading [n]
    on, meets the deadline. *)
Definition covered (E : Env.t) (fuel : nat) (deadline : timing.Deadline.t) (n : nat) : Prop :=
  exists k, (k < fuel)%nat /\ timing.Deadline.expiredAt deadline (Env.clock E (n + k)%nat) = true.

Lemma covered_pos E deadline n : ~ covered E 0 deadline n.
Proof. intros (k & Hk & _). lia. Qed.

Lemma covered_next E fuel deadline n :
  covered E (S fuel) deadline n -> timing.Deadline.expiredAt deadline (Env.clock E n) = false ->
  covered E fuel deadline (S n).
Proof.
  intros (k & Hk & Hexp) Hn. destruct k as [|k]; [rewrite Nat.add_0_r in Hexp; congruence|].
  exists k. split; [lia|]. by replace (S n + k)%nat with (n + S k)%nat by lia.
Qed.

(** The loop has a turn to spare for the reading that finds the deadline past. *)
Lemma fuel_covers E budget deadline n :
  clock_advances E budget -> timing.Deadline.ends_ deadline <= Env.clock E n + budget ->
  covered E (S (Env.fuel E)) deadline n.
Proof.
  intros Hadv Hend. exists (Env.fuel E). split; [lia|]. unfold timing.Deadline.expiredAt.
  apply Z.leb_le. specialize (Hadv n). lia.
Qed.
