(* ===== verification/Threads.v ===== *)
(** * Threads: the workers and the poll thread of one peer on one domain

    The other files run one thread of a peer at a time.  Here the threads of one
    peer interleave at every access to what they share: the pin word and the
    belief of [local_domain_view.cpp] and the domain's truth record, under
    [waitForOwnership], [holdAndCheckResident], [transferOwnershipGuarded] and
    [reconcileHolderBelief] of [ownership_transfer.cpp], as [OrderPolicy] and the
    request policies compose them.

    A thread is the access it takes next.  The other peers write the record only
    while it does not name this one.  What a thread finds outside the shared
    words is the [answer] of a step: whether the shadow shows an edge, whether
    the deadline is past, and which successor a scan picks. *)

From S2P Require Import Prelude Types Layout Region World.

Module peer_threads.

Inductive ppc :=
| POut                      (* in no call *)
| PPinLoad                  (* [pinOwnership]: the load *)
| PPinCas (cur : Z)         (* its [cas] *)
| PBelief                   (* the look at [isHolder] *)
| PConfirm                  (* the belief against the record *)
| PDisprove                 (* [loseHolder] *)
| PWait                     (* the loop: the deadline and the shadow *)
| PTruth                    (* an edge against the record *)
| PAdopt                    (* [adoptOwnership] *)
| PInside                   (* the lock is held *)
| PGiveLoad | PGiveCas (cur : Z)       (* [unholdDomain] after the deadline *)
| PUnpinLoad | PUnpinCas (cur : Z)     (* [unlock]: [unpinOwnership] *)
| PHolder                   (* the poll thread: the look at [isHolder] *)
| PCan                      (* [canTransferDomain] *)
| PLatch (newHolder : Z)    (* [tryBeginOwnershipTransfer] *)
| PRead (newHolder : Z)     (* [transferOwnership]: the record *)
| PLose (record : DomainRecord_t.t)    (* [loseHolder] *)
| PPublish (record : DomainRecord_t.t) (* the truth record *)
| PEnd                      (* [endOwnershipTransfer] *)
| PReconcile | PRegain | PDrop | PRecheck.  (* [reconcileHolderBelief] *)

#[global] Instance ppc_eq_dec : EqDecision ppc.
Proof. solve_decision. Defined.

Module Shared.
Record t := mk {
  view : LocalDomainView.t;
  truth : DomainRecord_t.t;
  threads : gmap Z ppc;
}.
Definition with_view (v : LocalDomainView.t) (s : t) : t := mk v (truth s) (threads s).
Definition with_truth (v : DomainRecord_t.t) (s : t) : t := mk (view s) v (threads s).
Definition goes (thread : Z) (p : ppc) (s : t) : t := mk (view s) (truth s) (<[thread := p]> (threads s)).
Definition pcOf (s : t) (thread : Z) : ppc := standing POut (threads s) thread.
End Shared.
Import Shared.

Record answer := mkAnswer { edge : bool; expired : bool; successor : option Z; }.

Section machine.
(** The peer, and how many threads it has at most. *)
Context (self threadCount : Z).
Local Abbreviation T := LocalDomainView.TransferringPins.

Definition named (record : DomainRecord_t.t) : bool :=
  DomainRecord_t.isValidMagic record && (DomainRecord_t.getHolder record =? self).

(** The loop of a [cas] on the pin word: what the load finds, and the swap. *)
Definition pinLoad (s : t) : Z := LocalDomainView.pinCount (view s).
Definition cas (expected desired : Z) (s : t) : bool * t :=
  if pinLoad s =? expected then (true, with_view (LocalDomainView.with_pinCount desired (view s)) s) else (false, s).

(** The body of [unpinOwnership], from the value last loaded. *)
Definition unpinFrom (cur : Z) (done_ again : ppc) : ppc := if (0 <? cur) && negb (cur =? T) then again else done_.

(** Each function, an access at a time. *)
Definition pinOwnership (thread : Z) (p : ppc) (s : t) : option t :=
  match p with
  | PPinLoad => Some (goes thread (if pinLoad s =? T then PPinLoad else PPinCas (pinLoad s)) s)
  | PPinCas cur =>
      let '(won, s') := cas cur (u32 (cur + 1)) s in
      if won then Some (goes thread PBelief s')
      else Some (goes thread (if pinLoad s =? T then PPinLoad else PPinCas (pinLoad s)) s)
  | _ => None
  end.

Definition waitForOwnership (thread : Z) (a : answer) (p : ppc) (s : t) : option t :=
  match p with
  | PBelief => Some (goes thread (if LocalDomainView.isHolder (view s) then PConfirm else PWait) s)
  | PConfirm => Some (goes thread (if named (truth s) then PInside else PDisprove) s)
  | PDisprove => Some (goes thread PWait (with_view (LocalDomainView.loseHolder (view s)) s))
  | PWait => Some (goes thread (if expired a then PGiveLoad else if edge a then PTruth else PWait) s)
  | PTruth => Some (goes thread (if named (truth s) then PAdopt else PWait) s)
  | PAdopt => Some (goes thread PInside (with_view (LocalDomainView.becomeHolder (view s)) s))
  | _ => None
  end.

Definition unpinOwnership (thread : Z) (p : ppc) (s : t) : option t :=
  match p with
  | PGiveLoad => Some (goes thread (unpinFrom (pinLoad s) POut (PGiveCas (pinLoad s))) s)
  | PGiveCas cur =>
      let '(won, s') := cas cur (cur - 1) s in
      if won then Some (goes thread POut s') else Some (goes thread (unpinFrom (pinLoad s) POut (PGiveCas (pinLoad s))) s)
  | PUnpinLoad => Some (goes thread (unpinFrom (pinLoad s) PCan (PUnpinCas (pinLoad s))) s)
  | PUnpinCas cur =>
      let '(won, s') := cas cur (cur - 1) s in
      if won then Some (goes thread PCan s') else Some (goes thread (unpinFrom (pinLoad s) PCan (PUnpinCas (pinLoad s))) s)
  | _ => None
  end.

(** The decision to hand the domain on, of an unlock and of a poll turn. *)
Definition decideTransfer (thread : Z) (a : answer) (p : ppc) (s : t) : option t :=
  match p with
  | PHolder => Some (goes thread (if LocalDomainView.isHolder (view s) then PCan else POut) s)
  | PCan =>
      Some (goes thread (if LocalDomainView.canTransferOwnership (view s)
        then match successor a with Some p => if p =? self then POut else PLatch p | None => POut end else POut) s)
  | _ => None
  end.

(** [transferOwnershipGuarded] with [transferOwnership] to another peer; the
    record read is not this peer's, or is none, and nothing is published. *)
Definition transferOwnershipGuarded (thread : Z) (p : ppc) (s : t) : option t :=
  match p with
  | PLatch newHolder =>
      let '(won, s') := cas 0 T s in Some (goes thread (if won then PRead newHolder else POut) s')
  | PRead newHolder =>
      Some (goes thread
        (if named (truth s)
         then PLose (DomainRecord_t.with_holder newHolder
                (DomainRecord_t.with_epoch (u64 (DomainRecord_t.epoch (truth s) + 1)) (truth s)))
         else PEnd) s)
  | PLose record => Some (goes thread (PPublish record) (with_view (LocalDomainView.loseHolder (view s)) s))
  | PPublish record => Some (goes thread PEnd (with_truth record s))
  | PEnd => Some (goes thread POut (with_view (LocalDomainView.endOwnershipTransfer (view s)) s))
  | _ => None
  end.

Definition reconcileHolderBelief (thread : Z) (p : ppc) (s : t) : option t :=
  match p with
  | PReconcile => Some (goes thread (if DomainRecord_t.getHolder (truth s) =? self then PRegain else PDrop) s)
  | PRegain => Some (goes thread PHolder (with_view (LocalDomainView.becomeHolder (view s)) s))
  | PDrop => Some (goes thread PRecheck (with_view (LocalDomainView.loseHolder (view s)) s))
  | PRecheck => Some (goes thread (if DomainRecord_t.getHolder (truth s) =? self then PRegain else PHolder) s)
  | _ => None
  end.

Definition step (thread : Z) (a : answer) (s : t) : option t :=
  let p := pcOf s thread in
  match p with
  | POut | PInside => None
  | PPinLoad | PPinCas _ => pinOwnership thread p s
  | PBelief | PConfirm | PDisprove | PWait | PTruth | PAdopt => waitForOwnership thread a p s
  | PGiveLoad | PGiveCas _ | PUnpinLoad | PUnpinCas _ => unpinOwnership thread p s
  | PHolder | PCan => decideTransfer thread a p s
  | PLatch _ | PRead _ | PLose _ | PPublish _ | PEnd => transferOwnershipGuarded thread p s
  | PReconcile | PRegain | PDrop | PRecheck => reconcileHolderBelief thread p s
  end.

(** The calls: a thread in none begins a lock or a poll turn, with or without
    the check of its belief, and the thread inside begins its unlock. *)
Definition lock (thread : Z) (s : t) : t := goes thread PPinLoad s.
Definition unlock (thread : Z) (s : t) : t := goes thread PUnpinLoad s.
Definition pollTurn (thread : Z) (check : bool) (s : t) : t := goes thread (if check then PReconcile else PHolder) s.

(** What the peer itself does, and what can happen to it. *)
Inductive own (s : t) : t -> Prop :=
| o_lock thread : 0 <= thread < threadCount -> pcOf s thread = POut -> own s (lock thread s)
| o_unlock thread : pcOf s thread = PInside -> own s (unlock thread s)
| o_poll thread check : 0 <= thread < threadCount -> pcOf s thread = POut -> own s (pollTurn thread check s)
| o_step thread a s' : step thread a s = Some s' -> own s s'.
Inductive move (s : t) : t -> Prop :=
| m_own s' : own s s' -> move s s'
| m_others record : DomainRecord_t.holder (truth s) <> self -> move s (with_truth record s).

(** No thread in a call and no pin, whatever the record and the belief. *)
Definition idle (s : t) : Prop := threads s = ∅ /\ LocalDomainView.pinCount (view s) = 0.

(** ** The invariant *)

Definition pinned (p : ppc) : bool :=
  match p with
  | PBelief | PConfirm | PDisprove | PWait | PTruth | PAdopt | PInside | PGiveLoad | PGiveCas _ | PUnpinLoad | PUnpinCas _ => true
  | _ => false
  end.
Definition latched (p : ppc) : bool :=
  match p with PRead _ | PLose _ | PPublish _ | PEnd => true | _ => false end.
(** The thread has read the record as this peer's and acts on it. *)
Definition sure (p : ppc) : bool :=
  match p with PAdopt | PInside | PUnpinLoad | PUnpinCas _ | PLose _ | PPublish _ => true | _ => false end.
(** What a [cas] expects is a count of pins. *)
Definition plain (p : ppc) : Prop :=
  match p with
  | PPinCas cur => 0 <= cur < T
  | PGiveCas cur | PUnpinCas cur => 0 < cur < T
  | _ => True
  end.

Definition pins (s : t) : Z := Z.of_nat (size (those pinned (threads s))).
Definition latches (s : t) : Z := Z.of_nat (size (those latched (threads s))).

Record inv (s : t) : Prop := {
  inv_keys : forall thread, is_Some (threads s !! thread) -> 0 <= thread < threadCount;
  inv_word : latches s = 0 /\ pinLoad s = pins s \/ latches s = 1 /\ pins s = 0 /\ pinLoad s = T;
  inv_sure : forall thread, sure (pcOf s thread) = true -> DomainRecord_t.holder (truth s) = self;
  inv_plain : forall thread, plain (pcOf s thread);
}.

Hypothesis Hcount : 0 <= threadCount < T.

Lemma pcOf_moved thread other p s : pcOf (goes thread p s) other = if decide (thread = other) then p else pcOf s other.
Proof. apply standing_insert. Qed.

Lemma pins_bound s : (forall thread, is_Some (threads s !! thread) -> 0 <= thread < threadCount) -> 0 <= pins s <= threadCount.
Proof.
  intros Hk. split; [unfold pins; lia|]. unfold pins, those. rewrite <- size_dom.
  assert (dom (filter (fun e : Z * ppc => pinned e.2 = true) (threads s)) ⊆ (list_to_set (zrange 0 threadCount) : gset Z)) as Hs.
  { intros k Hin. apply elem_of_dom in Hin as [p Hp]. apply map_lookup_filter_Some in Hp as [Hp _].
    apply elem_of_list_to_set, elem_of_zrange, Hk. eauto. }
  apply subseteq_size in Hs. rewrite size_list_to_set in Hs by apply NoDup_zrange. unfold zrange in Hs. rewrite length_seqZ in Hs. lia.
Qed.

(** A thread moves on and the words change: what is left to show. *)
Lemma inv_moved thread p s s0 :
  inv s -> threads s0 = threads s -> (pcOf s thread <> POut \/ 0 <= thread < threadCount) ->
  let L := latches s + (if latched p then 1 else 0) - (if latched (pcOf s thread) then 1 else 0) in
  let N := pins s + (if pinned p then 1 else 0) - (if pinned (pcOf s thread) then 1 else 0) in
  (L = 0 /\ pinLoad s0 = N \/ L = 1 /\ N = 0 /\ pinLoad s0 = T) ->
  (DomainRecord_t.holder (truth s0) = DomainRecord_t.holder (truth s) \/
   forall other, other <> thread -> sure (pcOf s other) = false) ->
  (sure p = true -> DomainRecord_t.holder (truth s0) = self) -> plain p -> inv (goes thread p s0).
Proof.
  intros [Hk Hw Hs Hp] Ht Hkey L N Hword Htruth Hsure Hplain.
  assert (forall other, pcOf (goes thread p s0) other = if decide (thread = other) then p else pcOf s other) as Hpc.
  { intros other. rewrite pcOf_moved. unfold pcOf. by rewrite Ht. }
  split.
  - intros other. cbn. rewrite Ht, lookup_insert. intros [q Hq]. case_decide as Hd; [|apply Hk; eauto]. subst other.
    destruct Hkey as [Hne|?]; [|done]. apply Hk. unfold pcOf, standing in Hne. destruct (threads s !! thread); [eauto|done].
  - assert (latches (goes thread p s0) = L /\ pins (goes thread p s0) = N) as [-> ->]; [|exact Hword].
    unfold latches, pins, L, N, pcOf, goes. cbn [threads]. rewrite Ht.
    split; [by apply (those_insert latched POut)|by apply (those_insert pinned POut)].
  - intros other Ho. rewrite Hpc in Ho. cbn [truth goes]. case_decide as Hd; [by apply Hsure|].
    destruct Htruth as [->|Hno]; [by apply (Hs other)|]. rewrite Hno in Ho; done.
  - intros other. rewrite Hpc. case_decide; [done|apply Hp].
Qed.

Lemma pinned_counts s thread : pinned (pcOf s thread) = true -> 1 <= pins s.
Proof. apply (those_pos pinned POut eq_refl). Qed.
Lemma latched_counts s thread : latched (pcOf s thread) = true -> 1 <= latches s.
Proof. apply (those_pos latched POut eq_refl). Qed.

(** With the latch taken, nobody else is sure of anything. *)
Lemma latched_alone s thread other :
  inv s -> latched (pcOf s thread) = true -> other <> thread -> sure (pcOf s other) = false.
Proof.
  intros Hi Hl Hne. destruct (sure (pcOf s other)) eqn:Hs; [|done]. exfalso.
  pose proof (latched_counts _ _ Hl). destruct (inv_word _ Hi) as [[? _]|(H1 & H0 & _)]; [lia|].
  destruct (pinned (pcOf s other)) eqn:Hp; [apply pinned_counts in Hp; lia|].
  assert (latched (pcOf s other) = true) as Hlo by (destruct (pcOf s other); done).
  pose proof (those_two latched POut eq_refl (threads s) other thread Hlo Hl Hne) as H2. unfold latches in H1. lia.
Qed.

(** A move that changes neither the word nor the record. *)
Lemma inv_walk thread p s s0 :
  inv s -> threads s0 = threads s -> (pcOf s thread <> POut \/ 0 <= thread < threadCount) ->
  pinLoad s0 = pinLoad s -> truth s0 = truth s ->
  pinned p = pinned (pcOf s thread) -> latched p = latched (pcOf s thread) ->
  (sure p = true -> DomainRecord_t.holder (truth s) = self) -> plain p -> inv (goes thread p s0).
Proof.
  intros Hi Ht Hk Hw Htr Hp Hl Hs Hpl. apply (inv_moved thread p s); rewrite ?Htr; auto.
  pose proof (inv_word _ Hi). rewrite Hp, Hl, Hw. lia.
Qed.

Lemma cas_spec expected desired s :
  cas expected desired s = (true, with_view (LocalDomainView.with_pinCount desired (view s)) s) /\ pinLoad s = expected \/
  cas expected desired s = (false, s) /\ pinLoad s <> expected.
Proof. unfold cas. destruct (Z.eqb_spec (pinLoad s) expected); auto. Qed.

(** The word as a thread that holds a pin reads it. *)
Lemma pinned_word s thread : inv s -> pinned (pcOf s thread) = true -> 0 < pinLoad s < T /\ latches s = 0 /\ pinLoad s = pins s.
Proof.
  intros Hi Hp. apply pinned_counts in Hp. pose proof (pins_bound s (inv_keys _ Hi)).
  destruct (inv_word _ Hi) as [[? ?]|(? & ? & _)]; [|lia]. split_and!; lia.
Qed.

Lemma named_holder record : named record = true -> DomainRecord_t.holder record = self.
Proof. unfold named. intros H. apply andb_prop in H as [_ H]. by apply Z.eqb_eq in H. Qed.

(** The two [unpin] loops, which differ in where they go on. *)
Lemma inv_unpin thread cur s s' onward :
  inv s -> pcOf s thread = PGiveCas cur \/ pcOf s thread = PUnpinCas cur -> (onward = POut \/ onward = PCan) ->
  cas cur (cur - 1) s = (true, s') -> inv (goes thread onward s').
Proof.
  intros Hi Hpc Hon Hc. assert (pinned (pcOf s thread) = true) as Hp by (destruct Hpc as [-> | ->]; done).
  assert (latched (pcOf s thread) = false) as Hl by (destruct Hpc as [-> | ->]; done).
  destruct (pinned_word s thread Hi Hp) as (Hr & HL & HN).
  destruct (cas_spec cur (cur - 1) s) as [[Hc' He]|[Hc' _]]; rewrite Hc' in Hc; [|done]. injection Hc as <-.
  apply (inv_moved thread onward s); try done.
  - left. by destruct Hpc as [-> | ->].
  - rewrite Hp, Hl. destruct Hon as [-> | ->]; cbn; left; unfold pinLoad in *; cbn in *; lia.
  - by left.
  - by destruct Hon as [-> | ->].
  - by destruct Hon as [-> | ->].
Qed.

Lemma inv_unpin_again thread s again onward :
  inv s -> pinned (pcOf s thread) = true ->
  (forall cur, pinned (again cur) = true /\ latched (again cur) = false /\ (plain (again cur) <-> 0 < cur < T) /\
     (sure (again cur) = true -> sure (pcOf s thread) = true)) ->
  inv (goes thread (unpinFrom (pinLoad s) onward (again (pinLoad s))) s).
Proof.
  intros Hi Hp Ha. destruct (pinned_word s thread Hi Hp) as (Hr & HL & HN). unfold unpinFrom.
  rewrite (proj2 (Z.ltb_lt 0 _)), (proj2 (Z.eqb_neq _ T)) by lia. cbn [andb negb].
  destruct (Ha (pinLoad s)) as (H1 & H2 & H3 & H4).
  apply (inv_walk thread _ s); try done.
  - left. by intros He; rewrite He in Hp.
  - congruence.
  - rewrite H2. by destruct (pcOf s thread).
  - intros Hs. apply (inv_sure _ Hi thread). auto.
  - by apply H3.
Qed.

(** The threads that wait for a pin, and the one that takes the latch. *)
Lemma inv_pin thread s s' cur : inv s -> pcOf s thread = PPinCas cur ->
  cas cur (u32 (cur + 1)) s = (true, s') -> inv (goes thread PBelief s').
Proof.
  intros Hi Hpc Hc. pose proof (inv_plain _ Hi thread) as Hpl. rewrite Hpc in Hpl. cbn in Hpl.
  pose proof (pins_bound s (inv_keys _ Hi)) as Hb.
  destruct (cas_spec cur (u32 (cur + 1)) s) as [[Hc' He]|[Hc' _]]; rewrite Hc' in Hc; [|done]. injection Hc as <-.
  assert (pinLoad (with_view (LocalDomainView.with_pinCount (u32 (cur + 1)) (view s)) s) = u32 (cur + 1)) as Hld by done.
  apply (inv_moved thread PBelief s); try done; [by left; rewrite Hpc| |by left].
  rewrite Hld, Hpc. cbn. rewrite u32_small by (unfold in_u32, LocalDomainView.TransferringPins in *; lia).
  pose proof (inv_word _ Hi). left. lia.
Qed.

Lemma inv_latch thread s s' newHolder : inv s -> pcOf s thread = PLatch newHolder ->
  cas 0 T s = (true, s') -> inv (goes thread (PRead newHolder) s').
Proof.
  intros Hi Hpc Hc. destruct (cas_spec 0 T s) as [[Hc' He]|[Hc' _]]; rewrite Hc' in Hc; [|done]. injection Hc as <-.
  pose proof (pins_bound s (inv_keys _ Hi)) as Hb.
  assert (pinLoad (with_view (LocalDomainView.with_pinCount T (view s)) s) = T) as Hld by done.
  apply (inv_moved thread (PRead newHolder) s); try done; [by left; rewrite Hpc| |by left].
  rewrite Hld, Hpc. cbn. pose proof (inv_word _ Hi). right. unfold LocalDomainView.TransferringPins in *. lia.
Qed.

Lemma inv_publish thread record s : inv s -> pcOf s thread = PPublish record -> inv (goes thread PEnd (with_truth record s)).
Proof.
  intros Hi Hpc. assert (latched (pcOf s thread) = true) as Hl by by rewrite Hpc.
  apply (inv_moved thread PEnd s); try done; [by left; rewrite Hpc| |].
  - rewrite Hpc. cbn. pose proof (inv_word _ Hi) as Hw. unfold pinLoad in *. cbn. lia.
  - right. intros other Hne. by apply (latched_alone s thread).
Qed.

Lemma inv_end thread s : inv s -> pcOf s thread = PEnd ->
  inv (goes thread POut (with_view (LocalDomainView.endOwnershipTransfer (view s)) s)).
Proof.
  intros Hi Hpc. assert (latched (pcOf s thread) = true) as Hl by by rewrite Hpc. apply latched_counts in Hl.
  apply (inv_moved thread POut s); try done; [by left; rewrite Hpc| |by left].
  rewrite Hpc. cbn. pose proof (inv_word _ Hi) as Hw. left. unfold pinLoad. cbn. lia.
Qed.

Ltac walked Hi Hpc :=
  eapply inv_walk; [exact Hi|done|by left; rewrite Hpc|done|done|by rewrite Hpc|by rewrite Hpc|..];
  try done; try (intros _; by apply named_holder).

Lemma thread_inv_step thread a s s' : inv s -> step thread a s = Some s' -> inv s'.
Proof.
  intros Hi Hs. pose proof (pins_bound s (inv_keys _ Hi)) as Hb. pose proof (inv_word _ Hi) as Hw.
  pose proof (inv_sure _ Hi thread) as Hsure. unfold step in Hs; cbv zeta in Hs.
  assert (pinLoad s <> T -> 0 <= pinLoad s < T) as Hword by (unfold LocalDomainView.TransferringPins in *; lia).
  destruct (pcOf s thread) as [| |cur| | | | | | | | |cur| |cur| | |to|to|rec|rec| | | | |] eqn:Hpc; try discriminate;
    cbn [pinOwnership waitForOwnership unpinOwnership decideTransfer transferOwnershipGuarded reconcileHolderBelief] in Hs.
  - injection Hs as <-. destruct (Z.eqb_spec (pinLoad s) T); walked Hi Hpc. by apply Hword.
  - destruct (cas _ _ _) as [[] s1] eqn:Hc; injection Hs as <-; [by eapply inv_pin|].
    destruct (Z.eqb_spec (pinLoad s) T); walked Hi Hpc. by apply Hword.
  - injection Hs as <-. destruct (LocalDomainView.isHolder _); walked Hi Hpc.
  - injection Hs as <-. destruct (named _) eqn:Hn; walked Hi Hpc.
  - injection Hs as <-. walked Hi Hpc.
  - injection Hs as <-. destruct (expired a), (edge a); walked Hi Hpc.
  - injection Hs as <-. destruct (named _) eqn:Hn; walked Hi Hpc.
  - injection Hs as <-. walked Hi Hpc.
  - injection Hs as <-. apply (inv_unpin_again thread s PGiveCas); [done|by rewrite Hpc|done].
  - destruct (cas _ _ _) as [[] s1] eqn:Hc; injection Hs as <-; [eapply inv_unpin; eauto|].
    apply (inv_unpin_again thread s PGiveCas); [done|by rewrite Hpc|done].
  - injection Hs as <-. apply (inv_unpin_again thread s PUnpinCas); [done|by rewrite Hpc|by rewrite Hpc].
  - destruct (cas _ _ _) as [[] s1] eqn:Hc; injection Hs as <-; [eapply inv_unpin; eauto|].
    apply (inv_unpin_again thread s PUnpinCas); [done|by rewrite Hpc|by rewrite Hpc].
  - injection Hs as <-. destruct (LocalDomainView.isHolder _); walked Hi Hpc.
  - injection Hs as <-. destruct (LocalDomainView.canTransferOwnership _), (successor a) as [p|]; try (destruct (p =? self)); walked Hi Hpc.
  - destruct (cas _ _ _) as [[] s1] eqn:Hc; injection Hs as <-; [by eapply inv_latch|].
    destruct (cas_spec 0 T s) as [[Hc' _]|[Hc' _]]; rewrite Hc' in Hc; [done|]. injection Hc as <-. walked Hi Hpc.
  - injection Hs as <-. destruct (named _) eqn:Hn; walked Hi Hpc.
  - injection Hs as <-. walked Hi Hpc.
  - injection Hs as <-. by apply inv_publish.
  - injection Hs as <-. by apply inv_end.
  - injection Hs as <-. destruct (_ =? self); walked Hi Hpc.
  - injection Hs as <-. walked Hi Hpc.
  - injection Hs as <-. walked Hi Hpc.
  - injection Hs as <-. destruct (_ =? self); walked Hi Hpc.
Qed.

Lemma thread_inv_move s s' : inv s -> move s s' -> inv s'.
Proof.
  intros Hi Hm. destruct Hm as [s' [thread Hk Hpc|thread Hpc|thread check Hk Hpc|thread a s1 Hs]|record Hne].
  - unfold lock. apply (inv_walk thread _ s); rewrite ?Hpc; try done. by right.
  - unfold unlock. apply (inv_walk thread _ s); rewrite ?Hpc; try done; [by left|].
    intros _. apply (inv_sure _ Hi thread). by rewrite Hpc.
  - unfold pollTurn. apply (inv_walk thread _ s); rewrite ?Hpc; try (by destruct check); try done. by right.
  - by eapply thread_inv_step.
  - destruct Hi as [Hk Hw Hs Hp]. split; [done|done| |done]. intros thread Hsu. by destruct Hne; apply (Hs thread).
Qed.

Lemma thread_inv_idle s : idle s -> inv s.
Proof.
  intros [Ht Hc]. assert (forall thread, pcOf s thread = POut) as Hpc by (intros; unfold pcOf, standing; by rewrite Ht).
  split.
  - intros thread. rewrite Ht, lookup_empty. by intros [].
  - left. unfold latches, pins, pinLoad. rewrite Ht, Hc. done.
  - intros thread. by rewrite Hpc.
  - intros thread. by rewrite Hpc.
Qed.

Lemma thread_inv_reachable s0 s : idle s0 -> rtc move s0 s -> inv s.
Proof. intros Hi Hr. apply thread_inv_idle in Hi. induction Hr; eauto using thread_inv_move. Qed.

(** C4: no thread's section is cut short.  From any idle state of the peer, in
    every interleaving of its workers, of its poll thread and of the other
    peers: while a thread is inside, the domain's record names this peer, the
    pin word counts a pin and is not the latch, and no thread of the peer is
    about to publish the domain away; and whoever publishes it does so with no
    thread inside, still the holder of what it overwrites. *)
Theorem section_outlives_handoff s0 s :
  idle s0 -> rtc move s0 s ->
  (forall thread, pcOf s thread = PInside ->
     DomainRecord_t.holder (truth s) = self /\ 1 <= LocalDomainView.pinCount (view s) < T /\
     forall other, latched (pcOf s other) = false) /\
  (forall thread record, pcOf s thread = PPublish record ->
     DomainRecord_t.holder (truth s) = self /\ LocalDomainView.pinCount (view s) = T /\
     forall other, pinned (pcOf s other) = false).
Proof.
  intros H0 Hr. pose proof (thread_inv_reachable s0 s H0 Hr) as Hi. split.
  - intros thread Hpc. assert (pinned (pcOf s thread) = true) as Hp by by rewrite Hpc.
    destruct (pinned_word s thread Hi Hp) as (Hw & Hl & _). unfold pinLoad in Hw.
    split_and!; [apply (inv_sure _ Hi thread); by rewrite Hpc|lia|lia|].
    intros other. destruct (latched (pcOf s other)) eqn:Ho; [apply latched_counts in Ho; lia|done].
  - intros thread record Hpc. assert (latched (pcOf s thread) = true) as Hp by by rewrite Hpc.
    apply latched_counts in Hp. destruct (inv_word _ Hi) as [[? _]|(_ & Hn & Hw)]; [lia|].
    split_and!; [apply (inv_sure _ Hi thread); by rewrite Hpc|exact Hw|].
    intros other. destruct (pinned (pcOf s other)) eqn:Ho; [apply pinned_counts in Ho; lia|done].
Qed.

(** The record changes only under a publish of a holder. *)
Lemma own_truth s s' : inv s -> own s s' -> truth s' = truth s \/ DomainRecord_t.holder (truth s) = self.
Proof.
  intros Hi Ho. destruct Ho as [thread Hk Hpc|thread Hpc|thread check Hk Hpc|thread a s' Hs]; [by left..|].
  destruct (pcOf s thread) eqn:Hpc; try (by right; apply (inv_sure _ Hi thread); rewrite Hpc).
  all: left; unfold step in Hs; cbv zeta in Hs; rewrite Hpc in Hs; try discriminate.
  all: cbn [pinOwnership waitForOwnership unpinOwnership decideTransfer transferOwnershipGuarded reconcileHolderBelief] in Hs.
  all: try (destruct (cas _ _ s) as [[] s1] eqn:Hc; unfold cas in Hc; destruct (_ =? _) in Hc; injection Hc; intros; subst; try discriminate).
  all: by injection Hs as <-.
Qed.
End machine.

(** ** The peers of a region *)

(** One record and, for each peer, its own words and threads. *)
Definition system : Type := DomainRecord_t.t * (Z -> LocalDomainView.t * gmap Z ppc).
Definition peerOf (p : Z) (w : system) : t := Shared.mk (w.2 p).1 w.1 (w.2 p).2.
Definition became (p : Z) (s' : t) (w : system) : system :=
  (truth s', fun q => if q =? p then (view s', threads s') else w.2 q).
Inductive system_move (threadCount : Z) (w : system) : system -> Prop :=
| sm p s' : own p threadCount (peerOf p w) s' -> system_move threadCount w (became p s' w).

Section system.
Context (threadCount : Z).
Hypothesis Hcount : 0 <= threadCount < LocalDomainView.TransferringPins.

Lemma system_inv_move w w' :
  (forall q, inv q threadCount (peerOf q w)) -> system_move threadCount w w' -> forall q, inv q threadCount (peerOf q w').
Proof.
  intros Hi Hm q. destruct Hm as [p s' Ho]. destruct (decide (q = p)) as [->|Hne].
  - assert (peerOf p (became p s' w) = s') as -> by (unfold peerOf, became; cbn; rewrite Z.eqb_refl; by destruct s').
    eapply thread_inv_move; [done|apply Hi|by apply m_own].
  - assert (peerOf q (became p s' w) = with_truth (truth s') (peerOf q w)) as ->.
    { unfold peerOf, became. cbn. by rewrite (proj2 (Z.eqb_neq q p)). }
    destruct (own_truth p threadCount _ _ (Hi p) Ho) as [-> | Hh]; [by apply Hi|].
    eapply thread_inv_move; [done|apply Hi|]. apply m_others. cbn in *. congruence.
Qed.

(** C3: one section in the region.  However the threads of all the peers
    interleave, from a state in which every peer is idle, two threads that are
    inside at one moment are threads of one peer. *)
Theorem sections_of_one_peer w0 w p q thread other :
  (forall r, idle (peerOf r w0)) -> rtc (system_move threadCount) w0 w ->
  pcOf (peerOf p w) thread = PInside -> pcOf (peerOf q w) other = PInside -> p = q.
Proof.
  intros H0 Hr Hp Hq. assert (forall r, inv r threadCount (peerOf r w)) as Hi.
  { assert (forall r, inv r threadCount (peerOf r w0)) as Hi0 by (intros r; by apply thread_inv_idle).
    clear H0 Hp Hq. induction Hr; eauto using system_inv_move. }
  assert (DomainRecord_t.holder w.1 = p) by (apply (inv_sure _ _ _ (Hi p) thread); by rewrite Hp).
  assert (DomainRecord_t.holder w.1 = q) by (apply (inv_sure _ _ _ (Hi q) other); by rewrite Hq). congruence.
Qed.
End system.

(** ** Examples *)

Inductive event := ELock (thread : Z) | EUnlock (thread : Z) | EPoll (thread : Z) | EStep (thread : Z) (a : answer) | EOthers (holder : Z).
Definition apply (self threadCount : Z) (e : event) (s : t) : option t :=
  match e with
  | ELock thread => if bool_decide (0 <= thread < threadCount /\ pcOf s thread = POut) then Some (lock thread s) else None
  | EUnlock thread => if bool_decide (pcOf s thread = PInside) then Some (unlock thread s) else None
  | EPoll thread => if bool_decide (0 <= thread < threadCount /\ pcOf s thread = POut) then Some (pollTurn thread true s) else None
  | EStep thread a => step self thread a s
  | EOthers holder =>
      if bool_decide (DomainRecord_t.holder (truth s) <> self) then Some (with_truth (DomainRecord_t.with_holder holder (truth s)) s) else None
  end.
Fixpoint applyAll (self threadCount : Z) (events : list event) (s : t) : option t :=
  match events with
  | [] => Some s
  | e :: events => match apply self threadCount e s with Some s => applyAll self threadCount events s | None => None end
  end.

Lemma applyAll_reaches self threadCount events s s' :
  applyAll self threadCount events s = Some s' -> rtc (move self threadCount) s s'.
Proof.
  revert s. induction events as [|e events IH]; intros s; cbn; [intros [= <-]; apply rtc_refl|].
  destruct (apply self threadCount e s) as [s1|] eqn:He; [|done]. intros H. eapply rtc_l; [|by apply IH].
  destruct e; cbn in He; try (case_bool_decide as Hb; [|done]; injection He as <-).
  - apply m_own. apply o_lock; apply Hb.
  - apply m_own. by apply o_unlock.
  - apply m_own. apply o_poll; apply Hb.
  - apply m_own. by eapply o_step.
  - by apply m_others.
Qed.

Definition quiet : answer := mkAnswer false false None.
Definition sees : answer := mkAnswer true false None.
Definition offers (p : Z) : answer := mkAnswer false false (Some p).

(** Peer 0 holds the record and believes it; worker 1 gets inside, the poll
    thread 2 looks at the domain and finds it pinned. *)
Definition held0 : t := Shared.mk (LocalDomainView.becomeHolder LocalDomainView.zero)
  (DomainRecord_t.with_holder 0 (DomainRecord_t.mk DomainRecord_t.Magic 0 1 0 0 [])) ∅.
Definition contended : list event :=
  [ELock 1; EStep 1 quiet; EPoll 2; EStep 1 quiet; EStep 1 quiet; EStep 2 quiet; EStep 2 quiet; EStep 1 quiet; EStep 2 quiet; EStep 2 (offers 1)].

Lemma section_outlives_handoff_witness :
  exists s, applyAll 0 8 contended held0 = Some s /\ pcOf s 1 = PInside /\ pcOf s 2 = POut /\
    DomainRecord_t.holder (truth s) = 0 /\ 1 <= LocalDomainView.pinCount (view s).
Proof.
  exists (default held0 (applyAll 0 8 contended held0)).
  assert (pcOf (default held0 (applyAll 0 8 contended held0)) 1 = PInside) as Hp by (vm_compute; reflexivity).
  destruct (section_outlives_handoff 0 8 ltac:(vm_compute; split; [discriminate|reflexivity]) held0 (default held0 (applyAll 0 8 contended held0))) as [Hin _];
    [done|apply (applyAll_reaches 0 8 contended); vm_compute; reflexivity|].
  destruct (Hin 1%Z Hp) as (Hh & [Hc _] & _). split_and!; [vm_compute; reflexivity|done|vm_compute; reflexivity|done|done].
Defined.

(** The worker reads its belief, the poll thread drops it against a record that
    names another peer, and the grant lands before the worker reads the record:
    the worker is inside while the peer believes it holds nothing, until the
    next turn of the poll thread. *)
Definition lagging : list event :=
  [ELock 1; EStep 1 quiet; EStep 1 quiet; EStep 1 quiet; EPoll 2; EStep 2 quiet; EStep 2 quiet; EStep 2 quiet; EOthers 0; EStep 1 quiet].
Definition stale0 : t := Shared.mk (view held0) (DomainRecord_t.with_holder 1 (truth held0)) ∅.
Theorem belief_can_lag :
  exists s, rtc (move 0 8) stale0 s /\ pcOf s 1 = PInside /\ LocalDomainView.isHolder (view s) = false /\ DomainRecord_t.holder (truth s) = 0.
Proof.
  exists (default held0 (applyAll 0 8 lagging stale0)).
  split; [apply (applyAll_reaches 0 8 lagging); vm_compute; reflexivity|by vm_compute].
Qed.

(** Two peers: peer 0 holds the domain and one of its threads is inside; peer
    1's thread pins and waits.  The guard of the record's writers is [own]. *)
Definition applyIn (e : Z * event) (w : system) : option system :=
  match e.2 with
  | EOthers _ => None
  | _ => match apply e.1 8 e.2 (peerOf e.1 w) with Some s => Some (became e.1 s w) | None => None end
  end.
Fixpoint applyAllIn (events : list (Z * event)) (w : system) : option system :=
  match events with
  | [] => Some w
  | e :: events => match applyIn e w with Some w => applyAllIn events w | None => None end
  end.

Lemma applyAllIn_reaches events w w' : applyAllIn events w = Some w' -> rtc (system_move 8) w w'.
Proof.
  revert w. induction events as [|[p e] events IH]; intros w; cbn; [intros [= <-]; apply rtc_refl|].
  destruct (applyIn (p, e) w) as [w1|] eqn:He; [|done]. intros H. eapply rtc_l; [|by apply IH].
  unfold applyIn in He. destruct e; cbn in He; try done.
  1-3: case_bool_decide as Hb; [|done]; injection He as <-; constructor.
  - apply o_lock; apply Hb.
  - by apply o_unlock.
  - apply o_poll; apply Hb.
  - destruct (step _ _ _ _) as [s|] eqn:Hs; [|done]. injection He as <-. constructor. by eapply o_step.
Qed.

Definition pair0 : system := (truth held0, fun p => if p =? 0 then (view held0, ∅) else (LocalDomainView.zero, ∅)).
Definition both : list (Z * event) :=
  [(0, ELock 1); (1, ELock 5); (0, EStep 1 quiet); (1, EStep 5 quiet); (0, EStep 1 quiet); (0, EStep 1 quiet); (1, EStep 5 quiet);
   (0, EStep 1 quiet); (1, EStep 5 quiet); (1, EStep 5 sees); (1, EStep 5 quiet)].

Lemma sections_of_one_peer_witness :
  exists w, rtc (system_move 8) pair0 w /\ pcOf (peerOf 0 w) 1 = PInside /\ pcOf (peerOf 1 w) 5 = PWait /\
    forall q other, pcOf (peerOf q w) other = PInside -> 0 = q.
Proof.
  exists (default pair0 (applyAllIn both pair0)).
  assert (rtc (system_move 8) pair0 (default pair0 (applyAllIn both pair0))) as Hr.
  { apply (applyAllIn_reaches both). by vm_compute. }
  split_and!; [exact Hr|by vm_compute|by vm_compute|].
  intros q other Hq.
  apply (sections_of_one_peer 8 ltac:(vm_compute; split; [discriminate|reflexivity]) pair0 (default pair0 (applyAllIn both pair0)) 0 q 1 other); [|exact Hr|by vm_compute|exact Hq].
  intros r. unfold pair0, idle, peerOf. cbn. by destruct (r =? 0).
Defined.
End peer_threads.
