(* ===== verification/Words.v ===== *)
(** * Words: [common/ordered.hpp] and [util/endian.hpp]

    The atomic word whose type fixes its memory order, with every operation as
    one step on its value at its width, and the fields of the region, which
    stand there in one byte order whatever host wrote them.  The three types of
    [ordered.hpp] differ in the order they ask for and not in what an operation
    does to the word, so they share these definitions. *)

From S2P Require Import Prelude.

(** ** One atomic word *)

Module ordered.
(** A word of [width] bits; an operation gives what it answers and the word. *)
Section word.
Context (width : Z).
Definition fit (value : Z) : Z := value mod 2 ^ width.
Definition init : Z := 0.
Definition load (word : Z) : Z := word.
Definition store (value word : Z) : Z := fit value.
Definition reset (value word : Z) : Z := fit value.
Definition add (delta word : Z) : Z * Z := (word, fit (word + delta)).
Definition subtract (delta word : Z) : Z * Z := (word, fit (word - delta)).
Definition setBits (bits word : Z) : Z * Z := (word, Z.lor word (fit bits)).
Definition clearBits (bits word : Z) : Z * Z := (word, Z.land word (fit (Z.lnot bits))).
Definition exchange (value word : Z) : Z * Z := (word, fit value).
(** The answer, the word and [expected], which takes the value found. *)
Definition cas (expected desired word : Z) : bool * Z * Z :=
  if word =? expected then (true, fit desired, expected) else (false, word, word).

Hypothesis Hwidth : 0 <= width.
Definition fits (value : Z) : Prop := 0 <= value < 2 ^ width.

Lemma fit_fits value : fits (fit value).
Proof. apply Z.mod_pos_bound. apply Z.pow_pos_nonneg; lia. Qed.
Lemma fit_small value : fits value -> fit value = value.
Proof. apply Z.mod_small. Qed.

(** What one thread adds another takes back, through any wrap. *)
Lemma add_subtract delta word : fits word -> (subtract delta (add delta word).2).2 = word.
Proof.
  intros Hw. unfold subtract, add, fit; cbn. rewrite Zminus_mod_idemp_l.
  replace (word + delta - delta) with word by lia. by apply fit_small.
Qed.

(** The bits a thread raised are exactly the ones it lowers again: the others
    keep what they had. *)
Lemma raise_lower bits word n :
  fits word -> fits bits -> 0 <= n < width ->
  Z.testbit (clearBits bits (setBits bits word).2).2 n = Z.testbit word n && negb (Z.testbit bits n).
Proof.
  intros Hw Hb Hn. unfold clearBits, setBits; cbn. rewrite (fit_small bits) by done. unfold fit.
  rewrite Z.land_spec, Z.lor_spec, Z.mod_pow2_bits_low, Z.lnot_spec by lia.
  by destruct (Z.testbit word n), (Z.testbit bits n).
Qed.

(** A retry of a lost swap succeeds from the value it was told, when nobody
    moved the word between. *)
Lemma cas_retries expected desired word :
  (cas expected desired word).1.1 = false ->
  cas (cas expected desired word).2 desired (cas expected desired word).1.2 = (true, fit desired, word).
Proof. unfold cas. destruct (Z.eqb_spec word expected); cbn; [done|]. by rewrite Z.eqb_refl. Qed.
End word.
End ordered.

(** ** A field of the region *)

Module endian.
(** [__BYTE_ORDER__] of a host. *)
Inductive order := LittleEndian | BigEndian.

(** [__builtin_bswap16], [32] and [64]. *)
Definition bswap (size : nat) (value : Z) : Z := le_word (rev (le_bytes size value)).

Definition adjustEndian (o : order) (size : nat) (value : Z) : Z :=
  match o with
  | LittleEndian => value
  | BigEndian => if Nat.eqb size 1 then value else bswap size value
  end.

(** The bytes a host keeps a word in, and the word it makes of bytes. *)
Definition toBytes (o : order) (size : nat) (word : Z) : list Z :=
  match o with LittleEndian => le_bytes size word | BigEndian => rev (le_bytes size word) end.
Definition ofBytes (o : order) (bytes : list Z) : Z :=
  match o with LittleEndian => le_word bytes | BigEndian => le_word (rev bytes) end.

(** The field is its bytes; [raw] is what a host makes of them. *)
Definition raw (o : order) (field : list Z) : Z := ofBytes o field.
Definition load (o : order) (size : nat) (field : list Z) : Z := adjustEndian o size (ordered.load (raw o field)).
Definition store (o : order) (size : nat) (value : Z) (field : list Z) : list Z :=
  toBytes o size (ordered.store (8 * Z.of_nat size) (adjustEndian o size value) (raw o field)).

(** *** What stands in the region *)

Definition isBytes (bytes : list Z) : Prop := Forall (fun b => 0 <= b < 256) bytes.

Lemma le_bytes_isBytes n word : isBytes (le_bytes n word).
Proof.
  revert word. induction n as [|n IH]; intros word; cbn; [constructor|].
  constructor; [apply Z.mod_pos_bound; lia|apply IH].
Qed.

Lemma le_bytes_word bytes : isBytes bytes -> le_bytes (length bytes) (le_word bytes) = bytes.
Proof.
  induction 1 as [|b bytes Hb _ IH]; [done|]. cbn. f_equal.
  - rewrite Z.mul_comm, Z_mod_plus_full. by apply Z.mod_small.
  - rewrite Z.mul_comm, Z.div_add, Z.div_small by lia. apply IH.
Qed.

Lemma le_word_bound bytes : isBytes bytes -> 0 <= le_word bytes < 256 ^ Z.of_nat (length bytes).
Proof.
  induction 1 as [|b bytes Hb _ IH]; cbn [le_word length]; [done|]. rewrite Nat2Z.inj_succ, Z.pow_succ_r by lia. lia.
Qed.

Lemma rev_isBytes bytes : isBytes bytes -> isBytes (rev bytes).
Proof. intros H. apply List.Forall_forall. intros b Hb%in_rev. by apply (proj1 (List.Forall_forall _ _) H). Qed.

Lemma bswap_bytes size value : le_bytes size (bswap size value) = rev (le_bytes size value).
Proof.
  unfold bswap. rewrite <- (le_bytes_length size value) at 1. rewrite <- length_rev. apply le_bytes_word, rev_isBytes, le_bytes_isBytes.
Qed.
Lemma bswap_bound size value : 0 <= bswap size value < 256 ^ Z.of_nat size.
Proof.
  unfold bswap. rewrite <- (le_bytes_length size value) at 3. rewrite <- length_rev. apply le_word_bound, rev_isBytes, le_bytes_isBytes.
Qed.

(** A field of 1, 2, 4 or 8 bytes: whatever host stores a value, the region
    holds its bytes from the lowest up, and whatever host loads it gets the
    value back. *)
Theorem field_roundtrip o o' size value field :
  0 <= value < 256 ^ Z.of_nat size ->
  store o size value field = le_bytes size value /\ load o' size (store o size value field) = value.
Proof.
  intros Hv. assert (2 ^ (8 * Z.of_nat size) = 256 ^ Z.of_nat size) as Hw by (by rewrite Z.pow_mul_r by lia).
  assert (store o size value field = le_bytes size value) as ->.
  { unfold store, ordered.store, ordered.fit. rewrite Hw. destruct o; cbn [adjustEndian toBytes]; [by rewrite Z.mod_small|].
    destruct (Nat.eqb_spec size 1) as [->|_]; [by rewrite Z.mod_small by done|].
    rewrite Z.mod_small by apply bswap_bound. rewrite bswap_bytes. apply rev_involutive. }
  split; [done|]. unfold load, ordered.load, raw, ofBytes. destruct o'; cbn [adjustEndian]; [by rewrite le_word_bytes, Z.mod_small|].
  destruct (Nat.eqb_spec size 1) as [->|_]; [cbn [le_bytes rev app]; cbn; rewrite Z.mod_small; lia|].
  fold (bswap size value). unfold bswap at 1. rewrite bswap_bytes, rev_involutive, le_word_bytes. by apply Z.mod_small.
Qed.
End endian.
