(* ===== verification/Caches.v ===== *)
(** * Caches: [util/coherency.hpp] on hosts whose caches nothing keeps coherent

    The other files read and write a record of the region as one atomic access.
    Here the accesses are what [coherency.hpp] compiles to: [rmb], [wmb], [mb],
    [get] and [set] are the instructions they issue, and a machine of hosts runs
    them.  A store waits in the buffer of its thread; under [Flush] it drains
    into the cache of its host, where it is dirty until something writes it back;
    a cache fills, writes back and evicts a line whenever it likes, and sees
    nothing of the caches of other hosts.  Under [Uncached] no copy is kept, and
    under [CacheCoherent] the caches are one and the machine leaves them out.

    [clflushopt] and [clwb] take effect some time after they are issued, never
    before an older store of the thread to that line.  [mfence] waits for both;
    [sfence] only holds back the later stores, and [lfence] waits for neither.
    MOVDIR64B, where a build has it, puts the line straight into memory.  A line
    moves whole: that is what the AVX-512 and MOVDIR64B builds give. *)

From stdpp Require Import functions.
From S2P Require Import Prelude Types.

(** ** The instructions *)

Module coherency.
Inductive instr :=
| StoreLine (line : Z) (value : list Z)
| LoadLine (line : Z)
| Clwb (line : Z)
| Clflushopt (line : Z)
| Sfence | Lfence | Mfence.

#[global] Instance instr_eq_dec : EqDecision instr.
Proof. solve_decision. Defined.

(** What a build was compiled with: [__CLWB__] and [__MOVDIR64B__]. *)
Record build := mkBuild { hasClwb : bool; hasMovdir64b : bool; }.

Definition CacheLineBytes : Z := 64.
Definition LineOffsetMask : Z := CacheLineBytes - 1.

(** The lines from [base] on; the last argument bounds the turns. *)
Fixpoint walk_from (turns : nat) (line last : Z) : list Z :=
  match turns with
  | O => []
  | S turns => if line <? last then line :: walk_from turns (u64 (line + CacheLineBytes)) last else []
  end.
Definition walk (addr len : Z) : list Z :=
  let base := Z.land addr (u64 (Z.lnot LineOffsetMask)) in
  let last := u64 (addr + len) in
  walk_from (Z.to_nat (len / CacheLineBytes + 2)) base last.

Definition wmb (b : build) (addr len : Z) (mode : CoherencyMode) : list instr :=
  match mode with
  | CacheCoherent => []
  | Uncached => [Sfence]
  | Flush => map (if hasClwb b then Clwb else Clflushopt) (walk addr len) ++ [Sfence]
  end.

Definition rmb (addr len : Z) (mode : CoherencyMode) : list instr :=
  match mode with
  | Flush => map Clflushopt (walk addr len) ++ [Mfence]
  | Uncached => [Lfence]
  | CacheCoherent => []
  end.

Definition mb : list instr := [Mfence].

Definition get (slot : Z) (mode : CoherencyMode) : list instr := rmb slot CacheLineBytes mode ++ [LoadLine slot].

Definition set (b : build) (slot : Z) (value : list Z) (mode : CoherencyMode) : list instr :=
  StoreLine slot value :: wmb b slot CacheLineBytes (if hasMovdir64b b then Uncached else mode).

(** [cme::flush], for what the caller keeps in the region. *)
Definition flush (b : build) (addr bytes : Z) (mode : CoherencyMode) : list instr :=
  if (addr =? 0) || (bytes =? 0) then [] else wmb b addr bytes mode.

(** *** The walk *)

Ltac dlia := Z.to_euclidean_division_equations; lia.

Lemma line_base addr : in_u64 addr -> Z.land addr (u64 (Z.lnot LineOffsetMask)) = addr - addr mod CacheLineBytes.
Proof.
  intros Ha. change (u64 (Z.lnot LineOffsetMask)) with (Z.shiftl (Z.ones 58) 6).
  assert (addr - addr mod CacheLineBytes = Z.shiftl (Z.shiftr addr 6) 6) as ->.
  { rewrite Z.shiftl_mul_pow2, Z.shiftr_div_pow2 by lia. unfold CacheLineBytes. change (2 ^ 6) with 64. pose proof (Z.div_mod addr 64). lia. }
  apply Z.bits_inj'. intros n Hn. rewrite Z.land_spec. rewrite !Z.shiftl_spec by lia.
  destruct (Z.lt_ge_cases n 6) as [Hl|Hl].
  - rewrite !(Z.testbit_neg_r _ (n - 6)) by lia. apply andb_false_r.
  - rewrite Z.shiftr_spec by lia. replace (n - 6 + 6) with n by lia.
    destruct (Z.lt_ge_cases (n - 6) 58) as [Hh|Hh]; [rewrite Z.ones_spec_low by lia; apply andb_true_r|].
    rewrite Z.ones_spec_high, andb_false_r by lia. symmetry.
    destruct (decide (addr = 0)) as [->|Hne]; [by rewrite Z.testbit_0_l|].
    apply Z.bits_above_log2; [unfold in_u64 in Ha; lia|]. apply Z.log2_lt_pow2; [unfold in_u64 in Ha; lia|].
    unfold in_u64 in Ha. eapply Z.lt_le_trans; [apply Ha|]. apply Z.pow_le_mono_r; lia.
Qed.

Lemma elem_walk_from turns line last x :
  0 <= line -> in_u64 (last + CacheLineBytes) -> (last - line + CacheLineBytes - 1) / CacheLineBytes <= Z.of_nat turns ->
  x ∈ walk_from turns line last <-> exists k, 0 <= k /\ x = line + CacheLineBytes * k /\ x < last.
Proof.
  unfold CacheLineBytes. revert line. induction turns as [|turns IH]; intros line Hl Hr Ht; cbn [walk_from].
  - split; [by intros ?%elem_of_nil|]. intros (k & Hk & -> & Hx). exfalso. dlia.
  - destruct (Z.ltb_spec line last) as [Hlt|Hge].
    + unfold CacheLineBytes. rewrite u64_small by (unfold in_u64 in *; dlia). rewrite elem_of_cons, IH; [|dlia|exact Hr|rewrite Nat2Z.inj_succ in Ht; dlia]. split.
      * intros [->|(k & Hk & -> & Hx)]; [exists 0|exists (k + 1)]; dlia.
      * intros (k & Hk & -> & Hx). destruct (decide (k = 0)) as [->|]; [left; dlia|]. right. exists (k - 1). dlia.
    + split; [by intros ?%elem_of_nil|]. intros (k & Hk & -> & Hx). dlia.
Qed.

(** The walk visits the lines the range touches and no other. *)
Lemma walk_covers addr len line :
  0 <= addr -> 0 < len -> in_u64 (addr + len + CacheLineBytes) ->
  line ∈ walk addr len <->
  line mod CacheLineBytes = 0 /\ exists byte, addr <= byte < addr + len /\ line <= byte < line + CacheLineBytes.
Proof.
  intros Ha Hlen Hr. unfold walk. unfold in_u64, CacheLineBytes in Hr. rewrite line_base by (unfold in_u64; dlia).
  rewrite (u64_small (addr + len)) by (unfold in_u64; dlia). unfold CacheLineBytes.
  rewrite elem_walk_from; [|dlia|unfold in_u64, CacheLineBytes; dlia|unfold CacheLineBytes; dlia]. unfold CacheLineBytes. split.
  - intros (k & Hk & -> & Hx). split; [dlia|]. exists (Z.max addr (addr - addr mod 64 + 64 * k)). dlia.
  - intros (Hm & byte & Hb & Hby). exists (line / 64 - addr / 64). dlia.
Qed.

Lemma walk_slot slot : 0 <= slot -> slot mod CacheLineBytes = 0 -> in_u64 (slot + 2 * CacheLineBytes) -> walk slot CacheLineBytes = [slot].
Proof.
  intros H0 Hm Hr. unfold walk. unfold in_u64, CacheLineBytes in *. rewrite line_base by (unfold in_u64; dlia). unfold CacheLineBytes.
  rewrite Hm, Z.sub_0_r, (u64_small (slot + 64)) by (unfold in_u64; dlia). change (Z.to_nat (64 / 64 + 2)) with 3%nat. cbn [walk_from].
  rewrite (proj2 (Z.ltb_lt slot (slot + 64))) by dlia. unfold CacheLineBytes.
  rewrite u64_small by (unfold in_u64; dlia). by rewrite Z.ltb_irrefl.
Qed.
End coherency.
Import coherency.

(** ** The machine *)

Module hosts.
Module Thread.
Record t := mk {
  todo : list instr;               (* what is left of the call it is in *)
  got : option (list Z);           (* what its last load found *)
  buf : list (Z * list Z);         (* stores not yet out, oldest first *)
  flushing : list (Z * bool);      (* flushes under way, with [true] for one that keeps the line *)
  barrier : bool;                  (* an [sfence] its next store waits behind *)
}.
Definition idle : t := mk [] None [] [] false.
Definition starts (code : list instr) (th : t) : t := mk code None (buf th) (flushing th) (barrier th).
Definition onward (code : list instr) (th : t) : t := mk code (got th) (buf th) (flushing th) (barrier th).
Definition with_got (v : list Z) (th : t) : t := mk (todo th) (Some v) (buf th) (flushing th) (barrier th).
Definition with_buf (v : list (Z * list Z)) (th : t) : t := mk (todo th) (got th) v (flushing th) (barrier th).
Definition with_flushing (v : list (Z * bool)) (th : t) : t := mk (todo th) (got th) (buf th) v (barrier th).
Definition with_barrier (v : bool) (th : t) : t := mk (todo th) (got th) (buf th) (flushing th) v.
Definition drained (th : t) : bool := bool_decide (buf th = [] /\ flushing th = []).
End Thread.

Record t := mk {
  mem : Z -> list Z;
  cache : Z * Z -> option (list Z * bool);   (* of a host, a line: its value, and whether it is dirty *)
  threads : Z -> Thread.t;
}.

Definition onThread (a : Z) (f : Thread.t -> Thread.t) (s : t) : t := mk (mem s) (cache s) (<[a := f (threads s a)]> (threads s)).
Definition setCopy (host line : Z) (copy : option (list Z * bool)) (s : t) : t := mk (mem s) (<[(host, line) := copy]> (cache s)) (threads s).
Definition setMem (line : Z) (value : list Z) (s : t) : t := mk (<[line := value]> (mem s)) (cache s) (threads s).

(** The store of a line the thread would see before it is out. *)
Fixpoint forwarded (line : Z) (buf : list (Z * list Z)) : option (list Z) :=
  match buf with
  | [] => None
  | (l, v) :: buf => match forwarded line buf with Some w => Some w | None => if l =? line then Some v else None end
  end.

(** What the line holds for a host that keeps no clean copy, and for a thread. *)
Definition hostView (host line : Z) (s : t) : list Z :=
  match cache s (host, line) with Some (v, true) => v | _ => mem s line end.

Definition isDirty (host line : Z) (s : t) : bool := match cache s (host, line) with Some (_, true) => true | _ => false end.

(** The copy of a dirty line goes to memory and stays, clean. *)
Definition writeBack (host line : Z) (s : t) : t :=
  match cache s (host, line) with
  | Some (v, true) => setCopy host line (Some (v, false)) (setMem line v s)
  | _ => s
  end.
Definition evict (host line : Z) (s : t) : t := setCopy host line None (writeBack host line s).

Section machine.
(** Where a thread runs, how its host maps the region and what its build has. *)
Context (hostOf : Z -> Z) (modeOf : Z -> CoherencyMode) (buildOf : Z -> build).

(** A store that leaves the buffer. *)
Definition land (host line : Z) (value : list Z) (s : t) : t :=
  match modeOf host with
  | Flush => if hasMovdir64b (buildOf host) then setCopy host line None (setMem line value s) else setCopy host line (Some (value, true)) s
  | _ => setMem line value s
  end.

Definition issue (a : Z) (s : t) : option t :=
  let th := threads s a in
  let host := hostOf a in
  match Thread.todo th with
  | [] => None
  | StoreLine line value :: rest =>
      if Thread.barrier th && negb (Thread.drained th) then None
      else Some (onThread a (fun th => Thread.with_barrier false (Thread.with_buf (Thread.buf th ++ [(line, value)]) (Thread.onward rest th))) s)
  | LoadLine line :: rest =>
      match forwarded line (Thread.buf th) with
      | Some v => match modeOf host with Uncached => None | _ => Some (onThread a (fun th => Thread.with_got v (Thread.onward rest th)) s) end
      | None =>
          let v := match cache s (host, line) with Some (v, _) => v | None => mem s line end in
          Some (onThread a (fun th => Thread.with_got v (Thread.onward rest th)) s)
      end
  | Clwb line :: rest => Some (onThread a (fun th => Thread.with_flushing (Thread.flushing th ++ [(line, true)]) (Thread.onward rest th)) s)
  | Clflushopt line :: rest => Some (onThread a (fun th => Thread.with_flushing (Thread.flushing th ++ [(line, false)]) (Thread.onward rest th)) s)
  | Sfence :: rest => Some (onThread a (fun th => Thread.with_barrier true (Thread.onward rest th)) s)
  | Lfence :: rest => Some (onThread a (Thread.onward rest) s)
  | Mfence :: rest => if Thread.drained th then Some (onThread a (Thread.onward rest) s) else None
  end.

Definition holdsLine (line : Z) (buf : list (Z * list Z)) : bool := bool_decide (line ∈ buf.*1).

(** A store goes out once no older one of its line is left, a flush once no
    store of its line is. *)
Definition drain (a : Z) (i : nat) (s : t) : option t :=
  let buf := Thread.buf (threads s a) in
  match buf !! i with
  | Some (line, v) =>
      if holdsLine line (take i buf) then None
      else Some (land (hostOf a) line v (onThread a (Thread.with_buf (delete i buf)) s))
  | None => None
  end.
Definition complete (a : Z) (i : nat) (s : t) : option t :=
  let th := threads s a in
  match Thread.flushing th !! i with
  | Some (line, keeps) =>
      if holdsLine line (Thread.buf th) then None
      else Some (onThread a (Thread.with_flushing (delete i (Thread.flushing th)))
             ((if keeps : bool then writeBack else evict) (hostOf a) line s))
  | None => None
  end.
Definition fill (host line : Z) (s : t) : option t :=
  match modeOf host, cache s (host, line) with
  | Flush, None => Some (setCopy host line (Some (mem s line, false)) s)
  | _, _ => None
  end.
Definition call (a : Z) (code : list instr) (s : t) : option t :=
  match Thread.todo (threads s a) with [] => Some (onThread a (Thread.starts code) s) | _ => None end.

Inductive event :=
| Issue (a : Z) | Drain (a : Z) (i : nat) | Complete (a : Z) (i : nat)
| Fill (host line : Z) | WriteBack (host line : Z) | Evict (host line : Z)
| Call (a : Z) (code : list instr).

#[global] Instance event_eq_dec : EqDecision event.
Proof. solve_decision. Defined.

Definition step (e : event) (s : t) : option t :=
  match e with
  | Issue a => issue a s
  | Drain a i => drain a i s
  | Complete a i => complete a i s
  | Fill host line => fill host line s
  | WriteBack host line => Some (writeBack host line s)
  | Evict host line => Some (evict host line s)
  | Call a code => call a code s
  end.
Definition move (s s' : t) : Prop := exists e, step e s = Some s'.

(** The moves while [a] is in one call, all of them within [P]. *)
Definition within (a : Z) (P : t -> Prop) (s s' : t) : Prop :=
  exists e, step e s = Some s' /\ (forall code, e <> Call a code) /\ P s'.

(** Nothing cached and no thread in a call, whatever memory holds. *)
Definition cold (s : t) : Prop := (forall key, cache s key = None) /\ (forall a, threads s a = Thread.idle).
Definition reachable (s : t) : Prop := exists s0, cold s0 /\ rtc move s0 s.

(** What the line holds for a thread that reads past every clean copy. *)
Definition visible (a line : Z) (s : t) : list Z :=
  match forwarded line (Thread.buf (threads s a)) with Some v => v | None => hostView (hostOf a) line s end.

(** *** Buffers and copies *)

Lemma forwarded_None line buf : forwarded line buf = None <-> line ∉ buf.*1.
Proof.
  induction buf as [|[l v] buf IH]; cbn; [set_solver|]. rewrite not_elem_of_cons.
  destruct (forwarded line buf); [naive_solver|]. destruct (Z.eqb_spec l line); naive_solver.
Qed.

Lemma forwarded_app line buf l v : forwarded line (buf ++ [(l, v)]) = if l =? line then Some v else forwarded line buf.
Proof.
  induction buf as [|[l' v'] buf IH]; cbn; [done|]. rewrite IH. by destruct (l =? line).
Qed.

(** A store that leaves the buffer in the order of its line. *)
Lemma forwarded_delete line buf i l v :
  buf !! i = Some (l, v) -> l ∉ (take i buf).*1 ->
  forwarded line buf = if l =? line then Some (default v (forwarded line (delete i buf))) else forwarded line (delete i buf).
Proof.
  revert i. induction buf as [|[l' v'] buf IH]; intros [|i]; cbn; intros Hi Hn; [done..| |].
  - injection Hi as -> ->. by destruct (forwarded line buf), (l =? line).
  - apply not_elem_of_cons in Hn as [Hne Hn]. rewrite (IH i Hi Hn). change (list_delete i buf) with (delete i buf).
    destruct (Z.eqb_spec l line) as [->|]; [|done].
    destruct (forwarded line (delete i buf)); [done|]. cbn. rewrite (proj2 (Z.eqb_neq l' line)) by congruence. done.
Qed.

Lemma holdsLine_delete line (buf : list (Z * list Z)) i : line ∉ buf.*1 -> line ∉ (delete i buf).*1.
Proof.
  intros Hn Hin. apply Hn. rewrite list_elem_of_fmap in *. destruct Hin as (e & -> & He). exists e. split; [done|].
  by eapply list_elem_of_delete_inv.
Qed.

Lemma list_elem_of_delete_ne {A} (x : A) i (l : list A) : x ∈ l -> l !! i <> Some x -> x ∈ delete i l.
Proof.
  intros [j Hj]%list_elem_of_lookup_1 Hi. assert (j <> i) by congruence. apply list_elem_of_lookup.
  destruct (decide (j < i)%nat); [exists j; by rewrite list_lookup_delete_lt|].
  exists (j - 1)%nat. rewrite list_lookup_delete_ge by lia. by replace (S (j - 1)) with j by lia.
Qed.

(** Which copies and which lines the parts of a step touch. *)
Ltac copies := unfold insert, fn_insert in *; repeat case_decide; simplify_eq/=; try done; try congruence.

Lemma cache_writeBack h l key s :
  cache (writeBack h l s) key = if decide ((h, l) = key) then (match cache s key with Some (v, _) => Some (v, false) | None => None end) else cache s key.
Proof.
  unfold writeBack. destruct (cache s (h, l)) as [[v []]|] eqn:Hc; cbn; copies; by rewrite Hc.
Qed.
Lemma cache_evict h l key s : cache (evict h l s) key = if decide ((h, l) = key) then None else cache s key.
Proof. unfold evict. cbn. unfold insert, fn_insert. case_decide; [done|]. rewrite cache_writeBack. by case_decide. Qed.
Lemma mem_writeBack h l line s : mem (writeBack h l s) line = if decide (l = line) then hostView h line s else mem s line.
Proof.
  unfold writeBack, hostView. destruct (decide (l = line)) as [->|Hne].
  - destruct (cache s (h, line)) as [[v []]|]; cbn; [|done..]. unfold insert, fn_insert. by rewrite decide_True.
  - destruct (cache s (h, l)) as [[v []]|]; cbn; [|done..]. unfold insert, fn_insert. by rewrite decide_False.
Qed.
Lemma mem_evict h l line s : mem (evict h l s) line = if decide (l = line) then hostView h line s else mem s line.
Proof. apply mem_writeBack. Qed.
Lemma threads_writeBack h l s : threads (writeBack h l s) = threads s.
Proof. unfold writeBack. by destruct (cache s (h, l)) as [[v []]|]. Qed.
Lemma threads_land h l v s : threads (land h l v s) = threads s.
Proof. unfold land. destruct (modeOf h); [done..|]. by destruct (hasMovdir64b _). Qed.

(** A copy that goes back leaves what its own host sees, and what every host
    sees unless it was dirty somewhere else. *)
Lemma hostView_back (back : bool) h h' l line s :
  (h' = h \/ isDirty h' line s = false) ->
  hostView h line ((if back then writeBack else evict) h' l s) = hostView h line s.
Proof.
  intros Hd. unfold hostView at 1. destruct (decide (l = line)) as [->|Hne].
  - assert (mem ((if back then writeBack else evict) h' line s) line = hostView h' line s) as ->.
    { destruct back; rewrite ?mem_writeBack, ?mem_evict; by rewrite decide_True. }
    destruct (decide (h' = h)) as [->|Hh].
    + destruct back; rewrite ?cache_writeBack, ?cache_evict, decide_True by done; [|done].
      by destruct (cache s (h, line)) as [[? []]|].
    + destruct Hd as [|Hd]; [done|]. destruct back; rewrite ?cache_writeBack, ?cache_evict, decide_False by congruence.
      all: unfold hostView, isDirty in *; by destruct (cache s (h', line)) as [[? []]|].
  - destruct back; rewrite ?cache_writeBack, ?cache_evict, ?mem_writeBack, ?mem_evict, !decide_False by congruence; done.
Qed.

Lemma threads_onThread a f s b : threads (onThread a f s) b = if decide (a = b) then f (threads s a) else threads s b.
Proof. reflexivity. Qed.

(** An instruction leaves memory and copies alone and adds to the buffer of its
    thread what it stores; the thread moves on. *)
Lemma issue_spec a s s' :
  issue a s = Some s' ->
  exists th i rest, s' = onThread a (fun _ => th) s /\ Thread.todo (threads s a) = i :: rest /\ Thread.todo th = rest /\
    Thread.buf th = (match i with StoreLine l v => Thread.buf (threads s a) ++ [(l, v)] | _ => Thread.buf (threads s a) end) /\
    Thread.flushing th = (match i with Clwb l => Thread.flushing (threads s a) ++ [(l, true)]
                          | Clflushopt l => Thread.flushing (threads s a) ++ [(l, false)] | _ => Thread.flushing (threads s a) end) /\
    Thread.barrier th = (match i with Sfence => true | StoreLine _ _ => false | _ => Thread.barrier (threads s a) end).
Proof.
  unfold issue. intros H. destruct (Thread.todo (threads s a)) as [|[] rest] eqn:Ht; [done|..].
  all: repeat match type of H with (match ?x with _ => _ end) = _ => destruct x eqn:? end; try done.
  all: injection H as <-; eexists _, _, _; split; [reflexivity|]; cbn; split_and!; done.
Qed.

Lemma clean_copy e s s' h l w :
  step e s = Some s' -> cache s' (h, l) = Some (w, false) -> cache s (h, l) = Some (w, false) \/ hostView h l s = w.
Proof.
  assert (forall (back : bool) h' l', cache ((if back then writeBack else evict) h' l' s) (h, l) = Some (w, false) ->
    cache s (h, l) = Some (w, false) \/ hostView h l s = w) as Hback.
  { intros back h' l'. destruct back; rewrite ?cache_writeBack, ?cache_evict; case_decide as Hd; try (by left).
    injection Hd as -> ->. unfold hostView. destruct (cache s (h, l)) as [[v []]|]; naive_solver. }
  destruct e as [a|a i|a i|h' l'|h' l'|h' l'|a code]; cbn; intros Hs Hc.
  - destruct (issue_spec a s s' Hs) as (th & i & rest & -> & _). by left.
  - unfold drain in Hs. destruct (_ !! i) as [[l' v]|]; [|done]. destruct (holdsLine _ _); [done|]. injection Hs as <-.
    left. revert Hc. unfold land. destruct (modeOf _); [done..|]. destruct (hasMovdir64b _); cbn; copies.
  - unfold complete in Hs. destruct (_ !! i) as [[l' keeps]|]; [|done]. destruct (holdsLine _ _); [done|]. injection Hs as <-.
    by apply (Hback keeps (hostOf a) l').
  - unfold fill in Hs. destruct (modeOf h') eqn:Hm; [done..|]. destruct (cache s (h', l')) eqn:Hn; [done|]. injection Hs as <-.
    cbn in Hc. unfold insert, fn_insert in Hc. case_decide as Hd; [|by left]. injection Hd as -> ->. right.
    unfold hostView. rewrite Hn. by injection Hc.
  - injection Hs as <-. by apply (Hback true h' l').
  - injection Hs as <-. by apply (Hback false h' l').
  - unfold call in Hs. destruct (Thread.todo _); [|done]. injection Hs as <-. by left.
Qed.

(** A copy becomes dirty only by a store of a thread of its host. *)
Lemma dirty_step e s s' h l :
  step e s = Some s' -> isDirty h l s' = true ->
  isDirty h l s = true \/ (exists b, hostOf b = h /\ l ∈ (Thread.buf (threads s b)).*1) /\ modeOf h = Flush /\ hasMovdir64b (buildOf h) = false.
Proof.
  assert (forall (back : bool) h' l', isDirty h l ((if back then writeBack else evict) h' l' s) = true -> isDirty h l s = true) as Hback.
  { intros back h' l'. unfold isDirty. destruct back; rewrite ?cache_writeBack, ?cache_evict; case_decide as Hd; try done.
    by destruct (cache s (h, l)) as [[v []]|]. }
  destruct e as [a|a i|a i|h' l'|h' l'|h' l'|a code]; cbn; intros Hs Hc.
  - destruct (issue_spec a s s' Hs) as (th & i & rest & -> & _). by left.
  - unfold drain in Hs. destruct (_ !! i) as [[l' v]|] eqn:Hi; [|done]. destruct (holdsLine _ _); [done|]. injection Hs as <-.
    unfold land, isDirty in *. destruct (modeOf (hostOf a)) eqn:Hm; [by left..|]. destruct (hasMovdir64b _) eqn:Hb; cbn in Hc.
    + left. revert Hc. copies.
    + unfold insert, fn_insert in Hc. case_decide as Hd; [|by left]. injection Hd as <- ->. right. split_and!; [|done..].
      exists a. split; [done|]. apply list_elem_of_fmap. exists (l, v). split; [done|]. by eapply list_elem_of_lookup_2.
  - unfold complete in Hs. destruct (_ !! i) as [[l' keeps]|]; [|done]. destruct (holdsLine _ _); [done|]. injection Hs as <-.
    left. by apply (Hback keeps (hostOf a) l').
  - unfold fill in Hs. destruct (modeOf h') eqn:Hm; [done..|]. destruct (cache s (h', l')) eqn:Hn; [done|]. injection Hs as <-.
    left. revert Hc. unfold isDirty. cbn. copies.
  - injection Hs as <-. left. by apply (Hback true h' l').
  - injection Hs as <-. left. by apply (Hback false h' l').
  - unfold call in Hs. destruct (Thread.todo _); [|done]. injection Hs as <-. by left.
Qed.

(** Only a host that caches the region has copies of it, and none is dirty where
    stores go past the cache. *)
Definition placed (s : t) : Prop := forall h l,
  (modeOf h <> Flush -> cache s (h, l) = None) /\ (modeOf h <> Flush \/ hasMovdir64b (buildOf h) = true -> isDirty h l s = false).

Lemma copy_step e s s' h l : step e s = Some s' -> cache s (h, l) = None -> modeOf h <> Flush -> cache s' (h, l) = None.
Proof.
  intros Hs Hc Hm.
  destruct e as [a|a i|a i|h' l'|h' l'|h' l'|a code]; cbn in Hs.
  - destruct (issue_spec a s s' Hs) as (th & i & rest & -> & _). done.
  - unfold drain in Hs. destruct (_ !! i) as [[l' v]|]; [|done]. destruct (holdsLine _ _); [done|]. injection Hs as <-.
    unfold land. destruct (modeOf (hostOf a)) eqn:Hm'; [exact Hc..|]. destruct (hasMovdir64b _); cbn; copies.
  - unfold complete in Hs. destruct (_ !! i) as [[l' keeps]|]; [|done]. destruct (holdsLine _ _); [done|]. injection Hs as <-.
    destruct keeps; cbn [cache onThread]; rewrite ?cache_writeBack, ?cache_evict, Hc; by case_decide.
  - unfold fill in Hs. destruct (modeOf h') eqn:Hm'; [done..|]. destruct (cache s (h', l')) eqn:Hn; [done|]. injection Hs as <-. cbn. copies.
  - injection Hs as <-. rewrite cache_writeBack, Hc. by case_decide.
  - injection Hs as <-. rewrite cache_evict, Hc. by case_decide.
  - unfold call in Hs. destruct (Thread.todo _); [|done]. by injection Hs as <-.
Qed.

Lemma placed_step e s s' : placed s -> step e s = Some s' -> placed s'.
Proof.
  intros Hp Hs h l. split; [intros Hm; eapply copy_step; [done|by apply Hp|done]|].
  intros Hm. destruct (isDirty h l s') eqn:Hd; [|done].
  apply (dirty_step e s s' h l Hs) in Hd as [Hd|(_ & Hf & Hb)]; [|destruct Hm; congruence].
  by rewrite (proj2 (Hp h l) Hm) in Hd.
Qed.

Lemma reachable_placed s : reachable s -> placed s.
Proof.
  intros (s0 & [Hc _] & Hr). assert (placed s0) as Hp by (intros h l; unfold isDirty; by rewrite Hc).
  clear Hc. induction Hr as [|x y z [e He] _ IH]; [done|]. apply IH. by eapply placed_step.
Qed.

(** What the step does to the thread [b]. *)
Lemma thread_step e s s' b :
  step e s = Some s' ->
  threads s' b = threads s b \/ e = Issue b /\ issue b s = Some s' \/
  (exists i, e = Drain b i /\ threads s' b = Thread.with_buf (delete i (Thread.buf (threads s b))) (threads s b)) \/
  (exists i, e = Complete b i /\ threads s' b = Thread.with_flushing (delete i (Thread.flushing (threads s b))) (threads s b)) \/
  exists code, e = Call b code /\ Thread.todo (threads s b) = [] /\ threads s' b = Thread.starts code (threads s b).
Proof.
  destruct e as [a|a i|a i|h' l'|h' l'|h' l'|a code]; cbn; intros Hs.
  - destruct (decide (a = b)) as [->|Hne]; [right; by left|]. left.
    destruct (issue_spec a s s' Hs) as (th & i & rest & -> & _). rewrite threads_onThread. by case_decide.
  - unfold drain in Hs. destruct (_ !! i) as [[l' v]|] eqn:Hi; [|done]. destruct (holdsLine _ _); [done|]. injection Hs as <-.
    rewrite threads_land, threads_onThread. case_decide as Hd; [subst b|by left]. right; right; left. by exists i.
  - unfold complete in Hs. destruct (_ !! i) as [[l' keeps]|]; [|done]. destruct (holdsLine _ _); [done|]. injection Hs as <-.
    rewrite threads_onThread. assert (threads ((if keeps then writeBack else evict) (hostOf a) l' s) = threads s) as ->
      by (destruct keeps; [|unfold evict; cbn]; apply threads_writeBack).
    case_decide as Hd; [subst b|by left]. right; right; right; left. by exists i.
  - unfold fill in Hs. destruct (modeOf h'); [done..|]. destruct (cache s _); [done|]. injection Hs as <-. by left.
  - injection Hs as <-. left. by rewrite threads_writeBack.
  - injection Hs as <-. left. unfold evict. cbn. by rewrite threads_writeBack.
  - unfold call in Hs. destruct (Thread.todo _) eqn:Ht; [|done]. injection Hs as <-. rewrite threads_onThread.
    case_decide as Hd; [subst b|by left]. right; right; right; right. by exists code.
Qed.

(** The step is not a store of [a] to the line. *)
Definition noStore (a line : Z) (e : event) (s : t) : Prop :=
  e = Issue a -> forall v rest, Thread.todo (threads s a) <> StoreLine line v :: rest.

Lemma buf_step e s s' b l :
  step e s = Some s' -> noStore b l e s -> l ∉ (Thread.buf (threads s b)).*1 -> l ∉ (Thread.buf (threads s' b)).*1.
Proof.
  intros Hs Hno Hn. destruct (thread_step e s s' b Hs) as [->|[[-> Hi]|[(i & _ & ->)|[(i & _ & ->)|(code & _ & _ & ->)]]]]; try done.
  - destruct (issue_spec b s s' Hi) as (th & i & rest & -> & Ht & _ & Hb & _). rewrite threads_onThread, decide_True by done.
    rewrite Hb. destruct i; try done. rewrite fmap_app, elem_of_app. cbn. intros [|Hin]; [done|].
    apply list_elem_of_singleton in Hin as ->. by eapply Hno.
  - cbn. by apply holdsLine_delete.
Qed.

Lemma hostView_land_ne h h' l line v s : l <> line -> hostView h line (land h' l v s) = hostView h line s.
Proof.
  intros Hne. unfold land. destruct (modeOf h'); [..|destruct (hasMovdir64b _)]; unfold hostView; cbn; copies.
Qed.
Lemma hostView_land h line v s : placed s -> hostView h line (land h line v s) = v.
Proof.
  intros Hp. pose proof (proj1 (Hp h line)) as Hn. unfold land. destruct (modeOf h); [..|destruct (hasMovdir64b _)]; unfold hostView; cbn.
  1-2: rewrite Hn by done. all: copies.
Qed.

(** Nobody but [a], and no cache but its host's, has the line to write. *)
Definition sole (a line : Z) (s : t) : Prop :=
  (forall b, b <> a -> line ∉ (Thread.buf (threads s b)).*1) /\ (forall h, h <> hostOf a -> isDirty h line s = false).

(** While [a] alone has the line to write, what it sees of it is what it stored
    last, wherever the store has got to. *)
Lemma visible_step a line e s s' :
  placed s -> sole a line s -> step e s = Some s' -> noStore a line e s -> visible a line s' = visible a line s.
Proof.
  intros Hp [Hbuf Hdirty] Hs Hno.
  assert (forall (back : bool) h l, hostView (hostOf a) line ((if back then writeBack else evict) h l s) = hostView (hostOf a) line s) as Hback.
  { intros back h l. apply hostView_back. destruct (decide (h = hostOf a)); [by left|right; by apply Hdirty]. }
  assert (forall x, hostView (hostOf a) line x = hostView (hostOf a) line s -> threads x a = threads s a -> visible a line x = visible a line s) as Hsame
    by (unfold visible; by intros x -> ->).
  destruct e as [b|b i|b i|h' l'|h' l'|h' l'|b code]; cbn in Hs.
  - destruct (issue_spec b s s' Hs) as (th & i & rest & -> & Ht & _ & Hb & _).
    unfold visible. rewrite threads_onThread. case_decide as Hd; [subst b|done]. rewrite Hb.
    destruct i; try done. rewrite forwarded_app. destruct (Z.eqb_spec line0 line) as [->|]; [|done]. by destruct (Hno eq_refl value rest).
  - unfold drain in Hs. destruct (_ !! i) as [[l v]|] eqn:Hi; [|done]. unfold holdsLine in Hs. case_bool_decide as Hl; [done|]. injection Hs as <-.
    destruct (decide (b = a)) as [->|Hne].
    + unfold visible. rewrite threads_land, threads_onThread, decide_True by done. cbn [Thread.buf Thread.with_buf].
      rewrite (forwarded_delete line _ i l v Hi Hl). destruct (Z.eqb_spec l line) as [->|Hll].
      * destruct (forwarded line (delete i _)); cbn; [done|]. by apply hostView_land.
      * destruct (forwarded line (delete i _)); [done|]. by rewrite hostView_land_ne.
    + apply Hsame; [|rewrite threads_land, threads_onThread; by case_decide].
      rewrite hostView_land_ne; [done|]. intros ->. apply (Hbuf b Hne). apply list_elem_of_fmap. exists (line, v). split; [done|].
      by eapply list_elem_of_lookup_2.
  - pose proof (thread_step (Complete b i) s s' a Hs) as Hth. unfold complete in Hs. destruct (_ !! i) as [[l keeps]|]; [|done].
    destruct (holdsLine _ _); [done|]. injection Hs as <-. unfold visible.
    assert (hostView (hostOf a) line (onThread b (Thread.with_flushing (delete i (Thread.flushing (threads s b))))
      ((if keeps then writeBack else evict) (hostOf b) l s)) = hostView (hostOf a) line s) as -> by apply (Hback keeps).
    destruct Hth as [->|[[? _]|[(? & ? & _)|[(? & ? & ->)|(? & ? & _)]]]]; done.
  - unfold fill in Hs. destruct (modeOf h'); [done..|]. destruct (cache s _) eqn:Hn; [done|]. injection Hs as <-.
    apply Hsame; [|done]. unfold hostView. cbn. unfold insert, fn_insert. case_decide as Hd; [|done]. by rewrite <- Hd, Hn.
  - injection Hs as <-. apply Hsame; [apply (Hback true)|by rewrite threads_writeBack].
  - injection Hs as <-. apply Hsame; [apply (Hback false)|unfold evict; cbn; by rewrite threads_writeBack].
  - unfold call in Hs. destruct (Thread.todo _); [|done]. injection Hs as <-. unfold visible. rewrite threads_onThread. by case_decide as Hd; [subst b|].
Qed.

(** *** A get *)

(** Where a record stands: on a line of its own, below the end of the address
    space. *)
Definition aligned (slot : Z) : Prop := 0 <= slot /\ slot mod CacheLineBytes = 0 /\ in_u64 (slot + 2 * CacheLineBytes).

Lemma get_code slot mode : aligned slot ->
  get slot mode = match mode with
    | Flush => [Clflushopt slot; Mfence; LoadLine slot]
    | Uncached => [Lfence; LoadLine slot]
    | CacheCoherent => [LoadLine slot]
    end.
Proof. intros (H0 & Hm & Hr). unfold get, rmb. destruct mode; try done. by rewrite walk_slot. Qed.

Lemma load_spec a slot rest s s' :
  issue a s = Some s' -> Thread.todo (threads s a) = LoadLine slot :: rest ->
  exists v, Thread.got (threads s' a) = Some v /\ Thread.todo (threads s' a) = rest /\
    (visible a slot s = v \/ slot ∉ (Thread.buf (threads s a)).*1 /\ cache s (hostOf a, slot) = Some (v, false)).
Proof.
  unfold issue, visible. intros H Ht. rewrite Ht in H. destruct (forwarded slot _) as [v|] eqn:Hf.
  - exists v. assert (Some (onThread a (fun th => Thread.with_got v (Thread.onward rest th)) s) = Some s') as H'
      by (destruct (modeOf _); done).
    injection H' as <-. rewrite threads_onThread, decide_True by done. auto.
  - injection H as <-. eexists. rewrite threads_onThread, decide_True by done. split_and!; [done..|].
    apply forwarded_None in Hf. unfold hostView. destruct (cache s (hostOf a, slot)) as [[v []]|] eqn:Hc; auto.
Qed.

Section get.
Context (a slot : Z) (P : t -> Prop) (start : t).

(** The thread could have seen the value at some moment of the window. *)
Definition Seen (s : t) (v : list Z) : Prop :=
  exists mid, rtc (within a P) start mid /\ rtc (within a P) mid s /\ visible a slot mid = v.
Definition fresh (s : t) : Prop :=
  modeOf (hostOf a) = Flush ->
  slot ∉ (Thread.buf (threads s a)).*1 /\ forall v, cache s (hostOf a, slot) = Some (v, false) -> Seen s v.
Definition getting (s : t) : Prop :=
  match Thread.todo (threads s a) with
  | [] => exists v, Thread.got (threads s a) = Some v /\ Seen s v
  | [LoadLine l] => l = slot /\ fresh s
  | [Lfence; LoadLine l] => l = slot /\ fresh s
  | [Mfence; LoadLine l] => l = slot /\ ((slot, false) ∈ Thread.flushing (threads s a) \/ fresh s)
  | [Clflushopt l; Mfence; LoadLine l'] => l = slot /\ l' = slot
  | _ => False
  end.

Lemma Seen_step s s' v : Seen s v -> within a P s s' -> Seen s' v.
Proof. intros (mid & H1 & H2 & Hv) Hw. exists mid. split_and!; [done|by eapply rtc_r|done]. Qed.
Lemma Seen_now s v : rtc (within a P) start s -> visible a slot s = v -> Seen s v.
Proof. intros Hr Hv. exists s. auto using rtc_refl. Qed.

Lemma fresh_step e s s' :
  rtc (within a P) start s -> within a P s s' -> step e s = Some s' -> noStore a slot e s -> fresh s -> fresh s'.
Proof.
  intros Hr Hw Hs Hno Hf Hm. destruct (Hf Hm) as [Hb Hc]. split; [by eapply buf_step|]. intros v Hv.
  destruct (clean_copy e s s' _ _ _ Hs Hv) as [Hv'|Hv']; [eapply Seen_step; [by apply Hc|done]|].
  eapply Seen_step; [|done]. apply Seen_now; [done|]. unfold visible. by rewrite (proj2 (forwarded_None _ _) Hb).
Qed.

(** The flush of the line is done: no copy is left, nor a store to make one. *)
Lemma complete_fresh i s s' :
  complete a i s = Some s' -> Thread.flushing (threads s a) !! i = Some (slot, false) -> fresh s'.
Proof.
  unfold complete. intros Hs Hi _. rewrite Hi in Hs. unfold holdsLine in Hs. case_bool_decide as Hl; [done|]. injection Hs as <-.
  rewrite threads_onThread, decide_True by done. unfold evict. cbn. rewrite threads_writeBack. split; [done|].
  intros v. unfold insert, fn_insert. by rewrite decide_True.
Qed.

Lemma getting_step s s' : placed s -> rtc (within a P) start s -> within a P s s' -> getting s -> getting s'.
Proof.
  intros Hp Hr Hw Hg. pose proof Hw as (e & Hs & Hnc & HP).
  assert (noStore a slot e s) as Hno.
  { intros _ v rest Ht. unfold getting in Hg. by rewrite Ht in Hg. }
  pose proof (fun H => fresh_step e s s' Hr Hw Hs Hno H) as Hfresh.
  assert (Thread.todo (threads s' a) = Thread.todo (threads s a) -> Thread.got (threads s' a) = Thread.got (threads s a) ->
    ((slot, false) ∈ Thread.flushing (threads s a) -> (slot, false) ∈ Thread.flushing (threads s' a) \/ fresh s') -> getting s') as Hstay.
  { intros Ht Hgo Hfl. unfold getting in *. rewrite Ht, Hgo.
    destruct (Thread.todo (threads s a)) as [|[] [|[] [|[] []]]]; try done; try (destruct Hg; split; [done|]; by apply Hfresh).
    - destruct Hg as (v & Hv & Hse). exists v. split; [done|]. by eapply Seen_step.
    - destruct Hg as [-> [Hin|Hf]]; (split; [done|]); [by apply Hfl|right; by apply Hfresh]. }
  destruct (thread_step e s s' a Hs) as [Ht|[[-> Hi]|[(i & -> & Ht)|[(i & -> & Ht)|(code & -> & _)]]]].
  - rewrite Ht in Hstay. apply Hstay; auto.
  - destruct (Thread.todo (threads s a)) as [|i0 rest0] eqn:Htodo; [by unfold issue in Hi; rewrite Htodo in Hi|].
    destruct (issue_spec a s s' Hi) as (th & i & rest & Hs' & Ht & Htd & Hb & Hf & _). rewrite Htodo in Ht. injection Ht as <- <-.
    assert (threads s' a = th) as Hth by (rewrite Hs', threads_onThread; by rewrite decide_True).
    unfold getting in Hg. rewrite Htodo in Hg. unfold getting. rewrite Hth, Htd.
    destruct i0; try done; destruct rest0 as [|[] [|[] []]]; try done.
    + destruct Hg as [-> Hfr]. destruct (load_spec a slot [] s s' Hi Htodo) as (v & Hgot & _ & Hv). rewrite Hth in Hgot.
      exists v. split; [done|]. eapply Seen_step; [|done]. destruct Hv as [Hv|[Hn Hc]]; [by apply Seen_now|].
      apply Hfr; [|done]. destruct (modeOf (hostOf a)) eqn:Hm; [..|done]; rewrite (proj1 (Hp _ slot)) in Hc by congruence; done.
    + destruct Hg as [-> ->]. split; [done|]. left. rewrite Hf. set_solver.
    + destruct Hg as [-> Hfr]. split; [done|]. by apply Hfresh.
    + destruct Hg as [-> Hfr]. split; [done|]. apply Hfresh. destruct Hfr as [Hin|]; [|done].
      unfold issue in Hi. rewrite Htodo in Hi. unfold Thread.drained in Hi. case_bool_decide as Hd; [|done]. destruct Hd as [_ Hd].
      rewrite Hd in Hin. by apply not_elem_of_nil in Hin.
  - apply Hstay; rewrite Ht; auto.
  - apply Hstay; rewrite Ht; auto. cbn. intros Hin.
    destruct (decide (Thread.flushing (threads s a) !! i = Some (slot, false))) as [Hi|Hi]; [right; by eapply complete_fresh|left].
    by apply list_elem_of_delete_ne.
  - by destruct (Hnc code).
Qed.
End get.

(** *** A set *)

Section set.
Context (a slot : Z) (v : list Z).
Let host := hostOf a.
(** The store stays in the cache until it is flushed. *)
Definition cached : Prop := modeOf host = Flush /\ hasMovdir64b (buildOf host) = false.
(** Nothing orders it before the later stores of the thread but their order. *)
Definition unfenced : Prop := modeOf host = CacheCoherent /\ hasMovdir64b (buildOf host) = false.

Definition clean (s : t) : Prop := slot ∉ (Thread.buf (threads s a)).*1 /\ isDirty host slot s = false.
Definition leaving (s : t) : Prop := cached -> (exists keeps, (slot, keeps) ∈ Thread.flushing (threads s a)) \/ clean s.
Definition setting (s : t) : Prop :=
  match Thread.todo (threads s a) with
  | StoreLine l w :: rest => l = slot /\ w = v /\ StoreLine l w :: rest = set (buildOf host) slot v (modeOf host)
  | [Clwb l; Sfence] | [Clflushopt l; Sfence] => l = slot /\ visible a slot s = v
  | [Sfence] => visible a slot s = v /\ leaving s
  | [] => visible a slot s = v /\ leaving s /\ (Thread.barrier (threads s a) = true \/ unfenced)
  | _ => False
  end.

Lemma set_code : aligned slot ->
  set (buildOf host) slot v (modeOf host) = StoreLine slot v ::
    (if hasMovdir64b (buildOf host) then [Sfence] else
     match modeOf host with
     | CacheCoherent => []
     | Uncached => [Sfence]
     | Flush => [if hasClwb (buildOf host) then Clwb slot else Clflushopt slot; Sfence]
     end).
Proof.
  intros (H0 & Hm & Hr). unfold set, wmb. destruct (hasMovdir64b _); [done|]. destruct (modeOf host); try done.
  rewrite walk_slot by done. by destruct (hasClwb _).
Qed.

Lemma complete_clean i keeps s s' : complete a i s = Some s' -> Thread.flushing (threads s a) !! i = Some (slot, keeps) -> clean s'.
Proof.
  unfold complete. intros Hs Hi. rewrite Hi in Hs. unfold holdsLine in Hs. case_bool_decide as Hl; [done|]. injection Hs as <-.
  unfold clean, isDirty. rewrite threads_onThread, decide_True by done. cbn [cache onThread].
  destruct keeps; cbn; unfold evict; cbn; rewrite ?threads_writeBack; (split; [done|]).
  - rewrite cache_writeBack, decide_True by done. by destruct (cache s _) as [[]|].
  - unfold insert, fn_insert. by rewrite decide_True.
Qed.

Lemma clean_step e s s' : placed s -> sole a slot s -> step e s = Some s' -> noStore a slot e s -> clean s -> clean s'.
Proof.
  intros Hp [Hso _] Hs Hno [Hb Hd]. split; [by eapply buf_step|].
  destruct (isDirty host slot s') eqn:Hd'; [|done]. apply (dirty_step e s s' _ _ Hs) in Hd' as [|((b & Hh & Hin) & _)]; [congruence|].
  destruct (decide (b = a)) as [->|Hne]; [done|]. by destruct (Hso b Hne).
Qed.

Lemma leaving_step e s s' :
  placed s -> sole a slot s -> step e s = Some s' -> noStore a slot e s -> leaving s -> leaving s'.
Proof.
  intros Hp Hso Hs Hno Hl Hc. destruct (Hl Hc) as [[keeps Hin]|Hcl]; [|right; by eapply clean_step].
  destruct (thread_step e s s' a Hs) as [Ht|[[-> Hi]|[(i & -> & Ht)|[(i & -> & Ht)|(code & -> & _ & Ht)]]]].
  - rewrite Ht. eauto.
  - destruct (issue_spec a s s' Hi) as (th & i & rest & -> & _ & _ & _ & Hf & _). left. exists keeps.
    rewrite threads_onThread, decide_True, Hf by done. destruct i; rewrite ?elem_of_app; auto.
  - rewrite Ht. eauto.
  - destruct (decide (Thread.flushing (threads s a) !! i = Some (slot, keeps))) as [Hi|Hi]; [right; by eapply complete_clean|left].
    exists keeps. rewrite Ht. by apply list_elem_of_delete_ne.
  - rewrite Ht. eauto.
Qed.

Lemma setting_step s s' :
  aligned slot -> placed s -> sole a slot s -> within a (sole a slot) s s' -> setting s -> setting s'.
Proof.
  intros Hal Hp Hso (e & Hs & Hnc & _) Hg.
  pose proof (fun H => visible_step a slot e s s' Hp Hso Hs H) as Hvis.
  pose proof (fun H => leaving_step e s s' Hp Hso Hs H) as Hlv.
  assert (e <> Issue a -> Thread.todo (threads s' a) = Thread.todo (threads s a) -> Thread.barrier (threads s' a) = Thread.barrier (threads s a) ->
    setting s') as Hstay.
  { intros Hne Ht Hba. assert (noStore a slot e s) as Hno by (by intros ->). unfold setting in *. rewrite Ht, Hba, (Hvis Hno).
    destruct (Thread.todo (threads s a)) as [|[] [|[] []]]; naive_solver. }
  destruct (thread_step e s s' a Hs) as [Ht|[[-> Hi]|[(i & -> & Ht)|[(i & -> & Ht)|(code & -> & _)]]]].
  - destruct (decide (e = Issue a)) as [->|Hne]; [|apply Hstay; by rewrite ?Ht]. exfalso.
    destruct (issue_spec a s s' Hs) as (th & i & rest & -> & Htd & Hr & _). rewrite threads_onThread, decide_True in Ht by done.
    rewrite Ht, Htd in Hr. by apply (f_equal length) in Hr; cbn in Hr; lia.
  - clear Hstay. destruct (issue_spec a s s' Hi) as (th & i & rest & Hs' & Htd & Hr & Hb & Hf & Hba).
    assert (threads s' a = th) as Hth by (by rewrite Hs', threads_onThread, decide_True).
    assert ((forall w, i <> StoreLine slot w) -> noStore a slot (Issue a) s) as Hno by (intros Hi' _ w r; rewrite Htd; congruence).
    unfold setting in *. rewrite Hth, Hr, Hba. rewrite Htd in Hg. destruct i as [l w|l|l|l| | |]; try (by destruct rest as [|[] []]).
    + destruct Hg as (-> & -> & Hcode). rewrite set_code in Hcode by done. injection Hcode as Hcode.
      assert (visible a slot s' = v) as Hv by (unfold visible; by rewrite Hth, Hb, forwarded_app, Z.eqb_refl).
      assert (~ cached -> leaving s') as Hnl by (intros Hn Hc; by destruct Hn). rewrite Hcode. unfold cached, unfenced in *.
      destruct (hasMovdir64b _) eqn:Hmv; [split; [done|]; apply Hnl; naive_solver|].
      destruct (modeOf host) eqn:Hm; [split_and!; [done|apply Hnl; naive_solver|by right]|split; [done|apply Hnl; naive_solver]|].
      by destruct (hasClwb _).
    + destruct rest as [|[] []]; try done. destruct Hg as [-> Hv]. rewrite Hvis by (apply Hno; done). split; [done|].
      intros _. left. exists true. rewrite Hth, Hf. set_solver.
    + destruct rest as [|[] []]; try done. destruct Hg as [-> Hv]. rewrite Hvis by (apply Hno; done). split; [done|].
      intros _. left. exists false. rewrite Hth, Hf. set_solver.
    + destruct rest as [|]; [|by destruct rest]. destruct Hg as [Hv Hl]. rewrite Hvis by (apply Hno; done).
      split_and!; [done|apply Hlv; [by apply Hno|done]|by left].
  - apply Hstay; by rewrite ?Ht.
  - apply Hstay; by rewrite ?Ht.
  - by destruct (Hnc code).
Qed.
End set.

(** *** What the two promise *)

Lemma within_move a P s s' : within a P s s' -> move s s'.
Proof. intros (e & Hs & _). by exists e. Qed.

Lemma within_placed a P s s' : placed s -> rtc (within a P) s s' -> placed s'.
Proof. intros Hp Hr. induction Hr as [|x y z (e & Hs & _) _ IH]; [done|]. apply IH. by eapply placed_step. Qed.

(** A get misses no write for a copy of its own.  However the hosts, each in
    its own regime and build, fill, evict and write back their caches, a get that
    returns gives a value its thread would have seen at some moment of the call
    with no clean copy at all: its own store still on its way out, the dirty line
    of its host, or memory. *)
Lemma get_current a slot P s s' :
  reachable s -> aligned slot -> Thread.todo (threads s a) = get slot (modeOf (hostOf a)) ->
  rtc (within a P) s s' -> Thread.todo (threads s' a) = [] ->
  exists v mid, Thread.got (threads s' a) = Some v /\
    rtc (within a P) s mid /\ rtc (within a P) mid s' /\ visible a slot mid = v.
Proof.
  intros Hre Hal Hcode Hr Hout. apply reachable_placed in Hre as Hp.
  assert (getting a slot P s s') as Hg.
  { assert (getting a slot P s s) as H0.
    { unfold getting. rewrite Hcode, get_code by done. unfold fresh. by destruct (modeOf (hostOf a)). }
    clear Hout. refine (rtc_ind_r (fun x => getting a slot P s x) s H0 _ s' Hr). intros x y Hx Hxy IH.
    eapply getting_step; [by eapply within_placed|done..]. }
  unfold getting in Hg. rewrite Hout in Hg. destruct Hg as (v & Hv & mid & H1 & H2 & Hmid). by exists v, mid.
Qed.

(** A set is out before the next store.  While no other thread has the line
    to write, a set that has returned stands between its thread and the thread's
    next store until it is in memory and in no cache; only under [CacheCoherent]
    it asks for an [mb] to say so.  Until then the thread reads its own value. *)
Lemma set_landed a slot v s s' :
  reachable s -> aligned slot -> Thread.todo (threads s a) = set (buildOf (hostOf a)) slot v (modeOf (hostOf a)) ->
  sole a slot s -> rtc (within a (sole a slot)) s s' -> Thread.todo (threads s' a) = [] ->
  visible a slot s' = v /\ (Thread.barrier (threads s' a) = true \/ unfenced a) /\
  (Thread.drained (threads s' a) = true -> mem s' slot = v /\ forall h, isDirty h slot s' = false).
Proof.
  intros Hre Hal Hcode Hso Hr Hout. apply reachable_placed in Hre as Hp.
  assert (setting a slot v s) as H0.
  { unfold setting. rewrite Hcode, set_code by done. done. }
  assert (setting a slot v s' /\ sole a slot s') as [Hg Hso'].
  { clear Hout Hcode Hre. induction Hr as [|x y z Hxy _ IH]; [done|]. destruct Hxy as (e & Hs & Hnc & Hy).
    apply IH; [done|by eapply placed_step|]. eapply setting_step; [done|exact Hp|exact Hso| |done]. by exists e. }
  pose proof (within_placed _ _ _ _ Hp Hr) as Hp'. unfold setting in Hg. rewrite Hout in Hg. destruct Hg as (Hv & Hl & Hb).
  split_and!; [done..|]. intros Hd. unfold Thread.drained in Hd. apply bool_decide_eq_true in Hd as [Hbuf Hfl].
  assert (isDirty (hostOf a) slot s' = false) as Hcl.
  { destruct (decide (modeOf (hostOf a) = Flush)) as [Hm|Hm]; [|apply Hp'; by left].
    destruct (hasMovdir64b (buildOf (hostOf a))) eqn:Hmv; [apply Hp'; by right|].
    destruct Hl as [[k Hin]|Hcl]; [done| |apply Hcl]. rewrite Hfl in Hin. by apply not_elem_of_nil in Hin. }
  split.
  - rewrite <- Hv. unfold visible, hostView. rewrite Hbuf. cbn. unfold isDirty in Hcl.
    by destruct (cache s' (hostOf a, slot)) as [[? []]|].
  - intros h. destruct (decide (h = hostOf a)) as [->|Hne]; [done|by apply Hso'].
Qed.

(** The barrier a set leaves behind holds back every later store. *)
Lemma store_waits a line v rest s s' :
  Thread.todo (threads s a) = StoreLine line v :: rest -> Thread.barrier (threads s a) = true -> issue a s = Some s' ->
  Thread.drained (threads s a) = true.
Proof. unfold issue. intros -> ->. cbn. by destruct (Thread.drained _). Qed.

(** Nobody has the line to write. *)
Definition unwritten (slot : Z) (s : t) : Prop := forall b, slot ∉ (Thread.buf (threads s b)).*1.
Definition settled (slot : Z) (v : list Z) (s : t) : Prop :=
  mem s slot = v /\ (forall h, isDirty h slot s = false) /\ unwritten slot s.
Definition undisturbed (slot : Z) (s s' : t) : Prop := move s s' /\ unwritten slot s'.

Lemma within_last a (P : t -> Prop) s s' : P s -> rtc (within a P) s s' -> P s'.
Proof. intros HP Hr. induction Hr as [|x y z (e & _ & _ & Hy) _ IH]; auto. Qed.
Lemma sole_unwritten a slot s : sole a slot s -> Thread.drained (threads s a) = true -> unwritten slot s.
Proof.
  intros [Hb _] Hd b. destruct (decide (b = a)) as [->|Hne]; [|by apply Hb].
  unfold Thread.drained in Hd. apply bool_decide_eq_true in Hd as [-> _]. apply not_elem_of_nil.
Qed.

Lemma settled_visible slot v a s : settled slot v s -> visible a slot s = v.
Proof.
  intros (Hm & Hd & Hu). unfold visible. rewrite (proj2 (forwarded_None _ _) (Hu a)). unfold hostView. specialize (Hd (hostOf a)).
  unfold isDirty in Hd. by destruct (cache s (hostOf a, slot)) as [[? []]|].
Qed.

Lemma settled_step slot v s s' : placed s -> settled slot v s -> undisturbed slot s s' -> settled slot v s'.
Proof.
  intros Hp Hse [[e Hs] Hu']. pose proof Hse as (Hm & Hd & Hu).
  assert (forall h, isDirty h slot s' = false) as Hd'.
  { intros h. destruct (isDirty h slot s') eqn:Hh; [|done]. apply (dirty_step e s s' _ _ Hs) in Hh as [Hh|((b & _ & Hin) & _)].
    - by rewrite Hd in Hh.
    - by destruct (Hu b). }
  assert (noStore 0 slot e s) as Hno.
  { intros -> w rest Ht. destruct (issue_spec 0 s s' Hs) as (th & i & r & -> & Ht' & _ & Hb & _). rewrite Ht in Ht'. injection Ht' as <- <-.
    apply (Hu' 0). rewrite threads_onThread, decide_True, Hb, fmap_app by done. set_solver. }
  split_and!; [|done..]. rewrite <- (settled_visible slot v 0 s Hse).
  rewrite <- (visible_step 0 slot e s s' Hp (conj (fun b _ => Hu b) (fun h _ => Hd h)) Hs Hno).
  unfold visible, hostView. rewrite (proj2 (forwarded_None _ _) (Hu' 0)). specialize (Hd' (hostOf 0)). unfold isDirty in Hd'.
  by destruct (cache s' (hostOf 0, slot)) as [[? []]|].
Qed.

Lemma settled_run slot v s s' : placed s -> settled slot v s -> rtc (undisturbed slot) s s' -> settled slot v s' /\ placed s'.
Proof.
  intros Hp Hse Hr. induction Hr as [|x y z Hxy _ IH]; [done|]. pose proof Hxy as [[e Hs] _].
  apply IH; [by eapply placed_step|by eapply settled_step].
Qed.

(** C5: what one host published, another reads.  A thread sets a record that
    nobody else has to write; once its next store may go out (under
    [CacheCoherent], once an [mb] has passed), a get of any thread on any host,
    whatever its regime and whatever its cache kept, returns that value as long
    as nobody writes the record again. *)
Theorem handoff_visible a b slot v s0 s1 s2 s3 :
  reachable s0 -> aligned slot -> Thread.todo (threads s0 a) = set (buildOf (hostOf a)) slot v (modeOf (hostOf a)) ->
  sole a slot s0 -> rtc (within a (sole a slot)) s0 s1 -> Thread.todo (threads s1 a) = [] -> Thread.drained (threads s1 a) = true ->
  rtc (undisturbed slot) s1 s2 -> Thread.todo (threads s2 b) = get slot (modeOf (hostOf b)) ->
  rtc (within b (unwritten slot)) s2 s3 -> Thread.todo (threads s3 b) = [] ->
  Thread.got (threads s3 b) = Some v.
Proof.
  intros Hre Hal Hset Hso Hr1 Hout1 Hdr Hr2 Hget Hr3 Hout3.
  destruct (set_landed a slot v s0 s1 Hre Hal Hset Hso Hr1 Hout1) as (_ & _ & Hland). destruct (Hland Hdr) as [Hm Hd].
  pose proof (within_placed _ _ _ _ (reachable_placed _ Hre) Hr1) as Hp1. pose proof (within_last _ _ _ _ Hso Hr1) as Hso1.
  assert (settled slot v s1) as Hs1.
  { split_and!; [done..|]. by eapply sole_unwritten. }
  destruct (settled_run slot v s1 s2 Hp1 Hs1 Hr2) as [Hs2 Hp2].
  assert (reachable s2) as Hre2.
  { destruct Hre as (c0 & Hc & Hr0). exists c0. split; [done|]. etrans; [done|]. etrans.
    - eapply rtc_subrel; [|exact Hr1]. intros x y. apply within_move.
    - eapply rtc_subrel; [|exact Hr2]. by intros x y []. }
  destruct (get_current b slot (unwritten slot) s2 s3 Hre2 Hal Hget Hr3 Hout3) as (w & mid & Hgot & Hmid & _ & Hv).
  rewrite Hgot, <- Hv. f_equal. apply settled_visible. eapply settled_run; [exact Hp2|exact Hs2|].
  eapply rtc_subrel; [|exact Hmid]. intros x y (e & Hs & _ & Hu). split; [by exists e|done].
Qed.

(** *** Runs *)

(** A run whose every event [ok] lets through. *)
Fixpoint run (ok : event -> t -> bool) (events : list event) (s : t) : option t :=
  match events with
  | [] => Some s
  | e :: events => if ok e s then match step e s with Some s => run ok events s | None => None end else None
  end.
Definition anything (e : event) (s : t) : bool := true.
(** Only [a] issues, and it stays in its call. *)
Definition onlyIssues (a : Z) (e : event) (s : t) : bool :=
  match e with Issue b => b =? a | Call b _ => negb (b =? a) | _ => true end.
(** Nobody issues a store, and [a] stays in its call. *)
Definition noStores (a : Z) (e : event) (s : t) : bool :=
  match e with
  | Issue b => match Thread.todo (threads s b) with StoreLine _ _ :: _ => false | _ => true end
  | Call b _ => negb (b =? a)
  | _ => true
  end.

Lemma run_moves events s s' : run anything events s = Some s' -> rtc move s s'.
Proof.
  revert s. induction events as [|e events IH]; cbn; intros s H; [injection H as <-; apply rtc_refl|].
  destruct (step e s) as [s1|] eqn:He; [|done]. eapply rtc_l; [by exists e|by apply IH].
Qed.

Lemma sole_step a slot e s s' :
  sole a slot s -> step e s = Some s' -> (forall b, b <> a -> noStore b slot e s) -> sole a slot s'.
Proof.
  intros [Hb Hd] Hs Hno. split; [intros b Hne; eapply buf_step; [done|by apply Hno|by apply Hb]|].
  intros h Hh. destruct (isDirty h slot s') eqn:Hd'; [|done]. apply (dirty_step e s s' _ _ Hs) in Hd' as [Hd'|((b & <- & Hin) & _)].
  - by rewrite Hd in Hd'.
  - destruct (decide (b = a)) as [->|Hne]; [done|]. by destruct (Hb b Hne).
Qed.

Lemma run_sole a slot events s s' :
  sole a slot s -> run (onlyIssues a) events s = Some s' -> rtc (within a (sole a slot)) s s'.
Proof.
  revert s. induction events as [|e events IH]; cbn; intros s Hso H; [injection H as <-; apply rtc_refl|].
  destruct (onlyIssues a e s) eqn:Hok; [|done]. destruct (step e s) as [s1|] eqn:He; [|done].
  assert (sole a slot s1) as Hso1.
  { eapply sole_step; [done..|]. intros b Hne ->. cbn in Hok. apply Z.eqb_eq in Hok. done. }
  eapply rtc_l; [|by apply IH]. exists e. split_and!; [done| |done]. intros code ->. cbn in Hok. by rewrite Z.eqb_refl in Hok.
Qed.

Lemma run_unwritten a slot events s s' :
  unwritten slot s -> run (noStores a) events s = Some s' -> rtc (within a (unwritten slot)) s s'.
Proof.
  revert s. induction events as [|e events IH]; cbn; intros s Hso H; [injection H as <-; apply rtc_refl|].
  destruct (noStores a e s) eqn:Hok; [|done]. destruct (step e s) as [s1|] eqn:He; [|done].
  assert (unwritten slot s1) as Hso1.
  { intros b. eapply buf_step; [done| |apply Hso]. intros -> v rest Ht. cbn in Hok. by rewrite Ht in Hok. }
  eapply rtc_l; [|by apply IH]. exists e. split_and!; [done| |done]. intros code ->. cbn in Hok. by rewrite Z.eqb_refl in Hok.
Qed.
End machine.

(** ** Examples *)

(** Each thread has a host of its own: 0 and 1 cache the region and flush, one
    with [clwb] and one without, and 2 maps it uncached. *)
Definition ownHost (a : Z) : Z := a.
Definition mixed (h : Z) : CoherencyMode := if h =? 2 then Uncached else Flush.
Definition builds (h : Z) : build := mkBuild (h =? 0) false.
Definition boot : t := mk (fun _ => [0]) (fun _ => None) (fun _ => Thread.idle).
Local Abbreviation play ok events s := (default boot (run ownHost mixed builds ok events s)).

(** Host 1 keeps an old copy; host 0 publishes; host 1 reads. *)
Definition h0 : t := play anything [Fill 1 64; Call 0 (set (builds 0) 64 [7] Flush)] boot.
Definition h1 : t := play (onlyIssues 0) [Issue 0; Drain 0 0; Issue 0; Issue 0; Complete 0 0] h0.
Definition h2 : t := play anything [Call 1 (get 64 Flush)] h1.
Definition h3 : t := play (noStores 1) [Issue 1; Complete 1 0; Issue 1; Fill 1 64; Issue 1] h2.

Lemma boot_cold : cold boot.
Proof. done. Qed.
Lemma h0_sole : sole ownHost 0 64 h0.
Proof.
  split.
  - intros b Hne. unfold h0. cbn. unfold insert, fn_insert. repeat case_decide; cbn; apply not_elem_of_nil.
  - intros h Hne. unfold isDirty, h0. cbn. unfold insert, fn_insert. by case_decide.
Qed.

Lemma handoff_visible_witness :
  cache h2 (1, 64) = Some ([0], false) /\ mem h1 64 = [7] /\ Thread.got (threads h3 1) = Some [7].
Proof.
  split_and!; [vm_compute; reflexivity..|].
  assert (rtc (within ownHost mixed builds 0 (sole ownHost 0 64)) h0 h1) as Hset.
  { apply (run_sole _ _ _ 0 64 [Issue 0; Drain 0 0; Issue 0; Issue 0; Complete 0 0]); [apply h0_sole|vm_compute; reflexivity]. }
  assert (unwritten 64 h1) as Hu.
  { apply (sole_unwritten ownHost 0); [by eapply within_last, Hset; apply h0_sole|vm_compute; reflexivity]. }
  assert (unwritten 64 h2) as Hu2.
  { intros b. eapply (buf_step ownHost mixed builds (Call 1 (get 64 Flush)) h1 h2); [vm_compute; reflexivity|done|apply Hu]. }
  apply (handoff_visible ownHost mixed builds 0 1 64 [7] h0 h1 h2 h3).
  - exists boot. split; [apply boot_cold|].
    apply (run_moves _ _ _ [Fill 1 64; Call 0 (set (builds 0) 64 [7] Flush)]). vm_compute. reflexivity.
  - split_and!; vm_compute; done.
  - vm_compute. reflexivity.
  - apply h0_sole.
  - exact Hset.
  - vm_compute. reflexivity.
  - vm_compute. reflexivity.
  - apply rtc_once. split; [exists (Call 1 (get 64 Flush)); vm_compute; reflexivity|exact Hu2].
  - vm_compute. reflexivity.
  - apply (run_unwritten _ _ _ 1 64 [Issue 1; Complete 1 0; Issue 1; Fill 1 64; Issue 1]); [exact Hu2|vm_compute; reflexivity].
  - vm_compute. reflexivity.
Defined.

(** With an [lfence] in the place of the [mfence] the load can come before the
    flush is done, and the get after the published set reads the old copy. *)
Theorem lfence_reads_stale :
  exists s, rtc (move ownHost mixed builds) h1 s /\ Thread.todo (threads s 1) = [] /\
    mem s 64 = [7] /\ Thread.got (threads s 1) = Some [0].
Proof.
  exists (play anything [Call 1 [Clflushopt 64; Lfence; LoadLine 64]; Issue 1; Issue 1; Issue 1] h1).
  split; [|by vm_compute].
  apply (run_moves _ _ _ [Call 1 [Clflushopt 64; Lfence; LoadLine 64]; Issue 1; Issue 1; Issue 1]). by vm_compute.
Qed.

(** What a caller keeps in the region has no such get: a thread writes its data
    and calls [flush], which leaves a clean copy; another host writes it and
    flushes; the first thread, back inside, loads its old copy. *)
Definition sections_on_data : list event :=
  [Call 0 (StoreLine 64 [7] :: flush (builds 0) 64 8 Flush); Issue 0; Drain 0 0; Issue 0; Issue 0; Complete 0 0;
   Call 2 (StoreLine 64 [9] :: flush (builds 2) 64 8 Uncached); Issue 2; Drain 2 0; Issue 2;
   Call 0 [LoadLine 64]; Issue 0].
Theorem flushed_data_goes_stale :
  exists s, rtc (move ownHost mixed builds) boot s /\ mem s 64 = [9] /\
    Thread.drained (threads s 0) = true /\ Thread.drained (threads s 2) = true /\ Thread.got (threads s 0) = Some [7].
Proof.
  exists (play anything sections_on_data boot). split; [|by vm_compute].
  apply (run_moves _ _ _ sections_on_data). by vm_compute.
Qed.

(** Two threads of one host share its cache: one can read a set of the other
    before it has left the host, where a third host still reads the old value. *)
Definition oneHost (a : Z) : Z := if a =? 2 then 1 else 0.
Definition flushing_ (h : Z) : CoherencyMode := Flush.
Definition early : list event :=
  [Call 1 (get 64 Flush); Issue 1; Complete 1 0; Issue 1; Call 0 (set (builds 0) 64 [7] Flush); Issue 0; Drain 0 0; Issue 1;
   Call 2 (get 64 Flush); Issue 2; Complete 2 0; Issue 2; Issue 2].
Theorem same_host_reads_early :
  exists s, rtc (move oneHost flushing_ builds) boot s /\
    Thread.got (threads s 1) = Some [7] /\ Thread.got (threads s 2) = Some [0].
Proof.
  exists (default boot (run oneHost flushing_ builds anything early boot)). split; [|by vm_compute].
  apply (run_moves _ _ _ early). by vm_compute.
Qed.
End hosts.
