(* ===== verification/Runtime.v ===== *)
(** * Runtime: the region accesses of [LocalPeerState]

    Models the operations of [src/core/runtime/local_peer_state.cpp] and the
    templates of its header that read or write the region, and the demand lines
    of [src/core/policy/request_demand_region.hpp]. *)

From S2P Require Import Prelude Bitmap Types Layout Region Effect World.

Module peer_state.
Import LocalPeerState.

Definition loadDomainRecordSnapshot (domainId : Z) : M DomainRecord_t.t :=
  let! pc := get maxPeers in
  read (fun r => Region.truth pc r domainId).

(** [coherency::get(getDomainRecordShadow(domainId, peerId))]. *)
Definition loadDomainRecordShadow (domainId peerId : Z) : M DomainRecord_t.t :=
  let! pc := get maxPeers in
  read (fun r => Region.shadow pc r domainId peerId).

Definition getShadowGroupCount (s : t) : Z := getGroupCount (maxPeers s).

Definition loadMemberSnapshot (peerId : Z) : M Member_t.t :=
  read (fun r => Region.member r peerId).

(** Change the DRAM copy of this peer's own slot, then write it through whole. *)
Definition publishSelfMember (mutate : Member_t.t -> Member_t.t) : M unit :=
  modify (fun s => with_selfMember_ (mutate (selfMember_ s)) s) ;;;
  let! peerId := get peerId_ in
  let! member := get selfMember_ in
  write (Region.setMember peerId member).

Definition publishSelfSeen : M unit :=
  let! tick := now in
  modify (with_tickTime tick) ;;;
  let! wall := wallNow in
  publishSelfMember (fun member =>
    if Member_t.lastSeenNanos member <? wall
    then Member_t.with_lastSeenNanos wall member else member).

(** [fetch_or] / [fetch_and] on one participation word. *)
Definition participationBitRmw (domainId : Z) (set : bool) (member : Member_t.t) : Member_t.t :=
  let index := Z.to_nat (domainId / BitsPerWord) in
  let mask := Z.shiftl 1 (domainId mod BitsPerWord) in
  let word := default 0 (Member_t.participatingDomains member !! index) in
  let word := if set then Z.lor word mask else Z.land word (lnot64 mask) in
  Member_t.mk (Member_t.magic member) (Member_t.status member) (Member_t.lastSeenNanos member)
    (<[index := word]> (Member_t.participatingDomains member)).

Definition setParticipation (domainId : Z) : M unit := publishSelfMember (participationBitRmw domainId true).
Definition clearParticipation (domainId : Z) : M unit := publishSelfMember (participationBitRmw domainId false).

Definition setActiveDomain (domain : Z) : M unit :=
  rmw Region.header Region.with_header (fun header =>
    Header_t.storeActiveDomains header (Bits.set (Header_t.loadActiveDomains header) domain)).
Definition clearActiveDomain (domain : Z) : M unit :=
  rmw Region.header Region.with_header (fun header =>
    Header_t.storeActiveDomains header (Bits.clear (Header_t.loadActiveDomains header) domain)).

Definition loadPeerScanBound : M Z :=
  let! line := read Region.peerBound in
  let bound := u32 (PeerBound_t.peerScanBound line) in
  let! pc := get maxPeers in
  ret (if negb (bound =? 0) then bound else pc).
Definition loadPeerIdRange : M (list Z) :=
  let! bound := loadPeerScanBound in ret (IdRange 0 bound).
Definition loadPeerRing : M (list Z) :=
  let! bound := loadPeerScanBound in
  let! peerId := get peerId_ in ret (IdRing peerId bound).

Definition refreshPeerScanBound : M unit :=
  let! bound := loadPeerScanBound in modify (with_peerScanBound_ bound).
Definition refreshActiveDomains : M unit :=
  let! header := read Region.header in
  modify (with_activeDomains_ (Header_t.loadActiveDomains header)).

Definition setConfig (domains peers : Z) (kind : Strategy) (groups : Z) (s : t) : t :=
  with_memberCache_ ∅ (with_aggregatorGroups groups (with_successorPolicyKind kind
    (with_maxPeers peers (with_numDomains domains s)))).
Definition allocateDomains (s : t) : t := with_domains_ ∅ s.

(** ** The member cache *)

Record MemberView_t := mkView { active : bool; participating : Bits.t; lastSeen : Z }.

Definition viewOfMember (member : Member_t.t) : MemberView_t :=
  let magicValid := Member_t.isValidMagic member in
  mkView (magicValid && Member_t.hasStatus member Member_t.Active)
    (if magicValid then Member_t.loadParticipatingDomains member else DomainBitmap_empty)
    (if magicValid then Member_t.lastSeenNanos member else 0).

(** The words, status and stamp stored for a member read, stamped [stamp]. *)
Definition cachedOf (member : Member_t.t) (stamp : Z) : CachedMember_t.t :=
  let magicValid := Member_t.isValidMagic member in
  CachedMember_t.mk
    (store_words (if magicValid then Member_t.loadParticipatingDomains member else DomainBitmap_empty))
    (if magicValid then Member_t.lastSeenNanos member else 0) (s64 stamp)
    (if magicValid then Member_t.status member else 0) magicValid.

Definition cacheMemberSnapshot (peerId : Z) (member : Member_t.t) : M unit :=
  let! valid := get (fun s => isValidPeer s peerId) in
  if negb valid then ret tt
  else
    let! stamp := now in
    modify (fun s => with_memberCache_ (<[peerId := cachedOf member stamp]> (memberCache_ s)) s).

Definition viewOfCached (slot : CachedMember_t.t) : MemberView_t :=
  mkView (CachedMember_t.status slot =? Member_t.Status_to_u32 Member_t.Active)
    (load_words (CachedMember_t.participating slot)) (CachedMember_t.lastSeenNanos slot).

Definition getMemberView (peerId maxAge : Z) : M MemberView_t :=
  let! valid := get (fun s => isValidPeer s peerId) in
  if negb valid then ret (mkView false DomainBitmap_empty 0)
  else
    let! slot := get (fun s => memberCache_ s !!! peerId) in
    let! nowNs := now in
    if CachedMember_t.valid slot && (s64 nowNs - CachedMember_t.stampNs slot <=? maxAge)
    then ret (viewOfCached slot)
    else
      let! member := loadMemberSnapshot peerId in
      cacheMemberSnapshot peerId member ;;;
      ret (viewOfMember member).

(** ** This peer's demand bits *)

(** [++waiters] or a floored [--waiters], then the bit follows the count. *)
Definition countWaiter (domainId : Z) (requesting : bool) (s : t) : t :=
  let waiters := default 0 (pendingWaiters_ s !! domainId) in
  let waiters := if requesting then u32 (waiters + 1)
                 else if 0 <? waiters then waiters - 1 else waiters in
  let s := with_pendingWaiters_ (<[domainId := waiters]> (pendingWaiters_ s)) s in
  with_selfPending_
    (if 0 <? waiters then Bits.set (selfPending_ s) domainId else Bits.clear (selfPending_ s) domainId) s.

Definition updateSelfPending (domainId : Z) (requesting : bool) (publish : Bits.t -> M unit) : M unit :=
  modify (countWaiter domainId requesting) ;;;
  let! bits := get selfPending_ in publish bits.

Definition clearSelfPending (publish : Bits.t -> M unit) : M unit :=
  modify (fun s => with_selfPending_ DomainBitmap_empty (with_pendingWaiters_ ∅ s)) ;;;
  let! bits := get selfPending_ in publish bits.

(** [getSuccessorAreaBase() != nullptr]. *)
Definition hasSuccessorArea (s : t) : bool :=
  negb (getSuccessorAreaSize (Strategy_to_u32 (successorPolicyKind s)) (numDomains s) (maxPeers s)
          (aggregatorGroups s) =? 0).

End peer_state.

Module request_demand.
Import LocalPeerState peer_state.

Definition loadPending (peerId : Z) : M Bits.t :=
  let! base := get hasSuccessorArea in
  if base then
    let! line := read (fun r => Region.demand r !!! peerId) in ret (DemandLine_t.load line)
  else ret DomainBitmap_empty.

Definition storePending (peerId : Z) (bits : Bits.t) : M unit :=
  let! base := get hasSuccessorArea in
  if negb base then ret tt else write (Region.setDemand peerId (DemandLine_t.store bits)).

Definition publishOwn (bits : Bits.t) : M unit :=
  let! peerId := get peerId_ in storePending peerId bits.

Definition raise (domainId : Z) : M unit := updateSelfPending domainId true publishOwn.
Definition drop (domainId : Z) : M unit := updateSelfPending domainId false publishOwn.
Definition clearSelf : M unit := clearSelfPending publishOwn.
Definition loadPeer (peerId : Z) : M Bits.t := loadPending peerId.
Definition scrub (deadPeerId : Z) : M unit := storePending deadPeerId DomainBitmap_empty.

End request_demand.
