(* ===== verification/Ownership.v ===== *)
(** * Ownership: the domain token and its transfer

    Models [src/core/algo/ownership_transfer.cpp]: publishing a record, handing
    a domain over, taking it, waiting for it, and keeping this peer's belief in
    step with the truth record. *)

From S2P Require Import Prelude Bitmap Types Layout Region Effect World Runtime.

Module ownership_transfer.
Import LocalPeerState peer_state.

(** The pin latch, the belief flag and the epoch of one domain view. *)
Definition becomeHolder (domainId : Z) : M unit := modify (upd_domain domainId LocalDomainView.becomeHolder).
Definition loseHolder (domainId : Z) : M unit := modify (upd_domain domainId LocalDomainView.loseHolder).
Definition isHolder (domainId : Z) : M bool := get (fun s => LocalDomainView.isHolder (getDomain s domainId)).

Definition adoptOwnership (domainId newEpoch : Z) : M unit :=
  modify (upd_domain domainId (fun domain =>
    LocalDomainView.becomeHolder
      (LocalDomainView.with_lastOwnershipEpoch
         (Z.max newEpoch (LocalDomainView.lastOwnershipEpoch domain)) domain))).

Definition isNamedHolder (domainId : Z) : M bool :=
  let! record := loadDomainRecordSnapshot domainId in
  let! self := get peerId_ in
  ret (DomainRecord_t.getHolder record =? self).

Definition reconcileHolderBelief (domainId : Z) : M unit :=
  let! named := isNamedHolder domainId in
  if named then becomeHolder domainId
  else
    loseHolder domainId ;;;
    let! named := isNamedHolder domainId in
    if named then becomeHolder domainId else ret tt.

(** The shadow of the holder's group, then the truth. *)
Definition publishDomainRecord (domainId : Z) (record : DomainRecord_t.t) : M unit :=
  let! pc := get maxPeers in
  write (Region.setShadow pc domainId (DomainRecord_t.getHolder record) record) ;;;
  write (Region.setTruth pc domainId record).

Definition takeoverOwnership (domainId : Z) (base : DomainRecord_t.t) : M unit :=
  let! self := get peerId_ in
  let base := DomainRecord_t.with_holder self base in
  let base := DomainRecord_t.with_epoch (u64 (DomainRecord_t.epoch base + 1)) base in
  publishDomainRecord domainId base ;;;
  adoptOwnership domainId (DomainRecord_t.epoch base).

Definition transferOwnership (domainId newHolder : Z) : M unit :=
  let! selfPeerId := get peerId_ in
  let! valid := get (fun s => isValidPeer s newHolder) in
  if negb valid then ret tt
  else
    let! record := loadDomainRecordSnapshot domainId in
    if negb (DomainRecord_t.isValidMagic record) then modify (with_active_ false)
    else if negb (newHolder =? selfPeerId) && negb (DomainRecord_t.holder record =? selfPeerId) then ret tt
    else
      let selfClaim := newHolder =? selfPeerId in
      when (negb selfClaim) (loseHolder domainId) ;;;
      let newEpoch := u64 (DomainRecord_t.epoch record + 1) in
      let record := DomainRecord_t.with_epoch newEpoch (DomainRecord_t.with_holder newHolder record) in
      publishDomainRecord domainId record ;;;
      when selfClaim (adoptOwnership domainId newEpoch).

Definition transferOwnershipGuarded (domainId newHolder : Z) : M bool :=
  let! began := query (fun s =>
    let '(began, domain) := LocalDomainView.tryBeginOwnershipTransfer (getDomain s domainId) in
    (began, upd_domain domainId (fun _ => domain) s)) in
  if negb began then ret false
  else
    transferOwnership domainId newHolder ;;;
    modify (upd_domain domainId LocalDomainView.endOwnershipTransfer) ;;;
    ret true.

Definition vacateOwnership (domainId : Z) : M unit :=
  let! pc := get maxPeers in
  rmw (fun r => Region.truth pc r domainId) (Region.setTruth pc domainId)
    (fun rec => DomainRecord_t.with_epoch (u64 (DomainRecord_t.epoch rec + 1))
                  (DomainRecord_t.with_holder NoPeer rec)) ;;;
  loseHolder domainId.

Definition bumpHeartbeat : M unit := publishSelfSeen.

(** The polling loop of [waitForOwnership].  Each turn reads the clock once,
    then the peer's own shadow, and the truth only on a fresh edge; the pause
    between turns has no effect on either state. *)
Fixpoint waitForOwnership_loop (fuel : nat) (domainId : Z) (deadline : timing.Deadline.t) : M OwnershipResult :=
  match fuel with
  | O => outOfFuel
  | S fuel =>
      let! instant := now in
      if timing.Deadline.expiredAt deadline instant then ret NotArrived
      else
        let! selfPeerId := get peerId_ in
        let! shadow := loadDomainRecordShadow domainId selfPeerId in
        let! last := get (fun s => LocalDomainView.lastOwnershipEpoch (getDomain s domainId)) in
        if DomainRecord_t.isValidMagic shadow && (DomainRecord_t.getHolder shadow =? selfPeerId) &&
           (last <? DomainRecord_t.epoch shadow)
        then
          let! truth := loadDomainRecordSnapshot domainId in
          if DomainRecord_t.isValidMagic truth && (DomainRecord_t.getHolder truth =? selfPeerId)
          then adoptOwnership domainId (DomainRecord_t.epoch truth) ;;; ret Arrived
          else waitForOwnership_loop fuel domainId deadline
        else waitForOwnership_loop fuel domainId deadline
  end.

Definition waitForOwnership (domainId : Z) (deadline : timing.Deadline.t) : M OwnershipResult :=
  let! selfPeerId := get peerId_ in
  let! believes := isHolder domainId in
  let! fuel := getFuel in
  if believes then
    let! record := loadDomainRecordSnapshot domainId in
    if DomainRecord_t.isValidMagic record && (DomainRecord_t.getHolder record =? selfPeerId)
    then ret Arrived
    else loseHolder domainId ;;; waitForOwnership_loop (S fuel) domainId deadline
  else waitForOwnership_loop (S fuel) domainId deadline.

Definition canTransferDomain (s : t) (domainId : Z) : bool :=
  LocalDomainView.canTransferOwnership (getDomain s domainId).

(** One turn of the sweep over the live domains. *)
Definition reconcileDomain (domainId : Z) : M bool :=
  let! pending := get (fun s => isPendingDomain s domainId) in
  if pending then ret false
  else
    let! selfPeerId := get peerId_ in
    let! turn := query (fun s =>
      let '(due, domain) := LocalDomainView.isTurnToCheckOwnership (tickTime s) (getDomain s domainId) in
      (due, upd_domain domainId (fun _ => domain) s)) in
    let! check :=
      (if turn then ret true
       else let! shadow := loadDomainRecordShadow domainId selfPeerId in
            ret (DomainRecord_t.getHolder shadow =? selfPeerId)) in
    when check (reconcileHolderBelief domainId) ;;;
    get (fun s => LocalDomainView.isHolder (getDomain s domainId) && canTransferDomain s domainId).

Definition reconcileAndCollectTransferable : M Bits.t :=
  let! range := get getActiveDomainRange in
  foldM range DomainBitmap_empty (fun transferableDomains domainId =>
    let! offer := reconcileDomain domainId in
    ret (if offer then Bits.set transferableDomains domainId else transferableDomains)).

Definition collectTransferableLocal : M Bits.t :=
  let! range := get getActiveDomainRange in
  foldM range DomainBitmap_empty (fun transferableDomains domainId =>
    let! offer := get (fun s =>
      negb (isPendingDomain s domainId) &&
      (LocalDomainView.isHolder (getDomain s domainId) && canTransferDomain s domainId)) in
    ret (if offer then Bits.set transferableDomains domainId else transferableDomains)).

(** The first pin reads the clock; nested ones inherit its instant. *)
Definition holdDomain (domainId : Z) : M unit :=
  let! first := get (fun s => LocalDomainView.isFirstPin (getDomain s domainId)) in
  let! instant := (if first : bool then now else ret 0) in
  modify (upd_domain domainId (LocalDomainView.pinOwnership instant)).

Definition holdAndCheckResident (domainId : Z) : M bool :=
  holdDomain domainId ;;;
  let! believes := isHolder domainId in
  if negb believes then ret false
  else
    let! record := loadDomainRecordSnapshot domainId in
    let! self := get peerId_ in
    if DomainRecord_t.isValidMagic record && (DomainRecord_t.getHolder record =? self)
    then ret true
    else loseHolder domainId ;;; ret false.

Definition unholdDomain (domainId : Z) : M unit :=
  modify (upd_domain domainId LocalDomainView.unpinOwnership).

End ownership_transfer.
