(* ===== verification/Token.v ===== *)
(** * Token: the ownership protocol as a rely and a guarantee

    What one peer may assume of the others, and promises them, about the domain
    records: only the peer a record names writes that domain's lines.  A
    handler that keeps the promise and never moves a pinned domain is [Safe];
    the notion composes over the effects, so the policies are checked
    handler by handler. *)

From S2P Require Import Prelude Bitmap Types Layout Region Effect World Runtime Ownership.

(** ** Lines of a domain *)

Section lines.
Context (pc : Z).

Definition holder (r : Region.t) (d : Z) : Z := DomainRecord_t.getHolder (Region.truth pc r d).

(** The truth and every shadow of the domain are as they were. *)
Definition block_eq (r r' : Region.t) (d : Z) : Prop :=
  Region.truth pc r' d = Region.truth pc r d /\
  forall p, 0 <= p < pc -> Region.shadow pc r' d p = Region.shadow pc r d p.

(** [mine d h]: this peer is entitled to write domain [d]'s lines while its
    record names [h].  Its own id is always among them; holding the control
    lock, winning a tournament or a confirmed recovery claim adds more. *)

(** No other peer writes a domain this one is entitled to. *)
Definition tokenR (mine : Z -> Z -> Prop) (r r' : Region.t) : Prop :=
  forall d, 0 <= d < 64 -> mine d (holder r d) -> block_eq r r' d.

(** A store touches a domain's lines only while this peer is entitled to. *)
Definition tokenG (mine : Z -> Z -> Prop) (r r' : Region.t) : Prop :=
  forall d, 0 <= d < 64 -> block_eq r r' d \/ mine d (holder r d).

(** The invariant a waiter's poll relies on: the holder's own shadow names it,
    at an epoch no older than the truth's. *)
Definition shadow_ok (r : Region.t) : Prop :=
  forall d, 0 <= d < 64 -> 0 <= holder r d < pc ->
    DomainRecord_t.getHolder (Region.shadow pc r d (holder r d)) = holder r d /\
    DomainRecord_t.epoch (Region.truth pc r d) <= DomainRecord_t.epoch (Region.shadow pc r d (holder r d)).

Lemma block_eq_refl r d : block_eq r r d.
Proof. by split. Qed.

Lemma block_eq_trans r r' r'' d : block_eq r r' d -> block_eq r' r'' d -> block_eq r r'' d.
Proof. intros [Ht Hs] [Ht' Hs']. split; [congruence|]. intros p Hp. by rewrite Hs', Hs. Qed.

Lemma block_eq_records r r' d : Region.records r' = Region.records r -> block_eq r r' d.
Proof. intros H. unfold block_eq, Region.truth, Region.shadow. by rewrite H. Qed.

Lemma block_eq_holder r r' d : block_eq r r' d -> holder r' d = holder r d.
Proof. intros [H _]. unfold holder. by rewrite H. Qed.

#[global] Instance tokenR_preorder mine : PreOrder (tokenR mine).
Proof.
  split.
  - intros r d _ _. apply block_eq_refl.
  - intros r r' r'' H H' d Hd Hh. apply (block_eq_trans _ r'); [by apply H|].
    apply H'; [done|]. by rewrite (block_eq_holder r r' d (H d Hd Hh)).
Qed.

(** The others' guarantee is this peer's reliance, when no two peers are
    entitled to the same lines. *)
Lemma tokenG_tokenR mine mine' r r' :
  (forall d h, mine d h -> mine' d h -> False) -> tokenG mine' r r' -> tokenR mine r r'.
Proof. intros Hdis HG d Hd Hh. destruct (HG d Hd); [done|]. destruct (Hdis d (holder r d)); done. Qed.

Lemma tokenG_records mine r r' : Region.records r' = Region.records r -> tokenG mine r r'.
Proof. intros H d _. left. by apply block_eq_records. Qed.
End lines.

(** The other peers of a region at work: any number of stores, each within the
    entitlement of the peer that makes it. *)
Inductive others_step (pc : Z) (entitled : Z -> Z -> Z -> Prop) (self : Z) : Region.t -> Region.t -> Prop :=
| others_done r : others_step pc entitled self r r
| others_more other r r' r'' :
    other <> self -> tokenG pc (entitled other) r r' -> others_step pc entitled self r' r'' ->
    others_step pc entitled self r r''.

Lemma others_step_tokenR pc entitled self r r' :
  (forall other d h, other <> self -> entitled self d h -> entitled other d h -> False) ->
  others_step pc entitled self r r' -> tokenR pc (entitled self) r r'.
Proof.
  intros Hdis. induction 1 as [|other r r' r'' Hne HG _ IH]; [reflexivity|].
  transitivity r'; [|exact IH]. refine (tokenG_tokenR pc _ (entitled other) r r' _ HG).
  intros d h. by apply Hdis.
Qed.

(** ** Safe handlers *)

Section safe.
Context (E : Env.t) (pc self : Z) (mine : Z -> Z -> Prop).
Hypothesis HE : respects E (tokenR pc mine).
Hypothesis Hself : forall d, mine d self.
Hypothesis Hpc : 0 <= self < pc /\ pc <= 64.

Definition pinned (d : Z) (w : World.t) : Prop :=
  holder pc (World.region w) d = self /\
  LocalDomainView.hasOwnershipPins (LocalPeerState.getDomain (World.local w) d) = true.

(** The peer's identity, and its promise so far. *)
Record ctx (w : World.t) : Prop := {
  ctx_pc : LocalPeerState.maxPeers (World.local w) = pc;
  ctx_self : LocalPeerState.peerId_ (World.local w) = self;
  ctx_bound : in_u32 (LocalPeerState.peerScanBound_ (World.local w));
  ctx_guar : guarantees (tokenG pc mine) w;
}.

Record safe (w w' : World.t) : Prop := {
  safe_ctx : ctx w';
  safe_pinned : forall d, 0 <= d < 64 -> pinned d w -> pinned d w';
}.

Definition Safe {A} (m : M A) : Prop := forall w, ctx w -> wp m E (fun _ w' => safe w w') w.

Lemma safe_refl w : ctx w -> safe w w.
Proof. by split. Qed.

Lemma safe_trans w w' w'' : safe w w' -> safe w' w'' -> safe w w''.
Proof. intros [_ H] [? H']. split; eauto. Qed.

(** DRAM changes that keep the identity and no pin. *)
Definition keeps (f : LocalPeerState.t -> LocalPeerState.t) : Prop :=
  forall s, LocalPeerState.maxPeers (f s) = LocalPeerState.maxPeers s /\
    LocalPeerState.peerId_ (f s) = LocalPeerState.peerId_ s /\
    (in_u32 (LocalPeerState.peerScanBound_ s) -> in_u32 (LocalPeerState.peerScanBound_ (f s))) /\
    forall d, LocalDomainView.hasOwnershipPins (LocalPeerState.getDomain s d) = true ->
      LocalDomainView.hasOwnershipPins (LocalPeerState.getDomain (f s) d) = true.

Lemma safe_tick w : ctx w -> safe w (tick E w).
Proof.
  intros [H1 H2 Hb H3]. split; [by split|]. intros d Hd [Hh Hp]. split; [|done].
  rewrite <- Hh. apply block_eq_holder. apply HE; [done|]. rewrite Hh. apply Hself.
Qed.

Lemma safe_local f w : keeps f -> ctx w -> safe w (World.with_local (f (World.local w)) w).
Proof.
  intros Hk [H1 H2 Hb H3]. destruct (Hk (World.local w)) as (Hm & Hi & Hb' & Hd).
  split; [split; cbn; [congruence|congruence|auto|done]|]. intros d _ [Hh Hp]. split; [done|]. cbn. auto.
Qed.

Lemma safe_put f w :
  ctx w -> tokenG pc mine (World.region w) (f (World.region w)) ->
  (forall d, 0 <= d < 64 -> pinned d w -> holder pc (f (World.region w)) d = self) ->
  safe w (put f w).
Proof.
  intros [H1 H2 Hb H3] HG Hd. split; [split; [done|done|done|by apply put_guarantees]|].
  intros d Hr Hp. split; [by apply Hd|]. by destruct Hp.
Qed.

Lemma Safe_ret {A} (a : A) : Safe (ret a).
Proof. intros w Hw. by apply wp_ret, safe_refl. Qed.

Lemma Safe_bind {A B} (m : M A) (k : A -> M B) : Safe m -> (forall a, Safe (k a)) -> Safe (bind m k).
Proof.
  intros Hm Hk w Hw. apply wp_bind. eapply wp_mono; [by apply Hm|]. intros a w' Hs. cbn.
  eapply wp_mono; [apply Hk; by destruct Hs|]. intros b w''. by apply safe_trans.
Qed.

Lemma Safe_read {A} (f : Region.t -> A) : Safe (read f).
Proof. intros w Hw. by apply wp_read, safe_tick. Qed.

Lemma Safe_get {A} (f : LocalPeerState.t -> A) : Safe (get f).
Proof. intros w Hw. by apply wp_get, safe_refl. Qed.

Lemma Safe_modify f : keeps f -> Safe (modify f).
Proof. intros Hk w Hw. by apply wp_modify, safe_local. Qed.

Lemma Safe_query {A} (f : LocalPeerState.t -> A * LocalPeerState.t) :
  keeps (fun s => (f s).2) -> Safe (query f).
Proof. intros Hk w Hw. apply wp_query. by apply (safe_local (fun s => (f s).2)). Qed.

Lemma Safe_now : Safe now.
Proof. intros w [? ? ? ?]. apply wp_now. split; [by split|done]. Qed.

Lemma Safe_wallNow : Safe wallNow.
Proof. intros w [? ? ? ?]. apply wp_wallNow. split; [by split|done]. Qed.

Lemma Safe_drawNonce : Safe drawNonce.
Proof. intros w [? ? ? ?]. apply wp_drawNonce. split; [by split|done]. Qed.

Lemma Safe_getFuel : Safe getFuel.
Proof. intros w Hw. by apply wp_getFuel, safe_refl. Qed.

Lemma Safe_when b m : Safe m -> Safe (when b m).
Proof. intros Hm. destruct b; [done|apply Safe_ret]. Qed.

Lemma Safe_if {A} (b : bool) (m m' : M A) : Safe m -> Safe m' -> Safe (if b then m else m').
Proof. by destruct b. Qed.

Lemma Safe_forM {A} (l : list A) body : (forall x, x ∈ l -> Safe (body x)) -> Safe (forM l body).
Proof.
  intros Hb w Hw. apply wp_forM; [by apply safe_refl|].
  intros x w' Hx Hs. eapply wp_mono; [apply Hb; [done|by destruct Hs]|]. intros ? w''. by apply safe_trans.
Qed.

Lemma Safe_foldM {A S} (l : list A) (acc : S) body :
  (forall acc x, x ∈ l -> Safe (body acc x)) -> Safe (foldM l acc body).
Proof.
  intros Hb w Hw. apply (wp_foldM E l acc body (fun _ => safe w)); [by apply safe_refl|].
  intros x acc' w' Hx Hs. eapply wp_mono; [apply Hb; [done|by destruct Hs]|]. intros ? w''. by apply safe_trans.
Qed.

Lemma Safe_findM {A} (l : list A) test : (forall x, x ∈ l -> Safe (test x)) -> Safe (findM l test).
Proof.
  intros Hb w Hw. eapply wp_mono.
  - apply (wp_findM E l test (safe w) (fun _ => safe w)); [by apply safe_refl|].
    intros x w' Hx Hs. eapply wp_mono; [apply Hb; [done|by destruct Hs]|].
    intros [] w'' ?; by eapply safe_trans.
  - intros [x|] w'; [by intros [_ ?]|done].
Qed.

(** Safe, with a fact about the answer. *)
Definition SafeP {A} (P : A -> Prop) (m : M A) : Prop :=
  forall w, ctx w -> wp m E (fun a w' => safe w w' /\ P a) w.

Lemma SafeP_Safe {A} (P : A -> Prop) (m : M A) : SafeP P m -> Safe m.
Proof. intros Hm w Hw. eapply wp_mono; [by apply Hm|]. by intros a w' [? _]. Qed.

Lemma Safe_SafeP {A} (m : M A) : Safe m -> SafeP (fun _ => True) m.
Proof. intros Hm w Hw. eapply wp_mono; [by apply Hm|]. by intros a w' ?. Qed.

Lemma SafeP_ret {A} (P : A -> Prop) (a : A) : P a -> SafeP P (ret a).
Proof. intros HP w Hw. apply wp_ret. split; [by apply safe_refl|done]. Qed.

Lemma SafeP_bind {A B} (P : A -> Prop) (Q : B -> Prop) (m : M A) (k : A -> M B) :
  SafeP P m -> (forall a, P a -> SafeP Q (k a)) -> SafeP Q (bind m k).
Proof.
  intros Hm Hk w Hw. apply wp_bind. eapply wp_mono; [by apply Hm|]. intros a w' [Hs HP]. cbn.
  eapply wp_mono; [apply Hk; [done|by destruct Hs]|]. intros b w'' [? ?]. split; [by eapply safe_trans|done].
Qed.

(** A read of the DRAM state answers what every world of this peer has. *)
Lemma SafeP_get {A} (P : A -> Prop) (f : LocalPeerState.t -> A) :
  (forall w, ctx w -> P (f (World.local w))) -> SafeP P (get f).
Proof. intros HP w Hw. apply wp_get. split; [by apply safe_refl|auto]. Qed.

Lemma SafeP_foldM {A S} (I : S -> Prop) (l : list A) (acc : S) body :
  I acc -> (forall acc x, x ∈ l -> I acc -> SafeP I (body acc x)) -> SafeP I (foldM l acc body).
Proof.
  intros HI Hb w Hw.
  apply (wp_foldM E l acc body (fun acc w' => safe w w' /\ I acc)); [split; [by apply safe_refl|done]|].
  intros x acc' w' Hx [Hs HI']. eapply wp_mono; [apply Hb; [done|done|by destruct Hs]|].
  intros ? w'' [? ?]. split; [by eapply safe_trans|done].
Qed.

(** A search over the DRAM state's own view of the ring. *)
Lemma SafeP_findM {A} (P : A -> Prop) (l : list A) test :
  (forall x, x ∈ l -> Safe (test x)) -> (forall x, x ∈ l -> P x) ->
  SafeP (fun found => match found with Some x => P x | None => True end) (findM l test).
Proof.
  intros Hb HP w Hw. eapply wp_mono.
  - apply (wp_findM E l test (safe w) (fun _ => safe w)); [by apply safe_refl|].
    intros x w' Hx Hs. eapply wp_mono; [apply Hb; [done|by destruct Hs]|].
    intros [] w'' ?; by eapply safe_trans.
  - intros [x|] w'; [intros [? ?]; auto|done].
Qed.

(** A store outside the records. *)
Lemma Safe_write_other f : (forall r, Region.records (f r) = Region.records r) -> Safe (write f).
Proof.
  intros Hf w Hw. apply wp_write. eapply safe_trans; [by apply safe_tick|].
  apply safe_put; [by apply safe_tick| |].
  - apply tokenG_records, Hf.
  - intros d Hd [Hh _]. rewrite <- Hh. apply block_eq_holder, block_eq_records, Hf.
Qed.
End safe.

(** ** What keeps the pins *)

Lemma keeps_id_domains f :
  (forall s, LocalPeerState.maxPeers (f s) = LocalPeerState.maxPeers s) ->
  (forall s, LocalPeerState.peerId_ (f s) = LocalPeerState.peerId_ s) ->
  (forall s, LocalPeerState.peerScanBound_ (f s) = LocalPeerState.peerScanBound_ s) ->
  (forall s, LocalPeerState.domains_ (f s) = LocalPeerState.domains_ s) -> keeps f.
Proof.
  intros H1 H2 Hb H3 s. split_and!; [done|done|by rewrite Hb|]. intros d. unfold LocalPeerState.getDomain. by rewrite H3.
Qed.

Lemma getDomain_upd_eq d f s :
  LocalPeerState.getDomain (LocalPeerState.upd_domain d f s) d = f (LocalPeerState.getDomain s d).
Proof. apply lookup_total_insert_eq. Qed.

Lemma getDomain_upd_ne d d' f s :
  d <> d' -> LocalPeerState.getDomain (LocalPeerState.upd_domain d f s) d' = LocalPeerState.getDomain s d'.
Proof. apply lookup_total_insert_ne. Qed.

Lemma keeps_upd_domain d f :
  (forall v, LocalDomainView.hasOwnershipPins v = true -> LocalDomainView.hasOwnershipPins (f v) = true) ->
  keeps (LocalPeerState.upd_domain d f).
Proof.
  intros Hf s. split_and!; [done..|]. intros d' Hp. destruct (decide (d = d')) as [->|].
  - rewrite getDomain_upd_eq. auto.
  - by rewrite getDomain_upd_ne.
Qed.

#[export] Hint Resolve Safe_ret Safe_read Safe_get Safe_now Safe_wallNow Safe_drawNonce Safe_getFuel : cme.

(** Decompose a handler into its effects; leaves what is special to it. *)
Ltac safe_step :=
  match goal with
  | |- Safe _ _ _ _ (bind _ _) => apply Safe_bind; [|intros ?]
  | |- Safe _ _ _ _ (ret _) => apply Safe_ret
  | |- Safe _ _ _ _ (read _) => by (apply Safe_read)
  | |- Safe _ _ _ _ (get _) => apply Safe_get
  | |- Safe _ _ _ _ now => apply Safe_now
  | |- Safe _ _ _ _ wallNow => apply Safe_wallNow
  | |- Safe _ _ _ _ drawNonce => apply Safe_drawNonce
  | |- Safe _ _ _ _ getFuel => apply Safe_getFuel
  | |- Safe _ _ _ _ (when _ _) => apply Safe_when
  | |- Safe _ _ _ _ (modify _) => apply Safe_modify; first [by apply keeps_id_domains | apply keeps_upd_domain; by intros [] | idtac]
  | |- Safe _ _ _ _ (write _) => by (apply Safe_write_other)
  | |- Safe _ _ _ _ (if _ then _ else _) => apply Safe_if
  | |- Safe _ _ _ _ (match ?x with _ => _ end) => destruct x
  | |- Safe _ _ _ _ (forM _ _) => apply Safe_forM; intros ? ?
  | |- Safe _ _ _ _ (foldM _ _ _) => apply Safe_foldM; intros ? ? ?
  | |- Safe _ _ _ _ (findM _ _) => apply Safe_findM; intros ? ?
  end.
Ltac safe_run := repeat (safe_step; cbv beta zeta).
