(* ===== verification/Transfer.v ===== *)
(** * Transfer: the theorems on ownership transfer

    Every handler of [ownership_transfer.cpp] against the token protocol of
    [Token], and the functional behaviour of the ones that move a domain. *)

From S2P Require Import Prelude Bitmap Types Layout Region Effect World Runtime Ownership Token.
Import LocalPeerState peer_state ownership_transfer.

(** ** The poll thread's handlers are safe *)

Section safety.
Context (E : Env.t) (pc self : Z) (mine : Z -> Z -> Prop).
Hypothesis HE : respects E (tokenR pc mine).
Hypothesis Hself : forall d, mine d self.
Hypothesis Hpc : 0 <= self < pc /\ pc <= 64.

Local Abbreviation Safe := (Safe E pc self mine).
Local Abbreviation ctx := (ctx pc self mine).
Local Abbreviation safe := (safe pc self mine).
Local Abbreviation pinned := (pinned pc self).

Lemma Safe_loadDomainRecordSnapshot d : Safe (loadDomainRecordSnapshot d).
Proof. unfold loadDomainRecordSnapshot. safe_run. Qed.

Lemma Safe_loadDomainRecordShadow d p : Safe (loadDomainRecordShadow d p).
Proof. unfold loadDomainRecordShadow. safe_run. Qed.

Lemma Safe_publishSelfMember f : Safe (publishSelfMember f).
Proof. unfold publishSelfMember. safe_run. Qed.

Lemma Safe_cacheMemberSnapshot p m : Safe (cacheMemberSnapshot p m).
Proof. unfold cacheMemberSnapshot. safe_run. Qed.

Lemma Safe_getMemberView p age : Safe (getMemberView p age).
Proof. unfold getMemberView, loadMemberSnapshot. safe_run. apply Safe_cacheMemberSnapshot. Qed.

Lemma Safe_loadPeer p : Safe (request_demand.loadPeer p).
Proof. unfold request_demand.loadPeer, request_demand.loadPending. safe_run. Qed.

Lemma Safe_storePending p bits : Safe (request_demand.storePending p bits).
Proof. unfold request_demand.storePending. safe_run. Qed.

Lemma Safe_updateSelfPending d b : Safe (updateSelfPending d b request_demand.publishOwn).
Proof.
  unfold updateSelfPending, request_demand.publishOwn. safe_run. apply Safe_storePending.
Qed.

Lemma Safe_reconcileHolderBelief d : Safe (reconcileHolderBelief d).
Proof.
  unfold reconcileHolderBelief, isNamedHolder, becomeHolder, loseHolder.
  safe_run; apply Safe_loadDomainRecordSnapshot.
Qed.

Lemma Safe_reconcileDomain d : Safe (reconcileDomain d).
Proof.
  unfold reconcileDomain. safe_run; try apply Safe_loadDomainRecordShadow; try apply Safe_reconcileHolderBelief.
  apply Safe_query. intros s.
  destruct (LocalDomainView.isTurnToCheckOwnership (tickTime s) (getDomain s d)) as [due v] eqn:Hv.
  cbn [snd]. split_and!; [done..|]. intros d' Hp. destruct (decide (d = d')) as [->|]; [|by rewrite getDomain_upd_ne].
  rewrite getDomain_upd_eq. unfold LocalDomainView.isTurnToCheckOwnership in Hv.
  destruct (timing.PeriodicGate.isDue _ _ _). by simplify_eq.
Qed.

(** ** Moving a domain *)

Lemma tick_mine w d :
  0 <= d < 64 -> mine d (holder pc (World.region w) d) ->
  block_eq pc (World.region w) (World.region (tick E w)) d /\
  mine d (holder pc (World.region (tick E w)) d).
Proof.
  intros Hd Hm. assert (block_eq pc (World.region w) (World.region (tick E w)) d) as Hb by by apply HE.
  split; [done|]. by rewrite (block_eq_holder _ _ _ _ Hb).
Qed.

(** No worker of this peer is inside the domain. *)
Definition unpinned (d : Z) (w : World.t) : Prop :=
  LocalDomainView.hasOwnershipPins (getDomain (World.local w) d) = false.

(** Nobody of this peer is inside it by right: it is unpinned, or its record
    names somebody else. *)
Definition vacant (d : Z) (w : World.t) : Prop := ~ pinned d w.

Lemma unpinned_vacant d w : unpinned d w -> vacant d w.
Proof. unfold unpinned. intros Hu [_ Hp]. congruence. Qed.

Lemma vacant_same d w w' :
  holder pc (World.region w') d = holder pc (World.region w) d -> World.local w' = World.local w ->
  vacant d w -> vacant d w'.
Proof. intros Hh Hl Hv [Hp1 Hp2]. apply Hv. rewrite Hh in Hp1. rewrite Hl in Hp2. by split. Qed.

(** A store into the lines of a domain this peer is entitled to. *)
Lemma safe_put_lines f d w :
  0 <= d < 64 -> ctx w -> mine d (holder pc (World.region w) d) -> vacant d w ->
  (forall d', 0 <= d' < 64 -> d' <> d -> block_eq pc (World.region w) (f (World.region w)) d') ->
  safe w (put f w).
Proof.
  intros Hd Hw Hm Hnp Hf. apply safe_put; [done| |].
  - intros d' Hd'. destruct (decide (d' = d)) as [->|]; [by right|left; by apply Hf].
  - intros d' Hd' Hp. destruct (decide (d' = d)) as [->|]; [by destruct Hnp|].
    rewrite (block_eq_holder _ _ _ _ (Hf d' Hd' ltac:(done))). by destruct Hp.
Qed.

Lemma setShadow_others d d' p rec r :
  0 <= d < 64 -> 0 <= d' < 64 -> 0 <= p < pc -> d' <> d -> block_eq pc r (Region.setShadow pc d p rec r) d'.
Proof.
  intros. split; [apply truth_setShadow; lia|]. intros q Hq. apply shadow_setShadow_ne; try lia. by intros [=].
Qed.

Lemma setTruth_others d d' rec r :
  0 <= d < 64 -> 0 <= d' < 64 -> d' <> d -> block_eq pc r (Region.setTruth pc d rec r) d'.
Proof.
  intros. split; [apply truth_setTruth_ne; lia|]. intros q Hq. apply shadow_setTruth; lia.
Qed.

(** Publishing a record into an entitled, vacant domain: the new holder's
    shadow and the truth both carry it, at every moment in between the truth
    is the old record, and nothing else moves. *)
Lemma publish_spec d rec w :
  0 <= d < 64 -> ctx w -> vacant d w -> mine d (holder pc (World.region w) d) ->
  0 <= DomainRecord_t.getHolder rec < pc ->
  wp (publishDomainRecord d rec) E (fun _ w' => safe w w' /\ World.local w' = World.local w /\
    World.clockReads w' = World.clockReads w /\
    Region.truth pc (World.region w') d = rec /\
    Region.shadow pc (World.region w') d (DomainRecord_t.getHolder rec) = rec) w.
Proof.
  intros Hd Hw Hnp Hm Hrec. unfold publishDomainRecord. wp_run. rewrite (ctx_pc _ _ _ _ Hw).
  pose proof (safe_tick E pc self mine HE Hself w Hw) as Ht1.
  destruct (tick_mine w d Hd Hm) as [Hb1 Hm1]. set (w1 := tick E w) in *.
  assert (vacant d w1) as Hv1 by (apply (vacant_same d w); [by apply block_eq_holder|done|done]).
  set (f1 := Region.setShadow pc d (DomainRecord_t.getHolder rec) rec).
  assert (safe w1 (put f1 w1)) as Hs1.
  { apply (safe_put_lines _ d); [done|apply Ht1|done|done|]. intros. by apply setShadow_others. }
  set (w2 := put f1 w1) in *.
  assert (Region.truth pc (World.region w2) d = Region.truth pc (World.region w1) d) as Htr2.
  { apply truth_setShadow; lia. }
  assert (mine d (holder pc (World.region w2) d)) as Hm2 by (unfold holder; by rewrite Htr2).
  assert (ctx w2) as Hc2 by apply Hs1.
  pose proof (safe_tick E pc self mine HE Hself w2 Hc2) as Ht3.
  destruct (tick_mine w2 d Hd Hm2) as [Hb3 Hm3]. set (w3 := tick E w2) in *.
  assert (vacant d w3) as Hv3.
  { apply (vacant_same d w1); [|done|done]. rewrite (block_eq_holder _ _ _ _ Hb3). unfold holder. by rewrite Htr2. }
  split_and!; [|done|done|apply truth_setTruth_eq|].
  - apply (safe_trans _ _ _ _ w1); [done|]. apply (safe_trans _ _ _ _ w2); [done|].
    apply (safe_trans _ _ _ _ w3); [done|].
    apply (safe_put_lines _ d); [done|apply Ht3|done|done|]. intros. by apply setTruth_others.
  - cbn. rewrite shadow_setTruth by lia. destruct Hb3 as [_ Hb3]. rewrite Hb3 by lia.
    apply shadow_setShadow_eq.
Qed.

(** The pins a handler leaves are the pins it found. *)
Definition same_pins (w w' : World.t) : Prop :=
  forall d, LocalDomainView.pinCount (getDomain (World.local w') d)
          = LocalDomainView.pinCount (getDomain (World.local w) d).

Lemma same_pins_upd d f w :
  (forall v, LocalDomainView.pinCount (f v) = LocalDomainView.pinCount v) ->
  same_pins w (World.with_local (upd_domain d f (World.local w)) w).
Proof.
  intros Hf d'. cbn. destruct (decide (d = d')) as [->|].
  - by rewrite getDomain_upd_eq.
  - by rewrite getDomain_upd_ne.
Qed.

Lemma same_pins_unpinned w w' d : same_pins w w' -> unpinned d w -> unpinned d w'.
Proof. intros Hp. unfold unpinned, LocalDomainView.hasOwnershipPins. by rewrite Hp. Qed.

(** What a transfer to [newHolder] writes over [rec]. *)
Definition handed (newHolder : Z) (rec : DomainRecord_t.t) : DomainRecord_t.t :=
  DomainRecord_t.with_epoch (u64 (DomainRecord_t.epoch rec + 1)) (DomainRecord_t.with_holder newHolder rec).

Definition believes (w : World.t) (d : Z) : bool := LocalDomainView.isHolder (getDomain (World.local w) d).

(** When the guards of [transferOwnership] let the publish through. *)
Definition mayTransfer (newHolder : Z) (rec : DomainRecord_t.t) : bool :=
  (newHolder <? pc) && DomainRecord_t.isValidMagic rec &&
  ((newHolder =? self) || (DomainRecord_t.holder rec =? self)).

(** From the publish on: [w] is the world at the snapshot. *)
Lemma transfer_publish_spec d nh rec w :
  0 <= d < 64 -> 0 <= nh < pc -> ctx w -> unpinned d w ->
  mine d (holder pc (World.region w) d) ->
  wp (when (negb (nh =? self)) (loseHolder d) ;;; publishDomainRecord d (handed nh rec) ;;;
      when (nh =? self) (adoptOwnership d (u64 (DomainRecord_t.epoch rec + 1)))) E
    (fun _ w' => safe w w' /\ same_pins w w' /\
      Region.truth pc (World.region w') d = handed nh rec /\
      Region.shadow pc (World.region w') d nh = handed nh rec /\
      believes w' d = (nh =? self)) w.
Proof.
  intros Hd Hnh Hw Hnp Hm. unfold loseHolder, adoptOwnership. destruct (nh =? self); cbn [negb when]; wp_run.
  - eapply wp_mono; [apply publish_spec; [done|done|by apply unpinned_vacant|done|done]|]. intros _ w' (Hs & Hl & _ & Htr & Hsh). wp_run.
    split_and!; [| |exact Htr|exact Hsh|].
    + eapply safe_trans; [exact Hs|]. apply safe_local; [by apply keeps_upd_domain; intros []|apply Hs].
    + intros d'. rewrite <- Hl. by apply same_pins_upd.
    + unfold believes. cbn. by rewrite getDomain_upd_eq.
  - set (w2 := World.with_local (upd_domain d LocalDomainView.loseHolder (World.local w)) w).
    assert (same_pins w w2) as Hp2 by (apply same_pins_upd; by intros []).
    assert (safe w w2) as Hs2 by (apply safe_local; [by apply keeps_upd_domain; intros []|done]).
    eapply wp_mono; [apply publish_spec; [done|apply Hs2|by apply unpinned_vacant, (same_pins_unpinned w)|done|done]|].
    intros _ w' (Hs & Hl & _ & Htr & Hsh). wp_run. split_and!; [|..|exact Htr|exact Hsh|].
    + by eapply safe_trans.
    + intros d'. rewrite Hl. apply Hp2.
    + unfold believes. rewrite Hl. cbn. by rewrite getDomain_upd_eq.
Qed.

Lemma transfer_spec d nh w :
  0 <= d < 64 -> 0 <= nh -> ctx w -> unpinned d w ->
  nh <> self \/ mine d (holder pc (World.region w) d) ->
  wp (transferOwnership d nh) E (fun _ w' => safe w w' /\ same_pins w w' /\
    let rec := Region.truth pc (World.region (tick E w)) d in
    if mayTransfer nh rec then
      Region.truth pc (World.region w') d = handed nh rec /\
      Region.shadow pc (World.region w') d nh = handed nh rec /\
      believes w' d = (nh =? self)
    else World.steps w' = World.steps w /\ believes w' d = believes w d) w.
Proof.
  intros Hd Hnh Hw Hnp Hcl. unfold transferOwnership. do 4 wp_step. cbv beta.
  pose proof (ctx_pc _ _ _ _ Hw) as Hmax. pose proof (ctx_self _ _ _ _ Hw) as Hid.
  unfold isValidPeer. rewrite Hmax, Hid. unfold mayTransfer.
  destruct (Z.ltb_spec nh pc) as [Hlt|Hge]; cbn [negb andb]; [|by apply wp_ret; split_and!; [apply safe_refl|..]].
  unfold loadDomainRecordSnapshot. do 4 wp_step. rewrite Hmax.
  pose proof (safe_tick E pc self mine HE Hself w Hw) as Ht1. set (w1 := tick E w) in *.
  set (rec := Region.truth pc (World.region w1) d) in *.
  destruct (DomainRecord_t.isValidMagic rec) eqn:Hmagic; cbn [negb andb].
  2:{ wp_run. split_and!; [|done|done|done]. eapply safe_trans; [exact Ht1|].
      apply safe_local; [by apply keeps_id_domains|apply Ht1]. }
  destruct (negb (nh =? self) && negb (DomainRecord_t.holder rec =? self)) eqn:Hg.
  { apply wp_ret. rewrite <- negb_orb, negb_true_iff in Hg. rewrite Hg. by split_and!. }
  rewrite <- negb_orb, negb_false_iff in Hg. rewrite Hg.
  eapply wp_mono; [apply transfer_publish_spec; [done|done|apply Ht1|done|]|].
  - apply orb_true_iff in Hg as [?|?]; zbool.
    + destruct Hcl as [?|Hm]; [done|]. by apply tick_mine.
    + unfold holder. fold rec. unfold DomainRecord_t.getHolder. by replace (DomainRecord_t.holder rec) with self.
  - intros _ w' (Hs & Hp & Ht & Hsh & Hb). split_and!; [by eapply safe_trans|done|done|done|done].
Qed.

(** The world once the transfer latch is taken. *)
Definition begun (d : Z) (w : World.t) : World.t :=
  World.with_local (upd_domain d (LocalDomainView.with_pinCount LocalDomainView.TransferringPins) (World.local w)) w.

Lemma getDomain_upd_same d d' s :
  getDomain (upd_domain d (fun _ => getDomain s d) s) d' = getDomain s d'.
Proof.
  destruct (decide (d = d')) as [->|]; [by rewrite getDomain_upd_eq|by rewrite getDomain_upd_ne].
Qed.

(** The latch lets a transfer through only on an unpinned domain, and the
    domain is unpinned again when it returns. *)
Lemma guarded_spec d nh w :
  0 <= d < 64 -> 0 <= nh -> ctx w -> nh <> self ->
  wp (transferOwnershipGuarded d nh) E (fun ok w' => safe w w' /\
    (forall d', d' <> d -> LocalDomainView.pinCount (getDomain (World.local w') d')
                         = LocalDomainView.pinCount (getDomain (World.local w) d')) /\
    ok = LocalDomainView.canTransferOwnership (getDomain (World.local w) d) /\
    if ok then
      LocalDomainView.pinCount (getDomain (World.local w') d) = 0 /\
      let rec := Region.truth pc (World.region (tick E w)) d in
      if mayTransfer nh rec then
        Region.truth pc (World.region w') d = handed nh rec /\
        Region.shadow pc (World.region w') d nh = handed nh rec /\ believes w' d = false
      else World.steps w' = World.steps w /\ believes w' d = believes w d
    else World.steps w' = World.steps w /\
      getDomain (World.local w') d = getDomain (World.local w) d) w.
Proof.
  intros Hd Hnh Hw Hne. unfold transferOwnershipGuarded. do 2 wp_step. cbv beta.
  unfold LocalDomainView.tryBeginOwnershipTransfer, LocalDomainView.canTransferOwnership.
  destruct (Z.eqb_spec (LocalDomainView.pinCount (getDomain (World.local w) d)) 0) as [Hz|Hz]; cbn [fst snd negb].
  - assert (ctx (begun d w)) as Hc by (destruct Hw; by split).
    assert (unpinned d (begun d w)) as Hu by (unfold unpinned; cbn; by rewrite getDomain_upd_eq).
    wp_step. eapply wp_mono; [apply (transfer_spec d nh (begun d w) Hd Hnh Hc Hu); by left|].
    intros _ w' (Hs & Hp & Hres). wp_run.
    assert (forall d', d' <> d -> LocalDomainView.pinCount (getDomain (World.local w') d')
              = LocalDomainView.pinCount (getDomain (World.local w) d')) as Hother.
    { intros d' Hd'. rewrite Hp. cbn. by rewrite getDomain_upd_ne. }
    split_and!; cbn; [|..|done|by rewrite getDomain_upd_eq|].
    + destruct Hs as [Hcw Hpw]. split; [destruct Hcw; by split|]. intros d' Hd' [Hh Hpin].
      destruct (decide (d' = d)) as [->|Hdd].
      { unfold LocalDomainView.hasOwnershipPins in Hpin. by rewrite Hz in Hpin. }
      destruct (Hpw d' Hd') as [Hh' Hpin'].
      { split; [done|]. cbn. by rewrite getDomain_upd_ne. }
      split; [done|]. cbn. by rewrite getDomain_upd_ne.
    + intros d' Hd'. rewrite getDomain_upd_ne by done. by apply Hother.
    + unfold believes in *. cbn in *. rewrite getDomain_upd_eq in *.
      change (tick E (begun d w)) with (begun d (tick E w)) in Hres. cbn in Hres.
      rewrite (proj2 (Z.eqb_neq nh self)) in Hres by done. by case_if.
  - wp_run. split_and!; [|intros d' _; cbn; by rewrite getDomain_upd_same|done|done|apply getDomain_upd_same].
    split; [destruct Hw; by split|]. intros d' Hd' [Hh Hpin]. split; [done|]. cbn. by rewrite getDomain_upd_same.
Qed.

Lemma Safe_transferOwnershipGuarded d nh :
  0 <= d < 64 -> 0 <= nh -> nh <> self -> Safe (transferOwnershipGuarded d nh).
Proof. intros Hd Hnh Hne w Hw. eapply wp_mono; [by apply guarded_spec|]. by intros ok w' (? & _). Qed.

(** ** Waiting for a domain *)

(** What an [Arrived] or [NotArrived] answer of a wait means. *)
Definition waited (d : Z) (deadline : timing.Deadline.t) (w : World.t) (res : OwnershipResult) (w' : World.t) : Prop :=
  safe w w' /\ same_pins w w' /\ World.steps w' = World.steps w /\
  (World.clockReads w <= World.clockReads w')%nat /\
  match res with
  | Arrived => holder pc (World.region w') d = self /\ believes w' d = true
  | NotArrived => believes w' d = false /\ exists n, (n < World.clockReads w')%nat /\
      timing.Deadline.expiredAt deadline (Env.clock E n) = true
  end.

Lemma waited_trans d deadline w w1 res w' :
  safe w w1 -> same_pins w w1 -> World.steps w1 = World.steps w ->
  (World.clockReads w <= World.clockReads w1)%nat -> waited d deadline w1 res w' ->
  waited d deadline w res w'.
Proof.
  intros Hs Hp Hst Hk (Hs' & Hp' & Hst' & Hk' & Hr). split_and!; [by eapply safe_trans| |congruence|lia|done].
  intros d'. by rewrite Hp'.
Qed.

Lemma safe_clock w : ctx w -> safe w (World.with_clockReads (S (World.clockReads w)) w).
Proof. intros [? ? ? ?]. split; [by split|done]. Qed.

(** A truth that names this peer keeps naming it. *)
Lemma tick_holder w d :
  0 <= d < 64 -> holder pc (World.region w) d = self -> holder pc (World.region (tick E w)) d = self.
Proof. intros Hd Hh. rewrite <- Hh. apply block_eq_holder, HE; [done|]. rewrite Hh. apply Hself. Qed.

Lemma wait_loop_spec fuel d deadline w :
  0 <= d < 64 -> ctx w -> believes w d = false ->
  covered E fuel deadline (World.clockReads w) ->
  wp (waitForOwnership_loop fuel d deadline) E (waited d deadline w) w.
Proof.
  intros Hd. revert w. induction fuel as [|fuel IH]; intros w Hw Hb Hk; [by apply covered_pos in Hk|].
  cbn [waitForOwnership_loop]. do 2 wp_step. cbv beta.
  pose proof (safe_clock w Hw) as Hs0. set (w0 := World.with_clockReads (S (World.clockReads w)) w) in *.
  destruct (timing.Deadline.expiredAt deadline (Env.clock E (World.clockReads w))) eqn:Hdl.
  { apply wp_ret. split_and!; [done|done|done|cbn; lia|done|]. exists (World.clockReads w). split; [cbn; lia|done]. }
  assert (ctx w0) as Hc0 by apply Hs0.
  unfold loadDomainRecordShadow, loadDomainRecordSnapshot. do 6 wp_step.
  rewrite (ctx_self _ _ _ _ Hc0).
  pose proof (safe_tick E pc self mine HE Hself w0 Hc0) as Hs1. set (w1 := tick E w0) in *.
  assert (safe w w1) as Hsw1 by by eapply safe_trans.
  assert (covered E fuel deadline (S (World.clockReads w))) as Hk' by by apply covered_next.
  do 2 wp_step. case_if.
  - do 4 wp_step. set (w2 := tick E w1).
    assert (safe w1 w2) as Hs2 by (apply safe_tick; [done|done|apply Hs1]).
    change (LocalPeerState.maxPeers (World.local w1)) with (LocalPeerState.maxPeers (World.local w0)).
    rewrite (ctx_pc _ _ _ _ Hc0).
    assert (safe w w2) as Hsw2 by by eapply safe_trans.
    destruct (DomainRecord_t.isValidMagic (Region.truth pc (World.region w2) d) &&
      (DomainRecord_t.getHolder (Region.truth pc (World.region w2) d) =? self)) eqn:Hcheck.
    + unfold adoptOwnership. wp_run. zbool. split_and!; [|by apply (same_pins_upd d _ w2)|done|cbn; lia|done|].
      * eapply safe_trans; [exact Hsw2|]. apply safe_local; [by apply keeps_upd_domain; intros []|apply Hsw2].
      * unfold believes. cbn. by rewrite getDomain_upd_eq.
    + eapply wp_mono; [apply IH; [apply Hsw2|done|done]|]. intros res w'. apply waited_trans; [done|done|done|cbn; lia].
  - eapply wp_mono; [apply IH; [apply Hsw1|done|done]|]. intros res w'. apply waited_trans; [done|done|done|cbn; lia].
Qed.

Lemma wait_spec budget d deadline w :
  0 <= d < 64 -> ctx w -> clock_advances E budget ->
  timing.Deadline.ends_ deadline <= Env.clock E (World.clockReads w) + budget ->
  wp (waitForOwnership d deadline) E (waited d deadline w) w.
Proof.
  intros Hd Hw Hadv Hend. unfold waitForOwnership, isHolder. do 6 wp_step. cbv beta.
  fold (believes w d). destruct (believes w d) eqn:Hb.
  2:{ apply wait_loop_spec; [done..|]. by apply fuel_covers with budget. }
  unfold loadDomainRecordSnapshot. do 4 wp_step. rewrite (ctx_pc _ _ _ _ Hw), (ctx_self _ _ _ _ Hw).
  pose proof (safe_tick E pc self mine HE Hself w Hw) as Hs1. set (w1 := tick E w) in *.
  case_if.
  - apply wp_ret. zbool. by split_and!.
  - unfold loseHolder. do 2 wp_step. cbv beta.
    set (w2 := World.with_local (upd_domain d LocalDomainView.loseHolder (World.local w1)) w1).
    assert (safe w1 w2) as Hs2 by (apply safe_local; [by apply keeps_upd_domain; intros []|apply Hs1]).
    eapply wp_mono; [apply wait_loop_spec; [done|apply Hs2| |by apply fuel_covers with budget]|].
    + unfold believes. cbn. by rewrite getDomain_upd_eq.
    + intros res w'. apply waited_trans; [by eapply safe_trans|by apply (same_pins_upd d _ w1); intros []|done|done].
Qed.
End safety.
