(* ===== verification/Policies.v ===== *)
(** * Policies: the four successor strategies

    Models [src/core/policy/successor_order.cpp], [successor_request.cpp],
    [successor_request_agg.cpp] with its packed slot codec, and
    [successor_peterson.cpp] with the tree of [successor_peterson_layout.hpp].
    The abstract class [SuccessorPolicy] is a type class, each strategy an
    instance.

    A policy's mutexes serialise threads of one peer and are uncontended here:
    [PetersonPolicy::lock]'s timed acquire of the climb mutex succeeds. *)

From S2P Require Import Prelude Bitmap Types Layout Region Effect World Runtime Ownership.
Import LocalPeerState peer_state ownership_transfer.

Class SuccessorPolicy := {
  lock : Z -> timing.Deadline.t -> M OwnershipResult;
  unlock : Z -> M unit;
  pollCycle : M unit;
  bindPolicy : M unit;
  leave : M unit;
  scrubRecoveredPeer : Z -> M unit;
}.

(** The grant of each domain of a set to one peer, dropping it from what is
    still on offer whether or not the latch let it through; answers what is
    left and whether anything was granted. *)
Definition grantAll (candidates : Bits.t) (peerIndex : Z) (held : Bits.t * bool) : M (Bits.t * bool) :=
  foldM (Bits.drain (Z.to_nat MaxDomains) candidates) held (fun '(heldDomains, granted) domainId =>
    let! ok := transferOwnershipGuarded domainId peerIndex in
    ret (Bits.clear heldDomains domainId, ok || granted)).

(** [reconcileGate_.isDue(getTickTime(), OwnershipCheckInterval)]. *)
Definition reconcileDue (s : t) : bool * t :=
  let '(due, next) := timing.PeriodicGate.isDue (reconcileGate_ s) (tickTime s)
                        config.poll_thread.OwnershipCheckInterval in
  (due, with_reconcileGate_ next s).

Definition unpin (domainId : Z) : M unit := modify (upd_domain domainId LocalDomainView.unpinOwnership).

(** ** Order: the token moves round the ring *)

Module OrderPolicy.

Definition findSuccessor (from domainId : Z) : M Z :=
  let! bound := get getPeerScanBound in
  let! found := findM (IdRing from bound) (fun candidate =>
    let! member := getMemberView candidate config.membership.CacheTTL in
    ret (active member && Bits.has (participating member) domainId)) in
  ret (default from found).

Definition transferHeldDomains (heldDomains : Bits.t) : M unit :=
  let! ring := get getPeerRing in
  let! _ := foldM ring heldDomains (fun heldDomains peerIndex =>
    if Bits.isEmpty heldDomains then ret heldDomains
    else
      let! member := getMemberView peerIndex config.membership.CacheTTL in
      if negb (active member) then ret heldDomains
      else
        let! offer := grantAll (Bits.inter heldDomains (participating member)) peerIndex (heldDomains, false) in
        ret offer.1) in
  ret tt.

Definition lock (domainId : Z) (deadline : timing.Deadline.t) : M OwnershipResult :=
  holdDomain domainId ;;;
  let! result := waitForOwnership domainId deadline in
  match result with
  | Arrived => ret result
  | NotArrived => unholdDomain domainId ;;; ret result
  end.

Definition unlock (domainId : Z) : M unit :=
  unpin domainId ;;;
  let! transferable := get (fun s => canTransferDomain s domainId) in
  when transferable (
    let! self := get peerId_ in
    let! successor := findSuccessor self domainId in
    when (negb (successor =? self)) (
      let! _ := transferOwnershipGuarded domainId successor in ret tt)).

Definition pollCycle : M unit :=
  let! heldTransferable := reconcileAndCollectTransferable in
  when (negb (Bits.isEmpty heldTransferable)) (transferHeldDomains heldTransferable).

End OrderPolicy.

#[export] Instance orderPolicy : SuccessorPolicy := {
  lock := OrderPolicy.lock;
  unlock := OrderPolicy.unlock;
  pollCycle := OrderPolicy.pollCycle;
  bindPolicy := ret tt;
  leave := ret tt;
  scrubRecoveredPeer := fun _ => ret tt;
}.

(** ** Request: the token moves on demand *)

Module RequestPolicy.

Definition transferOwnershipToRequester (domain : Z) : M bool :=
  let! ring := get getPeerRing in
  let! found := findM ring (fun peerIndex =>
    let! wanted := request_demand.loadPeer peerIndex in ret (Bits.has wanted domain)) in
  match found with
  | Some peerIndex => transferOwnershipGuarded domain peerIndex
  | None => ret false
  end.

Definition transferHeldDomains (heldDomains : Bits.t) : M unit :=
  let! ring := get getPeerRing in
  let! _ := foldM ring heldDomains (fun heldDomains peerIndex =>
    if Bits.isEmpty heldDomains then ret heldDomains
    else
      let! wanted := request_demand.loadPeer peerIndex in
      let! offer := grantAll (Bits.inter heldDomains wanted) peerIndex (heldDomains, false) in
      ret offer.1) in
  ret tt.

(** The wait, the withdrawal, and the settle that catches a grant in flight. *)
Definition awaitDemand (domainId : Z) (deadline : timing.Deadline.t) : M OwnershipResult :=
  let! result := waitForOwnership domainId deadline in
  request_demand.drop domainId ;;;
  match result with
  | Arrived => ret result
  | NotArrived =>
      let! instant := now in
      let! result := waitForOwnership domainId (timing.Deadline.make instant config.acquire.WithdrawSettle) in
      match result with
      | Arrived => ret result
      | NotArrived => unholdDomain domainId ;;; ret result
      end
  end.

Definition lock (domainId : Z) (deadline : timing.Deadline.t) : M OwnershipResult :=
  let! resident := holdAndCheckResident domainId in
  if resident then ret Arrived
  else request_demand.raise domainId ;;; awaitDemand domainId deadline.

Definition unlock (domainId : Z) : M unit :=
  unpin domainId ;;;
  let! transferable := get (fun s => canTransferDomain s domainId) in
  when transferable (let! _ := transferOwnershipToRequester domainId in ret tt).

Definition pollCycle : M unit :=
  let! reconcile := query reconcileDue in
  let! heldTransferable :=
    (if reconcile then reconcileAndCollectTransferable else collectTransferableLocal) in
  when (negb (Bits.isEmpty heldTransferable)) (transferHeldDomains heldTransferable).

Definition leave : M unit := request_demand.clearSelf.
Definition scrubRecoveredPeer (deadPeerId : Z) : M unit := request_demand.scrub deadPeerId.

End RequestPolicy.

#[export] Instance requestPolicy : SuccessorPolicy := {
  lock := RequestPolicy.lock;
  unlock := RequestPolicy.unlock;
  pollCycle := RequestPolicy.pollCycle;
  bindPolicy := ret tt;
  leave := RequestPolicy.leave;
  scrubRecoveredPeer := RequestPolicy.scrubRecoveredPeer;
}.

(** ** RequestAgg: demand packed per group *)

Module RequestAggPolicy.

(** [memcpy(&line[offset], bytes, |bytes|)]. *)
Definition memcpy (line : list Z) (offset : nat) (bytes : list Z) : list Z :=
  take offset line ++ bytes ++ drop (offset + length bytes) line.

(** The layout a bound policy keeps: group count and bitmap width. *)
Definition getGroups (s : t) : Z := RequestAggLayout.getGroupCount (aggregatorGroups s) (numDomains s) (maxPeers s).
Definition getBitmapBytes (s : t) : Z := RequestAggLayout.getBitmapBytes (numDomains s).

(** [for (peerId = groupId; peerId < peerCount; peerId += groups)]. *)
Definition groupMembers (groupId groups peerCount : Z) : list Z :=
  List.filter (fun peerId => (peerId - groupId) mod groups =? 0) (IdRange groupId peerCount).

Definition findLiveGroupAggregator (groups groupId excludePeer : Z) : M Z :=
  let! peerCount := get maxPeers in
  let! found := findM (groupMembers groupId groups peerCount) (fun peerId =>
    if peerId =? excludePeer then ret false
    else let! member := loadMemberSnapshot peerId in ret (Member_t.hasStatus member Member_t.Active)) in
  ret (default NoPeer found).

Definition unpackAggregatedRequest (slot : AggregatedRequest_t.t) (slotLocalIndex bitmapBytes : Z) : Bits.t :=
  let offset := Z.to_nat (slotLocalIndex * bitmapBytes) in
  Bits.mk [le_word (take (Z.to_nat bitmapBytes) (drop offset (AggregatedRequest_t.packedBitmaps slot)))].

(** One member's slice, copied in at its slot-local index. *)
Definition packSlice (slot : AggregatedRequest_t.t) (slotLocalIndex bitmapBytes : Z) (bits : Bits.t) :
    AggregatedRequest_t.t :=
  AggregatedRequest_t.mk
    (memcpy (AggregatedRequest_t.packedBitmaps slot) (Z.to_nat (slotLocalIndex * bitmapBytes))
       (le_bytes (Z.to_nat bitmapBytes) (Bits.getWord bits 0))).

Definition packAggregatedRequest (groups bitmapBytes groupId : Z) : M AggregatedRequest_t.t :=
  let! peerCount := get maxPeers in
  foldM (groupMembers groupId groups peerCount) AggregatedRequest_t.zero (fun aggregated peerId =>
    let! wanted := request_demand.loadPeer peerId in
    ret (packSlice aggregated (peerId / groups) bitmapBytes wanted)).

Definition grantHeldToPeer (peerIndex : Z) (heldDomains : Bits.t) : M (Bits.t * bool) :=
  let! wanted := request_demand.loadPeer peerIndex in
  grantAll (Bits.inter heldDomains wanted) peerIndex (heldDomains, false).

Definition bindPolicy : M unit :=
  modify (fun s => with_slotLocalIndex_ (peerId_ s / getGroups s) (with_groupId_ (peerId_ s mod getGroups s) s)).

(** One group's scan, from just after this peer's own index in its own group. *)
Definition scanGroup (groupId : Z) (heldDomains : Bits.t) : M (Bits.t * bool) :=
  let! selfPeerId := get peerId_ in
  let! peerCount := get maxPeers in
  let! groups := get getGroups in
  let! bitmapBytes := get getBitmapBytes in
  let! selfGroupId := get groupId_ in
  let! selfIndex := get slotLocalIndex_ in
  let memberCount := ceilDiv (peerCount - groupId) groups in
  let! slot := read (fun r => Region.aggSlots r !!! groupId) in
  let startLocalIndex := if groupId =? selfGroupId then u32 (selfIndex + 1) else 0 in
  foldM (IdRange 0 memberCount) (heldDomains, false) (fun '(heldDomains, granted) memberStep =>
    let slotLocalIndex := u32 (startLocalIndex + memberStep) mod memberCount in
    let peerId := u32 (groupId + slotLocalIndex * groups) in
    if peerId =? selfPeerId then ret (heldDomains, granted)
    else
      let wanted := unpackAggregatedRequest slot slotLocalIndex bitmapBytes in
      if Bits.isEmpty (Bits.inter heldDomains wanted) then ret (heldDomains, granted)
      else
        let! offer := grantHeldToPeer peerId heldDomains in
        ret (offer.1, offer.2 || granted)).

Definition transferHeldDomainsAgg (heldDomains : Bits.t) : M bool :=
  let! peerCount := get maxPeers in
  let! groups := get getGroups in
  let! selfGroupId := get groupId_ in
  let! outcome := foldM (IdRange 0 groups) (heldDomains, false) (fun '(heldDomains, granted) groupStep =>
    if Bits.isEmpty heldDomains then ret (heldDomains, granted)
    else
      let groupId := u32 (selfGroupId + groupStep) mod groups in
      if peerCount <=? groupId then ret (heldDomains, granted)
      else
        let! offer := scanGroup groupId heldDomains in
        ret (offer.1, offer.2 || granted)) in
  ret outcome.2.

Definition refreshAggregatedRequest : M unit :=
  let! selfPeerId := get peerId_ in
  let! groupId := get groupId_ in
  let! snapshot := read (fun r => Region.aggRecords r !!! groupId) in
  let named := AggregatorRecord_t.aggregatorPeerId snapshot in
  let! volunteer :=
    (if named =? selfPeerId then ret false
     else
       let! valid := get (fun s => isValidPeer s named) in
       if negb valid then ret true
       else let! member := getMemberView named config.membership.CacheTTL in ret (negb (active member))) in
  when volunteer (write (Region.setAggRecord groupId
    (AggregatorRecord_t.mk (AggregatorRecord_t.magic snapshot) selfPeerId))) ;;;
  when (volunteer || (named =? selfPeerId)) (
    let! groups := get getGroups in
    let! bitmapBytes := get getBitmapBytes in
    let! aggregated := packAggregatedRequest groups bitmapBytes groupId in
    write (Region.setAggSlot groupId aggregated)).

Definition updateDemandAndSlice (domainId : Z) (requesting : bool) : M unit :=
  updateSelfPending domainId requesting (fun bits =>
    request_demand.publishOwn bits ;;;
    let! groupId := get groupId_ in
    let! slotLocalIndex := get slotLocalIndex_ in
    let! bitmapBytes := get getBitmapBytes in
    rmw (fun r => Region.aggSlots r !!! groupId) (Region.setAggSlot groupId)
      (fun slot => packSlice slot slotLocalIndex bitmapBytes bits)).

Definition lock (domainId : Z) (deadline : timing.Deadline.t) : M OwnershipResult :=
  let! resident := holdAndCheckResident domainId in
  if resident then ret Arrived
  else updateDemandAndSlice domainId true ;;; RequestPolicy.awaitDemand domainId deadline.

Definition unlock (domainId : Z) : M unit :=
  unpin domainId ;;;
  let! transferable := get (fun s => canTransferDomain s domainId) in
  when transferable (
    let! _ := transferHeldDomainsAgg (Bits.set DomainBitmap_empty domainId) in ret tt).

Definition pollCycle : M unit :=
  refreshAggregatedRequest ;;;
  let! reconcile := query reconcileDue in
  let! heldTransferable :=
    (if reconcile then reconcileAndCollectTransferable else collectTransferableLocal) in
  when (negb (Bits.isEmpty heldTransferable)) (
    let! _ := transferHeldDomainsAgg heldTransferable in ret tt).

(** Hand the duty of [groupId] from [from] to a live member of the group. *)
Definition handDuty (groupId from : Z) : M unit :=
  let! snapshot := read (fun r => Region.aggRecords r !!! groupId) in
  if negb (AggregatorRecord_t.aggregatorPeerId snapshot =? from) then ret tt
  else
    let! groups := get getGroups in
    let! next := findLiveGroupAggregator groups groupId from in
    write (Region.setAggRecord groupId (AggregatorRecord_t.mk (AggregatorRecord_t.magic snapshot) next)).

Definition leave : M unit :=
  request_demand.clearSelf ;;;
  let! selfPeerId := get peerId_ in
  let! groupId := get groupId_ in
  handDuty groupId selfPeerId.

Definition scrubRecoveredPeer (deadPeerId : Z) : M unit :=
  request_demand.scrub deadPeerId ;;;
  let! groups := get getGroups in
  handDuty (deadPeerId mod groups) deadPeerId.

End RequestAggPolicy.

#[export] Instance requestAggPolicy : SuccessorPolicy := {
  lock := RequestAggPolicy.lock;
  unlock := RequestAggPolicy.unlock;
  pollCycle := RequestAggPolicy.pollCycle;
  bindPolicy := RequestAggPolicy.bindPolicy;
  leave := RequestAggPolicy.leave;
  scrubRecoveredPeer := RequestAggPolicy.scrubRecoveredPeer;
}.

(** ** Peterson: a tournament per domain *)

Module PetersonPolicy.
Import peterson_tree.

Definition Role_of_u32 (v : Z) : PetersonNode_t.Role :=
  if v =? 0 then PetersonNode_t.Peer0 else PetersonNode_t.Peer1.

Definition nodeAt (index : Z) (r : Region.t) : PetersonNode_t.t := Region.nodes r !!! index.

(** Store one of a node's three lines. *)
Definition setPeerLine (index : Z) (role : PetersonNode_t.Role) (owner : Z) : M unit :=
  write (fun r => Region.setNode index (PetersonNode_t.setPeerLine role owner (nodeAt index r)) r).
Definition setFairness (index turn : Z) : M unit :=
  write (fun r => Region.setNode index (PetersonNode_t.setFairness turn (nodeAt index r)) r).

(** The spin of [lockNode]: look, then the deadline. *)
Fixpoint lockNode_loop (fuel : nat) (index : Z) (other : PetersonNode_t.Role)
    (deadline : timing.Deadline.t) : M bool :=
  match fuel with
  | O => outOfFuel
  | S fuel =>
      let! otherOwner := read (fun r => PetersonNode_t.getPeerLine (nodeAt index r) other) in
      let! turn := read (fun r => PetersonNode_t.turn (nodeAt index r)) in
      if (otherOwner =? NoPeer) || negb (turn =? PetersonNode_t.Role_to_u32 other) then ret true
      else
        let! instant := now in
        if timing.Deadline.expiredAt deadline instant then ret false
        else lockNode_loop fuel index other deadline
  end.

Definition unlockNode (index : Z) (role : PetersonNode_t.Role) : M unit := setPeerLine index role NoPeer.

Definition lockNode (index : Z) (role : PetersonNode_t.Role) (deadline : timing.Deadline.t) : M bool :=
  let other := PetersonNode_t.other role in
  let! self := get peerId_ in
  setPeerLine index role self ;;;
  setFairness index (PetersonNode_t.Role_to_u32 other) ;;;
  let! fuel := getFuel in
  let! won := lockNode_loop (S fuel) index other deadline in
  when (negb won) (unlockNode index role) ;;;
  ret won.

(** *** The tree *)

Fixpoint reverseBits_from (bits : nat) (value reversed : Z) : Z :=
  match bits with
  | O => reversed
  | S bits => reverseBits_from bits (Z.shiftr value 1)
                (Z.lor (u32 (Z.shiftl reversed 1)) (Z.land value 1))
  end.
Definition reverseBits (value bits : Z) : Z := reverseBits_from (Z.to_nat bits) value 0.

Record ClimbStep_t := mkStep { node : Z; role : PetersonNode_t.Role }.

(** [while (cur > 1)], a 32-bit heap index halving: 32 turns reach the root. *)
Fixpoint climb_from (fuel : nat) (cur : Z) : list ClimbStep_t :=
  match fuel with
  | O => []
  | S fuel =>
      if 1 <? cur then
        let parent := cur / 2 in
        mkStep (parent - 1) (Role_of_u32 (Z.land cur 1)) :: climb_from fuel parent
      else []
  end.

Definition buildClimbPath (maxNumPeers tid : Z) : list ClimbStep_t :=
  let numLeaves := roundUpPow2 maxNumPeers in
  let depth := ctz numLeaves in
  climb_from 32 (u32 (numLeaves + reverseBits tid depth)).

Definition treeBase (s : t) (domain : Z) : Z := u32 (domain * getNodesPerDomain (maxPeers s)).

(** [acquire]: climb leaf to root; a level that times out backs out the levels
    below it.  [below] holds them, the last won first. *)
Fixpoint climb (base : Z) (path below : list ClimbStep_t) (deadline : timing.Deadline.t) : M bool :=
  match path with
  | [] => ret true
  | step :: rest =>
      let! won := lockNode (base + node step) (role step) deadline in
      if won then climb base rest (step :: below) deadline
      else forM below (fun step => unlockNode (base + node step) (role step)) ;;; ret false
  end.

Definition acquire (domain : Z) (deadline : timing.Deadline.t) : M bool :=
  let! base := get (fun s => treeBase s domain) in
  let! path := get (fun s => buildClimbPath (maxPeers s) (peerId_ s)) in
  climb base path [] deadline.

Definition release (domain : Z) : M unit :=
  let! base := get (fun s => treeBase s domain) in
  let! path := get (fun s => buildClimbPath (maxPeers s) (peerId_ s)) in
  forM (rev path) (fun step => unlockNode (base + node step) (role step)).

Definition cleanupDeadPeer (deadPeerId : Z) : M unit :=
  let! deadPath := get (fun s => buildClimbPath (maxPeers s) deadPeerId) in
  let! domains := get numDomains in
  forM (rev deadPath) (fun step =>
    forM (IdRange 0 domains) (fun domainIdx =>
      let! base := get (fun s => treeBase s domainIdx) in
      let! owner := read (fun r => PetersonNode_t.getPeerLine (nodeAt (base + node step) r) (role step)) in
      when (owner =? deadPeerId) (unlockNode (base + node step) (role step)))).

Definition won (s : t) (domainId : Z) : bool := default false (climbWon s !! domainId).
Definition setWon (domainId : Z) (v : bool) (s : t) : t := with_climbWon (<[domainId := v]> (climbWon s)) s.

Definition lock (domainId : Z) (deadline : timing.Deadline.t) : M OwnershipResult :=
  let! _ := now in   (* the remaining budget bounds the mutex acquire *)
  holdDomain domainId ;;;
  let! sibling := get (fun s => won s domainId) in
  if sibling then ret Arrived
  else
    let! acquired := acquire domainId deadline in
    if negb acquired then unholdDomain domainId ;;; ret NotArrived
    else
      modify (setWon domainId true) ;;;
      let! record := loadDomainRecordSnapshot domainId in
      takeoverOwnership domainId record ;;;
      ret Arrived.

Definition unlock (domainId : Z) : M unit :=
  let! pins := get (fun s => LocalDomainView.getOwnershipPinCount (getDomain s domainId)) in
  when (pins <=? 1) (
    when (pins =? 1) (vacateOwnership domainId) ;;;
    release domainId ;;;
    modify (setWon domainId false)) ;;;
  unpin domainId.

Definition pollCycle : M unit := ret tt.
Definition scrubRecoveredPeer (deadPeerId : Z) : M unit := cleanupDeadPeer deadPeerId.

End PetersonPolicy.

#[export] Instance petersonPolicy : SuccessorPolicy := {
  lock := PetersonPolicy.lock;
  unlock := PetersonPolicy.unlock;
  pollCycle := PetersonPolicy.pollCycle;
  bindPolicy := modify (with_climbWon ∅);
  leave := ret tt;
  scrubRecoveredPeer := PetersonPolicy.scrubRecoveredPeer;
}.

(** [makeSuccessorPolicy]: the instance a strategy stands for. *)
Definition policyOf (strategy : Strategy) : SuccessorPolicy :=
  match strategy with
  | Order => orderPolicy
  | Request => requestPolicy
  | RequestAgg => requestAggPolicy
  | Peterson => petersonPolicy
  end.
