(* ===== verification/PolicySafety.v ===== *)
(** * PolicySafety: what a successor policy promises the peer

    The contract of [SuccessorPolicy] as a type class over the token protocol,
    and its proof for the policies that move the token by records: [Order],
    [Request] and [RequestAgg]. *)

From S2P Require Import Prelude Bitmap Types Layout Region Effect World Runtime Ownership Token Transfer Policies.
Import LocalPeerState peer_state ownership_transfer.

(** ** Bitmaps the policies hold are well formed *)

Abbreviation wf64 := (Bits.wf MaxDomains).

Lemma wf_DomainBitmap_empty : wf64 DomainBitmap_empty.
Proof. apply Bits.wf_empty. Qed.

Lemma elem_of_drain bits d :
  wf64 bits -> d ∈ Bits.drain (Z.to_nat MaxDomains) bits <-> 0 <= d < 64 /\ Bits.has bits d = true.
Proof.
  intros Hwf. rewrite (Bits.drain_spec MaxDomains bits Bits.fits_64 Hwf).
  by rewrite list_elem_of_In, List.filter_In, <- list_elem_of_In, elem_of_zrange.
Qed.

#[export] Hint Resolve wf_DomainBitmap_empty wf_load_words : cme.

(** ** The contract *)

(** The world right after the pin of [unlock] is gone. *)
Definition released (d : Z) (w : World.t) : World.t :=
  World.with_local (upd_domain d LocalDomainView.unpinOwnership (World.local w)) w.

(** A domain view with room for one more pin and no transfer in flight. *)
Definition can_pin (w : World.t) (d : Z) : Prop :=
  0 <= LocalDomainView.pinCount (getDomain (World.local w) d) < 2 ^ 32 - 2.

(** What an answer of [lock] establishes. *)
Record locked (pc self : Z) (mine : Z -> Z -> Prop) (d : Z) (w : World.t) (res : OwnershipResult) (w' : World.t) : Prop := {
  locked_safe : safe pc self mine w w';
  locked_others : forall d', d' <> d -> LocalDomainView.pinCount (getDomain (World.local w') d')
                                      = LocalDomainView.pinCount (getDomain (World.local w) d');
  locked_pins : LocalDomainView.pinCount (getDomain (World.local w') d)
              = LocalDomainView.pinCount (getDomain (World.local w) d) +
                match res with Arrived => 1 | NotArrived => 0 end;
  locked_owner : res = Arrived -> pinned pc self d w' /\ believes w' d = true;
}.

(** A policy that moves the token by records only.  Each law quantifies over
    the environment: the other peers' interference, the clock, the budget. *)
Class TokenPolicy (P : SuccessorPolicy) : Prop := {
  pollCycle_safe E pc self mine :
    respects E (tokenR pc mine) -> (forall d, mine d self) -> 0 <= self < pc /\ pc <= 64 ->
    Safe E pc self mine pollCycle;
  lock_ok E pc self mine budget d deadline w :
    respects E (tokenR pc mine) -> (forall d, mine d self) -> 0 <= self < pc /\ pc <= 64 ->
    clock_monotone E -> clock_advances E budget -> config.acquire.WithdrawSettle <= budget ->
    0 <= d < 64 -> ctx pc self mine w -> can_pin w d ->
    timing.Deadline.ends_ deadline <= Env.clock E (World.clockReads w) + budget ->
    wp (lock d deadline) E (locked pc self mine d w) w;
  unlock_safe E pc self mine d w :
    respects E (tokenR pc mine) -> (forall d, mine d self) -> 0 <= self < pc /\ pc <= 64 ->
    0 <= d < 64 -> ctx pc self mine w ->
    wp (unlock d) E (fun _ w' => safe pc self mine (released d w) w') w;
}.

Section policies.
Context (E : Env.t) (pc self : Z) (mine : Z -> Z -> Prop).
Hypothesis HE : respects E (tokenR pc mine).
Hypothesis Hself : forall d, mine d self.
Hypothesis Hpc : 0 <= self < pc /\ pc <= 64.

Local Abbreviation Safe := (Safe E pc self mine).
Local Abbreviation SafeP := (SafeP E pc self mine).
Local Abbreviation ctx := (ctx pc self mine).
Local Abbreviation safe := (safe pc self mine).
Local Abbreviation pinned := (pinned pc self).

(** ** Pieces the policies share *)

Lemma SafeP_getMemberView p age : SafeP (fun view => wf64 (participating view)) (getMemberView p age).
Proof.
  unfold getMemberView, loadMemberSnapshot.
  eapply SafeP_bind; [apply Safe_SafeP, Safe_get|]. intros valid _. destruct (negb valid).
  { apply SafeP_ret. cbn. eauto with cme. }
  eapply SafeP_bind; [apply Safe_SafeP, Safe_get|]. intros slot _.
  eapply SafeP_bind; [apply Safe_SafeP, Safe_now|]. intros nowNs _.
  case_if; [apply SafeP_ret; cbn; eauto with cme|].
  eapply SafeP_bind; [apply Safe_SafeP; by apply Safe_read|]. intros member _.
  eapply SafeP_bind; [apply Safe_SafeP, Safe_cacheMemberSnapshot|]. intros _ _.
  apply SafeP_ret. unfold viewOfMember; cbn. destruct (Member_t.isValidMagic member).
  - apply wf_load_words.
  - apply wf_DomainBitmap_empty.
Qed.

Lemma SafeP_loadPeer p : SafeP wf64 (request_demand.loadPeer p).
Proof.
  unfold request_demand.loadPeer, request_demand.loadPending.
  eapply SafeP_bind; [apply Safe_SafeP, Safe_get|]. intros base _. destruct base.
  - eapply SafeP_bind; [apply Safe_SafeP; by apply Safe_read|]. intros line _. apply SafeP_ret, wf_load_words.
  - apply SafeP_ret, wf_DomainBitmap_empty.
Qed.

(** A sweep over the live domains offers only ids the bitmap has room for. *)
Lemma SafeP_collect (body : Z -> M bool) :
  (forall d, Safe (body d)) ->
  SafeP wf64 (let! range := get getActiveDomainRange in
    foldM range DomainBitmap_empty (fun acc d =>
      let! offer := body d in ret (if offer then Bits.set acc d else acc))).
Proof.
  intros Hb. eapply (SafeP_bind _ _ _ _ (fun range => forall d, d ∈ range -> 0 <= d < 64)).
  { apply SafeP_get. intros w _ d. unfold getActiveDomainRange. rewrite Bits.elem_of_iterate by done. by intros [? _]. }
  intros range Hr. apply SafeP_foldM; [apply wf_DomainBitmap_empty|]. intros acc d Hd Hacc.
  eapply SafeP_bind; [apply Safe_SafeP, Hb|]. intros offer _. apply SafeP_ret.
  destruct offer; [|done]. apply Bits.wf_set; [apply Bits.fits_64|done|by apply Hr].
Qed.

Lemma SafeP_reconcileAndCollect : SafeP wf64 reconcileAndCollectTransferable.
Proof. apply SafeP_collect. intros d. by apply Safe_reconcileDomain. Qed.

Lemma SafeP_collectLocal : SafeP wf64 collectTransferableLocal.
Proof. apply SafeP_collect. intros d. apply Safe_get. Qed.

Lemma SafeP_grantAll candidates p held :
  wf64 candidates -> wf64 held.1 -> 0 <= p -> p <> self ->
  SafeP (fun rest => wf64 rest.1) (grantAll candidates p held).
Proof.
  intros Hc Hh Hp Hne. unfold grantAll. apply SafeP_foldM; [done|]. intros [acc granted] d Hd Hacc.
  apply elem_of_drain in Hd as [Hd _]; [|done].
  eapply SafeP_bind; [apply Safe_SafeP; by apply Safe_transferOwnershipGuarded|].
  intros ok _. apply SafeP_ret. cbn. apply Bits.wf_clear; [apply Bits.fits_64|done|done].
Qed.

(** Every peer a ring walk offers is another one. *)
Lemma SafeP_ring : SafeP (fun ring => forall p, p ∈ ring -> 0 <= p /\ p <> self) (get getPeerRing).
Proof.
  apply SafeP_get. intros w Hw p Hp. unfold getPeerRing in Hp. rewrite (ctx_self _ _ _ _ Hw) in Hp.
  apply IdRing_ne in Hp as [? ?]; [lia|unfold in_u32; lia|].
  unfold getPeerScanBound. rewrite (ctx_pc _ _ _ _ Hw). case_if; [apply Hw|unfold in_u32; lia].
Qed.

Lemma Safe_reconcileDue : Safe (query reconcileDue).
Proof.
  apply Safe_query. apply keeps_id_domains; intros s; unfold reconcileDue;
    destruct (timing.PeriodicGate.isDue _ _ _); done.
Qed.

(** ** Releasing the domains on offer *)

Lemma Safe_Order_transferHeldDomains held : wf64 held -> Safe (OrderPolicy.transferHeldDomains held).
Proof.
  intros Hh. unfold OrderPolicy.transferHeldDomains. apply (SafeP_Safe _ _ _ _ (fun _ => True)).
  eapply SafeP_bind; [apply SafeP_ring|]. intros ring Hring.
  eapply (SafeP_bind _ _ _ _ wf64); [|intros; by apply SafeP_ret].
  apply SafeP_foldM; [done|]. intros acc p Hp Hacc. destruct (Hring p Hp) as [Hp0 Hne].
  case_if; [by apply SafeP_ret|].
  eapply SafeP_bind; [apply SafeP_getMemberView|]. intros view Hview. case_if; [by apply SafeP_ret|].
  eapply SafeP_bind; [apply SafeP_grantAll; [by apply Bits.wf_inter|done|done|done]|].
  intros rest Hrest. by apply SafeP_ret.
Qed.

Lemma Safe_Request_transferHeldDomains held : wf64 held -> Safe (RequestPolicy.transferHeldDomains held).
Proof.
  intros Hh. unfold RequestPolicy.transferHeldDomains. apply (SafeP_Safe _ _ _ _ (fun _ => True)).
  eapply SafeP_bind; [apply SafeP_ring|]. intros ring Hring.
  eapply (SafeP_bind _ _ _ _ wf64); [|intros; by apply SafeP_ret].
  apply SafeP_foldM; [done|]. intros acc p Hp Hacc. destruct (Hring p Hp) as [Hp0 Hne].
  case_if; [by apply SafeP_ret|].
  eapply SafeP_bind; [apply SafeP_loadPeer|]. intros wanted Hw.
  eapply SafeP_bind; [apply SafeP_grantAll; [by apply Bits.wf_inter|done|done|done]|].
  intros rest Hrest. by apply SafeP_ret.
Qed.

Lemma Safe_Order_pollCycle : Safe OrderPolicy.pollCycle.
Proof.
  unfold OrderPolicy.pollCycle. apply (SafeP_Safe _ _ _ _ (fun _ => True)).
  eapply SafeP_bind; [apply SafeP_reconcileAndCollect|]. intros held Hh.
  apply Safe_SafeP, Safe_when. by apply Safe_Order_transferHeldDomains.
Qed.

Lemma SafeP_held (reconcile : bool) :
  SafeP wf64 (if reconcile then reconcileAndCollectTransferable else collectTransferableLocal).
Proof. destruct reconcile; [apply SafeP_reconcileAndCollect|apply SafeP_collectLocal]. Qed.

Lemma Safe_Request_pollCycle : Safe RequestPolicy.pollCycle.
Proof.
  unfold RequestPolicy.pollCycle. apply (SafeP_Safe _ _ _ _ (fun _ => True)).
  eapply SafeP_bind; [apply Safe_SafeP, Safe_reconcileDue|]. intros reconcile _.
  eapply SafeP_bind; [apply SafeP_held|]. intros held Hh.
  apply Safe_SafeP, Safe_when. by apply Safe_Request_transferHeldDomains.
Qed.

Lemma SafeP_scanGroup g held :
  wf64 held -> SafeP (fun rest => wf64 rest.1) (RequestAggPolicy.scanGroup g held).
Proof.
  intros Hh. unfold RequestAggPolicy.scanGroup.
  eapply (SafeP_bind _ _ _ _ (fun id => id = self)); [apply SafeP_get; by intros w []|]. intros id ->.
  do 5 (eapply SafeP_bind; [apply Safe_SafeP, Safe_get|]; intros ? _).
  eapply SafeP_bind; [apply Safe_SafeP; by apply Safe_read|]. intros slot _.
  apply SafeP_foldM; [done|]. intros [acc granted] step _ Hacc. cbn [fst] in *.
  destruct (Z.eqb_spec (u32 (g + u32 ((if g =? a2 then u32 (a3 + 1) else 0) + step) mod ceilDiv (a - g) a0 * a0)) self)
    as [|Hne]; [by apply SafeP_ret|].
  case_if; [by apply SafeP_ret|]. unfold RequestAggPolicy.grantHeldToPeer.
  eapply (SafeP_bind _ _ _ _ (fun rest => wf64 rest.1)); [|intros rest ?; by apply SafeP_ret].
  eapply SafeP_bind; [apply SafeP_loadPeer|]. intros wanted Hw.
  apply SafeP_grantAll; [by apply Bits.wf_inter|done|apply u32_range|done].
Qed.

Lemma Safe_transferHeldDomainsAgg held : wf64 held -> Safe (RequestAggPolicy.transferHeldDomainsAgg held).
Proof.
  intros Hh. unfold RequestAggPolicy.transferHeldDomainsAgg. apply (SafeP_Safe _ _ _ _ (fun _ => True)).
  do 3 (eapply SafeP_bind; [apply Safe_SafeP, Safe_get|]; intros ? _).
  eapply (SafeP_bind _ _ _ _ (fun rest => wf64 rest.1)); [|intros; by apply SafeP_ret].
  apply SafeP_foldM; [done|]. intros [acc granted] step _ Hacc. cbn [fst] in *.
  case_if; [by apply SafeP_ret|]. case_if; [by apply SafeP_ret|].
  eapply SafeP_bind; [by apply SafeP_scanGroup|]. intros rest ?. by apply SafeP_ret.
Qed.

Lemma Safe_refreshAggregatedRequest : Safe RequestAggPolicy.refreshAggregatedRequest.
Proof.
  unfold RequestAggPolicy.refreshAggregatedRequest, RequestAggPolicy.packAggregatedRequest.
  safe_run; try (by apply Safe_getMemberView); by apply Safe_loadPeer.
Qed.

Lemma Safe_RequestAgg_pollCycle : Safe RequestAggPolicy.pollCycle.
Proof.
  unfold RequestAggPolicy.pollCycle. apply (SafeP_Safe _ _ _ _ (fun _ => True)).
  eapply SafeP_bind; [apply Safe_SafeP, Safe_refreshAggregatedRequest|]. intros _ _.
  eapply SafeP_bind; [apply Safe_SafeP, Safe_reconcileDue|]. intros reconcile _.
  eapply SafeP_bind; [apply SafeP_held|]. intros held Hh.
  apply Safe_SafeP, Safe_when, Safe_bind; [by apply Safe_transferHeldDomainsAgg|]. intros. apply Safe_ret.
Qed.

(** ** Unlocking *)

Lemma ctx_released d w : ctx w -> ctx (released d w).
Proof. by intros [? ? ? ?]. Qed.

(** An unlock is the unpin, then something safe. *)
Lemma unlock_from (rest : M unit) d w :
  Safe rest -> ctx w -> wp (unpin d ;;; rest) E (fun _ w' => safe (released d w) w') w.
Proof. intros Hr Hw. unfold unpin. do 2 wp_step. apply Hr. by apply ctx_released. Qed.

Lemma SafeP_findSuccessor d :
  SafeP (fun succ => 0 <= succ) (OrderPolicy.findSuccessor self d).
Proof.
  unfold OrderPolicy.findSuccessor.
  eapply (SafeP_bind _ _ _ _ in_u32).
  { apply SafeP_get. intros w Hw. unfold getPeerScanBound. rewrite (ctx_pc _ _ _ _ Hw).
    case_if; [apply Hw|unfold in_u32; lia]. }
  intros bound Hb. eapply (SafeP_bind _ _ _ _ (fun found => match found with Some p => 0 <= p | None => True end)).
  - apply SafeP_findM.
    + intros p _. apply Safe_bind; [by apply Safe_getMemberView|intros; apply Safe_ret].
    + intros p Hp. apply IdRing_ne in Hp as [? _]; [lia|unfold in_u32; lia|done].
  - intros [p|] Hp; apply SafeP_ret; cbn; lia.
Qed.

Lemma Safe_Order_forward d : 0 <= d < 64 ->
  Safe (let! transferable := get (fun s => canTransferDomain s d) in
    when transferable (
      let! self := get peerId_ in
      let! successor := OrderPolicy.findSuccessor self d in
      when (negb (successor =? self)) (let! _ := transferOwnershipGuarded d successor in ret tt))).
Proof.
  intros Hd. apply Safe_bind; [apply Safe_get|]. intros transferable. apply Safe_when.
  apply (SafeP_Safe _ _ _ _ (fun _ => True)).
  eapply (SafeP_bind _ _ _ _ (fun id => id = self)); [apply SafeP_get; by intros w []|]. intros id ->.
  eapply SafeP_bind; [apply SafeP_findSuccessor|]. intros succ Hs. apply Safe_SafeP.
  destruct (Z.eqb_spec succ self); [apply Safe_ret|]. cbn [negb when].
  apply Safe_bind; [by apply Safe_transferOwnershipGuarded|intros; apply Safe_ret].
Qed.

Lemma Safe_toRequester d : 0 <= d < 64 -> Safe (RequestPolicy.transferOwnershipToRequester d).
Proof.
  intros Hd. unfold RequestPolicy.transferOwnershipToRequester. apply (SafeP_Safe _ _ _ _ (fun _ => True)).
  eapply SafeP_bind; [apply SafeP_ring|]. intros ring Hring.
  eapply SafeP_bind; [apply (SafeP_findM _ _ _ _ (fun p => 0 <= p /\ p <> self)); [|done]|].
  - intros p _. apply Safe_bind; [by apply Safe_loadPeer|intros; apply Safe_ret].
  - intros [p|] Hp; apply Safe_SafeP; [|apply Safe_ret]. apply Safe_transferOwnershipGuarded; first [done|lia].
Qed.

(** ** Locking *)

Lemma pin_count now_ v :
  0 <= LocalDomainView.pinCount v < 2 ^ 32 - 2 ->
  LocalDomainView.pinCount (LocalDomainView.pinOwnership now_ v) = LocalDomainView.pinCount v + 1 /\
  LocalDomainView.isHolder (LocalDomainView.pinOwnership now_ v) = LocalDomainView.isHolder v.
Proof.
  intros Hr. unfold LocalDomainView.pinOwnership.
  destruct (Z.eqb_spec (LocalDomainView.pinCount v) LocalDomainView.TransferringPins) as [Heq|_].
  { unfold LocalDomainView.TransferringPins in Heq. lia. }
  rewrite u32_small by (unfold in_u32; lia). by destruct (LocalDomainView.pinCount v =? 0).
Qed.

Lemma unpin_count v :
  0 < LocalDomainView.pinCount v < 2 ^ 32 - 1 ->
  LocalDomainView.pinCount (LocalDomainView.unpinOwnership v) = LocalDomainView.pinCount v - 1 /\
  LocalDomainView.isHolder (LocalDomainView.unpinOwnership v) = LocalDomainView.isHolder v.
Proof.
  intros Hr. unfold LocalDomainView.unpinOwnership.
  destruct (Z.ltb_spec 0 (LocalDomainView.pinCount v)); [|lia].
  destruct (Z.eqb_spec (LocalDomainView.pinCount v) LocalDomainView.TransferringPins) as [Heq|_]; [|done].
  unfold LocalDomainView.TransferringPins in Heq. lia.
Qed.

Lemma has_pins v : 0 < LocalDomainView.pinCount v < 2 ^ 32 - 1 -> LocalDomainView.hasOwnershipPins v = true.
Proof.
  intros Hr. unfold LocalDomainView.hasOwnershipPins.
  destruct (Z.eqb_spec (LocalDomainView.pinCount v) 0); [lia|].
  destruct (Z.eqb_spec (LocalDomainView.pinCount v) LocalDomainView.TransferringPins) as [Heq|_]; [|done].
  unfold LocalDomainView.TransferringPins in Heq. lia.
Qed.

(** The world a lock has once it holds its pin: nothing else changed. *)
Record holding (d : Z) (w w' : World.t) : Prop := {
  holding_safe : safe w w';
  holding_others : forall d', d' <> d -> LocalDomainView.pinCount (getDomain (World.local w') d')
                                       = LocalDomainView.pinCount (getDomain (World.local w) d');
  holding_pin : LocalDomainView.pinCount (getDomain (World.local w') d)
              = LocalDomainView.pinCount (getDomain (World.local w) d) + 1;
  holding_clock : (World.clockReads w <= World.clockReads w')%nat;
}.

Lemma hold_spec d w :
  ctx w -> can_pin w d -> wp (holdDomain d) E (fun _ w' => holding d w w') w.
Proof.
  intros Hw Hp. unfold holdDomain. do 2 wp_step. cbv beta.
  assert (forall instant w1, World.local w1 = World.local w -> World.region w1 = World.region w -> World.steps w1 = World.steps w ->
    (World.clockReads w <= World.clockReads w1)%nat -> wp (modify (upd_domain d (LocalDomainView.pinOwnership instant))) E (fun _ w' => holding d w w') w1) as Hpin.
  { intros instant w1 Hl Hr Hs Hk. apply wp_modify. rewrite Hl. pose proof (pin_count instant _ Hp) as [Hc Hh].
    split; cbn; [| |by rewrite getDomain_upd_eq|done].
    - split; [destruct Hw; split; unfold guarantees; cbn; rewrite ?Hs; done|]. intros d' Hd' [Hh' Hp']. split; [by cbn; rewrite Hr|]. cbn.
      destruct (decide (d' = d)) as [->|]; [|by rewrite getDomain_upd_ne].
      rewrite getDomain_upd_eq. apply has_pins. rewrite Hc. unfold can_pin in Hp. lia.
    - intros d' Hd'. by rewrite getDomain_upd_ne. }
  apply wp_bind. destruct (LocalDomainView.isFirstPin _); [apply wp_now|apply wp_ret]; apply Hpin; try done; cbn; lia.
Qed.

Lemma holding_pinned d w w' :
  can_pin w d -> holding d w w' -> holder pc (World.region w') d = self -> pinned d w'.
Proof.
  intros Hp [_ _ Hc _] Hh. split; [done|]. apply has_pins. rewrite Hc. unfold can_pin in Hp. lia.
Qed.

(** Giving up: the pin goes, and the lock leaves the pins it found. *)
Lemma unhold_spec d w w1 :
  can_pin w d -> holding d w w1 ->
  wp (unholdDomain d ;;; ret NotArrived) E (locked pc self mine d w) w1.
Proof.
  intros Hp [Hs Ho Hc _]. unfold unholdDomain. do 3 wp_step. cbv beta.
  assert (0 < LocalDomainView.pinCount (getDomain (World.local w1) d) < 2 ^ 32 - 1) as Hr.
  { rewrite Hc. unfold can_pin in Hp. lia. }
  pose proof (unpin_count _ Hr) as [Hu Hh]. split; cbn.
  - destruct Hs as [Hcx Hpin]. split; [destruct Hcx; by split|]. intros d' Hd' Hpd.
    destruct (Hpin d' Hd' Hpd) as [Hh' Hp']. split; [done|]. cbn.
    destruct (decide (d' = d)) as [->|]; [|by rewrite getDomain_upd_ne].
    rewrite getDomain_upd_eq. destruct Hpd as [_ Hpd]. unfold LocalDomainView.hasOwnershipPins in *.
    rewrite Hu, Hc. by replace (_ + 1 - 1) with (LocalDomainView.pinCount (getDomain (World.local w) d)) by lia.
  - intros d' Hd'. by rewrite getDomain_upd_ne, Ho.
  - rewrite getDomain_upd_eq, Hu, Hc. lia.
  - done.
Qed.

Lemma holding_waited d deadline w w1 res w' :
  holding d w w1 -> waited E pc self mine d deadline w1 res w' ->
  holding d w w'.
Proof.
  intros [Hs Ho Hc Hk] (Hs' & Hp' & _ & Hk' & _). split; [by eapply safe_trans| | |lia].
  - intros d' Hd'. by rewrite Hp', Ho.
  - by rewrite Hp', Hc.
Qed.

Lemma arrived_locked d w w' :
  can_pin w d -> holding d w w' -> holder pc (World.region w') d = self -> believes w' d = true ->
  locked pc self mine d w Arrived w'.
Proof.
  intros Hp Hh Ho Hb. pose proof (holding_pinned _ _ _ Hp Hh Ho). destruct Hh as [Hs Hot Hc _].
  split; [done..|]. by intros _.
Qed.

(** Handlers that leave the domain views and the records alone. *)
Definition Calm {A} (m : M A) : Prop :=
  forall w, ctx w -> wp m E (fun _ w' => safe w w' /\
    domains_ (World.local w') = domains_ (World.local w) /\
    (World.clockReads w <= World.clockReads w')%nat) w.

Lemma Calm_bind {A B} (m : M A) (k : A -> M B) : Calm m -> (forall a, Calm (k a)) -> Calm (bind m k).
Proof.
  intros Hm Hk w Hw. apply wp_bind. eapply wp_mono; [by apply Hm|]. intros a w' (Hs & Hd & Hc). cbn.
  eapply wp_mono; [apply Hk; by destruct Hs|]. intros b w'' (Hs' & Hd' & Hc').
  split_and!; [by eapply safe_trans|congruence|lia].
Qed.

Lemma Calm_get {A} (f : t -> A) : Calm (get f).
Proof. intros w Hw. apply wp_get. split_and!; [by apply safe_refl|done|done]. Qed.

Lemma Calm_ret {A} (a : A) : Calm (ret a).
Proof. intros w Hw. apply wp_ret. split_and!; [by apply safe_refl|done|done]. Qed.

Lemma Calm_read {A} (f : Region.t -> A) : Calm (read f).
Proof. intros w Hw. apply wp_read. split_and!; [by apply safe_tick|done|done]. Qed.

Lemma Calm_write f : (forall r, Region.records (f r) = Region.records r) -> Calm (write f).
Proof.
  intros Hf w Hw. pose proof (Safe_write_other E pc self mine HE Hself f Hf w Hw) as Hs.
  apply wp_write. split_and!; [exact Hs|done|done].
Qed.

Lemma Calm_modify f :
  (forall s, maxPeers (f s) = maxPeers s) -> (forall s, peerId_ (f s) = peerId_ s) ->
  (forall s, peerScanBound_ (f s) = peerScanBound_ s) -> (forall s, domains_ (f s) = domains_ s) ->
  Calm (modify f).
Proof.
  intros H1 H2 H3 H4 w Hw. apply wp_modify. split_and!; [|apply H4|done].
  apply safe_local; [by apply keeps_id_domains|done].
Qed.

Lemma Calm_updateSelfPending d b publish :
  (forall bits, Calm (publish bits)) -> Calm (updateSelfPending d b publish).
Proof.
  intros Hp. unfold updateSelfPending. apply Calm_bind; [by apply Calm_modify|]. intros _.
  apply Calm_bind; [apply Calm_get|done].
Qed.

Lemma Calm_publishOwn bits : Calm (request_demand.publishOwn bits).
Proof.
  unfold request_demand.publishOwn, request_demand.storePending.
  apply Calm_bind; [apply Calm_get|]. intros p. apply Calm_bind; [apply Calm_get|]. intros base.
  destruct base; [by apply Calm_write|apply Calm_ret].
Qed.

Lemma Calm_updateDemandAndSlice d b : Calm (RequestAggPolicy.updateDemandAndSlice d b).
Proof.
  apply Calm_updateSelfPending. intros bits. apply Calm_bind; [apply Calm_publishOwn|]. intros _.
  do 3 (apply Calm_bind; [apply Calm_get|]; intros ?). unfold rmw.
  apply Calm_bind; [apply Calm_read|]. intros slot. by apply Calm_write.
Qed.

Lemma holding_calm d w w1 w' :
  holding d w w1 -> safe w1 w' -> domains_ (World.local w') = domains_ (World.local w1) ->
  (World.clockReads w1 <= World.clockReads w')%nat -> holding d w w'.
Proof.
  intros [Hs Ho Hc Hk] Hs' Hd Hk'.
  assert (forall d, getDomain (World.local w') d = getDomain (World.local w1) d) as Hg.
  { intros d'. unfold getDomain. by rewrite Hd. }
  split; [by eapply safe_trans| | |lia]; intros; rewrite Hg; auto.
Qed.

Context (budget : Z).
Hypothesis Hmono : clock_monotone E.
Hypothesis Hadv : clock_advances E budget.
Hypothesis Hsettle : config.acquire.WithdrawSettle <= budget.

(** A wait of a lock that holds its pin. *)
Lemma hold_wait d deadline w w1 :
  0 <= d < 64 -> holding d w w1 ->
  timing.Deadline.ends_ deadline <= Env.clock E (World.clockReads w1) + budget ->
  wp (waitForOwnership d deadline) E (fun res w' => holding d w w' /\
    (res = Arrived -> holder pc (World.region w') d = self /\ believes w' d = true)) w1.
Proof.
  intros Hd Hh Hend. eapply wp_mono; [eapply wait_spec; eauto; apply Hh|].
  intros res w' Hw. split; [by eapply holding_waited|]. intros ->. destruct Hw as (_ & _ & _ & _ & ?). done.
Qed.

Lemma deadline_later deadline w w1 :
  timing.Deadline.ends_ deadline <= Env.clock E (World.clockReads w) + budget ->
  (World.clockReads w <= World.clockReads w1)%nat ->
  timing.Deadline.ends_ deadline <= Env.clock E (World.clockReads w1) + budget.
Proof. intros Hend Hle. specialize (Hmono _ _ Hle). lia. Qed.

Lemma Order_lock_ok d deadline w :
  0 <= d < 64 -> ctx w -> can_pin w d ->
  timing.Deadline.ends_ deadline <= Env.clock E (World.clockReads w) + budget ->
  wp (OrderPolicy.lock d deadline) E (locked pc self mine d w) w.
Proof.
  intros Hd Hw Hp Hend. unfold OrderPolicy.lock. wp_step. eapply wp_mono; [by apply hold_spec|].
  intros ? w1 Hh1. wp_step. eapply wp_mono; [apply (hold_wait d deadline w w1 Hd Hh1)|].
  - eapply deadline_later; [done|apply Hh1].
  - intros res w2 [Hh2 Har]. cbv beta. destruct res; [|by apply unhold_spec].
    apply wp_ret. destruct (Har eq_refl). by apply arrived_locked.
Qed.

Lemma await_ok d deadline w w1 :
  0 <= d < 64 -> can_pin w d -> holding d w w1 ->
  timing.Deadline.ends_ deadline <= Env.clock E (World.clockReads w1) + budget ->
  wp (RequestPolicy.awaitDemand d deadline) E (locked pc self mine d w) w1.
Proof.
  intros Hd Hp Hh1 Hend. unfold RequestPolicy.awaitDemand. wp_step.
  eapply wp_mono; [by apply (hold_wait d deadline w w1)|]. intros res w2 [Hh2 Har]. wp_step.
  assert (ctx w2) as Hc2 by apply Hh2.
  pose proof (Calm_updateSelfPending d false _ Calm_publishOwn w2 Hc2) as Hcalm.
  eapply wp_mono; [exact Hcalm|]. clear Hcalm. intros ? w3 (Hs3 & Hd3 & Hk3). cbv beta.
  assert (holding d w w3) as Hh3 by by eapply holding_calm.
  destruct res.
  - apply wp_ret. destruct (Har eq_refl) as [Hho Hb]. apply arrived_locked; [done|done| |].
    + assert (pinned d w2) as Hpin by by eapply holding_pinned.
      by destruct (safe_pinned _ _ _ _ _ Hs3 d Hd Hpin).
    + unfold believes, getDomain in *. by rewrite Hd3.
  - do 3 wp_step. cbv beta.
    set (w4 := World.with_clockReads (S (World.clockReads w3)) w3).
    assert (holding d w w4) as Hh4.
    { eapply holding_calm; [exact Hh3| |done|cbn; lia]. apply safe_clock, Hh3. }
    eapply wp_mono; [apply (hold_wait d _ w w4 Hd Hh4)|].
    + cbn. pose proof (Hmono (World.clockReads w3) (S (World.clockReads w3)) ltac:(lia)). lia.
    + intros res w5 [Hh5 Har5]. cbv beta. destruct res; [|by apply unhold_spec].
      apply wp_ret. destruct (Har5 eq_refl). by apply arrived_locked.
Qed.

(** The resident fast path: pin, then the belief confirmed by the truth. *)
Lemma resident_spec d w :
  0 <= d < 64 -> ctx w -> can_pin w d ->
  wp (holdAndCheckResident d) E (fun resident w' => holding d w w' /\
    (resident = true -> holder pc (World.region w') d = self /\ believes w' d = true)) w.
Proof.
  intros Hd Hw Hp. unfold holdAndCheckResident. wp_step. eapply wp_mono; [by apply hold_spec|].
  intros ? w1 Hh1. unfold isHolder. do 2 wp_step. cbv beta. fold (believes w1 d).
  destruct (believes w1 d) eqn:Hb; cbn [negb]; [|apply wp_ret; by split].
  assert (ctx w1) as Hc1 by apply Hh1. unfold loadDomainRecordSnapshot. do 6 wp_step. cbv beta.
  rewrite (ctx_pc _ _ _ _ Hc1). change (World.local (tick E w1)) with (World.local w1).
  rewrite (ctx_self _ _ _ _ Hc1).
  assert (holding d w (tick E w1)) as Hh2.
  { eapply holding_calm; [exact Hh1|by apply safe_tick|done|done]. }
  destruct (DomainRecord_t.isValidMagic _ && _) eqn:Hck.
  - apply wp_ret. split; [done|]. intros _. zbool. done.
  - unfold loseHolder. wp_run. split; [|done]. destruct Hh2 as [Hs Ho Hc Hk]. split.
    + eapply safe_trans; [exact Hs|]. apply safe_local; [by apply keeps_upd_domain; intros []|apply Hs].
    + intros d' Hd'. cbn. rewrite getDomain_upd_ne by done. by apply Ho.
    + cbn. rewrite getDomain_upd_eq. exact Hc.
    + done.
Qed.

(** The demand-driven locks differ in how the request is published. *)
Lemma demand_lock_ok (publish : M unit) d deadline w :
  Calm publish -> 0 <= d < 64 -> ctx w -> can_pin w d ->
  timing.Deadline.ends_ deadline <= Env.clock E (World.clockReads w) + budget ->
  wp (let! resident := holdAndCheckResident d in
      if resident then ret Arrived else publish ;;; RequestPolicy.awaitDemand d deadline) E
    (locked pc self mine d w) w.
Proof.
  intros Hcalm Hd Hw Hp Hend. wp_step. eapply wp_mono; [by apply resident_spec|].
  intros resident w1 [Hh1 Har]. cbv beta. destruct resident.
  { apply wp_ret. destruct (Har eq_refl). by apply arrived_locked. }
  wp_step. eapply wp_mono; [apply Hcalm; apply Hh1|]. intros ? w2 (Hs2 & Hd2 & Hk2).
  assert (holding d w w2) as Hh2 by by eapply holding_calm.
  apply await_ok; [done|done|done|]. eapply deadline_later; [done|apply Hh2].
Qed.
End policies.

#[export] Instance orderPolicy_token : TokenPolicy orderPolicy.
Proof.
  split.
  - intros. by apply Safe_Order_pollCycle.
  - intros. change (@lock orderPolicy) with OrderPolicy.lock. eapply Order_lock_ok; eassumption.
  - intros. apply unlock_from; [by apply Safe_Order_forward|done].
Qed.

#[export] Instance requestPolicy_token : TokenPolicy requestPolicy.
Proof.
  split.
  - intros. by apply Safe_Request_pollCycle.
  - intros. eapply demand_lock_ok; try eassumption.
    apply Calm_updateSelfPending; [done..|]. intros. by apply Calm_publishOwn.
  - intros. apply unlock_from; [|done]. apply Safe_bind; [apply Safe_get|]. intros ?. apply Safe_when, Safe_bind.
    + by apply Safe_toRequester.
    + intros. apply Safe_ret.
Qed.

#[export] Instance requestAggPolicy_token : TokenPolicy requestAggPolicy.
Proof.
  split.
  - intros. by apply Safe_RequestAgg_pollCycle.
  - intros. eapply demand_lock_ok; try eassumption. by apply Calm_updateDemandAndSlice.
  - intros. apply unlock_from; [|done]. apply Safe_bind; [apply Safe_get|]. intros ?. apply Safe_when, Safe_bind.
    + apply Safe_transferHeldDomainsAgg; [done..|]. apply Bits.wf_set; [apply Bits.fits_64|apply wf_DomainBitmap_empty|done].
    + intros. apply Safe_ret.
Qed.
