(* ===== verification/Exclusion.v ===== *)
(** * Exclusion: the theorems on the domain token

    Mutual exclusion of the critical section, and the behaviour of the
    operations of [ownership_transfer.cpp] in any environment that keeps the
    token protocol. *)

From S2P Require Import Prelude Bitmap Types Layout Region Effect World Runtime Ownership Token Transfer Policies PolicySafety.
Import LocalPeerState peer_state ownership_transfer.

(** ** Shared setting of the examples: two peers, three domains *)

Module sample.
(** A clock that advances a second per reading, and nobody else acting. *)
Definition env : Env.t :=
  Env.mk (fun n => Z.of_nat n * 1000000000) (fun n => Z.of_nat n * 1000000000)
    (fun n => Z.of_nat n + 1) (fun _ r => r) 4.

Definition region : Region.t := format.beforeHeader 3 2 Order 0.

(** A peer just built: peer 0 holds the control domain and believes so. *)
Definition local (self : Z) : LocalPeerState.t :=
  with_successorPolicyKind Order (with_maxPeers 2 (with_numDomains 3 (with_peerId_ self
    (LocalPeerState.mk 0 Member_t.zero true 0 ∅
       (if self =? 0 then {[ 0 := LocalDomainView.becomeHolder LocalDomainView.zero ]} else ∅) (Bits.mk [1]) (Bits.mk [0]) ∅ 0 0 0 Order 0 NoPeer false 0 0
       NoPeer Claim.initial 0 0 0 ∅ false false)))).

Definition world (self : Z) : World.t := World.mk region (local self) 0 0 0 0 [].

(** The least entitlement: a peer writes what names it. *)
Definition own (p d h : Z) : Prop := h = p.

Lemma respects_env R : (forall r, R r r) -> respects env R.
Proof. intros H n r. apply H. Qed.

Lemma others_env pc p n r : others_step pc own p r (Env.interf env n r).
Proof. apply others_done. Qed.

Lemma own_disjoint p q d h : p <> q -> own p d h -> own q d h -> False.
Proof. unfold own. congruence. Qed.

Lemma ctx_world self mine : ctx 2 self mine (world self).
Proof. split; [done|done|unfold in_u32; cbn; lia|constructor]. Qed.

Lemma monotone_env : clock_monotone env.
Proof. intros n m H. cbn [Env.clock env]. lia. Qed.

Lemma advances_env : clock_advances env (timing.Secs 1).
Proof. intros n. unfold timing.Secs. cbn [Env.clock Env.fuel env]. lia. Qed.
End sample.

(** ** Mutual exclusion *)

Section exclusion.
Context {P : SuccessorPolicy} {HP : TokenPolicy P}.
Context (E : Env.t) (pc self : Z) (entitled : Z -> Z -> Z -> Prop) (budget : Z).
Hypothesis Hothers : forall n r, others_step pc entitled self r (Env.interf E n r).
Hypothesis Hdis : forall p q d h, p <> q -> entitled p d h -> entitled q d h -> False.
Hypothesis Hown : forall p d, entitled p d p.
Hypothesis Hpc : 0 <= self < pc /\ pc <= 64.
Hypothesis Hmono : clock_monotone E.
Hypothesis Hadv : clock_advances E budget.
Hypothesis Hbudget : config.acquire.WithdrawSettle <= budget.

Lemma others_respect : respects E (tokenR pc (entitled self)).
Proof.
  intros n r. eapply others_step_tokenR; [|apply Hothers].
  intros other d h Hne H1 H2. by apply (Hdis self other d h (not_eq_sym Hne)).
Qed.

(** A worker in its critical section while the poll thread keeps running. *)
Definition criticalSection (d : Z) (deadline : timing.Deadline.t) (polls : nat) : M bool :=
  let! result := lock d deadline in
  match result with
  | Arrived => forM (replicate polls tt) (fun _ => pollCycle) ;;; ret true
  | NotArrived => ret false
  end.

(** C1: mutual exclusion.  For the Order, Request and RequestAgg policies: a
    [lock] in any interleaving with other peers that write only the records
    they are entitled to returns, and once it has answered [Arrived] the truth
    record names this peer through any number of its own poll cycles; so no
    other peer can be pinned in the same domain.  The peer itself never writes
    a domain's lines unless the record names it. *)
Theorem critical_section_exclusive d deadline polls w :
  0 <= d < 64 -> ctx pc self (entitled self) w -> can_pin w d ->
  timing.Deadline.ends_ deadline <= Env.clock E (World.clockReads w) + budget ->
  wp (criticalSection d deadline polls) E (fun inside w' =>
    guarantees (tokenG pc (entitled self)) w' /\
    (inside = true ->
      holder pc (World.region w') d = self /\
      forall other w2, World.region w2 = World.region w' -> pinned pc other d w2 -> other = self)) w.
Proof.
  intros Hd Hw Hp Hend. pose proof others_respect as HE. unfold criticalSection. wp_step.
  eapply wp_mono; [eapply lock_ok; eauto|]. intros res w1 [Hs1 _ _ Hown1]. cbv beta.
  destruct res; [|apply wp_ret; split; [apply Hs1|done]]. destruct (Hown1 eq_refl) as [Hpin _].
  wp_step. eapply wp_mono.
  - apply (Safe_forM E pc self (entitled self) (replicate polls tt)); [|apply Hs1].
    intros x _. by eapply pollCycle_safe.
  - intros ? w2 Hs2. apply wp_ret. split; [apply Hs2|]. intros _.
    destruct (safe_pinned _ _ _ _ _ Hs2 d Hd Hpin) as [Hh _]. split; [done|].
    intros other w3 Hr [Hh3 _]. congruence.
Qed.
End exclusion.

Lemma sample_enters :
  answer (criticalSection (P := orderPolicy) 0 (timing.Deadline.mk 500) 3) sample.env (sample.world 0) = Some true.
Proof. vm_compute. reflexivity. Qed.

Lemma sample_can_pin : can_pin (sample.world 0) 0.
Proof. unfold can_pin. vm_compute. split; congruence. Qed.

Lemma critical_section_exclusive_witness :
  exists w', criticalSection (P := orderPolicy) 0 (timing.Deadline.mk 500) 3 sample.env (sample.world 0) = Some (true, w') /\
    holder 2 (World.region w') 0 = 0.
Proof.
  pose proof (critical_section_exclusive (P := orderPolicy) sample.env 2 0 sample.own (timing.Secs 1)
    (sample.others_env 2 0) sample.own_disjoint (fun p d => eq_refl) ltac:(lia) sample.monotone_env
    sample.advances_env ltac:(by vm_compute) 0 (timing.Deadline.mk 500) 3 (sample.world 0)
    ltac:(lia) (sample.ctx_world 0 _) sample_can_pin ltac:(vm_compute; congruence)) as H.
  apply wp_elim in H as (inside & w' & Hrun & _ & HQ).
  pose proof (answer_run _ _ _ _ _ _ Hrun sample_enters) as ->.
  exists w'. split; [exact Hrun|]. by apply HQ.
Defined.

(** ** Moving and waiting for a domain *)

Section operations.
Context (E : Env.t) (pc self : Z) (mine : Z -> Z -> Prop).
Hypothesis HE : respects E (tokenR pc mine).
Hypothesis Hself : forall d, mine d self.
Hypothesis Hpc : 0 <= self < pc /\ pc <= 64.

(** C6: [transferOwnership] on every branch.  It publishes exactly when the
    new holder is a provisioned slot, the record is intact, and either it is
    a self-claim or the record names this peer; then the truth and the new
    holder's shadow both carry the record with the new holder and the next
    epoch, and this peer's belief is whether it is that holder.  Otherwise it
    stores nothing and keeps its belief.  No pinned domain moves. *)
Theorem transferOwnership_correct d nh w :
  0 <= d < 64 -> 0 <= nh -> ctx pc self mine w -> unpinned d w ->
  nh <> self \/ mine d (holder pc (World.region w) d) ->
  wp (transferOwnership d nh) E (fun _ w' => safe pc self mine w w' /\ same_pins w w' /\
    let rec := Region.truth pc (World.region (tick E w)) d in
    if mayTransfer pc self nh rec then
      Region.truth pc (World.region w') d = handed nh rec /\
      Region.shadow pc (World.region w') d nh = handed nh rec /\
      believes w' d = (nh =? self)
    else World.steps w' = World.steps w /\ believes w' d = believes w d) w.
Proof. intros. by apply transfer_spec. Qed.

(** The transfer latch.  [transferOwnershipGuarded] goes ahead exactly when
    no worker of this peer is pinned in the domain; then the domain is
    unlatched again on return and the handoff is the one
    [transferOwnership] makes.  When a worker is pinned it answers false and
    neither the region nor the domain's view changes. *)
Theorem transferOwnershipGuarded_correct d nh w :
  0 <= d < 64 -> 0 <= nh -> ctx pc self mine w -> nh <> self ->
  wp (transferOwnershipGuarded d nh) E (fun ok w' => safe pc self mine w w' /\
    ok = LocalDomainView.canTransferOwnership (getDomain (World.local w) d) /\
    if ok then
      LocalDomainView.pinCount (getDomain (World.local w') d) = 0 /\
      let rec := Region.truth pc (World.region (tick E w)) d in
      if mayTransfer pc self nh rec then
        Region.truth pc (World.region w') d = handed nh rec /\
        Region.shadow pc (World.region w') d nh = handed nh rec /\ believes w' d = false
      else World.steps w' = World.steps w /\ believes w' d = believes w d
    else World.steps w' = World.steps w /\
      getDomain (World.local w') d = getDomain (World.local w) d) w.
Proof.
  intros. eapply wp_mono; [by apply guarded_spec|]. intros ok w' (? & _ & ? & ?). done.
Qed.

(** An unread grant: this peer's shadow and the truth both name it, the shadow at
    an epoch above the one it last adopted. *)
Definition granted (d : Z) (w : World.t) : Prop :=
  let truth := Region.truth pc (World.region w) d in
  let shadow := Region.shadow pc (World.region w) d self in
  DomainRecord_t.isValidMagic truth = true /\ DomainRecord_t.getHolder truth = self /\
  DomainRecord_t.isValidMagic shadow = true /\ DomainRecord_t.getHolder shadow = self /\
  LocalDomainView.lastOwnershipEpoch (getDomain (World.local w) d) < DomainRecord_t.epoch shadow.

Lemma granted_tick d w w0 :
  0 <= d < 64 -> World.region w0 = World.region w -> World.local w0 = World.local w ->
  granted d w -> granted d (tick E w0).
Proof.
  intros Hd Hr Hl (H1 & H2 & H3 & H4 & H5).
  assert (block_eq pc (World.region w) (World.region (tick E w0)) d) as [Ht Hs].
  { cbn. rewrite Hr. apply HE; [done|]. unfold holder. rewrite H2. apply Hself. }
  unfold granted. rewrite Ht, Hs by lia. change (World.local (tick E w0)) with (World.local w0).
  rewrite Hl. done.
Qed.

(** Readings [n], [n+1], ... of the clock up to [m], none of them past the deadline. *)
Definition readsInTime (deadline : timing.Deadline.t) (n m : nat) : Prop :=
  forall i, (n <= i < m)%nat -> timing.Deadline.expiredAt deadline (Env.clock E i) = false.

(** How a wait ended.  It arrives on a look in time that read the truth it
    adopts; it is refused at the first reading past the deadline, and then, if it
    looked at all, no unread grant stands. *)
Definition decided (d : Z) (deadline : timing.Deadline.t) (w : World.t) (res : OwnershipResult) (w' : World.t) : Prop :=
  exists n, World.clockReads w' = S n /\ (World.clockReads w <= n)%nat /\ readsInTime deadline (World.clockReads w) n /\
  match res with
  | Arrived => timing.Deadline.expiredAt deadline (Env.clock E n) = false /\
      LocalDomainView.lastOwnershipEpoch (getDomain (World.local w') d) =
        Z.max (DomainRecord_t.epoch (Region.truth pc (World.region w') d)) (LocalDomainView.lastOwnershipEpoch (getDomain (World.local w) d))
  | NotArrived => timing.Deadline.expiredAt deadline (Env.clock E n) = true /\
      World.local w' = World.local w /\ ((World.clockReads w < n)%nat -> ~ granted d w')
  end.

(** A turn that found nothing, and the turns after it. *)
Lemma decided_next d deadline w w1 res w' :
  timing.Deadline.expiredAt deadline (Env.clock E (World.clockReads w)) = false ->
  World.clockReads w1 = S (World.clockReads w) -> World.local w1 = World.local w -> ~ granted d w1 ->
  decided d deadline w1 res w' -> (res = NotArrived -> World.clockReads w' = S (World.clockReads w1) -> World.region w' = World.region w1) ->
  decided d deadline w res w'.
Proof.
  intros Hin Hk Hl Hg (n & Hn & Hle & Hall & Hres) Hsame. exists n. rewrite Hk in *. split_and!; [done|lia| |].
  - intros i Hi. destruct (decide (i = World.clockReads w)) as [->|]; [done|]. apply Hall. lia.
  - rewrite Hl in Hres. destruct res; [done|]. destruct Hres as (He & Hl' & Hng). split_and!; [done|done|]. intros _.
    destruct (decide (n = S (World.clockReads w))) as [->|]; [|apply Hng; lia].
    specialize (Hsame eq_refl Hn). unfold granted in *. rewrite Hsame, Hl'. by rewrite Hl in Hg.
Qed.

Lemma wait_loop_decides fuel d deadline w :
  0 <= d < 64 -> LocalPeerState.peerId_ (World.local w) = self -> LocalPeerState.maxPeers (World.local w) = pc ->
  wlp (waitForOwnership_loop fuel d deadline) E (fun res w' => decided d deadline w res w' /\
    (res = NotArrived -> World.clockReads w' = S (World.clockReads w) -> World.region w' = World.region w)) w.
Proof.
  intros Hd. revert w. induction fuel as [|fuel IH]; intros w Hid Hmax; [done|]. cbn [waitForOwnership_loop].
  do 2 wlp_step. set (w0 := World.with_clockReads (S (World.clockReads w)) w).
  destruct (timing.Deadline.expiredAt deadline (Env.clock E (World.clockReads w))) eqn:Hdl.
  { apply wlp_ret. split; [|done]. exists (World.clockReads w). split_and!; [done|lia|intros i; lia|done|done|lia]. }
  assert (forall w1, World.clockReads w1 = S (World.clockReads w) -> World.local w1 = World.local w -> ~ granted d w1 ->
    wlp (waitForOwnership_loop fuel d deadline) E (fun res w' => decided d deadline w res w' /\
      (res = NotArrived -> World.clockReads w' = S (World.clockReads w) -> World.region w' = World.region w)) w1) as Hnext.
  { intros w1 Hk Hl Hg. eapply wlp_mono; [apply IH; congruence|]. intros res w' [Hdec Hs]. split; [by eapply decided_next|].
    intros -> Hk'. destruct Hdec as (n & Hn & Hle & _). lia. }
  unfold loadDomainRecordShadow, loadDomainRecordSnapshot. do 8 wlp_step.
  change (LocalPeerState.peerId_ (World.local w0)) with (LocalPeerState.peerId_ (World.local w)).
  change (LocalPeerState.maxPeers (World.local w0)) with (LocalPeerState.maxPeers (World.local w)). rewrite Hid, Hmax.
  set (w1 := tick E w0). destruct (_ && _ && _) eqn:Hedge.
  - do 4 wlp_step. change (LocalPeerState.maxPeers (World.local w1)) with (LocalPeerState.maxPeers (World.local w)). rewrite Hmax.
    destruct (DomainRecord_t.isValidMagic (Region.truth pc (World.region (tick E w1)) d) && _) eqn:Hmine.
    + apply wp_to_wlp. unfold adoptOwnership. do 3 wp_step. split; [|done]. exists (World.clockReads w). split_and!; [done|lia|intros i; lia|done|].
      cbn. rewrite getDomain_upd_eq. done.
    + apply (Hnext (tick E w1)); [done|done|]. intros (Hm & Hh & _). rewrite Hm, Hh, Z.eqb_refl in Hmine. done.
  - apply (Hnext w1); [done|done|]. intros (_ & _ & Hm & Hh & He).
    rewrite Hm, Hh, Z.eqb_refl, (proj2 (Z.ltb_lt _ _) He) in Hedge. done.
Qed.

(** A belief the truth backs. *)
Definition confirms (d : Z) (w : World.t) : bool :=
  DomainRecord_t.isValidMagic (Region.truth pc (World.region w) d) && (holder pc (World.region w) d =? self).

(** The wait from its start: a belief is confirmed by one look at the truth, or
    dropped before the loop. *)
Lemma wait_decides d deadline w :
  0 <= d < 64 -> LocalPeerState.peerId_ (World.local w) = self -> LocalPeerState.maxPeers (World.local w) = pc ->
  wlp (waitForOwnership d deadline) E (fun res w' =>
    (believes w d = true /\ confirms d (tick E w) = true /\ res = Arrived /\ w' = tick E w) \/
    ((believes w d = true -> confirms d (tick E w) = false) /\
      exists w1, World.clockReads w1 = World.clockReads w /\ believes w1 d = false /\
        LocalDomainView.lastOwnershipEpoch (getDomain (World.local w1) d) = LocalDomainView.lastOwnershipEpoch (getDomain (World.local w) d) /\
        decided d deadline w1 res w')) w.
Proof.
  intros Hd Hid Hmax. unfold waitForOwnership, isHolder. do 6 wlp_step. rewrite Hid. fold (believes w d).
  destruct (believes w d) eqn:Hb.
  - unfold loadDomainRecordSnapshot. do 4 wlp_step. rewrite Hmax. fold (holder pc (World.region (tick E w)) d) (confirms d (tick E w)).
    destruct (confirms d (tick E w)) eqn:Hc; [by apply wlp_ret; left|]. unfold loseHolder. do 2 wlp_step.
    set (w1 := World.with_local _ _). eapply wlp_mono; [apply wait_loop_decides; done|].
    intros res w' [Hdec _]. right. split; [done|]. exists w1.
    split_and!; [done| | |done]; unfold believes; cbn; by rewrite getDomain_upd_eq.
  - eapply wlp_mono; [apply wait_loop_decides; done|]. intros res w' [Hdec _]. right. split; [done|]. by exists w.
Qed.

(** C7: what a wait answers, and when.  When the clock passes the deadline within
    the readings the loop may take, the wait returns, having stored nothing in
    the region and changed no pin, whatever the other peers do.  It answers
    [Arrived] when a belief it came with is confirmed by the truth, or when a
    look in time found an unread grant whose truth names this peer: then the
    truth names this peer at return and it believes so.  It answers [NotArrived]
    only when the truth did not confirm its belief, at the first reading past the
    deadline, with the belief dropped; and if any reading was in time, the last
    look found no unread grant, so no grant that stood by then was missed. *)
Theorem waitForOwnership_decides budget d deadline w :
  0 <= d < 64 -> ctx pc self mine w -> clock_advances E budget ->
  timing.Deadline.ends_ deadline <= Env.clock E (World.clockReads w) + budget ->
  wp (waitForOwnership d deadline) E (fun res w' =>
    safe pc self mine w w' /\ same_pins w w' /\ World.steps w' = World.steps w /\
    match res with
    | Arrived => holder pc (World.region w') d = self /\ believes w' d = true /\
        (believes w d = true /\ World.clockReads w' = World.clockReads w \/
         exists n, World.clockReads w' = S n /\ readsInTime deadline (World.clockReads w) (S n))
    | NotArrived => believes w' d = false /\ (believes w d = true -> confirms d (tick E w) = false) /\
        exists n, World.clockReads w' = S n /\ timing.Deadline.expiredAt deadline (Env.clock E n) = true /\
          readsInTime deadline (World.clockReads w) n /\ ((World.clockReads w < n)%nat -> ~ granted d w')
    end) w.
Proof.
  intros Hd Hw Hadv Hend. eapply wp_mono.
  { apply wp_wlp; [by eapply wait_spec|apply wait_decides; [done|apply Hw|apply Hw]]. }
  intros res w' [(Hs & Hp & Hst & _ & Hr) Hdec]. split_and!; [done..|].
  destruct Hdec as [(Hb & Hc & -> & ->)|(Hb & w1 & Hk & Hb1 & He & n & Hn & Hle & Hall & Hres)].
  { destruct Hr. split_and!; [done|done|by left]. }
  rewrite Hk in *. destruct res.
  - destruct Hr. split_and!; [done|done|]. right. exists n. split; [done|]. intros i Hi.
    destruct (decide (i = n)) as [->|]; [apply Hres|apply Hall; lia].
  - destruct Hres as (Hx & Hl & Hg). split_and!; [apply Hr|done|]. exists n. split_and!; done.
Qed.

(** C8: a wait meets a grant that is there.  A peer that holds no belief, whose
    truth names it and whose shadow names it at an epoch above the one it last
    adopted, adopts on the first turn of the wait, provided the first reading of
    the clock is before the deadline: the wait answers [Arrived] having read the
    clock once and the region twice, the record is as it was, the peer believes
    it holds the domain, and the epoch it remembers is the truth's, or the one
    it remembered if that is higher. *)
Theorem waitForOwnership_adopts d deadline w :
  0 <= d < 64 -> ctx pc self mine w -> believes w d = false -> granted d w ->
  timing.Deadline.expiredAt deadline (Env.clock E (World.clockReads w)) = false ->
  wp (waitForOwnership d deadline) E (fun res w' => res = Arrived /\ believes w' d = true /\
    World.clockReads w' = S (World.clockReads w) /\ World.accesses w' = (World.accesses w + 2)%nat /\
    Region.truth pc (World.region w') d = Region.truth pc (World.region w) d /\
    LocalDomainView.lastOwnershipEpoch (getDomain (World.local w') d) =
      Z.max (DomainRecord_t.epoch (Region.truth pc (World.region w) d)) (LocalDomainView.lastOwnershipEpoch (getDomain (World.local w) d))) w.
Proof.
  intros Hd Hw Hb Hg Hdl. unfold waitForOwnership, isHolder. do 6 wp_step. cbv beta.
  fold (believes w d). rewrite Hb. cbn [waitForOwnership_loop]. do 2 wp_step. cbv beta. rewrite Hdl.
  set (w0 := World.with_clockReads (S (World.clockReads w)) w).
  assert (LocalPeerState.peerId_ (World.local w0) = self) as Hid by apply Hw.
  assert (LocalPeerState.maxPeers (World.local w0) = pc) as Hmax by apply Hw.
  unfold loadDomainRecordShadow, loadDomainRecordSnapshot. do 8 wp_step. rewrite Hid, Hmax.
  assert (granted d (tick E w0)) as Hg1 by by apply (granted_tick d w).
  set (w1 := tick E w0) in *. pose proof Hg1 as (_ & _ & Hm & Hh & He).
  rewrite Hm, Hh, Z.eqb_refl, (proj2 (Z.ltb_lt _ _)) by exact He. cbn [andb].
  do 4 wp_step. change (LocalPeerState.maxPeers (World.local w1)) with (LocalPeerState.maxPeers (World.local w0)).
  rewrite Hmax. assert (granted d (tick E w1)) as Hg2 by by apply (granted_tick d w1).
  assert (forall v, granted d v -> Region.truth pc (World.region (tick E v)) d = Region.truth pc (World.region v) d) as Hkeep.
  { intros v (_ & Hv & _). apply HE; [done|]. unfold holder. rewrite Hv. apply Hself. }
  assert (Region.truth pc (World.region (tick E w1)) d = Region.truth pc (World.region w) d) as Htr.
  { rewrite (Hkeep w1 Hg1). by apply (Hkeep w0). }
  set (w2 := tick E w1) in *. destruct Hg2 as (Hm2 & Hh2 & _).
  rewrite Hm2, Hh2, Z.eqb_refl. cbn [andb]. unfold adoptOwnership. wp_run.
  rewrite <- Htr. unfold believes. cbn. rewrite getDomain_upd_eq. split_and!; done || lia.
Qed.

(** The reconcile keeps the belief true to the record.  Whatever the other
    peers do meanwhile, a record that names this peer when the reconcile starts
    leaves it believing, and a belief it leaves standing is backed by a record
    that names this peer at return. *)
Theorem reconcileHolderBelief_sound d w :
  0 <= d < 64 -> ctx pc self mine w ->
  wp (reconcileHolderBelief d) E (fun _ w' =>
    (holder pc (World.region w) d = self -> believes w' d = true) /\
    (believes w' d = true -> holder pc (World.region w') d = self) /\
    World.steps w' = World.steps w) w.
Proof.
  intros Hd Hw. unfold reconcileHolderBelief, isNamedHolder, loadDomainRecordSnapshot, becomeHolder, loseHolder.
  do 8 wp_step. cbv beta.
  rewrite (ctx_pc _ _ _ _ Hw). change (World.local (tick E w)) with (World.local w). rewrite (ctx_self _ _ _ _ Hw).
  pose proof (tick_holder E pc self mine HE Hself w d Hd) as Ht. set (w1 := tick E w) in *.
  destruct (Z.eqb_spec (DomainRecord_t.getHolder (Region.truth pc (World.region w1) d)) self) as [Hn|Hn].
  { wp_run. unfold believes. cbn. rewrite getDomain_upd_eq. done. }
  wp_run; unfold believes; cbn; rewrite !getDomain_upd_eq; zbool.
  - split_and!; [done|intros _|done]. cbn in Hc. rewrite (ctx_pc _ _ _ _ Hw), (ctx_self _ _ _ _ Hw) in Hc. exact Hc.
  - split_and!; [|done|done]. intros Hh. by apply Ht in Hh.
Qed.
End operations.

(** ** The shadow a waiter polls *)

Section shadows.
Context (E : Env.t) (pc self : Z) (mine : Z -> Z -> Prop).
Hypothesis HE : respects E (tokenR pc mine).
Hypothesis Hself : forall d, mine d self.
Hypothesis Hpc : 0 <= self < pc /\ pc <= 64.

Definition shadowG (r r' : Region.t) : Prop := shadow_ok pc r -> shadow_ok pc r'.

Lemma shadow_ok_setShadow d rec r :
  0 <= d < 64 -> 0 <= DomainRecord_t.getHolder rec < pc ->
  (holder pc r d = DomainRecord_t.getHolder rec ->
    DomainRecord_t.epoch (Region.truth pc r d) <= DomainRecord_t.epoch rec) ->
  shadowG r (Region.setShadow pc d (DomainRecord_t.getHolder rec) rec r).
Proof.
  intros Hd Hh He Hok d' Hd' Hr'. unfold holder in *. rewrite truth_setShadow in * by lia.
  destruct (decide (d' = d)) as [->|Hne].
  - destruct (decide (DomainRecord_t.getHolder (Region.truth pc r d) = DomainRecord_t.getHolder rec)) as [Heq|Hnq].
    + rewrite Heq, shadow_setShadow_eq. auto.
    + rewrite shadow_setShadow_ne by (lia || congruence). by apply Hok.
  - rewrite shadow_setShadow_ne by (lia || congruence). by apply Hok.
Qed.

Lemma shadow_ok_setTruth d rec r :
  0 <= d < 64 -> 0 <= DomainRecord_t.getHolder rec < pc ->
  Region.shadow pc r d (DomainRecord_t.getHolder rec) = rec -> shadowG r (Region.setTruth pc d rec r).
Proof.
  intros Hd Hh Hs Hok d' Hd' Hr'. unfold holder in *. destruct (decide (d' = d)) as [->|Hne].
  - rewrite truth_setTruth_eq in *. rewrite shadow_setTruth by lia. rewrite Hs. split; [done|lia].
  - rewrite truth_setTruth_ne in * by lia. rewrite shadow_setTruth by lia. by apply Hok.
Qed.

Lemma publish_shadow d rec w :
  0 <= d < 64 -> ctx pc self mine w -> mine d (holder pc (World.region w) d) ->
  0 <= DomainRecord_t.getHolder rec < pc -> guarantees shadowG w ->
  (holder pc (World.region w) d = DomainRecord_t.getHolder rec ->
    DomainRecord_t.epoch (Region.truth pc (World.region w) d) <= DomainRecord_t.epoch rec) ->
  wp (publishDomainRecord d rec) E (fun _ w' => guarantees shadowG w') w.
Proof.
  intros Hd Hw Hm Hh Hg He. unfold publishDomainRecord. wp_run. rewrite (ctx_pc _ _ _ _ Hw).
  destruct (tick_mine E pc mine HE w d Hd Hm) as [Hb1 Hm1]. set (w1 := tick E w) in *.
  set (f1 := Region.setShadow pc d (DomainRecord_t.getHolder rec) rec).
  assert (guarantees shadowG (put f1 w1)) as Hg1.
  { apply put_guarantees; [done|]. apply shadow_ok_setShadow; [done|done|].
    rewrite (block_eq_holder _ _ _ _ Hb1). destruct Hb1 as [-> _]. done. }
  set (w2 := put f1 w1) in *.
  assert (Region.truth pc (World.region w2) d = Region.truth pc (World.region w1) d) as Htr.
  { apply truth_setShadow; lia. }
  assert (mine d (holder pc (World.region w2) d)) as Hm2 by (unfold holder; by rewrite Htr).
  destruct (tick_mine E pc mine HE w2 d Hd Hm2) as [[_ Hb3] _].
  apply put_guarantees; [by apply tick_guarantees|]. apply shadow_ok_setTruth; [done|done|].
  rewrite Hb3 by lia. apply shadow_setShadow_eq.
Qed.

(** The shadow leads the truth.  Every store of a transfer keeps the
    invariant a waiter's poll relies on: whenever the truth names a peer, that
    peer's own shadow names it too, at an epoch no older than the truth's.  So
    a waiter that polls only its shadow cannot miss a grant the truth
    carries. *)
Theorem transfer_keeps_shadow d nh w :
  0 <= d < 64 -> 0 <= nh -> ctx pc self mine w ->
  nh <> self \/ mine d (holder pc (World.region w) d) ->
  guarantees shadowG w ->
  0 <= DomainRecord_t.epoch (Region.truth pc (World.region (tick E w)) d) < 2 ^ 64 - 1 ->
  wp (transferOwnership d nh) E (fun _ w' => guarantees shadowG w') w.
Proof.
  intros Hd Hnh Hw Hcl Hg He. unfold transferOwnership. do 4 wp_step. cbv beta.
  pose proof (ctx_pc _ _ _ _ Hw) as Hmax. pose proof (ctx_self _ _ _ _ Hw) as Hid.
  unfold isValidPeer. rewrite Hmax, Hid.
  destruct (Z.ltb_spec nh pc) as [Hlt|Hge]; cbn [negb]; [|by apply wp_ret].
  unfold loadDomainRecordSnapshot. do 4 wp_step. rewrite Hmax.
  pose proof (safe_ctx _ _ _ _ _ (safe_tick E pc self mine HE Hself w Hw)) as Hc1. set (w1 := tick E w) in *.
  set (rec := Region.truth pc (World.region w1) d) in *.
  case_if; [by wp_run|].
  destruct (negb (nh =? self) && negb (DomainRecord_t.holder rec =? self)) eqn:Hgd; [by apply wp_ret|].
  rewrite <- negb_orb, negb_false_iff in Hgd.
  assert (mine d (holder pc (World.region w1) d)) as Hm1.
  { apply orb_true_iff in Hgd as [?|?]; zbool.
    - destruct Hcl as [?|Hm]; [done|]. by apply (tick_mine E pc mine HE).
    - unfold holder. fold rec. unfold DomainRecord_t.getHolder. by replace (DomainRecord_t.holder rec) with self. }
  unfold loseHolder, adoptOwnership. wp_step. apply wp_when.
  - intros Hs. apply wp_modify. wp_step. eapply wp_mono; [apply publish_shadow; try done|].
    + destruct Hc1. by split.
    + intros _. change (DomainRecord_t.epoch rec <= u64 (DomainRecord_t.epoch rec + 1)). rewrite u64_small by (unfold in_u64; lia). lia.
    + intros ? w' Hg'. apply wp_when; [intros; by apply wp_modify|done].
  - intros Hs. wp_step. eapply wp_mono; [apply publish_shadow; try done|].
    + intros _. change (DomainRecord_t.epoch rec <= u64 (DomainRecord_t.epoch rec + 1)). rewrite u64_small by (unfold in_u64; lia). lia.
    + intros ? w' Hg'. apply wp_when; [intros; by apply wp_modify|done].
Qed.
End shadows.

(** ** The theorems at work on the sample region *)

Lemma transferOwnership_correct_witness :
  exists w', transferOwnership 0 1 sample.env (sample.world 0) = Some (tt, w') /\
    holder 2 (World.region w') 0 = 1 /\ believes w' 0 = false.
Proof.
  pose proof (transferOwnership_correct sample.env 2 0 (sample.own 0) (sample.respects_env _ (fun r => reflexivity r))
    (fun d => eq_refl) ltac:(lia) 0 1 (sample.world 0) ltac:(lia) ltac:(lia) (sample.ctx_world 0 _) eq_refl
    ltac:(left; lia)) as H.
  apply wp_elim in H as ([] & w' & Hrun & _ & _ & H).
  assert (mayTransfer 2 0 1 (Region.truth 2 (World.region (tick sample.env (sample.world 0))) 0) = true) as Hm
    by (vm_compute; reflexivity).
  cbv zeta in H. rewrite Hm in H. destruct H as (Ht & _ & Hb).
  exists w'. split; [exact Hrun|]. split; [|exact Hb]. unfold holder. rewrite Ht. reflexivity.
Defined.

Lemma transferOwnershipGuarded_correct_witness :
  exists w', transferOwnershipGuarded 0 1 sample.env (sample.world 0) = Some (true, w') /\
    LocalDomainView.pinCount (getDomain (World.local w') 0) = 0.
Proof.
  pose proof (transferOwnershipGuarded_correct sample.env 2 0 (sample.own 0)
    (sample.respects_env _ (fun r => reflexivity r)) (fun d => eq_refl) ltac:(lia) 0 1 (sample.world 0)
    ltac:(lia) ltac:(lia) (sample.ctx_world 0 _) ltac:(lia)) as H.
  apply wp_elim in H as (ok & w' & Hrun & _ & Hok & H). subst ok.
  exists w'. split; [exact Hrun|]. destruct H as [Hp _]. exact Hp.
Defined.

Lemma waitForOwnership_decides_witness :
  exists w', waitForOwnership 0 (timing.Deadline.mk 500) sample.env (sample.world 0) = Some (Arrived, w') /\
    holder 2 (World.region w') 0 = 0.
Proof.
  pose proof (waitForOwnership_decides sample.env 2 0 (sample.own 0)
    (sample.respects_env _ (fun r => reflexivity r)) (fun d => eq_refl) (timing.Secs 1) 0
    (timing.Deadline.mk 500) (sample.world 0) ltac:(lia) (sample.ctx_world 0 _) sample.advances_env
    ltac:(vm_compute; congruence)) as H.
  apply wp_elim in H as (res & w' & Hrun & _ & _ & _ & H).
  assert (answer (waitForOwnership 0 (timing.Deadline.mk 500)) sample.env (sample.world 0) = Some Arrived) as Ha
    by (vm_compute; reflexivity).
  pose proof (answer_run _ _ _ _ _ _ Hrun Ha) as ->. exists w'. split; [exact Hrun|]. by destruct H.
Defined.

(** Peer 1 after peer 0 handed it the control domain. *)
Definition sample_granted : World.t :=
  World.with_region
    (Region.setTruth 2 0 (handed 1 (Region.truth 2 sample.region 0))
      (Region.setShadow 2 0 1 (handed 1 (Region.truth 2 sample.region 0)) sample.region)) (sample.world 1).

Lemma waitForOwnership_adopts_witness :
  exists w', waitForOwnership 0 (timing.Deadline.mk 500) sample.env sample_granted = Some (Arrived, w') /\
    believes w' 0 = true.
Proof.
  pose proof (waitForOwnership_adopts sample.env 2 1 (sample.own 1)
    (sample.respects_env _ (fun r => reflexivity r)) (fun d => eq_refl) ltac:(lia) 0
    (timing.Deadline.mk 500) sample_granted ltac:(lia)
    ltac:(split; [reflexivity|reflexivity|unfold in_u32; cbn; lia|constructor])
    ltac:(reflexivity) ltac:(vm_compute; split_and!; reflexivity) ltac:(reflexivity)) as H.
  apply wp_elim in H as (res & w' & Hrun & -> & Hb & _). exists w'. split; [exact Hrun|exact Hb].
Defined.

Lemma reconcileHolderBelief_sound_witness :
  exists w', reconcileHolderBelief 0 sample.env sample_granted = Some (tt, w') /\ believes w' 0 = true.
Proof.
  pose proof (reconcileHolderBelief_sound sample.env 2 1 (sample.own 1)
    (sample.respects_env _ (fun r => reflexivity r)) (fun d => eq_refl) 0 sample_granted ltac:(lia)
    ltac:(split; [reflexivity|reflexivity|unfold in_u32; cbn; lia|constructor])) as H.
  apply wp_elim in H as ([] & w' & Hrun & Hb & _). exists w'. split; [exact Hrun|]. apply Hb. reflexivity.
Defined.

Lemma transfer_keeps_shadow_witness :
  exists w', transferOwnership 0 1 sample.env (sample.world 0) = Some (tt, w') /\ guarantees (shadowG 2) w'.
Proof.
  pose proof (transfer_keeps_shadow sample.env 2 0 (sample.own 0) (sample.respects_env _ (fun r => reflexivity r))
    (fun d => eq_refl) ltac:(lia) 0 1 (sample.world 0) ltac:(lia) ltac:(lia) (sample.ctx_world 0 _)
    ltac:(left; lia) ltac:(constructor) ltac:(vm_compute; split; congruence)) as H.
  apply wp_elim in H as ([] & w' & Hrun & H). exists w'. split; [exact Hrun|exact H].
Defined.
