(* ===== verification/StakeClaim.v ===== *)
(** * StakeClaim: the stake-settle-confirm procedure on one shared word

    Models [src/core/algo/stake_claim.hpp]: [FieldWord], the claim field of one
    line, and [Claim], a candidate's attempt at it.  The word a claim runs on is
    a record of its operations, as the template's word type is. *)

From S2P Require Import Prelude Types Layout Region Effect World.

Module stake.

(** ** The claim field of one line *)

Class ClaimLine (L : Type) := {
  isValidMagic : L -> bool;
  field : L -> Z;
  setField : Z -> L -> L;
}.

Section FieldWord.
Context {L : Type} {HL : ClaimLine L}.

Record FieldWord := mkField {
  slot : Region.t -> L;
  store : L -> Region.t -> Region.t;
  empty_ : Z;
}.

Definition valueOf (fw : FieldWord) (copy : L) : Z := if isValidMagic copy then field copy else empty_ fw.

Definition FieldWord_read (fw : FieldWord) : M Z :=
  let! copy := read (slot fw) in ret (valueOf fw copy).

Definition isMine (fw : FieldWord) (mine : Z) : M bool :=
  let! value := FieldWord_read fw in ret (value =? mine).

Definition publishIfFree (fw : FieldWord) (mine : Z) (isFree : Z -> M bool) : M bool :=
  rmwIfTrueM (slot fw) (store fw) (fun copy =>
    if negb (isValidMagic copy) then ret None
    else
      let! free := isFree (field copy) in
      ret (if free then Some (setField mine copy) else None)).

Definition retract (fw : FieldWord) (mine : Z) : M unit :=
  let! _ := rmwIfTrue (slot fw) (store fw) (fun copy =>
    if negb (isValidMagic copy) || negb (field copy =? mine) then None
    else Some (setField (empty_ fw) copy)) in
  ret tt.

End FieldWord.
Arguments FieldWord L : clear implicits.

(** ** A candidate's attempt *)

Inductive Outcome := Pending | Won.
#[global] Instance Outcome_eq_dec : EqDecision Outcome.
Proof. solve_decision. Defined.

(** What the template asks of its word type. *)
Record Word := mkWord {
  word_read : M Z;
  word_isFree : Z -> M bool;
  word_makeOwn : M Z;
  word_publish : Z -> M bool;
  word_retract : Z -> M unit;
  LateHold : Z;
  StallTimeout : option Z;
}.

Section Claim.
Context (word : Word).
Import Claim.

(** Whether [seen] has stood its whole timeout, and the claim that leaves. *)
Definition hasStoodTimeout (seen : Z) (c : Claim.t) : M (bool * Claim.t) :=
  match StallTimeout word with
  | None => ret (false, c)
  | Some stall =>
      if negb (bool_decide (phase_ c = Watching)) || negb (seen =? watched_ c) then
        let! began := now in
        ret (false, with_stalled_ None (with_watchedSince_ began (with_watched_ seen (with_phase_ Watching c))))
      else
        let! instant := now in
        if timing.elapsed (watchedSince_ c) instant <? stall then ret (false, c)
        else ret (true, with_phase_ Idle (with_stalled_ (Some seen) c))
  end.

(** The stake itself, once the value read is one to stake over. *)
Definition stakeOver (stakeWindow : timing.Deadline.t) (c : Claim.t) : M (Outcome * Claim.t) :=
  let c := with_stalled_ None c in
  let! mine := word_makeOwn word in
  let! published := word_publish word mine in
  if negb published then ret (Pending, with_phase_ Idle c)
  else
    let c := with_mine_ mine c in
    let! flushed := now in
    let late := timing.Deadline.expiredAt stakeWindow flushed in
    let! opened := now in
    ret (Pending,
      with_window_ (timing.Deadline.make opened (if late then LateHold word else config.stake.Settle))
        (with_phase_ (if late then Holding else Settling) c)).

(** A value that has just stood its timeout is read once more; the second
    attempt starts no watch that has already stood, so two turns are enough. *)
Fixpoint tryStake_turns (turns : nat) (c : Claim.t) : M (Outcome * Claim.t) :=
  match turns with
  | O => outOfFuel
  | S turns =>
      let! began := now in
      let stakeWindow := timing.Deadline.make began config.stake.Window in
      let! seen := word_read word in
      let reclaimable := match stalled_ c with Some stalled => stalled =? seen | None => false end in
      let! free := word_isFree word seen in
      if negb free && negb reclaimable then
        let! stood := hasStoodTimeout seen c in
        if stood.1 then tryStake_turns turns stood.2 else ret (Pending, stood.2)
      else stakeOver stakeWindow c
  end.
Definition tryStake (c : Claim.t) : M (Outcome * Claim.t) := tryStake_turns 2 c.

Definition endSettle (c : Claim.t) : M (Outcome * Claim.t) :=
  let! instant := now in
  if negb (timing.Deadline.expiredAt (window_ c) instant) then ret (Pending, c)
  else
    let! value := word_read word in
    if value =? mine_ c then ret (Won, c) else tryStake (with_phase_ Idle c).

Definition endHold (c : Claim.t) : M (Outcome * Claim.t) :=
  let! instant := now in
  if negb (timing.Deadline.expiredAt (window_ c) instant) then ret (Pending, c)
  else word_retract word (mine_ c) ;;; tryStake (with_phase_ Idle c).

Definition tick (c : Claim.t) : M (Outcome * Claim.t) :=
  match phase_ c with
  | Idle | Watching => tryStake c
  | Settling => endSettle c
  | Holding => endHold c
  end.

Definition reset (c : Claim.t) : M Claim.t :=
  when (isStaked c) (word_retract word (mine_ c)) ;;;
  ret (with_stalled_ None (with_phase_ Idle c)).

(** How long a caller that may block sleeps; reads the clock only when staked. *)
Definition getNextWait (poll : Z) (c : Claim.t) : M Z :=
  if negb (isStaked c) then ret poll
  else
    let! instant := now in
    ret (match timing.Deadline.remaining 1 (window_ c) instant with
         | Some left_ => Z.min left_ poll
         | None => 0
         end).

End Claim.

End stake.
