(* ===== verification/Recovery.v ===== *)
(** * Recovery: failure detection, the recovery claim and the takeover

    Models [src/core/policy/liveness_heartbeat.cpp], [recovery_authority.cpp]
    and [src/core/algo/recovery.cpp]. *)

From S2P Require Import Prelude Bitmap Types Layout Region Effect World Runtime Ownership StakeClaim Policies.
Import LocalPeerState peer_state ownership_transfer.

(** ** Failure detection *)

Module liveness.

Definition isPastDeadWindow (lastSeenNanos nowNanos : Z) : bool :=
  match timing.WallStamp.ageAt lastSeenNanos nowNanos with
  | Some age => config.liveness.DeadWindowEffective <? age
  | None => false
  end.

Definition isAlive (member : Member_t.t) : bool :=
  Member_t.hasStatus member Member_t.Active || Member_t.hasStatus member Member_t.Leaving.

Definition isAlivePeer (peerId : Z) : M bool :=
  let! valid := get (fun s => isValidPeer s peerId) in
  if negb valid then ret false
  else let! member := loadMemberSnapshot peerId in ret (isAlive member).

Definition hasFailed (peerId : Z) : M bool :=
  let! valid := get (fun s => isValidPeer s peerId) in
  if negb valid then ret false
  else
    let! view := getMemberView peerId config.membership.CacheTTL in
    let! wall := wallNow in
    ret (isPastDeadWindow (lastSeen view) wall).

(** On a slot already read. *)
Definition hasFailedMember (member : Member_t.t) : M bool :=
  let! wall := wallNow in ret (isPastDeadWindow (Member_t.lastSeenNanos member) wall).

End liveness.

(** ** The recovery authority *)

#[export] Instance claimLine : stake.ClaimLine RecoveryClaim_t.t := {
  isValidMagic := RecoveryClaim_t.isValidMagic;
  field := RecoveryClaim_t.recoveryAuthority;
  setField := fun v copy => RecoveryClaim_t.mk (RecoveryClaim_t.magic copy) v;
}.

Module recoveryAuthority.

Definition getClaimField (deadPeerId : Z) : stake.FieldWord RecoveryClaim_t.t :=
  stake.mkField (fun r => Region.claim r deadPeerId) (Region.setClaim deadPeerId) NoPeer.

Definition isClaimantGone (recordedRA : Z) : M bool :=
  let! valid := get (fun s => isValidPeer s recordedRA) in
  if negb valid then ret true else liveness.hasFailed recordedRA.

Definition isRecoveryStranded (deadPeerId : Z) : M bool :=
  let! recordedRA := stake.FieldWord_read (getClaimField deadPeerId) in isClaimantGone recordedRA.

Definition RecoveryClaimWord (deadPeerId : Z) : stake.Word :=
  let isFree recordedRA :=
    let! self := get peerId_ in
    if recordedRA =? self then ret true else isClaimantGone recordedRA in
  stake.mkWord
    (stake.FieldWord_read (getClaimField deadPeerId))
    isFree
    (get peerId_)
    (fun self => stake.publishIfFree (getClaimField deadPeerId) self isFree)
    (stake.retract (getClaimField deadPeerId))
    config.recovery.LateStakeHold
    None.

(** The ring walk: the nearest alive peer, or the nearest stranded recovery
    before it. *)
Definition watchCandidate (candidate : Z) : M bool :=
  let! member := loadMemberSnapshot candidate in
  cacheMemberSnapshot candidate member ;;;
  if liveness.isAlive member then ret true
  else if Member_t.isRecovering member then isRecoveryStranded candidate
  else ret false.

Definition getRecoveryTarget : M Z :=
  let! target := get claimTarget_ in
  if negb (target =? NoPeer) then ret target
  else
    let! ring := get getPeerRing in
    let! found := findM ring watchCandidate in
    ret (default NoPeer found).

Definition claim (deadPeerId : Z) : M bool :=
  let! c := get stake_ in
  let! outcome := stake.tick (RecoveryClaimWord deadPeerId) c in
  modify (fun s => with_claimTarget_ (if Claim.isStaked outcome.2 then deadPeerId else NoPeer)
                     (with_stake_ outcome.2 s)) ;;;
  ret (bool_decide (outcome.1 = stake.Won)).

Definition isClaimHeld (deadPeerId : Z) : M bool :=
  let! self := get peerId_ in stake.isMine (getClaimField deadPeerId) self.

Definition resetClaim : M unit :=
  let! target := get claimTarget_ in
  when (negb (target =? NoPeer)) (
    let! c := get stake_ in
    let! c := stake.reset (RecoveryClaimWord target) c in
    modify (with_stake_ c)) ;;;
  modify (with_claimTarget_ NoPeer).

Definition resetClaimOn (target : Z) : M unit :=
  let! latched := get claimTarget_ in
  when (latched =? target) resetClaim.

Definition retractClaimsBy (recoveredPeerId : Z) : M unit :=
  let! pc := get maxPeers in
  forM (IdRange 0 pc) (fun deadPeerId => stake.retract (getClaimField deadPeerId) recoveredPeerId).

End recoveryAuthority.

(** ** The recovery state machine *)

Module recovery.
Import recoveryAuthority.

(** The member a seize writes: participation gone, [Recovering] stamped. *)
Definition seized (member : Member_t.t) : Member_t.t :=
  Member_t.setStatus Member_t.Recovering (Member_t.storeParticipatingDomains DomainBitmap_empty member).

Definition seizeDeadPeerSlot (deadPeerId : Z) : M bool :=
  rmwIfTrueM (fun r => Region.member r deadPeerId) (Region.setMember deadPeerId) (fun member =>
    if negb (Member_t.isValidMagic member) || Member_t.hasStatus member Member_t.None_ then ret None
    else
      let! failed := liveness.hasFailedMember member in
      ret (if negb failed then None else Some (seized member))).

Definition finishRecoveryCleanup (deadPeerId : Z) : M unit :=
  let! kind := get successorPolicyKind in
  @scrubRecoveredPeer (policyOf kind) deadPeerId ;;;
  modify requestOrphanSweep ;;;
  let! _ := rmwIfTrue (fun r => Region.member r deadPeerId) (Region.setMember deadPeerId) (fun member =>
    if negb (Member_t.isValidMagic member) then None else Some (Member_t.setStatus Member_t.None_ member)) in
  ret tt.

Inductive TakeoverPass := Quiet | Touched | Deposed.
#[global] Instance TakeoverPass_eq_dec : EqDecision TakeoverPass.
Proof. solve_decision. Defined.

Fixpoint takeoverLoop (range : list Z) (deadPeerId : Z) (pass : TakeoverPass) : M TakeoverPass :=
  match range with
  | [] => ret pass
  | domainId :: rest =>
      let! record := loadDomainRecordSnapshot domainId in
      if DomainRecord_t.getHolder record =? deadPeerId then
        let! held := isClaimHeld deadPeerId in
        if negb held then ret Deposed
        else
          takeoverOwnership domainId
            (DomainRecord_t.with_epoch (u64 (DomainRecord_t.epoch record + config.recovery.SeizeEpochGap)) record) ;;;
          takeoverLoop rest deadPeerId Touched
      else takeoverLoop rest deadPeerId pass
  end.

Definition takeoverDomainsHeldByDeadPeer (deadPeerId : Z) : M TakeoverPass :=
  let! range := get getDomainIdRange in takeoverLoop range deadPeerId Quiet.

(** The pass, and the finish once the span has run out quiet. *)
Definition serviceSpan (targetPeerId : Z) : M unit :=
  let! pass := takeoverDomainsHeldByDeadPeer targetPeerId in
  match pass with
  | Touched => modify (setRecoveryCycles targetPeerId)
  | Deposed => ret tt
  | Quiet =>
      let! ongoing := query isRecoveryOngoing in
      let! held := (if ongoing then ret false else isClaimHeld targetPeerId) in
      when held (
        retractClaimsBy targetPeerId ;;;
        finishRecoveryCleanup targetPeerId ;;;
        resetClaim)
  end.

Definition serviceRecovery : M unit :=
  let! targetPeerId := getRecoveryTarget in
  let! valid := get (fun s => isValidPeer s targetPeerId) in
  let! self := get peerId_ in
  if negb valid || (targetPeerId =? self) then modify resetRecoveryCycles
  else
    let! failed := liveness.hasFailed targetPeerId in
    if negb failed then resetClaimOn targetPeerId ;;; modify resetRecoveryCycles
    else
      let! won := claim targetPeerId in
      if negb won then ret tt
      else
        let! armed := get (fun s => isRecoveryArmed s targetPeerId) in
        if armed then serviceSpan targetPeerId
        else
          let! took := seizeDeadPeerSlot targetPeerId in
          if negb took then resetClaimOn targetPeerId ;;; modify resetRecoveryCycles
          else modify (setRecoveryCycles targetPeerId) ;;; serviceSpan targetPeerId.

End recovery.
