(* ===== verification/Lifecycle.v ===== *)
(** * Lifecycle: membership and the domain registry

    Models [src/core/algo/lifecycle.cpp].  The [..Locked] operations run inside
    the control section; an out-parameter is part of the answer. *)

From S2P Require Import Prelude Bitmap Types Layout Region Effect World Runtime Ownership Recovery.

Module lifecycle.
Import LocalPeerState peer_state ownership_transfer.

Inductive JoinResult := JoinOk | JoinUnknownDomain | JoinCorruptRegion.
Inductive LeaveResult := LeaveOk | LeaveNotParticipating | LeaveSoleParticipant.
Inductive CreateResult :=
| CreateOk (domainId incarnation : Z) | CreateDuplicateName | CreateNoFreeSlot | CreateCorruptRegion.
Inductive DeleteResult := DeleteOk | DeleteNotSoleParticipant | DeleteNotHolder | DeleteCorruptRegion.

Definition syncDomainView (domainId : Z) : M bool :=
  let! selfPeerId := get peerId_ in
  let! domainRecord := loadDomainRecordSnapshot domainId in
  if negb (DomainRecord_t.isValidMagic domainRecord) then ret false
  else
    modify (upd_domain domainId (LocalDomainView.with_lastOwnershipEpoch (DomainRecord_t.epoch domainRecord))) ;;;
    (if DomainRecord_t.getHolder domainRecord =? selfPeerId then becomeHolder domainId else loseHolder domainId) ;;;
    ret true.

(** The member scans of the leave and delete checks. *)
Definition activeParticipant (member : Member_t.t) (domainId : Z) : bool :=
  Member_t.hasStatus member Member_t.Active && Bits.has (Member_t.loadParticipatingDomains member) domainId.

Definition getSuccessorOnLeave (domainId : Z) : M Z :=
  let! ring := loadPeerRing in
  let! found := findM ring (fun peerId =>
    let! memberSlot := loadMemberSnapshot peerId in ret (activeParticipant memberSlot domainId)) in
  ret (default NoPeer found).

Definition getFallbackHolderOnLeave : M Z :=
  let! ring := loadPeerRing in
  let! found := findM ring (fun peerId =>
    let! memberSlot := loadMemberSnapshot peerId in ret (Member_t.hasStatus memberSlot Member_t.Active)) in
  ret (default NoPeer found).

Definition isEmptySlot (record : DomainRecord_t.t) : bool :=
  DomainRecord_t.isValidMagic record && negb (DomainRecord_t.hasState record DomainRecord_t.Active).

Definition findEmptyDataDomain : M Z :=
  let! range := get getDataDomainIdRange in
  let! found := findM range (fun domainId =>
    let! record := loadDomainRecordSnapshot domainId in ret (isEmptySlot record)) in
  ret (default NoDomain found).

Definition hasOtherParticipant (domainId : Z) : M bool :=
  let! selfPeerId := get peerId_ in
  let! range := loadPeerIdRange in
  let! found := findM range (fun peerId =>
    if peerId =? selfPeerId then ret false
    else let! memberSlot := loadMemberSnapshot peerId in ret (activeParticipant memberSlot domainId)) in
  ret (match found with Some _ => true | None => false end).

Definition isLive (record : DomainRecord_t.t) : bool :=
  DomainRecord_t.isValidMagic record && DomainRecord_t.hasState record DomainRecord_t.Active.

(** The id and incarnation of the first live domain of that name; [NoDomain]
    and zero when there is none. *)
Fixpoint findByName (range : list Z) (name : list Z) : M (Z * Z) :=
  match range with
  | [] => ret (NoDomain, 0)
  | domainId :: rest =>
      let! record := loadDomainRecordSnapshot domainId in
      if isLive record && bool_decide (DomainRecord_t.getName record = name)
      then ret (domainId, DomainRecord_t.generation record)
      else findByName rest name
  end.

Definition findDataDomainByName (name : list Z) : M (Z * Z) :=
  let! range := get getDataDomainIdRange in findByName range name.

Definition readDomainIncarnation (domainId : Z) : M Z :=
  let! record := loadDomainRecordSnapshot domainId in
  ret (if negb (isLive record) then 0 else DomainRecord_t.generation record).

(** [for (domainId : getDomainIdRange()) if (!syncDomainView(...)) return]. *)
Fixpoint syncAll (range : list Z) : M bool :=
  match range with
  | [] => ret true
  | domainId :: rest =>
      let! ok := syncDomainView domainId in
      if ok then syncAll rest else ret false
  end.

Definition joinMembership : M JoinResult :=
  let! selfPeerId := get peerId_ in
  let! selfState := loadMemberSnapshot selfPeerId in
  if negb (Member_t.isValidMagic selfState) then modify (with_active_ false) ;;; ret JoinCorruptRegion
  else
    let! wall := wallNow in
    let selfState := Member_t.with_lastSeenNanos wall selfState in
    let selfState := Member_t.storeParticipatingDomains (Bits.set DomainBitmap_empty ControlDomainId) selfState in
    publishSelfMember (fun _ => selfState) ;;;
    let! range := get getDomainIdRange in
    let! synced := syncAll range in
    if negb synced then modify (with_active_ false) ;;; ret JoinCorruptRegion
    else
      publishSelfMember (Member_t.setStatus Member_t.Active) ;;;
      ret JoinOk.

(** One domain of the leave sweep. *)
Definition handOffOnLeave (fallbackHolder domainId : Z) : M unit :=
  let! selfPeerId := get peerId_ in
  let! domainRecord := loadDomainRecordSnapshot domainId in
  when (DomainRecord_t.getHolder domainRecord =? selfPeerId) (
    let! successor := getSuccessorOnLeave domainId in
    let successor := if isNoPeer successor then fallbackHolder else successor in
    transferOwnership domainId (if isNoPeer successor then 0 else successor)) ;;;
  modify (upd_domain domainId LocalDomainView.resetOwnershipPins).

Definition leaveMembership : M unit :=
  let! fallbackHolder := getFallbackHolderOnLeave in
  let! range := get getDomainIdRange in
  forM range (handOffOnLeave fallbackHolder) ;;;
  let! selfPeerId := get peerId_ in
  recoveryAuthority.retractClaimsBy selfPeerId ;;;
  publishSelfMember (fun member =>
    Member_t.setStatus Member_t.None_ (Member_t.storeParticipatingDomains DomainBitmap_empty member)).

Definition joinDomain (domainId : Z) : M JoinResult :=
  let! participating := get (fun s => isParticipating s domainId) in
  if participating then ret JoinOk
  else
    let! domainRecord := loadDomainRecordSnapshot domainId in
    if negb (DomainRecord_t.hasState domainRecord DomainRecord_t.Active) then ret JoinUnknownDomain
    else
      let! synced := syncDomainView domainId in
      if negb synced then ret JoinCorruptRegion
      else setParticipation domainId ;;; ret JoinOk.

Definition leaveDomain (domainId : Z) : M LeaveResult :=
  let! participating := get (fun s => isParticipating s domainId) in
  if negb participating then ret LeaveNotParticipating
  else
    let! successor := getSuccessorOnLeave domainId in
    if isNoPeer successor then ret LeaveSoleParticipant
    else
      let! selfPeerId := get peerId_ in
      let! domainRecord := loadDomainRecordSnapshot domainId in
      when (DomainRecord_t.getHolder domainRecord =? selfPeerId) (transferOwnership domainId successor) ;;;
      modify (upd_domain domainId LocalDomainView.resetOwnershipPins) ;;;
      clearParticipation domainId ;;;
      ret LeaveOk.

(** [memset] of the field, then [memcpy] of the name's bytes. *)
Definition nameField (name : list Z) : list Z :=
  name ++ replicate (Z.to_nat DomainRecord_t.MaxNameLen - length name) 0.

(** The incarnation a create writes over the slot's record. *)
Definition incarnate (name : list Z) (self : Z) (record : DomainRecord_t.t) : DomainRecord_t.t :=
  DomainRecord_t.setState DomainRecord_t.Active
    (DomainRecord_t.with_holder self
      (DomainRecord_t.with_name (nameField name)
        (DomainRecord_t.with_generation (u64 (DomainRecord_t.generation record + 1)) record))).

Definition validName (name : list Z) : bool :=
  negb (Nat.eqb (length name) 0) && negb (DomainRecord_t.MaxNameLen <=? Z.of_nat (length name)).

Definition createDomainLocked (name : list Z) : M CreateResult :=
  if negb (validName name) then ret CreateCorruptRegion
  else
    let! taken := findDataDomainByName name in
    if negb (isNoDomain taken.1) then ret CreateDuplicateName
    else
      let! domainId := findEmptyDataDomain in
      if isNoDomain domainId then ret CreateNoFreeSlot
      else
        let! record := loadDomainRecordSnapshot domainId in
        if negb (DomainRecord_t.isValidMagic record) then ret CreateCorruptRegion
        else
          let! selfPeerId := get peerId_ in
          let record := incarnate name selfPeerId record in
          publishDomainRecord domainId record ;;;
          setActiveDomain domainId ;;;
          let! _ := syncDomainView domainId in
          setParticipation domainId ;;;
          ret (CreateOk domainId (DomainRecord_t.generation record)).

(** What a delete leaves in the slot. *)
Definition freed (record : DomainRecord_t.t) : DomainRecord_t.t :=
  DomainRecord_t.with_name (replicate (Z.to_nat DomainRecord_t.MaxNameLen) 0)
    (DomainRecord_t.setState DomainRecord_t.Free (DomainRecord_t.with_holder NoPeer record)).

Definition deleteDomainLocked (domainId : Z) : M DeleteResult :=
  let! selfPeerId := get peerId_ in
  let! snapshot := loadDomainRecordSnapshot domainId in
  if negb (DomainRecord_t.isValidMagic snapshot) then ret DeleteCorruptRegion
  else if negb (DomainRecord_t.hasState snapshot DomainRecord_t.Active) then ret DeleteOk
  else if negb (DomainRecord_t.isHeldBy snapshot selfPeerId) && negb (DomainRecord_t.getHolder snapshot =? NoPeer)
  then ret DeleteNotHolder
  else
    let! others := hasOtherParticipant domainId in
    if others then ret DeleteNotSoleParticipant
    else
      clearParticipation domainId ;;;
      let! pc := get maxPeers in
      write (Region.setTruth pc domainId (freed snapshot)) ;;;
      clearActiveDomain domainId ;;;
      modify (upd_domain domainId (fun domain =>
        LocalDomainView.loseHolder (LocalDomainView.resetOwnershipPins domain))) ;;;
      ret DeleteOk.

Definition reclaimOrphansLocked : M Z :=
  let! range := get getDataDomainIdRange in
  foldM range 0 (fun freedCount domainId =>
    let! participating := get (fun s => isParticipating s domainId) in
    if participating then ret freedCount
    else
      let! record := loadDomainRecordSnapshot domainId in
      if isLive record then
        let! result := deleteDomainLocked domainId in
        ret (match result with DeleteOk => u32 (freedCount + 1) | _ => freedCount end)
      else ret freedCount).

End lifecycle.
