(* ===== verification/Quiet.v ===== *)
(** * Quiet: handlers while no other peer writes

    Inside the control section, and for the sequential reading of an operation,
    no other peer's store lands between two accesses.  An observation is then a
    function of the state; the scans of the lifecycle and recovery code are
    characterised that way. *)

From S2P Require Import Prelude Bitmap Types Layout Region Effect World Runtime Ownership StakeClaim Policies Recovery Lifecycle.
Import LocalPeerState peer_state.

(** Nothing a later step can see has changed; clocks may have been read. *)
Record same (w w' : World.t) : Prop := {
  same_region : World.region w' = World.region w;
  same_local : World.local w' = World.local w;
  same_steps : World.steps w' = World.steps w;
}.

#[export] Instance same_preorder : PreOrder same.
Proof. split; [by intros w|]. intros w w' w'' [? ? ?] [? ? ?]. split; congruence. Qed.

(** What a slot of the bound line says, as [loadPeerScanBound] reads it. *)
Definition scanBound (r : Region.t) (s : t) : Z :=
  let bound := u32 (PeerBound_t.peerScanBound (Region.peerBound r)) in
  if negb (bound =? 0) then bound else maxPeers s.

Section quiet.
Context (E : Env.t) (Hq : quiet E).

(** [m] answers [f] of the state and changes nothing. *)
Definition Obs {A} (m : M A) (f : Region.t -> t -> A) : Prop :=
  forall w, wp m E (fun a w' => a = f (World.region w) (World.local w) /\ same w w') w.

Lemma Obs_wp {A} (m : M A) f (Q : A -> World.t -> Prop) w :
  Obs m f -> (forall w', same w w' -> Q (f (World.region w) (World.local w)) w') -> wp m E Q w.
Proof. intros Hm HQ. eapply wp_mono; [apply Hm|]. intros a w' [-> Hs]. auto. Qed.

Lemma Obs_ret {A} (a : A) : Obs (ret a) (fun _ _ => a).
Proof. intros w. by apply wp_ret. Qed.

Lemma tick_same w : same w (tick E w).
Proof. split; [by apply tick_quiet|done|done]. Qed.

Lemma Obs_read {A} (f : Region.t -> A) : Obs (read f) (fun r _ => f r).
Proof. intros w. apply wp_read. rewrite tick_quiet by done. split; [done|apply tick_same]. Qed.

Lemma Obs_get {A} (f : t -> A) : Obs (get f) (fun _ s => f s).
Proof. intros w. by apply wp_get. Qed.

Lemma Obs_bind {A B} (m : M A) (k : A -> M B) f g :
  Obs m f -> (forall a, Obs (k a) (g a)) -> Obs (bind m k) (fun r s => g (f r s) r s).
Proof.
  intros Hm Hk w. apply wp_bind. apply (Obs_wp m f); [done|]. intros w1 Hs1.
  apply (Obs_wp _ _ _ _ (Hk _)). intros w2 Hs2.
  split; [by rewrite (same_region _ _ Hs1), (same_local _ _ Hs1)|by transitivity w1].
Qed.

Lemma Obs_if {A} (b : bool) (m m' : M A) f f' :
  Obs m f -> Obs m' f' -> Obs (if b then m else m') (fun r s => if b then f r s else f' r s).
Proof. by destruct b. Qed.

Lemma Obs_findM {A} (l : list A) (test : A -> M bool) (t' : A -> Region.t -> t -> bool) :
  (forall x, Obs (test x) (t' x)) -> Obs (findM l test) (fun r s => find_first (fun x => t' x r s) l).
Proof.
  intros Ht. induction l as [|x rest IH]; [apply Obs_ret|]. cbn [findM]. intros w. apply wp_bind.
  apply (Obs_wp _ _ _ _ (Ht x)). intros w1 Hs1. cbn [find_first List.find].
  destruct (t' x (World.region w) (World.local w)); [by apply wp_ret|].
  apply (Obs_wp _ _ _ _ IH). intros w2 Hs2. rewrite (same_region _ _ Hs1), (same_local _ _ Hs1).
  split; [done|by transitivity w1].
Qed.

Lemma Obs_loadDomainRecordSnapshot d :
  Obs (loadDomainRecordSnapshot d) (fun r s => Region.truth (maxPeers s) r d).
Proof.
  apply (Obs_bind _ _ (fun _ s => maxPeers s) (fun pc r _ => Region.truth pc r d)); [apply Obs_get|].
  intros pc. apply Obs_read.
Qed.

Lemma Obs_loadPeerScanBound : Obs loadPeerScanBound scanBound.
Proof.
  intros w. unfold loadPeerScanBound. wp_step. apply (Obs_wp _ _ _ _ (Obs_read _)). intros w1 Hs1. wp_run.
  rewrite (same_local _ _ Hs1). done.
Qed.

Lemma Obs_loadPeerRing : Obs loadPeerRing (fun r s => IdRing (peerId_ s) (scanBound r s)).
Proof.
  intros w. unfold loadPeerRing. wp_step. apply (Obs_wp _ _ _ _ Obs_loadPeerScanBound). intros w1 Hs1. wp_run.
  rewrite (same_local _ _ Hs1). done.
Qed.

Lemma Obs_loadPeerIdRange : Obs loadPeerIdRange (fun r s => IdRange 0 (scanBound r s)).
Proof.
  intros w. unfold loadPeerIdRange. wp_step. apply (Obs_wp _ _ _ _ Obs_loadPeerScanBound). intros w1 Hs1. by wp_run.
Qed.

(** ** The scans of the lifecycle *)

Definition successorOf (d : Z) (r : Region.t) (s : t) : Z :=
  default NoPeer (find_first (fun p => lifecycle.activeParticipant (Region.member r p) d)
                    (IdRing (peerId_ s) (scanBound r s))).

Lemma Obs_getSuccessorOnLeave d : Obs (lifecycle.getSuccessorOnLeave d) (successorOf d).
Proof.
  intros w. unfold lifecycle.getSuccessorOnLeave. wp_step. apply (Obs_wp _ _ _ _ Obs_loadPeerRing). intros w1 Hs1.
  wp_step. eapply Obs_wp; [apply Obs_findM; intros p;
    apply (Obs_bind _ _ (fun r _ => Region.member r p) (fun m _ _ => lifecycle.activeParticipant m d));
    [apply Obs_read|intros; apply Obs_ret]|].
  intros w2 Hs2. apply wp_ret. rewrite (same_region _ _ Hs1). split; [done|by transitivity w1].
Qed.

Definition fallbackOf (r : Region.t) (s : t) : Z :=
  default NoPeer (find_first (fun p => Member_t.hasStatus (Region.member r p) Member_t.Active)
                    (IdRing (peerId_ s) (scanBound r s))).

Lemma Obs_getFallbackHolderOnLeave : Obs lifecycle.getFallbackHolderOnLeave fallbackOf.
Proof.
  intros w. unfold lifecycle.getFallbackHolderOnLeave. wp_step. apply (Obs_wp _ _ _ _ Obs_loadPeerRing). intros w1 Hs1.
  wp_step. eapply Obs_wp; [apply Obs_findM; intros p;
    apply (Obs_bind _ _ (fun r _ => Region.member r p) (fun m _ _ => Member_t.hasStatus m Member_t.Active));
    [apply Obs_read|intros; apply Obs_ret]|].
  intros w2 Hs2. apply wp_ret. rewrite (same_region _ _ Hs1). split; [done|by transitivity w1].
Qed.

Definition emptySlotOf (r : Region.t) (s : t) : Z :=
  default NoDomain (find_first (fun d => lifecycle.isEmptySlot (Region.truth (maxPeers s) r d)) (getDataDomainIdRange s)).

Lemma Obs_findEmptyDataDomain : Obs lifecycle.findEmptyDataDomain emptySlotOf.
Proof.
  intros w. unfold lifecycle.findEmptyDataDomain. do 2 wp_step.
  wp_step. eapply Obs_wp; [apply Obs_findM; intros d;
    apply (Obs_bind _ _ (fun r s => Region.truth (maxPeers s) r d) (fun rec _ _ => lifecycle.isEmptySlot rec));
    [apply Obs_loadDomainRecordSnapshot|intros; apply Obs_ret]|].
  intros w2 Hs2. by apply wp_ret.
Qed.

Definition otherParticipantOf (d : Z) (r : Region.t) (s : t) : bool :=
  existsb (fun p => negb (p =? peerId_ s) && lifecycle.activeParticipant (Region.member r p) d)
    (IdRange 0 (scanBound r s)).

Lemma find_first_existsb {A} (P : A -> bool) l :
  (match find_first P l with Some _ => true | None => false end) = existsb P l.
Proof. induction l as [|x rest IH]; [done|]. cbn. destruct (P x); [done|apply IH]. Qed.

Lemma Obs_hasOtherParticipant d : Obs (lifecycle.hasOtherParticipant d) (otherParticipantOf d).
Proof.
  intros w. unfold lifecycle.hasOtherParticipant. do 2 wp_step.
  wp_step. apply (Obs_wp _ _ _ _ Obs_loadPeerIdRange). intros w1 Hs1. wp_step.
  eapply Obs_wp; [apply (Obs_findM _ _ (fun p r _ =>
    negb (p =? peerId_ (World.local w)) && lifecycle.activeParticipant (Region.member r p) d))|].
  - intros p. cbv beta. destruct (p =? peerId_ (World.local w)); [apply Obs_ret|].
    apply (Obs_bind _ _ (fun r _ => Region.member r p) (fun m _ _ => lifecycle.activeParticipant m d));
      [apply Obs_read|intros; apply Obs_ret].
  - intros w2 Hs2. apply wp_ret. rewrite (same_region _ _ Hs1), find_first_existsb. split; [done|by transitivity w1].
Qed.

(** The name search: the first live domain of that name. *)
Definition nameHit (name : list Z) (rec : DomainRecord_t.t) : bool :=
  lifecycle.isLive rec && bool_decide (DomainRecord_t.getName rec = name).

Definition namedOf (name : list Z) (r : Region.t) (s : t) : Z * Z :=
  match find_first (fun d => nameHit name (Region.truth (maxPeers s) r d)) (getDataDomainIdRange s) with
  | Some d => (d, DomainRecord_t.generation (Region.truth (maxPeers s) r d))
  | None => (NoDomain, 0)
  end.

Lemma Obs_findDataDomainByName name : Obs (lifecycle.findDataDomainByName name) (namedOf name).
Proof.
  intros w. unfold lifecycle.findDataDomainByName, namedOf. do 2 wp_step. cbv beta.
  generalize (getDataDomainIdRange (World.local w)) as range. intros range. revert w.
  induction range as [|d rest IH]; intros w; [by apply wp_ret|]. cbn [lifecycle.findByName]. wp_step.
  apply (Obs_wp _ _ _ _ (Obs_loadDomainRecordSnapshot d)). intros w1 Hs1. cbn [find_first List.find].
  unfold nameHit. destruct (lifecycle.isLive _ && _); [by apply wp_ret|].
  eapply wp_mono; [apply IH|]. intros a w2 [-> Hs2].
  rewrite (same_region _ _ Hs1), (same_local _ _ Hs1). split; [done|by transitivity w1].
Qed.

Lemma Obs_readDomainIncarnation d :
  Obs (lifecycle.readDomainIncarnation d)
    (fun r s => if negb (lifecycle.isLive (Region.truth (maxPeers s) r d)) then 0
                else DomainRecord_t.generation (Region.truth (maxPeers s) r d)).
Proof.
  intros w. unfold lifecycle.readDomainIncarnation. wp_step.
  apply (Obs_wp _ _ _ _ (Obs_loadDomainRecordSnapshot d)). intros w1 Hs1. by apply wp_ret.
Qed.

(** ** Stores *)

(** A store lands on the region as it was. *)
Lemma put_quiet f w : World.region (put f (tick E w)) = f (World.region w) /\ World.local (put f (tick E w)) = World.local w.
Proof. cbn. by rewrite Hq. Qed.
End quiet.
