(* ===== verification/Registry.v ===== *)
(** * Registry: the theorems on membership and the domain registry

    The operations of [lifecycle.cpp] in a region no other peer writes
    meanwhile, which is what the control lock gives the [..Locked] ones. *)

From S2P Require Import Prelude Bitmap Types Layout Region Effect World Runtime Ownership StakeClaim Policies Recovery Lifecycle Token Transfer Quiet Exclusion.
Import LocalPeerState peer_state.

(** ** Participation bits *)

(** This peer's copy of its own slot holds one 64-bit participation word. *)
Definition wf_self (s : t) : Prop :=
  exists word, Member_t.participatingDomains (selfMember_ s) = [word] /\ in_u64 word.

Lemma participation_rmw d b m word :
  0 <= d < 64 -> Member_t.participatingDomains m = [word] -> in_u64 word ->
  exists word', Member_t.participatingDomains (participationBitRmw d b m) = [word'] /\ in_u64 word' /\
    Member_t.loadParticipatingDomains (participationBitRmw d b m)
    = (if b then Bits.set else Bits.clear) (Member_t.loadParticipatingDomains m) d.
Proof.
  intros Hd Hw Hr. unfold Member_t.loadParticipatingDomains, participationBitRmw. cbn [Member_t.participatingDomains].
  rewrite Hw, !load_words_eq. unfold Bits.set, Bits.clear, Bits.setWord, Bits.getWord.
  change BitsPerWord with 64. rewrite Z.div_small by lia. fold (makeMask d).
  pose proof (makeMask_range d) as Hm.
  set (word' := if b then Z.lor word (makeMask d) else Z.land word (lnot64 (makeMask d))).
  assert (in_u64 word') as Hr'.
  { unfold word'. destruct b; [by apply Bits.lor_range|by apply Bits.land_range, Bits.lnot64_range]. }
  exists word'. split; [done|]. split; [done|].
  change (Bits.mk [u64 word'] = (if b then Bits.set else Bits.clear) (Bits.mk [u64 word]) d).
  rewrite !u64_small by done. unfold word'.
  destruct b; unfold Bits.set, Bits.clear, Bits.setWord, Bits.getWord; change BitsPerWord with 64;
    by rewrite Z.div_small by lia.
Qed.

Lemma participation_self d b s :
  0 <= d < 64 -> wf_self s ->
  let s' := with_selfMember_ (participationBitRmw d b (selfMember_ s)) s in
  wf_self s' /\ isParticipating s' d = b.
Proof.
  intros Hd (word & Hw & Hr). destruct (participation_rmw d b _ word Hd Hw Hr) as (word' & Hw' & Hr' & Hl).
  split; [by exists word'|]. unfold isParticipating, getParticipating. cbn [selfMember_ with_selfMember_]. rewrite Hl.
  assert (Bits.wf MaxDomains (Member_t.loadParticipatingDomains (selfMember_ s))) as Hwf by apply wf_load_words.
  assert (d / BitsPerWord < Z.of_nat (length (Bits.words_ (Member_t.loadParticipatingDomains (selfMember_ s))))) as Hlen.
  { rewrite (Bits.wf_len _ _ Hwf). change BitsPerWord with 64. rewrite Z.div_small by lia. done. }
  destruct b.
  - rewrite Bits.has_set; [by rewrite Z.eqb_refl|lia..|exact Hlen].
  - rewrite Bits.has_clear; [by rewrite Z.eqb_refl|lia..|exact Hlen].
Qed.

(** ** Creating and deleting domains *)

(** The terms the contracts are stated in, by the fields of a record alone. *)
Definition live (rec : DomainRecord_t.t) : Prop :=
  DomainRecord_t.magic rec = DomainRecord_t.Magic /\ DomainRecord_t.state rec = 1.
Definition vacant (rec : DomainRecord_t.t) : Prop :=
  DomainRecord_t.magic rec = DomainRecord_t.Magic /\ DomainRecord_t.state rec <> 1.
Definition carries (name : list Z) (rec : DomainRecord_t.t) : Prop := live rec /\ DomainRecord_t.getName rec = name.
Definition fits (name : list Z) : Prop := (0 < length name < 16)%nat.
(** A member slot that is active and takes part in [d]. *)
Definition takesPart (d : Z) (m : Member_t.t) : bool :=
  (Member_t.status m =? 1) && Bits.has (Member_t.loadParticipatingDomains m) d.

Lemma isLive_live rec : lifecycle.isLive rec = true <-> live rec.
Proof.
  unfold lifecycle.isLive, DomainRecord_t.isValidMagic, DomainRecord_t.hasState, live. by rewrite andb_true_iff, !Z.eqb_eq.
Qed.
Lemma isEmptySlot_vacant rec : lifecycle.isEmptySlot rec = true <-> vacant rec.
Proof.
  unfold lifecycle.isEmptySlot, DomainRecord_t.isValidMagic, DomainRecord_t.hasState, vacant.
  by rewrite andb_true_iff, negb_true_iff, Z.eqb_eq, Z.eqb_neq.
Qed.
Lemma nameHit_carries name rec : nameHit name rec = true <-> carries name rec.
Proof. unfold nameHit, carries. by rewrite andb_true_iff, isLive_live, bool_decide_eq_true. Qed.
Lemma validName_fits name : lifecycle.validName name = true <-> fits name.
Proof.
  unfold lifecycle.validName, fits. change DomainRecord_t.MaxNameLen with 16.
  rewrite andb_true_iff, !negb_true_iff, Nat.eqb_neq, Z.leb_gt. lia.
Qed.

Lemma namedOf_cases name r s :
  (namedOf name r s = (NoDomain, 0) /\
    forall d, 1 <= d < numDomains s -> ~ carries name (Region.truth (maxPeers s) r d)) \/
  (exists d, 1 <= d < numDomains s /\ carries name (Region.truth (maxPeers s) r d) /\
    namedOf name r s = (d, DomainRecord_t.generation (Region.truth (maxPeers s) r d))).
Proof.
  unfold namedOf, getDataDomainIdRange. destruct (find_first _ _) as [d|] eqn:Hf.
  - right. apply find_first_zrange_least in Hf as (Hd & Hh & _). exists d. by rewrite <- nameHit_carries.
  - left. split; [done|]. intros d Hd Hc%nameHit_carries. by rewrite (find_first_zrange_None _ _ _ Hf d Hd) in Hc.
Qed.

Lemma emptySlotOf_cases r s :
  (emptySlotOf r s = NoDomain /\ forall d, 1 <= d < numDomains s -> ~ vacant (Region.truth (maxPeers s) r d)) \/
  (1 <= emptySlotOf r s < numDomains s /\ vacant (Region.truth (maxPeers s) r (emptySlotOf r s)) /\
    forall d, 1 <= d < emptySlotOf r s -> ~ vacant (Region.truth (maxPeers s) r d)).
Proof.
  unfold emptySlotOf, getDataDomainIdRange. destruct (find_first _ _) as [d|] eqn:Hf; cbn [default].
  - right. apply find_first_zrange_least in Hf as (Hd & Hh & Hleast). rewrite <- isEmptySlot_vacant. split; [done|split; [done|]].
    intros d' Hd' Hc%isEmptySlot_vacant. rewrite Hleast in Hc by done. done.
  - left. split; [done|]. intros d Hd Hc%isEmptySlot_vacant. by rewrite (find_first_zrange_None _ _ _ Hf d Hd) in Hc.
Qed.

Lemma otherParticipantOf_spec d r s :
  otherParticipantOf d r s = true <-> exists p, 0 <= p < scanBound r s /\ p <> peerId_ s /\ takesPart d (Region.member r p) = true.
Proof.
  unfold otherParticipantOf. rewrite existsb_exists. split.
  - intros (p & Hp & Ht). apply list_elem_of_In, elem_of_zrange in Hp. exists p.
    rewrite andb_true_iff, negb_true_iff, Z.eqb_neq in Ht. done.
  - intros (p & Hp & Hne & Ht). exists p. split; [by apply list_elem_of_In, elem_of_zrange|].
    rewrite andb_true_iff, negb_true_iff, Z.eqb_neq. done.
Qed.

Section registry.
Context (E : Env.t) (Hq : quiet E).

(** One bit of the live bitmap. *)
Lemma has_set_live words d d' :
  0 <= d < 64 -> 0 <= d' < 64 -> Bits.has (Bits.set (load_words words) d) d' = (d' =? d) || Bits.has (load_words words) d'.
Proof.
  intros Hd Hd'. assert (Bits.wf MaxDomains (load_words words)) as Hwf by apply wf_load_words.
  rewrite Bits.has_set; [done|lia|lia|]. rewrite (Bits.wf_len _ _ Hwf). change BitsPerWord with 64. rewrite Z.div_small by lia. done.
Qed.
Lemma has_clear_live words d d' :
  0 <= d < 64 -> 0 <= d' < 64 -> Bits.has (Bits.clear (load_words words) d) d' = negb (d' =? d) && Bits.has (load_words words) d'.
Proof.
  intros Hd Hd'. assert (Bits.wf MaxDomains (load_words words)) as Hwf by apply wf_load_words.
  rewrite Bits.has_clear; [done|lia|lia|]. rewrite (Bits.wf_len _ _ Hwf). change BitsPerWord with 64. rewrite Z.div_small by lia. done.
Qed.

Lemma publish_quiet d rec w (Q : unit -> World.t -> Prop) :
  (forall w', World.local w' = World.local w ->
    World.region w' = Region.setTruth (maxPeers (World.local w)) d rec
      (Region.setShadow (maxPeers (World.local w)) d (DomainRecord_t.getHolder rec) rec (World.region w)) ->
    Q tt w') ->
  wp (ownership_transfer.publishDomainRecord d rec) E Q w.
Proof.
  intros HQ. unfold ownership_transfer.publishDomainRecord. wp_run. apply HQ; [done|]. cbn. by rewrite !Hq.
Qed.

Lemma rmw_quiet {T} (slot : Region.t -> T) store mutate w (Q : unit -> World.t -> Prop) :
  (forall w', World.local w' = World.local w ->
    World.region w' = store (mutate (slot (World.region w))) (World.region w) -> Q tt w') ->
  wp (rmw slot store mutate) E Q w.
Proof. intros HQ. wp_run. apply HQ; [done|]. cbn. by rewrite !Hq. Qed.

Lemma publishSelf_quiet f w (Q : unit -> World.t -> Prop) :
  let m := f (selfMember_ (World.local w)) in
  (forall w', World.local w' = with_selfMember_ m (World.local w) ->
    World.region w' = Region.setMember (peerId_ (World.local w)) m (World.region w) -> Q tt w') ->
  wp (publishSelfMember f) E Q w.
Proof. intros m HQ. unfold publishSelfMember. wp_run. apply HQ; [done|]. cbn. by rewrite !Hq. Qed.

Lemma sync_quiet d w (Q : bool -> World.t -> Prop) :
  let rec := Region.truth (maxPeers (World.local w)) (World.region w) d in
  (forall w', World.region w' = World.region w -> World.steps w' = World.steps w ->
    World.local w' = (if DomainRecord_t.isValidMagic rec then
      upd_domain d (LocalDomainView.with_isHolder (DomainRecord_t.getHolder rec =? peerId_ (World.local w)))
        (upd_domain d (LocalDomainView.with_lastOwnershipEpoch (DomainRecord_t.epoch rec)) (World.local w))
      else World.local w) -> Q (DomainRecord_t.isValidMagic rec) w') ->
  wp (lifecycle.syncDomainView d) E Q w.
Proof.
  intros rec HQ. unfold lifecycle.syncDomainView. do 3 wp_step.
  apply (Obs_wp E _ _ _ _ (Obs_loadDomainRecordSnapshot E Hq d)). intros w1 [Hr Hl Hst]. fold rec.
  destruct (DomainRecord_t.isValidMagic rec); cbn [negb].
  - unfold ownership_transfer.becomeHolder, ownership_transfer.loseHolder.
    do 3 wp_step. revert HQ.
    destruct (DomainRecord_t.getHolder rec =? peerId_ (World.local w)); intros HQ; wp_run;
      (apply HQ; [exact Hr|exact Hst|cbn; by rewrite Hl]).
  - apply wp_ret. by apply HQ.
Qed.

(** The sequential contract of a create: the slot of the new domain, field by
    field, and what it leaves alone. *)
Record created (name : list Z) (d gen : Z) (w w' : World.t) : Prop := {
  created_fresh : forall d', 1 <= d' < numDomains (World.local w) ->
    ~ carries name (Region.truth (maxPeers (World.local w)) (World.region w) d');
  created_slot : 1 <= d < numDomains (World.local w) /\ vacant (Region.truth (maxPeers (World.local w)) (World.region w) d) /\
    forall d', 1 <= d' < d -> ~ vacant (Region.truth (maxPeers (World.local w)) (World.region w) d');
  created_gen : gen = u64 (DomainRecord_t.generation (Region.truth (maxPeers (World.local w)) (World.region w) d) + 1);
  created_record : Region.truth (maxPeers (World.local w)) (World.region w') d
    = DomainRecord_t.mk DomainRecord_t.Magic 1 gen
        (DomainRecord_t.epoch (Region.truth (maxPeers (World.local w)) (World.region w) d))
        (peerId_ (World.local w)) (name ++ replicate (16 - length name) 0);
  created_shadow : Region.shadow (maxPeers (World.local w)) (World.region w') d (peerId_ (World.local w))
    = Region.truth (maxPeers (World.local w)) (World.region w') d;
  created_others : forall d', 0 <= d' < 64 -> d' <> d ->
    Region.truth (maxPeers (World.local w)) (World.region w') d' = Region.truth (maxPeers (World.local w)) (World.region w) d';
  created_active : forall d', 0 <= d' < 64 ->
    Bits.has (Header_t.loadActiveDomains (Region.header (World.region w'))) d'
    = (d' =? d) || Bits.has (Header_t.loadActiveDomains (Region.header (World.region w))) d';
  created_belief : believes w' d = true;
  created_joined : isParticipating (World.local w') d = true /\
    Region.member (World.region w') (peerId_ (World.local w)) = selfMember_ (World.local w');
  created_config : maxPeers (World.local w') = maxPeers (World.local w) /\
    numDomains (World.local w') = numDomains (World.local w);
}.

Definition wf_peer (w : World.t) : Prop :=
  0 <= peerId_ (World.local w) < maxPeers (World.local w) /\ maxPeers (World.local w) <= 64 /\
  0 <= numDomains (World.local w) <= 64 /\ wf_self (World.local w).

Lemma create_spec name w :
  wf_peer w ->
  wp (lifecycle.createDomainLocked name) E (fun res w' =>
    match res with
    | lifecycle.CreateCorruptRegion => ~ fits name /\ same w w'
    | lifecycle.CreateDuplicateName => fits name /\ same w w' /\
        exists d, 1 <= d < numDomains (World.local w) /\ carries name (Region.truth (maxPeers (World.local w)) (World.region w) d)
    | lifecycle.CreateNoFreeSlot => fits name /\ same w w' /\
        forall d, 1 <= d < numDomains (World.local w) ->
          ~ carries name (Region.truth (maxPeers (World.local w)) (World.region w) d) /\
          ~ vacant (Region.truth (maxPeers (World.local w)) (World.region w) d)
    | lifecycle.CreateOk d gen => fits name /\ created name d gen w w'
    end) w.
Proof.
  intros (Hid & Hmax & Hnd & Hself). unfold lifecycle.createDomainLocked.
  pose proof (validName_fits name) as Hv.
  destruct (lifecycle.validName name); cbn [negb]; [|apply wp_ret; split; [by rewrite <- Hv|done]].
  apply proj1 in Hv. specialize (Hv eq_refl).
  wp_step. apply (Obs_wp E _ _ _ _ (Obs_findDataDomainByName E Hq name)). intros w1 Hs1.
  destruct (namedOf_cases name (World.region w) (World.local w)) as [[Hn Hfresh]|(d & Hd & Hc & Hn)]; rewrite Hn; cbn [fst].
  2:{ assert (isNoDomain d = false) as -> by (unfold isNoDomain, NoDomain; apply Z.eqb_neq; lia). cbn [negb].
      apply wp_ret. split_and!; [done|done|by exists d]. }
  change (isNoDomain NoDomain) with true. cbn [negb].
  wp_step. apply (Obs_wp E _ _ _ _ (Obs_findEmptyDataDomain E Hq)). intros w2 Hs2.
  rewrite (same_region _ _ Hs1), (same_local _ _ Hs1).
  assert (same w w2) as Hs by by transitivity w1. clear w1 Hs1 Hs2.
  destruct (emptySlotOf_cases (World.region w) (World.local w)) as [[He Hfull]|(Hdr & Hempty & Hleast)].
  { rewrite He. change (isNoDomain NoDomain) with true. apply wp_ret. split_and!; [done|done|auto]. }
  set (d := emptySlotOf (World.region w) (World.local w)) in *.
  assert (isNoDomain d = false) as -> by (unfold isNoDomain, NoDomain; apply Z.eqb_neq; lia).
  wp_step. apply (Obs_wp E _ _ _ _ (Obs_loadDomainRecordSnapshot E Hq d)). intros w3 Hs3.
  assert (same w w3) as Hs4 by by transitivity w2. destruct Hs as [Hr2 Hl2 _]. rewrite Hr2, Hl2.
  set (pc := maxPeers (World.local w)) in *. set (rec := Region.truth pc (World.region w) d) in *.
  assert (DomainRecord_t.isValidMagic rec = true) as Hmagic by (apply Z.eqb_eq, Hempty).
  rewrite Hmagic. cbn [negb]. do 2 wp_step. cbv beta zeta. destruct Hs4 as [Hr3 Hl3 _]. rewrite Hl3.
  set (self := peerId_ (World.local w)) in *. set (rec' := lifecycle.incarnate name self rec).
  wp_step. apply publish_quiet. rewrite Hr3, Hl3. fold pc. intros w4 Hl4 Hr4. change (DomainRecord_t.getHolder rec') with self in Hr4.
  unfold setActiveDomain. wp_step. apply rmw_quiet. intros w5 Hl5 Hr5.
  wp_step. apply sync_quiet. intros w6 Hr6 _ Hl6.
  assert (Region.truth pc (World.region w5) d = rec') as Ht5 by (rewrite Hr5; change (Region.truth pc (World.region w4) d = rec'); rewrite Hr4; apply truth_setTruth_eq).
  rewrite Hl5, Hl4 in Hl6. fold pc self in Hl6. rewrite Ht5 in Hl6.
  change (DomainRecord_t.isValidMagic rec') with (DomainRecord_t.isValidMagic rec) in Hl6.
  rewrite Hmagic in Hl6. change (DomainRecord_t.getHolder rec') with self in Hl6. rewrite Z.eqb_refl in Hl6.
  unfold setParticipation. wp_step. apply publishSelf_quiet. intros w7 Hl7 Hr7. apply wp_ret. split; [done|].
  assert (selfMember_ (World.local w6) = selfMember_ (World.local w)) as Hsm6 by by rewrite Hl6.
  assert (peerId_ (World.local w6) = self) as Hid6 by by rewrite Hl6.
  assert (forall d', Region.truth pc (World.region w7) d' = Region.truth pc (World.region w4) d') as Ht7.
  { intros d'. rewrite Hr7, Hr6, Hr5. done. }
  assert (forall p, Region.shadow pc (World.region w7) d p = Region.shadow pc (World.region w4) d p) as Hsh7.
  { intros p. rewrite Hr7, Hr6, Hr5. done. }
  split; fold pc self; [done|done|done|..].
  - rewrite Ht7, Hr4, truth_setTruth_eq. fold rec. destruct Hempty as [Hmg _]. rewrite <- Hmg. reflexivity.
  - rewrite Hsh7, Ht7, Hr4, shadow_setTruth, truth_setTruth_eq, shadow_setShadow_eq by lia. done.
  - intros d' Hd' Hne. rewrite Ht7, Hr4, truth_setTruth_ne, truth_setShadow by lia. done.
  - intros d' Hd'. rewrite Hr7. cbn. rewrite Hr6, Hr5. cbn. unfold Header_t.loadActiveDomains at 1. cbn.
    rewrite load_store_words by (apply Bits.wf_set; [apply Bits.fits_64|apply wf_load_words|change MaxDomains with 64; lia]).
    rewrite Hr4. apply has_set_live; lia.
  - unfold believes. rewrite Hl7, Hl6. unfold getDomain. cbn. by rewrite lookup_total_insert_eq.
  - rewrite Hl7, Hr7, Hid6. split; [|apply lookup_total_insert_eq].
    apply (participation_self d true (World.local w6)); [lia|]. unfold wf_self. by rewrite Hsm6.
  - by rewrite Hl7, Hl6.
Qed.

(** C9: [createDomainLocked], every outcome, while no other peer's store lands,
    which is what the control section is for.  A name of no bytes or of 16 and
    more is refused; a name some live data domain carries answers
    [DuplicateName]; a table with no intact slot that is not live [NoFreeSlot];
    each of these changes nothing.  Otherwise the lowest such slot becomes the
    new domain: its record is live, carries the name padded with zero bytes, the
    next incarnation, this peer as holder and the epoch it had, in the truth and
    in this peer's shadow; its bit and no other joins the live bitmap; this peer
    believes, participates and advertises it; no other domain's record moves. *)
Theorem createDomainLocked_correct name w :
  wf_peer w ->
  wp (lifecycle.createDomainLocked name) E (fun res w' =>
    match res with
    | lifecycle.CreateCorruptRegion => ~ fits name /\ same w w'
    | lifecycle.CreateDuplicateName => fits name /\ same w w' /\
        exists d, 1 <= d < numDomains (World.local w) /\ carries name (Region.truth (maxPeers (World.local w)) (World.region w) d)
    | lifecycle.CreateNoFreeSlot => fits name /\ same w w' /\
        forall d, 1 <= d < numDomains (World.local w) ->
          ~ carries name (Region.truth (maxPeers (World.local w)) (World.region w) d) /\
          ~ vacant (Region.truth (maxPeers (World.local w)) (World.region w) d)
    | lifecycle.CreateOk d gen => fits name /\ created name d gen w w'
    end) w.
Proof. apply create_spec. Qed.

(** The records of the new registry: only the new slot answers the name. *)
Lemma created_resolves name d gen w w' :
  fits name -> Forall (fun b => b <> 0) name -> 0 <= numDomains (World.local w) <= 64 ->
  created name d gen w w' ->
  namedOf name (World.region w') (World.local w') = (d, gen).
Proof.
  intros Hv Hnul Hnd [Hfresh (Hdr & _) Hgen Hrec _ Hoth _ _ _ [Hpc' Hnd']].
  assert (carries name (Region.truth (maxPeers (World.local w)) (World.region w') d)) as Hhit.
  { rewrite Hrec. split; [by split|]. unfold DomainRecord_t.getName. cbn [DomainRecord_t.name].
    unfold fits in Hv. destruct (16 - length name)%nat as [|n] eqn:Hlen; [lia|]. by apply DomainRecord_t.until_nul_app. }
  destruct (namedOf_cases name (World.region w') (World.local w')) as [[_ Hno]|(e & He & Hc & ->)]; rewrite Hpc', Hnd' in *.
  - by destruct (Hno d).
  - destruct (decide (e = d)) as [->|Hne]; [by rewrite Hrec|]. rewrite Hoth in Hc by lia. by destruct (Hfresh e).
Qed.

(** Names round-trip.  A domain created under a name with no NUL byte is
    what a lookup of that name answers afterwards, with the incarnation the
    create handed back. *)
Theorem create_then_resolve name w :
  wf_peer w -> Forall (fun b => b <> 0) name ->
  wp (let! res := lifecycle.createDomainLocked name in
      match res with
      | lifecycle.CreateOk d gen => let! found := lifecycle.findDataDomainByName name in ret (Some (d, gen), Some found)
      | _ => ret (None, None)
      end) E (fun answer _ => answer.1 = answer.2) w.
Proof.
  intros Hw Hnul. wp_step. eapply wp_mono; [by apply create_spec|]. intros res w' Hres. cbv beta.
  destruct res as [d gen| | |]; [|by apply wp_ret..]. destruct Hres as [Hv Hc].
  wp_step. apply (Obs_wp E _ _ _ _ (Obs_findDataDomainByName E Hq name)). intros w2 _. apply wp_ret. cbn.
  f_equal. symmetry. apply (created_resolves name d gen w w'); [done|done|apply Hw|done].
Qed.

Lemma until_nul_no_nul bytes : 0 ∉ DomainRecord_t.until_nul bytes.
Proof.
  induction bytes as [|b bytes IH]; cbn; [apply not_elem_of_nil|].
  destruct (Z.eqb_spec b 0) as [->|Hb]; [apply not_elem_of_nil|]. rewrite not_elem_of_cons. split; [congruence|done].
Qed.

Lemma nameHit_nul name rec : 0 ∈ name -> nameHit name rec = false.
Proof.
  intros Hn. unfold nameHit. rewrite (bool_decide_eq_false_2 (DomainRecord_t.getName rec = name)).
  - by rewrite ?andb_false_r.
  - intros <-. revert Hn. apply until_nul_no_nul.
Qed.

Lemma namedOf_nul name r s : 0 ∈ name -> namedOf name r s = (NoDomain, 0).
Proof.
  intros Hn. unfold namedOf. destruct (find_first _ _) as [d|] eqn:Hf; [|done].
  apply find_first_Some in Hf as [_ Hf]. rewrite nameHit_nul in Hf by done. done.
Qed.

(** A name that holds a NUL byte escapes the registry.  Its length passes, no record ever answers it, and so [createDomainLocked] never reports it
    as a duplicate: while a slot is free, creating it again succeeds again. *)
Theorem nul_name_never_resolves name w :
  wf_peer w -> 0 ∈ name ->
  wp (lifecycle.findDataDomainByName name) E (fun found w' => found = (NoDomain, 0) /\ same w w') w /\
  (fits name ->
   (exists d, 1 <= d < numDomains (World.local w) /\ vacant (Region.truth (maxPeers (World.local w)) (World.region w) d)) ->
   wp (lifecycle.createDomainLocked name) E (fun res _ => exists d gen, res = lifecycle.CreateOk d gen) w).
Proof.
  intros Hw Hn. split.
  - apply (Obs_wp E _ _ _ _ (Obs_findDataDomainByName E Hq name)). intros w' Hs. split; [by apply namedOf_nul|done].
  - intros Hv (d & Hd & He). eapply wp_mono; [by apply create_spec|]. intros res w' Hres. cbv beta in Hres.
    destruct res as [d' gen| | |]; [by eauto|..].
    + destruct Hres as (_ & _ & d' & Hd' & Hc%nameHit_carries). by rewrite nameHit_nul in Hc.
    + destruct Hres as (_ & _ & Hfull). by destruct (Hfull d Hd).
    + by destruct Hres.
Qed.

(** What a delete that frees the slot leaves. *)
Record deleted (d : Z) (w w' : World.t) : Prop := {
  deleted_record : Region.truth (maxPeers (World.local w)) (World.region w') d
    = DomainRecord_t.mk DomainRecord_t.Magic 0
        (DomainRecord_t.generation (Region.truth (maxPeers (World.local w)) (World.region w) d))
        (DomainRecord_t.epoch (Region.truth (maxPeers (World.local w)) (World.region w) d))
        NoPeer (replicate 16 0);
  deleted_others : forall d', 0 <= d' < 64 -> d' <> d ->
    Region.truth (maxPeers (World.local w)) (World.region w') d' = Region.truth (maxPeers (World.local w)) (World.region w) d';
  deleted_active : forall d', 0 <= d' < 64 ->
    Bits.has (Header_t.loadActiveDomains (Region.header (World.region w'))) d'
    = negb (d' =? d) && Bits.has (Header_t.loadActiveDomains (Region.header (World.region w))) d';
  deleted_view : believes w' d = false /\ LocalDomainView.pinCount (getDomain (World.local w') d) = 0;
  deleted_left : isParticipating (World.local w') d = false /\
    Region.member (World.region w') (peerId_ (World.local w)) = selfMember_ (World.local w');
}.

Lemma delete_spec d w :
  wf_peer w -> 0 <= d < 64 ->
  let rec := Region.truth (maxPeers (World.local w)) (World.region w) d in
  let others := exists p, 0 <= p < scanBound (World.region w) (World.local w) /\ p <> peerId_ (World.local w) /\
    takesPart d (Region.member (World.region w) p) = true in
  wp (lifecycle.deleteDomainLocked d) E (fun res w' =>
    match res with
    | lifecycle.DeleteCorruptRegion => DomainRecord_t.magic rec <> DomainRecord_t.Magic /\ same w w'
    | lifecycle.DeleteNotHolder => live rec /\
        DomainRecord_t.holder rec <> peerId_ (World.local w) /\ DomainRecord_t.holder rec <> NoPeer /\ same w w'
    | lifecycle.DeleteNotSoleParticipant => live rec /\
        (DomainRecord_t.holder rec = peerId_ (World.local w) \/ DomainRecord_t.holder rec = NoPeer) /\ others /\ same w w'
    | lifecycle.DeleteOk =>
        vacant rec /\ same w w' \/
        live rec /\ (DomainRecord_t.holder rec = peerId_ (World.local w) \/ DomainRecord_t.holder rec = NoPeer) /\
          ~ others /\ deleted d w w'
    end) w.
Proof.
  intros (Hid & Hmax & Hnd & Hself) Hd rec others. unfold lifecycle.deleteDomainLocked. do 3 wp_step. cbv beta.
  apply (Obs_wp E _ _ _ _ (Obs_loadDomainRecordSnapshot E Hq d)). intros w1 Hs1. fold rec.
  unfold live, vacant, DomainRecord_t.isHeldBy, DomainRecord_t.getHolder, DomainRecord_t.isValidMagic, DomainRecord_t.hasState.
  destruct (Z.eqb_spec (DomainRecord_t.magic rec) DomainRecord_t.Magic) as [Hm|Hm]; cbn [negb]; [|by apply wp_ret].
  destruct (Z.eqb_spec (DomainRecord_t.state rec) (DomainRecord_t.State_to_u32 DomainRecord_t.Active)) as [Ha|Ha]; cbn [negb];
    [|by apply wp_ret; left].
  destruct (negb (DomainRecord_t.holder rec =? peerId_ (World.local w)) && negb (DomainRecord_t.holder rec =? NoPeer)) eqn:Hh.
  { apply wp_ret. zbool. done. }
  rewrite <- negb_orb, negb_false_iff, orb_true_iff, !Z.eqb_eq in Hh.
  wp_step. apply (Obs_wp E _ _ _ _ (Obs_hasOtherParticipant E Hq d)). intros w2 Hs2.
  rewrite (same_region _ _ Hs1), (same_local _ _ Hs1). assert (same w w2) as [Hr2 Hl2 Hst2] by by transitivity w1.
  pose proof (otherParticipantOf_spec d (World.region w) (World.local w)) as Hothers. fold others in Hothers.
  destruct (otherParticipantOf d (World.region w) (World.local w)).
  { apply wp_ret. split_and!; try done. by apply Hothers. }
  assert (~ others) as Hno by by rewrite <- Hothers.
  unfold clearParticipation. wp_step. apply publishSelf_quiet. rewrite Hr2, Hl2. intros w3 Hl3 Hr3.
  do 4 wp_step. cbv beta. rewrite Hl3. cbn [maxPeers with_selfMember_].
  set (pc := maxPeers (World.local w)) in *.
  set (w4 := put (Region.setTruth pc d (lifecycle.freed rec)) (tick E w3)).
  destruct (put_quiet E Hq (Region.setTruth pc d (lifecycle.freed rec)) w3) as [Hr4 Hl4]. fold w4 in Hr4, Hl4.
  unfold clearActiveDomain. wp_step. apply rmw_quiet. intros w5 Hl5 Hr5. wp_run. right. split_and!; [done..|].
  set (w6 := World.with_local _ w5).
  assert (World.region w6 = World.region w5) as Hr6 by done.
  assert (forall d', Region.truth pc (World.region w6) d' = Region.truth pc (World.region w4) d') as Ht6.
  { intros d'. rewrite Hr6, Hr5. done. }
  split; fold pc rec.
  - rewrite Ht6, Hr4, truth_setTruth_eq, <- Hm. reflexivity.
  - intros d' Hd' Hne. rewrite Ht6, Hr4, truth_setTruth_ne by lia. by rewrite Hr3.
  - intros d' Hd'. rewrite Hr6, Hr5.
    change (Bits.has (load_words (store_words (Bits.clear (Header_t.loadActiveDomains (Region.header (World.region w4))) d))) d'
      = negb (d' =? d) && Bits.has (Header_t.loadActiveDomains (Region.header (World.region w))) d').
    rewrite load_store_words by (apply Bits.wf_clear; [apply Bits.fits_64|apply wf_load_words|change MaxDomains with 64; lia]).
    rewrite Hr4, Hr3. by apply has_clear_live.
  - unfold believes, w6. cbn. by rewrite getDomain_upd_eq.
  - assert (selfMember_ (World.local w6) = participationBitRmw d false (selfMember_ (World.local w))) as Hsm.
    { unfold w6. cbn [World.local World.with_local upd_domain selfMember_ with_domains_]. by rewrite Hl5, Hl4, Hl3. }
    split.
    + unfold isParticipating, getParticipating. rewrite Hsm. apply (participation_self d false (World.local w)); [lia|done].
    + rewrite Hsm, Hr6, Hr5.
      change (Region.member (World.region w4) (peerId_ (World.local w)) = participationBitRmw d false (selfMember_ (World.local w))).
      rewrite Hr4, Hr3. apply lookup_total_insert_eq.
Qed.

(** C10: [deleteDomainLocked], every outcome, while no other peer's store lands,
    which is what the control section is for.  A record with a wrong magic, one
    that names another peer, and a domain some other active peer takes part in
    are refused with nothing changed; an intact slot that is not live answers
    [Ok] with nothing changed.  Otherwise the slot is freed: its record is
    intact, not live, names no peer, has an empty name and the incarnation and
    epoch it had; its bit and no other leaves the live bitmap; this peer's
    participation, belief and pins go with it; no other domain's record moves. *)
Theorem deleteDomainLocked_correct d w :
  wf_peer w -> 0 <= d < 64 ->
  let rec := Region.truth (maxPeers (World.local w)) (World.region w) d in
  let others := exists p, 0 <= p < scanBound (World.region w) (World.local w) /\ p <> peerId_ (World.local w) /\
    takesPart d (Region.member (World.region w) p) = true in
  wp (lifecycle.deleteDomainLocked d) E (fun res w' =>
    match res with
    | lifecycle.DeleteCorruptRegion => DomainRecord_t.magic rec <> DomainRecord_t.Magic /\ same w w'
    | lifecycle.DeleteNotHolder => live rec /\
        DomainRecord_t.holder rec <> peerId_ (World.local w) /\ DomainRecord_t.holder rec <> NoPeer /\ same w w'
    | lifecycle.DeleteNotSoleParticipant => live rec /\
        (DomainRecord_t.holder rec = peerId_ (World.local w) \/ DomainRecord_t.holder rec = NoPeer) /\ others /\ same w w'
    | lifecycle.DeleteOk =>
        vacant rec /\ same w w' \/
        live rec /\ (DomainRecord_t.holder rec = peerId_ (World.local w) \/ DomainRecord_t.holder rec = NoPeer) /\
          ~ others /\ deleted d w w'
    end) w.
Proof. apply delete_spec. Qed.
End registry.

(** ** Joining and leaving *)

Section membership.
Context (E : Env.t) (Hq : quiet E).

(** The view a sync leaves for a record. *)
Definition synced (self : Z) (rec : DomainRecord_t.t) (v : LocalDomainView.t) : LocalDomainView.t :=
  LocalDomainView.with_isHolder (DomainRecord_t.getHolder rec =? self)
    (LocalDomainView.with_lastOwnershipEpoch (DomainRecord_t.epoch rec) v).

Lemma synced_upd self rec d s d' :
  getDomain (upd_domain d (LocalDomainView.with_isHolder (DomainRecord_t.getHolder rec =? self))
    (upd_domain d (LocalDomainView.with_lastOwnershipEpoch (DomainRecord_t.epoch rec)) s)) d'
  = if bool_decide (d' = d) then synced self rec (getDomain s d) else getDomain s d'.
Proof.
  case_bool_decide as Hd; [subst; by rewrite !getDomain_upd_eq|by rewrite !getDomain_upd_ne].
Qed.

Lemma with_domains_same s : with_domains_ (domains_ s) s = s.
Proof. by destruct s. Qed.

Lemma syncAll_spec range w :
  let rec d := Region.truth (maxPeers (World.local w)) (World.region w) d in
  wp (lifecycle.syncAll range) E (fun ok w' =>
    World.region w' = World.region w /\ World.steps w' = World.steps w /\
    (exists tbl, World.local w' = with_domains_ tbl (World.local w)) /\
    ok = forallb (fun d => DomainRecord_t.isValidMagic (rec d)) range /\
    (ok = true -> forall d, getDomain (World.local w') d =
      if bool_decide (d ∈ range) then synced (peerId_ (World.local w)) (rec d) (getDomain (World.local w) d)
      else getDomain (World.local w) d)) w.
Proof.
  revert w. induction range as [|d rest IH]; intros w rec.
  { apply wp_ret. split_and!; [done|done| |done|done].
    exists (domains_ (World.local w)). by rewrite with_domains_same. }
  cbn [lifecycle.syncAll forallb]. wp_step. apply sync_quiet; [done|].
  change (Region.truth (maxPeers (World.local w)) (World.region w) d) with (rec d).
  intros w1 Hr1 Hst1 Hl1. destruct (DomainRecord_t.isValidMagic (rec d)) eqn:Hm; cbn [andb].
  2:{ apply wp_ret. split_and!; [done|done| |done|done].
      exists (domains_ (World.local w)). by rewrite Hl1, with_domains_same. }
  eapply wp_mono; [apply IH|]. intros ok w2 (Hr2 & Hst2 & [tbl Hl2] & Hok & Hv).
  assert (maxPeers (World.local w1) = maxPeers (World.local w)) as Hm1 by by rewrite Hl1.
  assert (peerId_ (World.local w1) = peerId_ (World.local w)) as Hp1 by by rewrite Hl1.
  rewrite Hr1, Hm1, Hp1 in *. split_and!; [done|congruence| |done|].
  - exists tbl. rewrite Hl2, Hl1. by destruct (World.local w).
  - intros Hok' d'. rewrite (Hv Hok'), Hl1, !synced_upd. clear.
    destruct (decide (d' = d)) as [->|Hne].
    + rewrite !(bool_decide_eq_true_2 (d = d)), (bool_decide_eq_true_2 (d ∈ d :: rest)) by (done || by left).
      by case_bool_decide.
    + rewrite (bool_decide_eq_false_2 (d' = d)) by done.
      rewrite (bool_decide_ext (d' ∈ d :: rest) (d' ∈ rest)); [done|].
      rewrite elem_of_cons. naive_solver.
Qed.

Lemma publishSelf_quiet_steps f w (Q : unit -> World.t -> Prop) :
  let m := f (selfMember_ (World.local w)) in
  (forall w', World.local w' = with_selfMember_ m (World.local w) ->
    World.region w' = Region.setMember (peerId_ (World.local w)) m (World.region w) ->
    World.steps w' = (World.region w, World.region w') :: World.steps w -> Q tt w') ->
  wp (publishSelfMember f) E Q w.
Proof. intros m HQ. unfold publishSelfMember. wp_run. apply HQ; [done|cbn; by rewrite !Hq|cbn; by rewrite !Hq]. Qed.

(** [joinMembership].  With an intact own slot and intact records the join
    succeeds with exactly two stores: the first advertises the control domain
    only and does not touch the status, the second flips the slot to Active; in
    between every domain view has been set from its record, belief exactly
    where the record names this peer and the epoch baseline the record's.  So
    no peer is offered a domain before its views are in step. *)
Theorem joinMembership_baselines_first w :
  let self := peerId_ (World.local w) in
  let rec d := Region.truth (maxPeers (World.local w)) (World.region w) d in
  Member_t.isValidMagic (Region.member (World.region w) self) = true ->
  (forall d, 0 <= d < numDomains (World.local w) -> DomainRecord_t.isValidMagic (rec d) = true) ->
  wp lifecycle.joinMembership E (fun res w' => res = lifecycle.JoinOk /\
    (exists r1, World.steps w' = [(r1, World.region w'); (World.region w, r1)] ++ World.steps w /\
      Member_t.status (Region.member r1 self) = Member_t.status (Region.member (World.region w) self)) /\
    Member_t.hasStatus (Region.member (World.region w') self) Member_t.Active = true /\
    Member_t.loadParticipatingDomains (Region.member (World.region w') self) = Bits.set DomainBitmap_empty ControlDomainId /\
    (forall d, 0 <= d < numDomains (World.local w) ->
      believes w' d = (DomainRecord_t.getHolder (rec d) =? self) /\
      LocalDomainView.lastOwnershipEpoch (getDomain (World.local w') d) = DomainRecord_t.epoch (rec d))) w.
Proof.
  intros self rec Hown Hrecs. unfold lifecycle.joinMembership, loadMemberSnapshot. do 3 wp_step.
  apply (Obs_wp E _ _ _ _ (Obs_read E Hq _)). intros w1 [Hr1 Hl1 Hst1]. fold self. rewrite Hown. cbn [negb].
  do 3 wp_step. cbv beta zeta. set (m1 := Member_t.storeParticipatingDomains _ _).
  apply publishSelf_quiet_steps. intros w2 Hl2 Hr2 Hst2. cbn [World.local World.region World.steps World.with_wallReads] in *.
  do 3 wp_step. eapply wp_mono; [apply syncAll_spec|].
  intros ok w3 (Hr3 & Hst3 & [tbl Hl3] & Hok & Hv). cbv beta.
  assert (maxPeers (World.local w2) = maxPeers (World.local w)) as Hm2 by by rewrite Hl2, Hl1.
  assert (peerId_ (World.local w2) = self) as Hp2 by by rewrite Hl2, Hl1.
  assert (getDomainIdRange (World.local w2) = IdRange 0 (numDomains (World.local w))) as Hrg by by rewrite Hl2, Hl1.
  assert (forall d, Region.truth (maxPeers (World.local w2)) (World.region w2) d = rec d) as Ht2.
  { intros d. rewrite Hm2, Hr2, Hr1. done. }
  rewrite Hrg in *.
  assert (ok = true) as ->.
  { rewrite Hok. apply forallb_forall. intros d Hd%list_elem_of_In%elem_of_zrange. rewrite Ht2. by apply Hrecs. }
  cbn [negb]. wp_step. apply publishSelf_quiet_steps. intros w4 Hl4 Hr4 Hst4. apply wp_ret.
  assert (peerId_ (World.local w3) = self) as Hp3 by by rewrite Hl3.
  assert (selfMember_ (World.local w3) = m1) as Hsm3 by by rewrite Hl3, Hl2.
  assert (Region.member (World.region w4) self = Member_t.setStatus Member_t.Active m1) as Hmem.
  { rewrite Hr4, Hsm3, Hp3. apply member_setMember_eq. }
  split; [done|]. split; [|rewrite Hmem; split; [done|]; split; [done|]].
  - exists (World.region w2). split; [rewrite Hst4, Hr3, Hst3, Hst2, Hr1, Hst1; done|].
    rewrite Hr2, Hl1. fold self. rewrite member_setMember_eq. done.
  - intros d Hd. unfold believes. rewrite Hl4. change (getDomain (with_selfMember_ _ (World.local w3)) d) with (getDomain (World.local w3) d).
    rewrite (Hv eq_refl), bool_decide_eq_true_2 by (by apply elem_of_zrange). rewrite Ht2, Hp2. done.
Qed.

(** *** Leaving *)

(** Whom the leave sweep hands a domain to. *)
Definition heirOf (d : Z) (r : Region.t) (s : t) : Z :=
  let ring := IdRing (peerId_ s) (scanBound r s) in
  match find_first (fun p => takesPart d (Region.member r p)) ring,
        find_first (fun p => Member_t.status (Region.member r p) =? 1) ring with
  | Some p, _ => p
  | None, Some p => p
  | None, None => 0
  end.

Lemma transfer_quiet d nh w (Q : unit -> World.t -> Prop) :
  let pc := maxPeers (World.local w) in
  let rec := Region.truth pc (World.region w) d in
  mayTransfer pc (peerId_ (World.local w)) nh rec = true ->
  (forall w' tbl, World.local w' = with_domains_ tbl (World.local w) ->
    World.region w' = Region.setTruth pc d (handed nh rec) (Region.setShadow pc d nh (handed nh rec) (World.region w)) ->
    Q tt w') ->
  wp (ownership_transfer.transferOwnership d nh) E Q w.
Proof.
  intros pc rec Hmay HQ. unfold mayTransfer in Hmay. apply andb_prop in Hmay as [[Hnh Hm]%andb_prop Hor].
  unfold ownership_transfer.transferOwnership. do 4 wp_step. cbv beta.
  unfold isValidPeer. fold pc. rewrite Hnh. cbn [negb].
  wp_step. apply (Obs_wp E _ _ _ _ (Obs_loadDomainRecordSnapshot E Hq d)). intros w1 [Hr1 Hl1 _]. fold pc rec.
  rewrite Hm. cbn [negb]. rewrite <- negb_orb, Hor. cbn [negb].
  unfold ownership_transfer.loseHolder, ownership_transfer.adoptOwnership.
  wp_step. apply wp_when.
  - intros Hs. apply wp_modify. wp_step. apply publish_quiet; [done|]. cbn [World.local World.with_local World.region].
    rewrite Hl1, Hr1. change (maxPeers (upd_domain _ _ _)) with pc. intros w2 Hl2 Hr2. rewrite negb_true_iff in Hs. rewrite Hs.
    apply wp_ret. eapply HQ; [exact Hl2|exact Hr2].
  - intros Hs. wp_step. apply publish_quiet; [done|]. rewrite Hl1, Hr1. fold pc. intros w2 Hl2 Hr2.
    rewrite negb_false_iff in Hs. rewrite Hs. apply wp_modify.
    eapply HQ; [cbn; rewrite Hl2; reflexivity|exact Hr2].
Qed.

(** *** Claims the leaver authored *)

Definition retracted (author : Z) (c : RecoveryClaim_t.t) : RecoveryClaim_t.t :=
  if RecoveryClaim_t.isValidMagic c && (RecoveryClaim_t.recoveryAuthority c =? author)
  then RecoveryClaim_t.mk (RecoveryClaim_t.magic c) NoPeer else c.

Lemma retract_turn author p w (Q : unit -> World.t -> Prop) :
  (forall w', World.local w' = World.local w ->
    Region.records (World.region w') = Region.records (World.region w) ->
    Region.members (World.region w') = Region.members (World.region w) ->
    (forall q, Region.claim (World.region w') q
      = if q =? p then retracted author (Region.claim (World.region w) p) else Region.claim (World.region w) q) -> Q tt w') ->
  wp (stake.retract (recoveryAuthority.getClaimField p) author) E Q w.
Proof.
  intros HQ. unfold stake.retract, rmwIfTrue. do 2 wp_step.
  apply (Obs_wp E _ _ _ _ (Obs_read E Hq _)). intros w1 [Hr1 Hl1 _].
  cbn [stake.slot stake.store stake.isValidMagic stake.field stake.setField stake.empty_
    recoveryAuthority.getClaimField claimLine].
  unfold retracted in HQ. revert HQ. set (c := Region.claim (World.region w) p).
  destruct (RecoveryClaim_t.isValidMagic c); cbn [negb orb andb];
    [destruct (RecoveryClaim_t.recoveryAuthority c =? author); cbn [negb]|]; intros HQ.
  - wp_run. apply HQ; cbn; rewrite ?Hq, ?Hr1; try done. intros q.
    destruct (Z.eqb_spec q p) as [->|]; [apply claim_setClaim_eq|by apply claim_setClaim_ne].
  - wp_run. apply HQ; rewrite ?Hr1; try done. intros q. by destruct (Z.eqb_spec q p) as [->|].
  - wp_run. apply HQ; rewrite ?Hr1; try done. intros q. by destruct (Z.eqb_spec q p) as [->|].
Qed.

Lemma retract_all author k bound w :
  wp (forM (zrange k bound) (fun p => stake.retract (recoveryAuthority.getClaimField p) author)) E
    (fun _ w' => World.local w' = World.local w /\
      Region.records (World.region w') = Region.records (World.region w) /\
      Region.members (World.region w') = Region.members (World.region w) /\
      forall q, Region.claim (World.region w') q
        = if (k <=? q) && (q <? bound) then retracted author (Region.claim (World.region w) q)
          else Region.claim (World.region w) q) w.
Proof.
  remember (Z.to_nat (bound - k)) as n eqn:Hn. revert k w Hn.
  induction n as [|n IH]; intros k w Hn.
  { rewrite zrange_nil by lia. apply wp_ret. split_and!; [done..|]. intros q.
    destruct (Z.leb_spec k q), (Z.ltb_spec q bound); try done. lia. }
  rewrite zrange_cons by lia. cbn [forM]. wp_step. apply retract_turn. intros w1 Hl1 Hr1 Hm1 Hc1.
  eapply wp_mono; [apply (IH (k + 1)); lia|]. intros ? w2 (Hl2 & Hr2 & Hm2 & Hc2).
  split_and!; [congruence..|]. intros q. rewrite Hc2, Hc1.
  destruct (Z.eqb_spec q k) as [->|Hne].
  - rewrite (proj2 (Z.leb_gt (k + 1) k)), (proj2 (Z.leb_le k k)), (proj2 (Z.ltb_lt k bound)) by lia. done.
  - assert ((k + 1 <=? q) = (k <=? q)) as -> by (destruct (Z.leb_spec (k + 1) q), (Z.leb_spec k q); lia). done.
Qed.

Section leaving.
Context (r0 : Region.t) (s0 : t).
Let pc := maxPeers s0.
Let self := peerId_ s0.
Let heir d := heirOf d r0 s0.
Hypothesis Hdims : 0 <= self < pc /\ pc <= 64 /\ 0 <= numDomains s0 <= 64 /\ 0 <= scanBound r0 s0 <= pc.
Hypothesis Hrecs : forall d, 0 <= d < numDomains s0 -> DomainRecord_t.isValidMagic (Region.truth pc r0 d) = true.

Lemma ring_found (P : Z -> bool) p : find_first P (IdRing self (scanBound r0 s0)) = Some p -> 0 <= p < pc /\ p <> self.
Proof.
  destruct Hdims as (Hs & Hp & _ & Hb). intros [Hin _]%find_first_Some.
  apply IdRing_ne in Hin as [? ?]; unfold in_u32; cbn; lia.
Qed.

Lemma peer_not_none p : 0 <= p < pc -> isNoPeer p = false.
Proof. destruct Hdims as (_ & Hp & _). intros H. unfold isNoPeer, NoPeer. apply Z.eqb_neq. lia. Qed.

(** The heir as the sweep works it out. *)
Lemma heir_computed d :
  (let successor := successorOf d r0 s0 in
   let successor := if isNoPeer successor then fallbackOf r0 s0 else successor in
   if isNoPeer successor then 0 else successor) = heir d.
Proof.
  unfold successorOf, fallbackOf, heir, heirOf. cbv zeta. fold self.
  change (fun p => lifecycle.activeParticipant (Region.member r0 p) d) with (fun p => takesPart d (Region.member r0 p)).
  change (fun p => Member_t.hasStatus (Region.member r0 p) Member_t.Active) with (fun p => Member_t.status (Region.member r0 p) =? 1).
  set (part := fun p => takesPart d _). set (up := fun p => Member_t.status _ =? 1).
  destruct (find_first part _) as [p|] eqn:H1; cbn [default from_option id].
  { apply ring_found in H1 as [H1 _]. rewrite !(peer_not_none p H1). cbv iota. by rewrite ?(peer_not_none p H1). }
  change (isNoPeer NoPeer) with true. cbv iota.
  destruct (find_first up _) as [p|] eqn:H2; cbn [default from_option id]; [|done].
  apply ring_found in H2 as [H2 _]. by rewrite (peer_not_none p H2).
Qed.

Lemma heir_range d : 0 <= heir d < pc.
Proof.
  unfold heir, heirOf. fold self. set (part := fun p => takesPart d _). set (up := fun p => Member_t.status _ =? 1).
  destruct (find_first part _) as [p|] eqn:H1; [by apply ring_found in H1 as [? _]|].
  destruct (find_first up _) as [p|] eqn:H2; [by apply ring_found in H2 as [? _]|]. destruct Hdims as (? & _). lia.
Qed.

(** Between two turns of the sweep: the domains before [k] are handed over, the
    rest as they were, and members, bound and identity untouched. *)
Record sweeping (k : Z) (w : World.t) : Prop := {
  sw_local : exists tbl, World.local w = with_domains_ tbl s0;
  sw_members : Region.members (World.region w) = Region.members r0;
  sw_bound : Region.peerBound (World.region w) = Region.peerBound r0;
  sw_claims : Region.claims (World.region w) = Region.claims r0;
  sw_truth : forall d, 0 <= d < 64 -> Region.truth pc (World.region w) d =
    if (d <? k) && (DomainRecord_t.getHolder (Region.truth pc r0 d) =? self)
    then handed (heir d) (Region.truth pc r0 d) else Region.truth pc r0 d;
}.

Lemma handOff_turn d w :
  0 <= d < numDomains s0 -> sweeping d w ->
  wp (lifecycle.handOffOnLeave (fallbackOf r0 s0) d) E (fun _ w' => sweeping (d + 1) w') w.
Proof.
  intros Hd [[tbl Hl] Hmem Hbd Hcl Ht]. destruct Hdims as (Hs & Hp & Hnd & Hb).
  unfold lifecycle.handOffOnLeave. do 3 wp_step. cbv beta.
  apply (Obs_wp E _ _ _ _ (Obs_loadDomainRecordSnapshot E Hq d)). intros w1 [Hr1 Hl1 _].
  rewrite Hl. cbn [maxPeers peerId_ with_domains_]. fold pc self. rewrite (Ht d) by lia.
  rewrite Z.ltb_irrefl. cbn [andb]. wp_step. apply wp_when.
  - intros Hh. wp_step. apply (Obs_wp E _ _ _ _ (Obs_getSuccessorOnLeave E Hq d)). intros w2 [Hr2 Hl2 _].
    assert (successorOf d (World.region w1) (World.local w1) = successorOf d r0 s0) as Hsucc.
    { unfold successorOf, scanBound, Region.member. by rewrite Hr1, Hl1, Hl, Hmem, Hbd. }
    rewrite Hsucc. pose proof (heir_computed d) as Hheir. cbv zeta in Hheir. rewrite Hheir.
    pose proof (heir_range d) as Hhr.
    assert (World.local w2 = with_domains_ tbl s0) as Hlw2 by congruence.
    assert (World.region w2 = World.region w) as Hrw2 by congruence.
    apply transfer_quiet.
    + rewrite Hlw2, Hrw2. cbn [maxPeers peerId_ with_domains_]. fold pc self.
      rewrite (Ht d), Z.ltb_irrefl by lia. cbn [andb]. unfold mayTransfer.
      rewrite (proj2 (Z.ltb_lt _ _)), Hrecs by lia. unfold DomainRecord_t.getHolder in Hh. rewrite Hh. by rewrite orb_true_r.
    + rewrite Hlw2, Hrw2. cbn [maxPeers with_domains_]. fold pc. rewrite (Ht d), Z.ltb_irrefl by lia. cbn [andb].
      intros w3 tbl3 Hl3 Hr3. apply wp_modify. split; cbn; rewrite ?Hr3; try done.
      * rewrite Hl3. eexists. reflexivity.
      * intros d' Hd'. destruct (decide (d' = d)) as [->|Hne].
        { rewrite truth_setTruth_eq, Hh. rewrite (proj2 (Z.ltb_lt d (d + 1))) by lia. done. }
        rewrite truth_setTruth_ne, truth_setShadow, Ht by lia.
        assert ((d' <? d) = (d' <? d + 1)) as -> by (destruct (Z.ltb_spec d' d), (Z.ltb_spec d' (d + 1)); lia). done.
  - intros Hh. apply wp_modify. split; cbn; rewrite ?Hr1; try done.
    + rewrite Hl1, Hl. eexists. reflexivity.
    + intros d' Hd'. rewrite Ht by lia. destruct (decide (d' = d)) as [->|Hne]; [by rewrite Hh, !andb_false_r|].
      assert ((d' <? d) = (d' <? d + 1)) as -> by (destruct (Z.ltb_spec d' d), (Z.ltb_spec d' (d + 1)); lia). done.
Qed.

Lemma sweep_all k w :
  0 <= k <= numDomains s0 -> sweeping k w ->
  wp (forM (zrange k (numDomains s0)) (lifecycle.handOffOnLeave (fallbackOf r0 s0))) E
    (fun _ w' => sweeping (numDomains s0) w') w.
Proof.
  remember (Z.to_nat (numDomains s0 - k)) as n eqn:Hn. revert k w Hn.
  induction n as [|n IH]; intros k w Hn Hk Hw.
  - rewrite zrange_nil by lia. apply wp_ret. by replace (numDomains s0) with k by lia.
  - rewrite zrange_cons by lia. cbn [forM]. wp_step. eapply wp_mono; [apply handOff_turn; [lia|done]|].
    intros ? w' Hw'. apply IH; [lia|lia|done].
Qed.

Lemma leave_spec w :
  World.region w = r0 -> World.local w = s0 ->
  wp lifecycle.leaveMembership E (fun _ w' =>
    (forall d, 0 <= d < numDomains s0 ->
      Region.truth pc (World.region w') d =
        if DomainRecord_t.getHolder (Region.truth pc r0 d) =? self
        then handed (heir d) (Region.truth pc r0 d) else Region.truth pc r0 d) /\
    (forall p, 0 <= p < pc -> RecoveryClaim_t.isValidMagic (Region.claim (World.region w') p) = true ->
      RecoveryClaim_t.recoveryAuthority (Region.claim (World.region w') p) <> self) /\
    Member_t.hasStatus (Region.member (World.region w') self) Member_t.None_ = true /\
    Bits.isEmpty (Member_t.loadParticipatingDomains (Region.member (World.region w') self)) = true) w.
Proof.
  intros Hr Hl. destruct Hdims as (Hs & Hp & Hnd & Hb). unfold lifecycle.leaveMembership. wp_step.
  apply (Obs_wp E _ _ _ _ (Obs_getFallbackHolderOnLeave E Hq)). intros w1 [Hr1 Hl1 _]. rewrite Hr, Hl in *.
  do 2 wp_step. cbv beta. rewrite Hl1. wp_step. eapply wp_mono.
  { apply (sweep_all 0); [lia|]. split; rewrite ?Hr1; try done.
    - exists (domains_ s0). by rewrite with_domains_same.
    - intros d Hd. by rewrite (proj2 (Z.ltb_ge d 0)) by lia. }
  intros ? w2 [[tbl Hl2] Hm2 _ Hc2 Ht2]. do 2 wp_step. cbv beta. rewrite Hl2. cbn [peerId_ with_domains_]. fold self.
  unfold recoveryAuthority.retractClaimsBy. do 3 wp_step. cbv beta. rewrite Hl2. cbn [maxPeers with_domains_]. fold pc.
  eapply wp_mono; [apply retract_all|]. intros ? w3 (Hl3 & Hr3 & Hm3 & Hc3). cbv beta.
  apply publishSelf_quiet; [done|]. rewrite Hl3, Hl2. cbn [peerId_ selfMember_ with_domains_]. fold self.
  intros w4 Hl4 Hr4. split_and!.
  - intros d Hd.
    assert (Region.truth pc (World.region w4) d = Region.truth pc (World.region w2) d) as ->.
    { rewrite Hr4. change (Region.truth pc (World.region w3) d = Region.truth pc (World.region w2) d).
      unfold Region.truth. by rewrite Hr3. }
    rewrite Ht2 by lia. by rewrite (proj2 (Z.ltb_lt d (numDomains s0))) by lia.
  - intros p Hpr. rewrite Hr4. change (Region.claim (Region.setMember _ _ _) p) with (Region.claim (World.region w3) p).
    rewrite Hc3, (proj2 (Z.leb_le 0 p)), (proj2 (Z.ltb_lt p pc)) by lia. cbn [andb]. unfold retracted.
    destruct (RecoveryClaim_t.isValidMagic (Region.claim (World.region w2) p)) eqn:Hmg; cbn [andb].
    + destruct (Z.eqb_spec (RecoveryClaim_t.recoveryAuthority (Region.claim (World.region w2) p)) self); [|done].
      intros _. cbn. unfold NoPeer. lia.
    + by rewrite Hmg.
  - rewrite Hr4, member_setMember_eq. done.
  - rewrite Hr4, member_setMember_eq. done.
Qed.
End leaving.

End membership.

(** ** The theorems at work on the sample region *)

Lemma sample_quiet : quiet sample.env.
Proof. intros n r. reflexivity. Qed.

(** ["job"], as the bytes of a name. *)
Definition sample_name : list Z := [106; 111; 98].

Lemma sample_wf_peer : wf_peer (sample.world 0).
Proof. unfold wf_peer, wf_self. cbn. split_and!; try lia. exists 0. split; [done|]. unfold in_u64. lia. Qed.

Lemma sample_create : answer (lifecycle.createDomainLocked sample_name) sample.env (sample.world 0) = Some (lifecycle.CreateOk 1 1).
Proof. vm_compute. reflexivity. Qed.

Lemma createDomainLocked_correct_witness :
  exists w', lifecycle.createDomainLocked sample_name sample.env (sample.world 0) = Some (lifecycle.CreateOk 1 1, w') /\
    created sample_name 1 1 (sample.world 0) w'.
Proof.
  pose proof (createDomainLocked_correct sample.env sample_quiet sample_name (sample.world 0) sample_wf_peer) as H.
  apply wp_elim in H as (res & w' & Hrun & H).
  pose proof (answer_run _ _ _ _ _ _ Hrun sample_create) as ->. exists w'. split; [exact Hrun|]. exact (proj2 H).
Defined.

Lemma sample_create_resolve :
  answer (let! res := lifecycle.createDomainLocked sample_name in
        match res with
        | lifecycle.CreateOk d gen => let! found := lifecycle.findDataDomainByName sample_name in ret (Some (d, gen), Some found)
        | _ => ret (None, None)
        end) sample.env (sample.world 0) = Some (Some (1, 1), Some (1, 1)).
Proof. vm_compute. reflexivity. Qed.

Lemma create_then_resolve_witness :
  Some (1, 1) = Some (1, 1) /\ Forall (fun b => b <> 0) sample_name.
Proof.
  assert (Forall (fun b => b <> 0) sample_name) as Hn by (repeat constructor; discriminate).
  pose proof (create_then_resolve sample.env sample_quiet sample_name (sample.world 0) sample_wf_peer Hn) as H.
  apply wp_elim in H as (a & w' & Hrun & H).
  pose proof (answer_run _ _ _ _ _ _ Hrun sample_create_resolve) as ->. split; [exact H|exact Hn].
Defined.

(** The sample region with domain 1 created by peer 0. *)
Definition sample_registered : World.t :=
  match lifecycle.createDomainLocked sample_name sample.env (sample.world 0) with
  | Some (_, w) => w
  | None => sample.world 0
  end.

Lemma sample_registered_wf : wf_peer sample_registered.
Proof.
  unfold wf_peer, wf_self.
  assert (peerId_ (World.local sample_registered) = 0) as -> by (vm_compute; reflexivity).
  assert (maxPeers (World.local sample_registered) = 2) as -> by (vm_compute; reflexivity).
  assert (numDomains (World.local sample_registered) = 3) as -> by (vm_compute; reflexivity).
  split_and!; try lia. exists 2. split; [vm_compute; reflexivity|]. unfold in_u64. lia.
Qed.

Lemma sample_delete : answer (lifecycle.deleteDomainLocked 1) sample.env sample_registered = Some lifecycle.DeleteOk.
Proof. vm_compute. reflexivity. Qed.

Lemma sample_live : DomainRecord_t.state (Region.truth (maxPeers (World.local sample_registered)) (World.region sample_registered) 1) = 1.
Proof. vm_compute. reflexivity. Qed.

Lemma deleteDomainLocked_correct_witness :
  exists w', lifecycle.deleteDomainLocked 1 sample.env sample_registered = Some (lifecycle.DeleteOk, w') /\
    deleted 1 sample_registered w'.
Proof.
  pose proof (deleteDomainLocked_correct sample.env sample_quiet 1 sample_registered sample_registered_wf ltac:(lia)) as H.
  apply wp_elim in H as (res & w' & Hrun & H).
  pose proof (answer_run _ _ _ _ _ _ Hrun sample_delete) as ->. cbv zeta in H.
  exists w'. split; [exact Hrun|]. destruct H as [[[_ Hv] _]|H]; [by destruct (Hv sample_live)|apply H].
Defined.

(** Every provisioned record of the sample region is intact. *)
Lemma sample_intact d : 0 <= d < 3 -> DomainRecord_t.isValidMagic (Region.truth 2 sample.region d) = true.
Proof. intros H. assert (d = 0 \/ d = 1 \/ d = 2) as [->|[->| ->]] by lia; vm_compute; reflexivity. Qed.

Lemma joinMembership_baselines_first_witness :
  exists w', lifecycle.joinMembership sample.env (sample.world 1) = Some (lifecycle.JoinOk, w') /\
    Member_t.hasStatus (Region.member (World.region w') 1) Member_t.Active = true.
Proof.
  pose proof (joinMembership_baselines_first sample.env sample_quiet (sample.world 1) ltac:(vm_compute; reflexivity) sample_intact) as H.
  apply wp_elim in H as (res & w' & Hrun & -> & _ & Hs & _). exists w'. split; [exact Hrun|exact Hs].
Defined.

Lemma nul_name_never_resolves_witness :
  fits [97; 0; 98] /\
  exists d gen w', lifecycle.createDomainLocked [97; 0; 98] sample.env (sample.world 0) = Some (lifecycle.CreateOk d gen, w').
Proof.
  assert (0 ∈ [97; 0; 98]) as Hn by set_solver.
  destruct (nul_name_never_resolves sample.env sample_quiet [97; 0; 98] (sample.world 0) sample_wf_peer Hn) as [_ H].
  assert (fits [97; 0; 98]) as Hf by (unfold fits; cbn; lia).
  assert (vacant (Region.truth 2 sample.region 1)) as Hvac by (split; [vm_compute; reflexivity|vm_compute; discriminate]).
  assert (1 <= 1 < numDomains (World.local (sample.world 0))) as Hr by (cbn; lia).
  specialize (H Hf (ex_intro _ 1 (conj Hr Hvac))).
  apply wp_elim in H as (res & w' & Hrun & d & gen & ->). split; [exact Hf|]. exists d, gen, w'. exact Hrun.
Defined.
