(* ===== verification/Departure.v ===== *)
(** * Departure: leaving while the other peers are at work

    [lifecycle::leaveMembership] runs outside the control section.  By then the
    peer has stood as Leaving for the drain window ([Peer::~Peer]), so nobody
    picks it for a successor any more; the other peers go on with everything
    else between any two of its accesses. *)

From S2P Require Import Prelude Bitmap Types Layout Region Effect World Runtime Ownership StakeClaim Policies Recovery Lifecycle Token Transfer Quiet Exclusion Registry.
Import LocalPeerState peer_state.

(** A claim [self] authored. *)
Definition authored (self : Z) (c : RecoveryClaim_t.t) : Prop :=
  RecoveryClaim_t.magic c = RecoveryClaim_t.Magic /\ RecoveryClaim_t.recoveryAuthority c = self.

(** The bound of the peer scans, zero meaning all of them, covers the leaver and
    stays inside the table. *)
Definition boundWithin (pc self : Z) (r : Region.t) : Prop :=
  u32 (PeerBound_t.peerScanBound (Region.peerBound r)) = 0 \/ self < u32 (PeerBound_t.peerScanBound (Region.peerBound r)) <= pc.

(** [q] is up and inside the bound of the scans. *)
Definition present (q : Z) (r : Region.t) : Prop :=
  Member_t.status (Region.member r q) = 1 /\
  (u32 (PeerBound_t.peerScanBound (Region.peerBound r)) = 0 \/ q < u32 (PeerBound_t.peerScanBound (Region.peerBound r))).

(** What the other peers do around a drained one: they write no domain it holds,
    hand it no domain, author no claim in its name, corrupt no record and keep
    the bound of the scans inside the table. *)
Record drained (pc self : Z) (r r' : Region.t) : Prop := {
  drained_kept : tokenR pc (fun _ h => h = self) r r';
  drained_refused : forall d, 0 <= d < 64 -> holder pc r d <> self -> holder pc r' d <> self;
  drained_claims : forall p, authored self (Region.claim r' p) -> authored self (Region.claim r p);
  drained_intact : forall d, 0 <= d < 64 -> DomainRecord_t.isValidMagic (Region.truth pc r d) = true ->
    DomainRecord_t.isValidMagic (Region.truth pc r' d) = true;
  drained_bound : boundWithin pc self r -> boundWithin pc self r';
}.

Section departure.
Context (E : Env.t) (pc self nd : Z) (heir : option Z).
Hypothesis HE : respects E (drained pc self).
(** Peer 0 is the last resort of the sweep, so it needs somebody who stays. *)
Hypothesis Hheir : match heir with
  | None => self <> 0
  | Some q => 0 <= q < pc /\ q <> self /\ forall n r, present q r -> present q (Env.interf E n r)
  end.
Hypothesis Hdims : 0 <= self < pc /\ pc <= 64 /\ 0 <= nd <= 64.

(** Between two turns of the sweep: no domain before [k] names the leaver. *)
Record leaving (k : Z) (w : World.t) : Prop := {
  lv_pc : maxPeers (World.local w) = pc;
  lv_self : peerId_ (World.local w) = self;
  lv_nd : numDomains (World.local w) = nd;
  lv_bound : boundWithin pc self (World.region w);
  lv_heir : match heir with Some q => present q (World.region w) | None => True end;
  lv_intact : forall d, 0 <= d < nd -> DomainRecord_t.isValidMagic (Region.truth pc (World.region w) d) = true;
  lv_gone : forall d, 0 <= d < k -> holder pc (World.region w) d <> self;
  lv_guar : guarantees (tokenG pc (fun _ h => h = self)) w;
}.

Lemma leaving_tick k w : k <= nd -> leaving k w -> leaving k (tick E w).
Proof.
  intros Hk [? ? ? Hb Hh Hi Hg ?]. destruct (HE (World.accesses w) (World.region w)) as [Hkept Href Hcl Hin Hbd].
  split; cbn; try done.
  - by apply Hbd.
  - destruct heir as [q|]; [|done]. by apply Hheir.
  - intros d Hd. apply Hin; [lia|]. by apply Hi.
  - intros d Hd. apply Href; [lia|]. by apply Hg.
Qed.

Lemma leaving_local k w f :
  (forall s, maxPeers (f s) = maxPeers s /\ peerId_ (f s) = peerId_ s /\ numDomains (f s) = numDomains s) ->
  leaving k w -> leaving k (World.with_local (f (World.local w)) w).
Proof. intros Hf []. destruct (Hf (World.local w)) as (? & ? & ?). split; cbn; congruence || done. Qed.

(** A domain that names the leaver stays as it is between its accesses. *)
Lemma mine_tick d w :
  0 <= d < 64 -> holder pc (World.region w) d = self ->
  block_eq pc (World.region w) (World.region (tick E w)) d /\ holder pc (World.region (tick E w)) d = self.
Proof.
  intros Hd Hh. assert (block_eq pc (World.region w) (World.region (tick E w)) d) as Hb by by apply HE.
  split; [done|]. by rewrite (block_eq_holder _ _ _ _ Hb).
Qed.

(** *** The scans *)

(** [I] is kept by the steps of the others. *)
Definition stable (I : World.t -> Prop) : Prop := forall w, I w -> I (tick E w).

Definition holding_on (k d : Z) (w : World.t) : Prop := leaving k w /\ holder pc (World.region w) d = self.

Lemma stable_leaving k : k <= nd -> stable (leaving k).
Proof. intros Hk w. by apply leaving_tick. Qed.
Lemma stable_holding k d : k <= nd -> 0 <= d < 64 -> stable (holding_on k d).
Proof. intros Hk Hd w [Hw Hh]. split; [by apply leaving_tick|by apply mine_tick]. Qed.

Lemma ring_scan (I : World.t -> Prop) (P : Member_t.t -> bool) k w :
  stable I -> (forall v, I v -> leaving k v) -> I w ->
  wp (let! ring := loadPeerRing in
      let! found := findM ring (fun p => let! m := loadMemberSnapshot p in ret (P m)) in
      ret (default NoPeer found)) E
    (fun p w' => I w' /\ (p = NoPeer /\ (forall q, heir = Some q -> exists m, Member_t.status m = 1 /\ P m = false) \/ 0 <= p < pc /\ p <> self)) w.
Proof.
  intros Hst HI Hw. unfold loadPeerRing, loadPeerScanBound, loadMemberSnapshot. do 10 wp_step.
  assert (I (tick E w)) as Hw1 by by apply Hst. pose proof (HI _ Hw1) as [Hpc1 Hid1 _ Hb1 Hq1 _ _ _].
  set (w1 := tick E w) in *. rewrite Hpc1, Hid1. wp_step.
  set (raw := u32 (PeerBound_t.peerScanBound (Region.peerBound (World.region w1)))) in *.
  set (bound := if negb (raw =? 0) then raw else pc).
  assert (0 <= raw) as Hraw by (apply u32_range).
  unfold boundWithin in Hb1. fold raw in Hb1.
  assert (0 < bound <= pc) as Hbound by (unfold bound; destruct (Z.eqb_spec raw 0); cbn; lia).
  eapply wp_mono.
  { apply (wp_findM_miss E _ _ I (fun p => forall q, heir = Some q -> p = q -> exists m, Member_t.status m = 1 /\ P m = false)); [done|].
    intros p v _ Hv. do 3 wp_step. split; [by apply Hst|]. intros Hmiss q Hq ->.
    destruct (HI _ (Hst _ Hv)) as [_ _ _ _ Hup _ _ _]. rewrite Hq in Hup. destruct Hup as [Hup _]. by exists (Region.member (World.region (tick E v)) q). }
  intros [p|] w2 [Hw2 Hf]; apply wp_ret; (split; [done|]); cbn.
  - right. apply IdRing_ne in Hf as [? ?]; [lia|unfold in_u32; lia|unfold in_u32; lia].
  - left. split; [done|]. intros q Hq. pose proof Hheir as Hh. rewrite Hq in Hq1, Hh. destruct Hq1 as [_ Hqb]. fold raw in Hqb. destruct Hh as (Hqr & Hqs & _).
    rewrite Forall_forall in Hf. refine (Hf q _ q Hq eq_refl). apply elem_of_IdRing; [|lia|].
    + unfold bound in *. destruct (Z.eqb_spec raw 0); cbn [negb] in *; lia.
    + unfold bound. destruct (Z.eqb_spec raw 0); cbn [negb]; lia.
Qed.

Lemma successor_scan (I : World.t -> Prop) d k w :
  stable I -> (forall v, I v -> leaving k v) -> I w ->
  wp (lifecycle.getSuccessorOnLeave d) E (fun p w' => I w' /\ (p = NoPeer \/ 0 <= p < pc /\ p <> self)) w.
Proof.
  intros Hst HI Hw. eapply wp_mono; [apply (ring_scan I (fun m => lifecycle.activeParticipant m d) k); done|].
  intros p w' [? [[-> _]|?]]; auto.
Qed.

Lemma fallback_scan k w :
  k <= nd -> leaving k w ->
  wp lifecycle.getFallbackHolderOnLeave E (fun p w' => leaving k w' /\ (p = NoPeer /\ heir = None \/ 0 <= p < pc /\ p <> self)) w.
Proof.
  intros Hk Hw. eapply wp_mono; [apply (ring_scan (leaving k) (fun m => Member_t.hasStatus m Member_t.Active) k); [by apply stable_leaving|done|done]|].
  intros p w' [? [[-> Hno]|?]]; (split; [done|]); [left|by right]. split; [done|]. destruct heir as [q|]; [|done].
  destruct (Hno q eq_refl) as (m & Hm & Hs). unfold Member_t.hasStatus in Hs. rewrite Hm in Hs. done.
Qed.

(** *** The sweep *)

(** A domain that names the leaver is handed to somebody else. *)
Lemma transfer_leaving d nh w :
  0 <= d < nd -> holding_on d d w -> 0 <= nh < pc -> nh <> self ->
  wp (ownership_transfer.transferOwnership d nh) E (fun _ w' => leaving (d + 1) w') w.
Proof.
  intros Hd Hw Hnh Hne. pose proof (stable_holding d d ltac:(lia) ltac:(lia)) as Hst.
  unfold ownership_transfer.transferOwnership. do 4 wp_step. cbv beta. unfold isValidPeer.
  rewrite (lv_pc _ _ (proj1 Hw)), (lv_self _ _ (proj1 Hw)), (proj2 (Z.ltb_lt nh pc)) by lia. cbn [negb].
  unfold loadDomainRecordSnapshot. do 4 wp_step. rewrite (lv_pc _ _ (proj1 Hw)).
  apply Hst in Hw. set (w1 := tick E w) in *. set (rec := Region.truth pc (World.region w1) d).
  rewrite (lv_intact _ _ (proj1 Hw) d Hd : DomainRecord_t.isValidMagic rec = true). cbn [negb].
  rewrite (proj2 (Z.eqb_neq nh self)), (proj2 (Z.eqb_eq (DomainRecord_t.holder rec) self)) by (apply Hne || apply Hw). cbn [negb andb].
  unfold ownership_transfer.loseHolder, ownership_transfer.publishDomainRecord, when. do 7 wp_step. cbv beta.
  set (w2 := World.with_local (upd_domain d LocalDomainView.loseHolder (World.local w1)) w1).
  assert (holding_on d d w2) as Hw2 by (split; [by apply leaving_local; [|apply Hw]|apply Hw]).
  rewrite (lv_pc _ _ (proj1 Hw2)). apply Hst in Hw2. set (w3 := tick E w2) in *.
  set (rec' := DomainRecord_t.with_epoch _ _). change (DomainRecord_t.getHolder rec') with nh.
  assert (DomainRecord_t.isValidMagic rec' = true) as Hm' by (apply (lv_intact _ _ (proj1 Hw) d Hd)).
  assert (holding_on d d (put (Region.setShadow pc d nh rec') w3)) as Hw4.
  { destruct Hw2 as [[] Hh]. split; [split; cbn; try done|].
    - intros d' Hd'. rewrite truth_setShadow by lia. auto.
    - intros d' Hd'. unfold holder. rewrite truth_setShadow by lia. by apply lv_gone0.
    - apply put_guarantees; [done|]. intros d' Hd'. destruct (decide (d' = d)) as [->|Hnd']; [by right|left].
      split; [apply truth_setShadow; lia|]. intros p Hp. apply shadow_setShadow_ne; (lia || congruence).
    - unfold holder. cbn. rewrite truth_setShadow by lia. exact Hh. }
  apply Hst in Hw4. set (w5 := tick E _) in *. do 2 wp_step.
  destruct Hw4 as [[] Hh]. split; cbn; try done.
  - intros d' Hd'. destruct (decide (d' = d)) as [->|]; [by rewrite truth_setTruth_eq|]. rewrite truth_setTruth_ne by lia. auto.
  - intros d' Hd'. unfold holder. destruct (decide (d' = d)) as [->|]; [by rewrite truth_setTruth_eq|].
    rewrite truth_setTruth_ne by lia. apply lv_gone0. lia.
  - apply put_guarantees; [done|]. intros d' Hd'. destruct (decide (d' = d)) as [->|Hnd']; [by right|left].
    split; [apply truth_setTruth_ne; lia|]. intros p Hp. apply shadow_setTruth; lia.
Qed.

Lemma handOff_leaving fallback d w :
  0 <= d < nd -> leaving d w -> fallback = NoPeer /\ heir = None \/ 0 <= fallback < pc /\ fallback <> self ->
  wp (lifecycle.handOffOnLeave fallback d) E (fun _ w' => leaving (d + 1) w') w.
Proof.
  intros Hd Hw Hfb. unfold lifecycle.handOffOnLeave, loadDomainRecordSnapshot. do 6 wp_step. cbv beta.
  rewrite (lv_pc _ _ Hw), (lv_self _ _ Hw). apply (stable_leaving d) in Hw; [|lia]. set (w1 := tick E w) in *.
  assert (forall w', leaving (d + 1) w' -> wp (modify (upd_domain d LocalDomainView.resetOwnershipPins)) E (fun _ => leaving (d + 1)) w') as Hend.
  { intros w' Hw'. apply wp_modify. by apply leaving_local. }
  wp_step. apply wp_when.
  - intros Hh%Z.eqb_eq. wp_step. eapply wp_mono; [apply (successor_scan (holding_on d d) d d); [apply stable_holding; lia|by intros ? []|by split]|].
    intros p w2 [Hw2 Hp]. eapply wp_mono; [apply transfer_leaving; [done|exact Hw2|..]|intros ? w3; apply Hend].
    all: assert (forall x, 0 <= x < pc -> isNoPeer x = false) as Hx by (intros x Hx; unfold isNoPeer, NoPeer; apply Z.eqb_neq; lia).
    all: destruct Hp as [->|[Hp Hpne]]; [change (isNoPeer NoPeer) with true; cbv iota|by rewrite !(Hx p Hp)].
    all: destruct Hfb as [[-> Hnone]|[Hf Hfne]]; [change (isNoPeer NoPeer) with true; cbv iota|by rewrite !(Hx fallback Hf)].
    + lia.
    + rewrite Hnone in Hheir. done.
  - intros Hh%Z.eqb_neq. apply Hend. destruct Hw. split; try done. intros d' Hd'.
    destruct (decide (d' = d)) as [->|]; [done|]. apply lv_gone0. lia.
Qed.

Lemma sweep_leaving fallback k w :
  0 <= k <= nd -> leaving k w -> fallback = NoPeer /\ heir = None \/ 0 <= fallback < pc /\ fallback <> self ->
  wp (forM (zrange k nd) (lifecycle.handOffOnLeave fallback)) E (fun _ w' => leaving nd w') w.
Proof.
  remember (Z.to_nat (nd - k)) as n eqn:Hn. revert k w Hn. induction n as [|n IH]; intros k w Hn Hk Hw Hfb.
  - rewrite zrange_nil by lia. apply wp_ret. by replace nd with k by lia.
  - rewrite zrange_cons by lia. cbn [forM]. wp_step. eapply wp_mono; [apply handOff_leaving; [lia|done|done]|].
    intros ? w' Hw'. apply IH; [lia|lia|done|done].
Qed.

(** *** The claims *)

(** Besides, no claim before slot [k] is authored by the leaver. *)
Definition retracting (k : Z) (w : World.t) : Prop :=
  leaving nd w /\ forall p, 0 <= p < k -> ~ authored self (Region.claim (World.region w) p).

Lemma retracting_tick k w : retracting k w -> retracting k (tick E w).
Proof.
  intros [Hw Hc]. split; [by apply leaving_tick|]. intros p Hp Ha. apply (Hc p Hp).
  destruct (HE (World.accesses w) (World.region w)) as [_ _ Hcl _ _]. by apply Hcl.
Qed.

Lemma retract_leaving p w :
  0 <= p < pc -> retracting p w ->
  wp (stake.retract (recoveryAuthority.getClaimField p) self) E (fun _ w' => retracting (p + 1) w') w.
Proof.
  intros Hp Hw. unfold stake.retract, rmwIfTrue. do 3 wp_step. apply retracting_tick in Hw. set (w1 := tick E w) in *.
  cbn [stake.slot stake.store stake.isValidMagic stake.field stake.setField stake.empty_ recoveryAuthority.getClaimField claimLine].
  unfold RecoveryClaim_t.isValidMagic. set (c := Region.claim (World.region w1) p).
  assert (~ authored self c -> wp (let! _ := ret false in ret tt) E (fun _ w' => retracting (p + 1) w') w1) as Hskip.
  { intros Hn. wp_run. split; [apply Hw|]. intros q Hq. destruct (decide (q = p)) as [->|]; [done|]. apply Hw. lia. }
  destruct (Z.eqb_spec (RecoveryClaim_t.magic c) RecoveryClaim_t.Magic) as [Hm|Hm]; cbn [negb orb]; [|by apply Hskip; intros []].
  destruct (Z.eqb_spec (RecoveryClaim_t.recoveryAuthority c) self) as [Ha|Ha]; cbn [negb]; [|by apply Hskip; intros []].
  do 3 wp_step. apply wp_ret. apply retracting_tick in Hw. destruct Hw as [[] Hc]. split.
  - split; cbn; try done. apply put_guarantees; [done|]. by apply tokenG_records.
  - intros q Hq. cbn. destruct (decide (q = p)) as [->|]; [|rewrite claim_setClaim_ne by done; apply Hc; lia].
    rewrite claim_setClaim_eq. intros [_ Hn]. cbn in Hn. unfold NoPeer in Hn. lia.
Qed.

Lemma retracts_leaving k w :
  0 <= k <= pc -> retracting k w ->
  wp (forM (zrange k pc) (fun p => stake.retract (recoveryAuthority.getClaimField p) self)) E (fun _ w' => retracting pc w') w.
Proof.
  remember (Z.to_nat (pc - k)) as n eqn:Hn. revert k w Hn. induction n as [|n IH]; intros k w Hn Hk Hw.
  - rewrite zrange_nil by lia. apply wp_ret. by replace pc with k by lia.
  - rewrite zrange_cons by lia. cbn [forM]. wp_step. eapply wp_mono; [apply retract_leaving; [lia|done]|].
    intros ? w' Hw'. apply IH; [lia|lia|done].
Qed.

Lemma leave_drained w :
  leaving 0 w ->
  wp lifecycle.leaveMembership E (fun _ w' =>
    (forall d, 0 <= d < nd -> holder pc (World.region w') d <> self) /\
    (forall p, 0 <= p < pc -> ~ authored self (Region.claim (World.region w') p)) /\
    Member_t.status (Region.member (World.region w') self) = 0 /\
    (forall d, Bits.has (Member_t.loadParticipatingDomains (Region.member (World.region w') self)) d = false) /\
    guarantees (tokenG pc (fun _ h => h = self)) w') w.
Proof.
  intros Hw. unfold lifecycle.leaveMembership. wp_step. eapply wp_mono; [apply (fallback_scan 0); [lia|done]|].
  intros fallback w1 [Hw1 Hfb]. do 2 wp_step. cbv beta.
  unfold getDomainIdRange. rewrite (lv_nd _ _ Hw1). wp_step.
  eapply wp_mono; [apply (sweep_leaving fallback 0); [lia|done|done]|]. intros ? w2 Hw2. do 2 wp_step. cbv beta.
  rewrite (lv_self _ _ Hw2). unfold recoveryAuthority.retractClaimsBy. do 3 wp_step. cbv beta. rewrite (lv_pc _ _ Hw2).
  eapply wp_mono; [apply (retracts_leaving 0); [lia|split; [done|intros p ?; lia]]|]. intros ? w3 Hw3.
  unfold publishSelfMember. do 6 wp_step. cbv beta. set (w4 := World.with_local _ w3). wp_step.
  assert (retracting pc w4) as Hw4 by (split; [by apply leaving_local; [|apply Hw3]|apply Hw3]).
  assert (peerId_ (World.local w4) = self) as -> by apply Hw4.
  set (m := selfMember_ (World.local w4)). apply retracting_tick in Hw4. destruct Hw4 as [[] Hc]. cbn [World.region put].
  split_and!; [done|done|cbn; by rewrite member_setMember_eq| |].
  - intros d. cbn. rewrite member_setMember_eq. by apply Bits.isEmpty_true_has.
  - apply put_guarantees; [done|]. by apply tokenG_records.
Qed.
End departure.

(** C11: [leaveMembership] strands nothing, with the other peers at work.  Let
    them do anything between two accesses of the leaver but write a domain it
    holds, hand it a domain, author a claim in its name, corrupt a record or
    move the scan bound off it, which is what the drain before the leave and the
    token protocol give.  For peer 0, which the sweep falls back on, let some
    other active peer stay.  Then after the leave no record of a provisioned
    domain names the leaver, no recovery claim it authored stands, its slot is
    free and advertises nothing, and it has written no domain's lines but those
    that named it.  If moreover nobody else writes meanwhile, each domain it held
    has gone, at the next epoch and with the rest of its record kept, to the
    first active participant clockwise, else to the first active peer, else to
    peer 0, and every other record is untouched. *)
Theorem leaveMembership_strands_nothing E heir w :
  let s := World.local w in let r := World.region w in let pc := maxPeers s in let self := peerId_ s in
  0 <= self < pc /\ pc <= 64 /\ 0 <= numDomains s <= 64 ->
  respects E (drained pc self) ->
  match heir with
  | None => self <> 0
  | Some q => 0 <= q < pc /\ q <> self /\ present q r /\ forall n r, present q r -> present q (Env.interf E n r)
  end ->
  boundWithin pc self r -> guarantees (tokenG pc (fun _ h => h = self)) w ->
  (forall d, 0 <= d < numDomains s -> DomainRecord_t.isValidMagic (Region.truth pc r d) = true) ->
  wp lifecycle.leaveMembership E (fun _ w' =>
    (forall d, 0 <= d < numDomains s -> holder pc (World.region w') d <> self) /\
    (forall p, 0 <= p < pc -> ~ authored self (Region.claim (World.region w') p)) /\
    Member_t.status (Region.member (World.region w') self) = 0 /\
    (forall d, Bits.has (Member_t.loadParticipatingDomains (Region.member (World.region w') self)) d = false) /\
    guarantees (tokenG pc (fun _ h => h = self)) w' /\
    (quiet E -> forall d, 0 <= d < numDomains s -> Region.truth pc (World.region w') d =
      if holder pc r d =? self then handed (heirOf d r s) (Region.truth pc r d) else Region.truth pc r d)) w.
Proof.
  intros s r pc self Hdims HE Hheir Hb Hg Hrecs. eapply wp_mono.
  { eapply (wp_wlp E _ _ (fun _ w' => quiet E -> forall d, 0 <= d < numDomains s -> Region.truth pc (World.region w') d =
      if holder pc r d =? self then handed (heirOf d r s) (Region.truth pc r d) else Region.truth pc r d)).
    - apply (leave_drained E pc self (numDomains s) heir HE); [destruct heir as [q|]; [|done]; naive_solver|done|].
      split; try done; [destruct heir as [q|]; [apply Hheir|done]|lia].
    - destruct (lifecycle.leaveMembership E w) as [[[] w']|] eqn:Hrun; unfold wlp; rewrite Hrun; [|done]. intros Hq.
      assert (0 <= scanBound r s <= pc) as Hsb.
      { unfold scanBound. fold pc. destruct Hb as [->|Hb]; cbn; [lia|].
        destruct (Z.eqb_spec (u32 (PeerBound_t.peerScanBound (Region.peerBound r))) 0); cbn; lia. }
      pose proof (leave_spec E Hq r s ltac:(split_and!; apply Hdims || apply Hsb) Hrecs w eq_refl eq_refl) as H.
      unfold wp in H. rewrite Hrun in H. apply H. }
  intros [] w' [(H1 & H2 & H3 & H4 & H5) H6]. split_and!; done.
Qed.

(** A region nobody else writes is drained around anybody. *)
Lemma drained_refl pc self r : drained pc self r r.
Proof. by split. Qed.

(** Peer 1 leaves with the control domain in its hands; nobody is up, so the
    domain goes to peer 0. *)
Lemma leaveMembership_strands_nothing_witness :
  holder 2 (World.region sample_granted) 0 = 1 /\
  exists w', lifecycle.leaveMembership sample.env sample_granted = Some (tt, w') /\
    holder 2 (World.region w') 0 = 0 /\ Member_t.status (Region.member (World.region w') 1) = 0.
Proof.
  split; [vm_compute; reflexivity|].
  pose proof (leaveMembership_strands_nothing sample.env None sample_granted ltac:(vm_compute; split_and!; congruence)
    (sample.respects_env _ (drained_refl _ _)) ltac:(vm_compute; congruence) ltac:(left; vm_compute; reflexivity) ltac:(constructor)) as H.
  specialize (H ltac:(intros d Hd; assert (d = 0 \/ d = 1 \/ d = 2) as [->|[->| ->]] by (revert Hd; cbn; lia); vm_compute; reflexivity)).
  apply wp_elim in H as ([] & w' & Hrun & _ & _ & Hs & _ & _ & Hq). exists w'. split; [exact Hrun|]. split; [|exact Hs].
  pose proof (Hq sample_quiet 0 ltac:(cbn; lia)) as Ht. unfold holder. change 2 with (maxPeers (World.local sample_granted)).
  rewrite Ht. vm_compute. reflexivity.
Defined.
