(* ===== verification/Tournament.v ===== *)
(** * Tournament: the theorems on the Peterson policy

    Two views of one tree node are tied together: [lockNode] as the code
    performs it, access by access, and a two-process state machine whose steps
    are those accesses.  The code simulates the machine, and the machine never
    has both roles inside.  The climb path and the back-out of a failed climb
    follow. *)

From stdpp Require Import relations.
From S2P Require Import Prelude Bitmap Types Layout Region Effect World Runtime Ownership Policies Transfer Quiet Exclusion.
Import LocalPeerState peer_state PetersonNode_t.

(** ** One node as a state machine *)

Module node_machine.

(** Where one role stands in [lockNode]: before it, after the interest store,
    after the turn store and between two looks, after reading the other line,
    and past the lock. *)
Inductive pc := Idle | Announced | Spinning | Looked (otherOwner : Z) | Inside.

Record state := mk { node : PetersonNode_t.t; at_ : Role -> pc }.

Definition goto (r : Role) (p : pc) (s : Role -> pc) : Role -> pc :=
  fun r' => if decide (r' = r) then p else s r'.

(** One access of the process in role [r]. *)
Inductive access (r : Role) : PetersonNode_t.t -> pc -> PetersonNode_t.t -> pc -> Prop :=
| announce n id : id <> NoPeer -> access r n Idle (setPeerLine r id n) Announced
| yield n : access r n Announced (setFairness (Role_to_u32 (other r)) n) Spinning
| look n : access r n Spinning n (Looked (getPeerLine n (other r)))
| enter n v : v = NoPeer \/ turn n <> Role_to_u32 (other r) -> access r n (Looked v) n Inside
| again n v : v <> NoPeer -> turn n = Role_to_u32 (other r) -> access r n (Looked v) n Spinning
| back_out n : access r n Spinning (setPeerLine r NoPeer n) Idle
| leave_ n : access r n Inside (setPeerLine r NoPeer n) Idle.

Inductive step : state -> state -> Prop :=
| step_role r n p s : access r (node s) (at_ s r) n p -> step s (mk n (goto r p (at_ s))).

(** Past its turn store. *)
Definition yielded (p : pc) : Prop :=
  match p with Idle | Announced => False | Spinning | Looked _ | Inside => True end.

(** Bound to enter: inside, or having seen the other line idle. *)
Definition entering (p : pc) : Prop := p = Inside \/ p = Looked NoPeer.

Record inv (s : state) : Prop := {
  inv_line : forall r, getPeerLine (node s) r = NoPeer <-> at_ s r = Idle;
  inv_turn : exists r, turn (node s) = Role_to_u32 r;
  inv_entering : forall r, entering (at_ s r) -> yielded (at_ s (other r)) -> turn (node s) = Role_to_u32 r;
}.

Lemma other_ne r : other r <> r.
Proof. by destruct r. Qed.

Lemma role_cases r r' : r' = r \/ r' = other r.
Proof. destruct r, r'; auto. Qed.

Lemma goto_eq r p s : goto r p s r = p.
Proof. unfold goto. by rewrite decide_True. Qed.

Lemma goto_ne r p s : goto r p s (other r) = s (other r).
Proof. unfold goto. rewrite decide_False by apply other_ne. done. Qed.

Lemma getPeerLine_set_eq r v n : getPeerLine (setPeerLine r v n) r = v.
Proof. by destruct r. Qed.

Lemma getPeerLine_set_ne r v n : getPeerLine (setPeerLine r v n) (other r) = getPeerLine n (other r).
Proof. by destruct r. Qed.

Lemma turn_set_line r v n : turn (setPeerLine r v n) = turn n.
Proof. by destruct r. Qed.

Lemma getPeerLine_fairness r v n : getPeerLine (setFairness v n) r = getPeerLine n r.
Proof. by destruct r. Qed.

Lemma Role_to_u32_inj r r' : Role_to_u32 r = Role_to_u32 r' -> r = r'.
Proof. by destruct r, r'. Qed.

Lemma turn_not_other n r : (exists r, turn n = Role_to_u32 r) -> turn n <> Role_to_u32 (other r) -> turn n = Role_to_u32 r.
Proof. intros [r' ->] H. destruct (role_cases r r') as [->| ->]; done. Qed.

Create Rewrite HintDb peterson.
#[export] Hint Rewrite goto_eq goto_ne getPeerLine_set_eq getPeerLine_set_ne turn_set_line getPeerLine_fairness : peterson.

(** An invariant of [s] after role [r] stepped to [(n, p)], role by role. *)
Lemma inv_goto r n p s :
  (getPeerLine n r = NoPeer <-> p = Idle) ->
  (getPeerLine n (other r) = NoPeer <-> at_ s (other r) = Idle) ->
  (exists r', turn n = Role_to_u32 r') ->
  (entering p -> yielded (at_ s (other r)) -> turn n = Role_to_u32 r) ->
  (entering (at_ s (other r)) -> yielded p -> turn n = Role_to_u32 (other r)) ->
  inv (mk n (goto r p (at_ s))).
Proof.
  intros H1 H2 H3 H4 H5. split; cbn [node at_].
  - intros r'. destruct (role_cases r r') as [->| ->]; by autorewrite with peterson.
  - done.
  - intros r'. destruct (role_cases r r') as [->| ->].
    + by autorewrite with peterson.
    + assert (other (other r) = r) as -> by by destruct r. by autorewrite with peterson.
Qed.

Lemma inv_step s s' : inv s -> step s s' -> inv s'.
Proof.
  intros [Hl Ht He] Hs. destruct Hs as [r n p s Ha].
  pose proof (Hl (other r)) as Hlo. pose proof (He r) as Her. pose proof (He (other r)) as Heo.
  assert (other (other r) = r) as Hoo by by destruct r. rewrite Hoo in Heo.
  specialize (Hl r). clear He.
  destruct (at_ s r) eqn:Hp; inversion Ha; subst; clear Ha; apply inv_goto; autorewrite with peterson; try done.
  all: try (intros [?|?]; discriminate).
  all: try (rewrite Hl; split; discriminate).
  - by exists (other r).
  - intros [?|[= Hv]]; [done|]. rewrite (proj1 Hlo Hv). done.
  - intros _ Hy. match goal with H : _ \/ _ |- _ => destruct H as [-> | Hn] end.
    + apply Her; [by right|done].
    + by apply turn_not_other.
Qed.

Lemma inv_reachable s s' : inv s -> rtc step s s' -> inv s'.
Proof. intros Hi. induction 1 as [|s1 s2 s3 H1 _ IH]; [done|]. apply IH. by eapply inv_step. Qed.

(** A formatted node, nobody at it. *)
Definition start : state := mk (PetersonNode_t.mk NoPeer NoPeer 0) (fun _ => Idle).

Lemma inv_start : inv start.
Proof.
  split; cbn.
  - intros r. by destruct r.
  - by exists Peer0.
  - intros r [?|?]; done.
Qed.

(** C15: a tournament node is a mutual-exclusion lock.  Whatever the two
    contenders do from a freshly formatted node, access by access and in any
    interleaving, including contenders that give up at their deadline and come
    back, both are never inside at once. *)
Theorem node_mutual_exclusion s :
  rtc step start s -> ~ (at_ s Peer0 = Inside /\ at_ s Peer1 = Inside).
Proof.
  intros Hs [H0 H1]. destruct (inv_reachable _ _ inv_start Hs) as [_ _ He].
  pose proof (He Peer0) as E0. pose proof (He Peer1) as E1. cbn in E0, E1. rewrite H0, H1 in E0, E1.
  specialize (E0 (or_introl eq_refl) I). specialize (E1 (or_introl eq_refl) I). congruence.
Qed.
End node_machine.

(** ** The code at one node *)

Section contender.
Context (E : Env.t) (index : Z) (r : Role).

(** Where the contender in the other role stands, as far as this peer's run is
    concerned: [rival n region p] before the n-th access.  It only takes
    accesses of its own, and this peer's stores do not move it. *)
Context (rival : nat -> Region.t -> node_machine.pc -> Prop).

Definition rival_accesses (a b : PetersonNode_t.t * node_machine.pc) : Prop :=
  node_machine.access (other r) a.1 a.2 b.1 b.2.

Hypothesis Hrival : forall n rg p, rival n rg p ->
  exists p', rtc rival_accesses (PetersonPolicy.nodeAt index rg, p) (PetersonPolicy.nodeAt index (Env.interf E n rg), p') /\
    rival (S n) (Env.interf E n rg) p'.
Hypothesis Hkept : forall n rg p node', rival n rg p -> rival n (Region.setNode index node' rg) p.

(** Both contenders' places. *)
Definition both (mine theirs : node_machine.pc) : Role -> node_machine.pc :=
  fun r' => if decide (r' = r) then mine else theirs.

(** This peer is at [p], its rival somewhere the machine allows. *)
Definition placed (p : node_machine.pc) (w : World.t) : Prop :=
  exists theirs, rival (World.accesses w) (World.region w) theirs /\
    node_machine.inv (node_machine.mk (PetersonPolicy.nodeAt index (World.region w)) (both p theirs)).

Import node_machine.

Lemma inv_ext n s s' : (forall r', s r' = s' r') -> inv (mk n s) -> inv (mk n s').
Proof.
  intros Hs [Hl Ht He]. cbn in *. split; cbn; [|done|].
  - intros r'. by rewrite <- Hs.
  - intros r'. rewrite <- !Hs. apply He.
Qed.

Lemma both_mine p theirs : both p theirs r = p.
Proof. unfold both. by rewrite decide_True. Qed.

Lemma both_theirs p theirs : both p theirs (other r) = theirs.
Proof. unfold both. rewrite decide_False by apply other_ne. done. Qed.

Lemma inv_rival n p theirs n' theirs' :
  rtc rival_accesses (n, theirs) (n', theirs') -> inv (mk n (both p theirs)) -> inv (mk n' (both p theirs')).
Proof.
  intros Hr. remember (n, theirs) as a eqn:Ha. remember (n', theirs') as b eqn:Hb.
  revert n theirs Ha. induction Hr as [a|a [n1 t1] c Hac _ IH]; intros n theirs -> Hi.
  - by injection Hb as -> ->.
  - apply (IH Hb n1 t1 eq_refl). apply (inv_ext n1 (goto (other r) t1 (both p theirs))).
    { intros r'. destruct (role_cases r r') as [->| ->].
      - rewrite both_mine. unfold goto. rewrite decide_False by (apply not_eq_sym, other_ne). apply both_mine.
      - by rewrite goto_eq, both_theirs. }
    eapply inv_step; [exact Hi|]. apply (step_role (other r) n1 t1 (mk n (both p theirs))).
    cbn [node at_]. rewrite both_theirs. exact Hac.
Qed.

Lemma inv_mine n p theirs n' p' :
  access r n p n' p' -> inv (mk n (both p theirs)) -> inv (mk n' (both p' theirs)).
Proof.
  intros Ha Hi. apply (inv_ext n' (goto r p' (both p theirs))).
  - intros r'. destruct (role_cases r r') as [->| ->].
    + by rewrite goto_eq, both_mine.
    + by rewrite goto_ne, !both_theirs.
  - eapply inv_step; [exact Hi|]. apply (step_role r n' p' (mk n (both p theirs))).
    cbn [node at_]. by rewrite both_mine.
Qed.

Lemma placed_tick p w : placed p w -> placed p (tick E w).
Proof.
  intros (theirs & Hr & Hi). destruct (Hrival _ _ _ Hr) as (theirs' & Hs & Hr').
  exists theirs'. split; [exact Hr'|]. by eapply inv_rival.
Qed.

Lemma placed_look p p' w :
  placed p w -> access r (PetersonPolicy.nodeAt index (World.region w)) p (PetersonPolicy.nodeAt index (World.region w)) p' ->
  placed p' w.
Proof. intros (theirs & Hr & Hi) Ha. exists theirs. split; [done|]. by eapply inv_mine. Qed.

Lemma placed_store p p' f w :
  placed p w -> access r (PetersonPolicy.nodeAt index (World.region w)) p (f (PetersonPolicy.nodeAt index (World.region w))) p' ->
  placed p' (put (fun rg => Region.setNode index (f (PetersonPolicy.nodeAt index rg)) rg) w).
Proof.
  intros (theirs & Hr & Hi) Ha. exists theirs. split; [by apply Hkept|].
  cbn [World.region put World.with_steps World.with_region].
  unfold PetersonPolicy.nodeAt at 1, Region.setNode. cbn [Region.nodes Region.with_nodes].
  rewrite lookup_total_insert_eq. by eapply inv_mine.
Qed.

Lemma lockNode_loop_placed fuel deadline w :
  placed Spinning w -> covered E fuel deadline (World.clockReads w) ->
  wp (PetersonPolicy.lockNode_loop fuel index (other r) deadline) E
    (fun won w' => placed (if won then Inside else Spinning) w') w.
Proof.
  revert w. induction fuel as [|fuel IH]; intros w Hp Hk; [by apply covered_pos in Hk|].
  cbn [PetersonPolicy.lockNode_loop]. do 4 wp_step.
  apply placed_tick in Hp. eapply placed_look in Hp; [|apply look]. apply placed_tick in Hp.
  set (v := getPeerLine _ _) in *. set (w1 := tick E (tick E w)) in *.
  change (World.clockReads w) with (World.clockReads w1) in Hk.
  case_if.
  - apply wp_ret. eapply placed_look; [exact Hp|]. apply enter.
    match goal with H : (_ || _)%bool = true |- _ => apply orb_true_iff in H as [H|H]; zbool; tauto end.
  - zbool. do 2 wp_step. set (w2 := World.with_clockReads _ w1).
    assert (placed Spinning w2) as Hp2 by (eapply placed_look in Hp; [exact Hp|apply again; tauto]).
    case_if; [by apply wp_ret|]. apply IH; [done|]. by apply covered_next.
Qed.

(** C16: [lockNode] excludes its rival.  Whatever the other contender of a node
    does meanwhile, [lockNode] returns by its deadline; when it answers true
    this peer's interest stands and the other role is not inside, and the
    machine's invariant keeps it out until the interest is cleared; when it
    answers false the interest is withdrawn. *)
Theorem lockNode_excludes budget deadline w theirs :
  clock_advances E budget -> timing.Deadline.ends_ deadline <= Env.clock E (World.clockReads w) + budget ->
  peerId_ (World.local w) <> NoPeer ->
  rival (World.accesses w) (World.region w) theirs ->
  inv (mk (PetersonPolicy.nodeAt index (World.region w)) (both Idle theirs)) ->
  wp (PetersonPolicy.lockNode index r deadline) E (fun won w' =>
    (getPeerLine (PetersonPolicy.nodeAt index (World.region w')) r = NoPeer <-> won = false) /\
    exists theirs', rival (World.accesses w') (World.region w') theirs' /\
      inv (mk (PetersonPolicy.nodeAt index (World.region w')) (both (if won then Inside else Idle) theirs')) /\
      (won = true -> theirs' <> Inside)) w.
Proof.
  intros Hadv Hend Hid Hr Hi. assert (placed Idle w) as Hp by by exists theirs.
  unfold PetersonPolicy.lockNode, PetersonPolicy.setPeerLine, PetersonPolicy.setFairness. do 2 wp_step. cbv beta.
  do 2 wp_step. apply placed_tick in Hp.
  eapply (placed_store _ Announced (setPeerLine r (peerId_ (World.local w)))) in Hp; [|by apply announce].
  do 2 wp_step. apply placed_tick in Hp.
  eapply (placed_store _ Spinning (setFairness (Role_to_u32 (other r)))) in Hp; [|by apply yield].
  do 3 wp_step. cbv beta. eapply wp_mono; [apply (lockNode_loop_placed _ _ _ Hp); by apply fuel_covers with budget|].
  assert (forall p w, placed p w -> getPeerLine (PetersonPolicy.nodeAt index (World.region w)) r = NoPeer <-> p = Idle) as Hline.
  { intros p w1 (t1 & _ & [Hl _ _]). specialize (Hl r). cbn [node at_] in Hl. by rewrite both_mine in Hl. }
  intros won w' Hp'. cbv beta. apply wp_bind. apply wp_when; destruct won; try discriminate; intros _.
  - unfold PetersonPolicy.unlockNode, PetersonPolicy.setPeerLine. apply wp_write. apply wp_ret. apply placed_tick in Hp'.
    eapply (placed_store _ Idle (setPeerLine r NoPeer)) in Hp'; [|by apply back_out].
    split; [by rewrite (Hline _ _ Hp')|]. destruct Hp' as (t' & ? & ?). by exists t'.
  - apply wp_ret. split; [rewrite (Hline _ _ Hp'); done|]. destruct Hp' as (t' & Hr' & [Hl Ht He]).
    exists t'. split_and!; [done|done|]. intros _ ->. cbn [node at_] in He.
    pose proof (He r) as E0. pose proof (He (other r)) as E1.
    assert (other (other r) = r) as Hoo by by destruct r. rewrite Hoo in E1. rewrite both_mine, both_theirs in E0, E1.
    specialize (E0 (or_introl eq_refl) I). specialize (E1 (or_introl eq_refl) I).
    rewrite E0 in E1. apply Role_to_u32_inj in E1. symmetry in E1. by apply other_ne in E1.
Qed.
End contender.

Lemma lockNode_excludes_witness :
  exists w', PetersonPolicy.lockNode 0 Peer1 (timing.Deadline.mk 500) sample.env
    (World.with_region (Region.setNode 0 (PetersonNode_t.mk NoPeer NoPeer 0) sample.region) (sample.world 1)) = Some (true, w') /\
    getPeerLine (PetersonPolicy.nodeAt 0 (World.region w')) Peer1 <> NoPeer.
Proof.
  set (w := World.with_region _ _).
  pose proof (lockNode_excludes sample.env 0 Peer1 (fun _ _ p => p = node_machine.Idle)
    ltac:(intros n rg p ->; exists node_machine.Idle; split; [constructor|reflexivity]) ltac:(done) (timing.Secs 1)
    (timing.Deadline.mk 500) w node_machine.Idle sample.advances_env ltac:(vm_compute; congruence)
    ltac:(vm_compute; congruence) eq_refl) as H.
  assert (node_machine.inv (node_machine.mk (PetersonPolicy.nodeAt 0 (World.region w)) (both Peer1 node_machine.Idle node_machine.Idle))) as Hi.
  { eapply inv_ext; [|exact node_machine.inv_start]. intros []; reflexivity. }
  specialize (H Hi). apply wp_elim in H as (won & w' & Hrun & Hl & _).
  assert (answer (PetersonPolicy.lockNode 0 Peer1 (timing.Deadline.mk 500)) sample.env w = Some true) as Ha by (vm_compute; reflexivity).
  pose proof (answer_run _ _ _ _ _ _ Hrun Ha) as ->. exists w'. split; [exact Hrun|]. intros Hn. apply Hl in Hn. discriminate Hn.
Defined.

Lemma node_mutual_exclusion_witness :
  exists s, rtc node_machine.step node_machine.start s /\ node_machine.at_ s Peer0 = node_machine.Inside /\
    ~ (node_machine.at_ s Peer0 = node_machine.Inside /\ node_machine.at_ s Peer1 = node_machine.Inside).
Proof.
  assert (exists s, rtc node_machine.step node_machine.start s /\ node_machine.at_ s Peer0 = node_machine.Inside) as (s & Hs & Hin).
  { eexists. split.
    - eapply rtc_l; [apply (node_machine.step_role Peer0), (node_machine.announce Peer0 _ 5); discriminate|].
      eapply rtc_l; [apply (node_machine.step_role Peer0), node_machine.yield|].
      eapply rtc_l; [apply (node_machine.step_role Peer0), node_machine.look|].
      eapply rtc_l; [apply (node_machine.step_role Peer0), node_machine.enter; left; reflexivity|].
      apply rtc_refl.
    - reflexivity. }
  exists s. split; [exact Hs|]. split; [exact Hin|]. exact (node_machine.node_mutual_exclusion s Hs).
Defined.

(** ** The climb path *)

(** Two paths meet as a tournament wants: nothing shared below the first common
    node, opposite roles there, one path above it. *)
Definition step_nodes (path : list PetersonPolicy.ClimbStep_t) : list Z := map PetersonPolicy.node path.

Definition meet (pa pb : list PetersonPolicy.ClimbStep_t) : Prop :=
  exists a sa b sb rest, pa = a ++ sa :: rest /\ pb = b ++ sb :: rest /\
    PetersonPolicy.node sa = PetersonPolicy.node sb /\ PetersonPolicy.role sa <> PetersonPolicy.role sb /\
    step_nodes a ## step_nodes pb /\ step_nodes b ## step_nodes pa.

#[global] Instance ClimbStep_eq_dec : EqDecision PetersonPolicy.ClimbStep_t.
Proof. solve_decision. Defined.

Definition sees (k : Z) (path : list PetersonPolicy.ClimbStep_t) : bool := existsb (fun s => PetersonPolicy.node s =? k) path.

Lemma sees_false k path : sees k path = false -> k ∉ step_nodes path.
Proof.
  intros H Hin. apply list_elem_of_fmap in Hin as (s & -> & Hs). apply list_elem_of_In in Hs.
  enough (sees (PetersonPolicy.node s) path = true) by congruence.
  apply existsb_exists. exists s. split; [done|]. apply Z.eqb_refl.
Qed.

Fixpoint meetb (pa pb : list PetersonPolicy.ClimbStep_t) : bool :=
  match pa, pb with
  | sa :: pa, sb :: pb =>
      if PetersonPolicy.node sa =? PetersonPolicy.node sb then
        negb (bool_decide (PetersonPolicy.role sa = PetersonPolicy.role sb)) && bool_decide (pa = pb)
      else
        negb (sees (PetersonPolicy.node sa) pb) && negb (sees (PetersonPolicy.node sb) pa) && meetb pa pb
  | _, _ => false
  end.

Lemma meetb_meet pa pb : meetb pa pb = true -> meet pa pb.
Proof.
  revert pb. induction pa as [|sa pa IH]; intros [|sb pb]; cbn [meetb]; try done.
  destruct (Z.eqb_spec (PetersonPolicy.node sa) (PetersonPolicy.node sb)) as [Hn|Hn]; intros H; zbool.
  - apply bool_decide_eq_true in H0 as <-. apply bool_decide_eq_false in H.
    exists [], sa, [], sb, pa. split_and!; [done|done|done|done|set_solver|set_solver].
  - apply sees_false in H, H1.
    destruct (IH _ H0) as (a & xa & b & xb & rest & -> & -> & Hnode & Hrole & Ha & Hb).
    exists (sa :: a), xa, (sb :: b), xb, rest. unfold step_nodes in *. cbn [map]. rewrite !map_app in *. cbn [map] in *.
    split_and!; [done|done|done|done|set_solver|set_solver].
Qed.

Definition paths_ok (leaves : Z) : bool :=
  forallb (fun p =>
    let path := PetersonPolicy.buildClimbPath leaves p in
    forallb (fun s => (0 <=? PetersonPolicy.node s) && (PetersonPolicy.node s <? leaves - 1)) path &&
    forallb (fun q => (p =? q) || meetb path (PetersonPolicy.buildClimbPath leaves q)) (zrange 0 leaves))
    (zrange 0 leaves).

(** The tree only depends on the rounded count, one of seven. *)
Lemma rounded_counts :
  forallb (fun n => let leaves := peterson_tree.roundUpPow2 n in
    (n <=? leaves) && (peterson_tree.roundUpPow2 leaves =? leaves) && existsb (Z.eqb leaves) [1; 2; 4; 8; 16; 32; 64])
    (zrange 1 65) = true.
Proof. vm_compute. reflexivity. Qed.

Lemma paths_ok_all : forallb paths_ok [1; 2; 4; 8; 16; 32; 64] = true.
Proof. vm_compute. reflexivity. Qed.

Lemma path_rounded n p :
  peterson_tree.roundUpPow2 (peterson_tree.roundUpPow2 n) = peterson_tree.roundUpPow2 n ->
  PetersonPolicy.buildClimbPath n p = PetersonPolicy.buildClimbPath (peterson_tree.roundUpPow2 n) p.
Proof. intros H. unfold PetersonPolicy.buildClimbPath. by rewrite H. Qed.

Lemma in_zrange (P : Z -> bool) lo hi x : forallb P (zrange lo hi) = true -> lo <= x < hi -> P x = true.
Proof. intros H Hx. apply (proj1 (forallb_forall P _) H). apply list_elem_of_In, elem_of_zrange. lia. Qed.

(** The climb paths form one tournament.  In every region of up to 64
    peers a peer's path stays inside its domain's tree, and the paths of two
    different peers share no node below the first common one, meet there in
    opposite roles, and are one path above it; so each slot of a node has at
    most one climber that has won every level below. *)
Theorem climb_paths_meet_once maxNumPeers p q :
  1 <= maxNumPeers <= 64 -> 0 <= p < maxNumPeers -> 0 <= q < maxNumPeers ->
  Forall (fun k => 0 <= k < peterson_tree.getNodesPerDomain maxNumPeers)
    (step_nodes (PetersonPolicy.buildClimbPath maxNumPeers p)) /\
  (p <> q -> meet (PetersonPolicy.buildClimbPath maxNumPeers p) (PetersonPolicy.buildClimbPath maxNumPeers q)).
Proof.
  intros Hm Hp Hq. pose proof (in_zrange _ _ _ maxNumPeers rounded_counts ltac:(lia)) as Hr. cbv beta zeta in Hr. zbool.
  match goal with H : existsb _ _ = true |- _ => apply existsb_exists in H as (leaves & Hin & ->%Z.eqb_eq%eq_sym) end.
  pose proof (proj1 (forallb_forall _ _) paths_ok_all _ Hin) as Hok.
  unfold peterson_tree.getNodesPerDomain. rewrite !(path_rounded maxNumPeers) by done.
  set (leaves := peterson_tree.roundUpPow2 maxNumPeers) in *.
  assert (1 <= leaves <= 64) as Hl by (cbn [In] in Hin; lia).
  pose proof (in_zrange _ _ _ p Hok ltac:(lia)) as Hpp. cbv zeta in Hpp. apply andb_prop in Hpp as [Hn Hall]. split.
  - apply Forall_forall. intros k (s & -> & Hs%list_elem_of_In)%list_elem_of_fmap.
    pose proof (proj1 (forallb_forall _ _) Hn s Hs) as Hk. cbv beta in Hk. zbool. rewrite u32_small; unfold in_u32; lia.
  - intros Hne. pose proof (in_zrange _ _ _ q Hall ltac:(lia)) as Hpq. cbv beta in Hpq.
    rewrite (proj2 (Z.eqb_neq p q) Hne) in Hpq. by apply meetb_meet.
Qed.

Lemma climb_paths_meet_once_witness :
  meet (PetersonPolicy.buildClimbPath 5 0) (PetersonPolicy.buildClimbPath 5 4).
Proof. apply (climb_paths_meet_once 5 0 4); lia. Defined.

(** ** A climb holds its whole path or nothing *)

Lemma elem_of_rev {A} (x : A) l : x ∈ rev l <-> x ∈ l.
Proof. by rewrite !list_elem_of_In, <- in_rev. Qed.

Section climbing.
Context (E : Env.t) (base : Z) (path : list PetersonPolicy.ClimbStep_t) (budget : Z) (deadline : timing.Deadline.t).

Definition own_line (s : PetersonPolicy.ClimbStep_t) (rg : Region.t) : Z :=
  getPeerLine (PetersonPolicy.nodeAt (base + PetersonPolicy.node s) rg) (PetersonPolicy.role s).

(** Nobody else writes this peer's slots on its path. *)
Hypothesis Halone : forall n rg s, s ∈ path -> own_line s (Env.interf E n rg) = own_line s rg.
Hypothesis Hdistinct : NoDup (step_nodes path).
Hypothesis Hmono : clock_monotone E.
Hypothesis Hadv : clock_advances E budget.

(** What every part of a climb keeps. *)
Definition climbing (w w' : World.t) : Prop :=
  World.local w' = World.local w /\ (World.clockReads w <= World.clockReads w')%nat.

Definition in_budget (w : World.t) : Prop :=
  timing.Deadline.ends_ deadline <= Env.clock E (World.clockReads w) + budget.

Lemma in_budget_later w w' : climbing w w' -> in_budget w -> in_budget w'.
Proof. intros [_ Hc] H. unfold in_budget in *. specialize (Hmono _ _ Hc). lia. Qed.

Lemma climbing_trans w1 w2 w3 : climbing w1 w2 -> climbing w2 w3 -> climbing w1 w3.
Proof. intros [H1 H2] [H3 H4]. split; [congruence|lia]. Qed.

(** The slots of the path after one of them was stored: [turn] lines aside. *)
Lemma own_line_store s s' f v w :
  s ∈ path -> s' ∈ path ->
  (forall n, getPeerLine (f n) (PetersonPolicy.role s) = v n) ->
  own_line s' (Region.setNode (base + PetersonPolicy.node s) (f (PetersonPolicy.nodeAt (base + PetersonPolicy.node s) (World.region w))) (World.region w))
  = if decide (s' = s) then v (PetersonPolicy.nodeAt (base + PetersonPolicy.node s) (World.region w)) else own_line s' (World.region w).
Proof.
  intros Hs Hs' Hf. unfold own_line, PetersonPolicy.nodeAt, Region.setNode. cbn [Region.nodes Region.with_nodes].
  destruct (decide (s' = s)) as [->|Hne]; [by rewrite lookup_total_insert_eq|].
  rewrite lookup_total_insert_ne; [done|]. intros Heq. apply Hne.
  apply list_elem_of_lookup in Hs as [i Hi], Hs' as [j Hj].
  assert (step_nodes path !! i = Some (PetersonPolicy.node s)) as Hi' by by apply list_lookup_fmap_Some; exists s.
  assert (step_nodes path !! j = Some (PetersonPolicy.node s')) as Hj'.
  { apply list_lookup_fmap_Some. by exists s'. }
  assert (PetersonPolicy.node s = PetersonPolicy.node s') as Hn by lia. rewrite <- Hn in Hj'.
  pose proof (NoDup_lookup _ _ _ _ Hdistinct Hi' Hj') as ->. congruence.
Qed.

(** The slots of the path read [lines]. *)
Definition slots (lines : PetersonPolicy.ClimbStep_t -> Z) (w : World.t) : Prop :=
  forall s, s ∈ path -> own_line s (World.region w) = lines s.

Lemma slots_tick lines w : slots lines w -> slots lines (tick E w).
Proof. intros H s Hs. cbn [World.region tick World.with_accesses World.with_region]. rewrite Halone by done. by apply H. Qed.

Definition upd (s : PetersonPolicy.ClimbStep_t) (v : Z) (lines : PetersonPolicy.ClimbStep_t -> Z) : PetersonPolicy.ClimbStep_t -> Z :=
  fun s' => if decide (s' = s) then v else lines s'.

Lemma setPeerLine_slots s v lines w (Q : unit -> World.t -> Prop) :
  s ∈ path -> slots lines w -> (forall w', climbing w w' -> slots (upd s v lines) w' -> Q tt w') ->
  wp (PetersonPolicy.setPeerLine (base + PetersonPolicy.node s) (PetersonPolicy.role s) v) E Q w.
Proof.
  intros Hs Hl HQ. apply slots_tick in Hl. unfold PetersonPolicy.setPeerLine. apply wp_write. apply HQ; [by split|].
  intros s' Hs'. cbn [put World.region World.with_steps World.with_region].
  rewrite (own_line_store s s' (setPeerLine (PetersonPolicy.role s) v) (fun _ => v)); [|done|done|].
  - unfold upd. destruct (decide (s' = s)); [done|by apply Hl].
  - intros n. apply node_machine.getPeerLine_set_eq.
Qed.

Lemma setFairness_slots s v lines w (Q : unit -> World.t -> Prop) :
  s ∈ path -> slots lines w -> (forall w', climbing w w' -> slots lines w' -> Q tt w') ->
  wp (PetersonPolicy.setFairness (base + PetersonPolicy.node s) v) E Q w.
Proof.
  intros Hs Hl HQ. apply slots_tick in Hl. unfold PetersonPolicy.setFairness. apply wp_write. apply HQ; [by split|].
  intros s' Hs'. cbn [put World.region World.with_steps World.with_region].
  rewrite (own_line_store s s' (setFairness v) (fun n => getPeerLine n (PetersonPolicy.role s))); [|done|done|].
  - destruct (decide (s' = s)) as [->|]; by apply Hl.
  - intros n. apply node_machine.getPeerLine_fairness.
Qed.

Lemma lockNode_loop_slots fuel index o lines w :
  slots lines w -> covered E fuel deadline (World.clockReads w) ->
  wp (PetersonPolicy.lockNode_loop fuel index o deadline) E (fun _ w' => climbing w w' /\ slots lines w') w.
Proof.
  revert w. induction fuel as [|fuel IH]; intros w Hl Hk; [by apply covered_pos in Hk|].
  cbn [PetersonPolicy.lockNode_loop]. do 4 wp_step. do 2 apply slots_tick in Hl. set (w1 := tick E (tick E w)) in *.
  case_if; [by apply wp_ret|]. do 2 wp_step. cbv beta. set (w2 := World.with_clockReads _ w1).
  assert (climbing w w2) as Hc by (split; [done|cbn; lia]).
  destruct (timing.Deadline.expiredAt _ _) eqn:Hx; [by apply wp_ret|].
  eapply wp_mono; [apply (IH w2); [done|by apply covered_next]|]. intros won w' [Hc' Hl']. split; [|done].
  by eapply climbing_trans.
Qed.

Lemma lockNode_slots s lines w :
  s ∈ path -> slots lines w -> in_budget w ->
  wp (PetersonPolicy.lockNode (base + PetersonPolicy.node s) (PetersonPolicy.role s) deadline) E
    (fun won w' => climbing w w' /\
       slots (upd s (if won then peerId_ (World.local w) else NoPeer) lines) w') w.
Proof.
  intros Hs Hl Hb. unfold PetersonPolicy.lockNode. do 2 wp_step. cbv beta.
  wp_step. apply (setPeerLine_slots s _ lines); [done|done|]. intros w1 Hc1 Hl1.
  wp_step. apply (setFairness_slots s _ (upd s (peerId_ (World.local w)) lines)); [done|done|]. intros w2 Hc2 Hl2.
  do 3 wp_step. cbv beta. pose proof (climbing_trans _ _ _ Hc1 Hc2) as Hc.
  eapply wp_mono.
  { apply (lockNode_loop_slots _ _ _ _ _ Hl2). apply fuel_covers with budget; [done|]. by apply (in_budget_later w). }
  intros won w3 [Hc3 Hl3]. cbv beta. pose proof (climbing_trans _ _ _ Hc Hc3) as Hc'.
  apply wp_bind, wp_when; destruct won; try discriminate; intros _; [|by apply wp_ret].
  unfold PetersonPolicy.unlockNode. apply (setPeerLine_slots s _ (upd s (peerId_ (World.local w)) lines)); [done|done|].
  intros w4 Hc4 Hl4. apply wp_ret. split; [by eapply climbing_trans|].
  intros s' Hs'. rewrite (Hl4 s' Hs'). unfold upd. by destruct (decide (s' = s)).
Qed.

(** Clearing a list of slots. *)
Lemma unlock_all l lines w :
  (forall s, s ∈ l -> s ∈ path) -> slots lines w ->
  wp (forM l (fun s => PetersonPolicy.unlockNode (base + PetersonPolicy.node s) (PetersonPolicy.role s))) E
    (fun _ w' => climbing w w' /\ slots (fun s => if decide (s ∈ l) then NoPeer else lines s) w') w.
Proof.
  revert lines w. induction l as [|s l IH]; intros lines w Hl Hs; cbn [forM].
  - apply wp_ret. split; [by split|]. intros s Hp. rewrite decide_False by apply not_elem_of_nil. by apply Hs.
  - apply wp_bind. unfold PetersonPolicy.unlockNode at 1.
    apply (setPeerLine_slots s _ lines); [apply Hl; by left|done|]. intros w1 Hc1 Hs1.
    eapply wp_mono; [apply (IH (upd s NoPeer lines)); [intros s' ?; apply Hl; by right|done]|].
    intros _ w2 [Hc2 Hs2]. split; [by eapply climbing_trans|]. intros s' Hp. rewrite (Hs2 s' Hp). unfold upd.
    destruct (decide (s' ∈ l)) as [Hin|Hin]; [by rewrite decide_True by (by right)|].
    destruct (decide (s' = s)) as [->|Hne]; [by rewrite decide_True by left|].
    rewrite decide_False; [done|]. rewrite elem_of_cons. tauto.
Qed.

Lemma climb_slots rest below w :
  rev below ++ rest = path -> in_budget w ->
  slots (fun s => if decide (s ∈ below) then peerId_ (World.local w) else NoPeer) w ->
  wp (PetersonPolicy.climb base rest below deadline) E
    (fun won w' => climbing w w' /\ slots (fun _ => if won then peerId_ (World.local w) else NoPeer) w') w.
Proof.
  revert below w. induction rest as [|s rest IH]; intros below w Hpath Hb Hs; cbn [PetersonPolicy.climb].
  - apply wp_ret. split; [by split|]. intros s Hin. rewrite (Hs s Hin). rewrite decide_True; [done|].
    rewrite <- Hpath, app_nil_r in Hin. by apply elem_of_rev.
  - assert (s ∈ path) as Hin by (rewrite <- Hpath; set_solver).
    apply wp_bind. eapply wp_mono; [by apply (lockNode_slots s)|]. intros won w1 [[Hl1 Hc1] Hs1]. cbv beta.
    assert (forall s', s' ∈ below -> s' ∈ path) as Hbelow.
    { intros s' Hs'. rewrite <- Hpath, elem_of_app. left. by apply elem_of_rev. }
    destruct won.
    + eapply wp_mono; [apply (IH (s :: below))|].
      * rewrite <- Hpath. cbn [rev]. by rewrite <- app_assoc.
      * apply (in_budget_later w); [by split|done].
      * rewrite Hl1. intros s' Hp. rewrite (Hs1 s' Hp). unfold upd.
        destruct (decide (s' = s)) as [->|Hne]; [by rewrite decide_True by left|].
        destruct (decide (s' ∈ below)); [by rewrite decide_True by (by right)|].
        rewrite decide_False; [done|]. rewrite elem_of_cons. tauto.
      * intros won w2 [Hc2 Hs2]. rewrite Hl1 in Hs2. split; [|done]. by apply (climbing_trans _ w1).
    + apply wp_bind. eapply wp_mono; [by apply (unlock_all below _ w1 Hbelow Hs1)|].
      intros _ w2 [Hc2 Hs2]. apply wp_ret. split; [by apply (climbing_trans _ w1)|].
      intros s' Hp. rewrite (Hs2 s' Hp). unfold upd.
      destruct (decide (s' ∈ below)); [done|]. by destruct (decide (s' = s)).
Qed.
End climbing.

(** The nodes of a path are distinct: each is half the heap index below it. *)
Lemma climb_from_below fuel cur s :
  s ∈ PetersonPolicy.climb_from fuel cur -> 2 * (PetersonPolicy.node s + 1) <= cur.
Proof.
  revert cur. induction fuel as [|fuel IH]; intros cur; cbn [PetersonPolicy.climb_from]; [by intros ?%not_elem_of_nil|].
  destruct (Z.ltb_spec 1 cur); [|by intros ?%not_elem_of_nil].
  intros [->|Hs]%elem_of_cons; cbn [PetersonPolicy.node].
  - Z.to_euclidean_division_equations; lia.
  - apply IH in Hs. Z.to_euclidean_division_equations; lia.
Qed.

Lemma climb_from_distinct fuel cur : NoDup (step_nodes (PetersonPolicy.climb_from fuel cur)).
Proof.
  revert cur. induction fuel as [|fuel IH]; intros cur; cbn [PetersonPolicy.climb_from]; [constructor|].
  destruct (Z.ltb_spec 1 cur); [|constructor]. cbn [step_nodes map PetersonPolicy.node]. constructor; [|apply IH].
  intros (s & Hn & Hs)%list_elem_of_fmap. apply climb_from_below in Hs. Z.to_euclidean_division_equations; lia.
Qed.

(** C17: [acquire] is all or nothing.  With this peer's slots on its path free
    and written by nobody else, the climb returns by its deadline; on success
    every slot of the path carries this peer, on failure every one of them is
    free again, so no partial residency is left behind. *)
Theorem acquire_all_or_nothing E budget domain deadline w :
  let s := World.local w in
  let path := PetersonPolicy.buildClimbPath (maxPeers s) (peerId_ s) in
  let line step rg := getPeerLine (PetersonPolicy.nodeAt (PetersonPolicy.treeBase s domain + PetersonPolicy.node step) rg) (PetersonPolicy.role step) in
  (forall n rg step, step ∈ path -> line step (Env.interf E n rg) = line step rg) ->
  clock_monotone E -> clock_advances E budget ->
  timing.Deadline.ends_ deadline <= Env.clock E (World.clockReads w) + budget ->
  (forall step, step ∈ path -> line step (World.region w) = NoPeer) ->
  wp (PetersonPolicy.acquire domain deadline) E (fun won w' =>
    World.local w' = s /\
    forall step, step ∈ path -> line step (World.region w') = if won then peerId_ s else NoPeer) w.
Proof.
  intros s path line Halone Hmono Hadv Hend Hfree. unfold PetersonPolicy.acquire. do 4 wp_step. cbv beta.
  eapply wp_mono; [apply (climb_slots E _ path budget deadline)|].
  - exact Halone.
  - apply climb_from_distinct.
  - done.
  - done.
  - done.
  - done.
  - intros step Hs. rewrite decide_False by apply not_elem_of_nil. by apply Hfree.
  - intros won w' [[Hl _] Hs]. split; [done|]. exact Hs.
Qed.

Lemma acquire_all_or_nothing_witness :
  exists w', PetersonPolicy.acquire 0 (timing.Deadline.mk 500) sample.env
    (World.with_region (Region.setNode 0 (PetersonNode_t.mk NoPeer NoPeer 0) sample.region) (sample.world 1)) = Some (true, w') /\
    getPeerLine (PetersonPolicy.nodeAt 0 (World.region w')) Peer1 = 1.
Proof.
  set (w := World.with_region _ _).
  assert (PetersonPolicy.buildClimbPath 2 1 = [PetersonPolicy.mkStep 0 Peer1]) as Hp by (vm_compute; reflexivity).
  pose proof (acquire_all_or_nothing sample.env (timing.Secs 1) 0 (timing.Deadline.mk 500) w
    ltac:(done) sample.monotone_env sample.advances_env ltac:(vm_compute; congruence)) as H.
  cbv zeta in H. change (maxPeers (World.local w)) with 2 in H. change (peerId_ (World.local w)) with 1 in H.
  rewrite Hp in H. specialize (H ltac:(intros step ->%list_elem_of_singleton; vm_compute; reflexivity)).
  apply wp_elim in H as (won & w' & Hrun & Hl & Hs).
  assert (answer (PetersonPolicy.acquire 0 (timing.Deadline.mk 500)) sample.env w = Some true) as Ha by (vm_compute; reflexivity).
  pose proof (answer_run _ _ _ _ _ _ Hrun Ha) as ->. exists w'. split; [exact Hrun|].
  exact (Hs (PetersonPolicy.mkStep 0 Peer1) ltac:(by left)).
Defined.
