(* ===== verification/Demand.v ===== *)
(** * Demand: the theorems on requests and grants

    The packed slot of the RequestAgg policy as a codec, the demand bit of a
    peer with several waiting threads, and who a Request unlock hands the
    domain to. *)

From S2P Require Import Prelude Bitmap Types Layout Region Effect World Runtime Ownership Policies Token Transfer Lifecycle Quiet Exclusion Registry.
Import LocalPeerState peer_state ownership_transfer.

(** ** The slice codec *)

Section codec.
Import RequestAggPolicy.

Lemma memcpy_length line offset bytes :
  (offset + length bytes <= length line)%nat -> length (memcpy line offset bytes) = length line.
Proof. intros H. unfold memcpy. rewrite !length_app, length_take, length_drop. lia. Qed.

Lemma memcpy_same line offset bytes :
  (offset + length bytes <= length line)%nat ->
  take (length bytes) (drop offset (memcpy line offset bytes)) = bytes.
Proof.
  intros H. unfold memcpy. rewrite drop_app_le by (rewrite length_take; lia).
  rewrite (drop_ge (take offset line)) by (rewrite length_take; lia). cbn. by rewrite take_app_length.
Qed.

Lemma memcpy_apart line offset bytes n at_ :
  (offset + length bytes <= length line)%nat ->
  (at_ + n <= offset \/ offset + length bytes <= at_)%nat ->
  take n (drop at_ (memcpy line offset bytes)) = take n (drop at_ line).
Proof.
  intros Hlen Hap. apply list_eq. intros i. destruct (decide (i < n)%nat) as [Hi|Hi].
  2:{ by rewrite !lookup_take_ge by lia. }
  rewrite !lookup_take_lt, !lookup_drop by lia. unfold memcpy. destruct Hap as [Hap|Hap].
  - rewrite lookup_app_l by (rewrite length_take; lia). by rewrite lookup_take_lt by lia.
  - rewrite lookup_app_r by (rewrite length_take; lia). rewrite length_take.
    rewrite lookup_app_r by lia. rewrite lookup_drop. f_equal. lia.
Qed.

(** A slot of whole cachelines' bytes, and an index whose slice is inside it. *)
Definition fits_slice (slot : AggregatedRequest_t.t) (i bytes : Z) : Prop :=
  0 <= i /\ 1 <= bytes /\ (i + 1) * bytes <= 64 /\ length (AggregatedRequest_t.packedBitmaps slot) = 64%nat.

Lemma packSlice_length slot i bytes bits :
  fits_slice slot i bytes -> length (AggregatedRequest_t.packedBitmaps (packSlice slot i bytes bits)) = 64%nat.
Proof.
  intros (Hi & Hb & Hf & Hl). unfold packSlice. cbn [AggregatedRequest_t.packedBitmaps].
  rewrite memcpy_length; [done|]. rewrite le_bytes_length, Hl. nia.
Qed.

Lemma unpack_pack_same slot i bytes bits :
  fits_slice slot i bytes ->
  unpackAggregatedRequest (packSlice slot i bytes bits) i bytes = Bits.mk [Bits.getWord bits 0 mod 256 ^ bytes].
Proof.
  intros (Hi & Hb & Hf & Hl). unfold unpackAggregatedRequest, packSlice. cbn [AggregatedRequest_t.packedBitmaps].
  set (bs := le_bytes (Z.to_nat bytes) (Bits.getWord bits 0)).
  assert (Z.to_nat bytes = length bs) as Hlen by (unfold bs; by rewrite le_bytes_length).
  rewrite Hlen, memcpy_same by (rewrite <- Hlen, Hl; nia).
  unfold bs. rewrite le_word_bytes, Z2Nat.id by lia. done.
Qed.

Lemma unpack_pack_other slot i j bytes bits :
  fits_slice slot i bytes -> 0 <= j -> j <> i ->
  unpackAggregatedRequest (packSlice slot i bytes bits) j bytes = unpackAggregatedRequest slot j bytes.
Proof.
  intros (Hi & Hb & Hf & Hl) Hj Hne. unfold unpackAggregatedRequest, packSlice. cbn [AggregatedRequest_t.packedBitmaps].
  rewrite memcpy_apart; [done|..]; rewrite le_bytes_length, ?Hl; [nia|].
  destruct (Z.lt_ge_cases j i); [left|right]; nia.
Qed.

(** The members of a group sit at distinct indices inside the slot. *)
Lemma elem_of_groupMembers p groupId groups pc :
  p ∈ groupMembers groupId groups pc <-> groupId <= p < pc /\ (p - groupId) mod groups = 0.
Proof.
  unfold groupMembers, IdRange. rewrite list_elem_of_In, filter_In, <- list_elem_of_In, elem_of_zrange, Z.eqb_eq. done.
Qed.

Lemma NoDup_groupMembers groupId groups pc : NoDup (groupMembers groupId groups pc).
Proof. unfold groupMembers. apply NoDup_ListNoDup, List.NoDup_filter, NoDup_ListNoDup, NoDup_zrange. Qed.

Lemma group_index_inj p q groupId groups :
  0 < groups -> (p - groupId) mod groups = 0 -> (q - groupId) mod groups = 0 -> p / groups = q / groups -> p = q.
Proof.
  intros Hg Hp Hq Hd. assert (p mod groups = q mod groups) as Hm.
  { apply Z.mod_divide in Hp as [a Ha], Hq as [b Hb]; [|lia..].
    replace p with (groupId + a * groups) by lia. replace q with (groupId + b * groups) by lia. by rewrite !Z.mod_add by lia. }
  pose proof (Z.div_mod p groups ltac:(lia)). pose proof (Z.div_mod q groups ltac:(lia)). nia.
Qed.

Lemma group_index_fits dc pc ag p :
  valid_dims dc pc ag -> 0 <= p < pc ->
  let groups := RequestAggLayout.getGroupCount ag dc pc in
  0 <= p / groups /\ (p / groups + 1) * RequestAggLayout.getBitmapBytes dc <= 64.
Proof.
  intros Hv Hp groups. pose proof (agg_group_count_bound _ _ _ Hv) as Hg. fold groups in Hg.
  apply valid_dims_range in Hv as (Hd & Hpc & Ha). destruct (members_per_slot_bound dc Hd) as (Hm & Hm' & Hw).
  split; [apply Z.div_pos; lia|].
  enough (p / groups < RequestAggLayout.getMembersPerSlot dc) by nia. apply Z.div_lt_upper_bound; [lia|].
  unfold groups, RequestAggLayout.getGroupCount, ceilDiv in *. set (m := RequestAggLayout.getMembersPerSlot dc) in *.
  rewrite u32_small by (unfold in_u32; nia).
  pose proof (Z.mul_succ_div_gt (pc + m - 1) m ltac:(lia)).
  destruct (Z.ltb_spec ag ((pc + m - 1) / m)); nia.
Qed.

(** The demand line of a peer as a grant scan reads it. *)
Definition demandOf (r : Region.t) (p : Z) : Bits.t := DemandLine_t.load (Region.demand r !!! p).

Section packing.
Context (E : Env.t) (Hq : quiet E).

Lemma Obs_loadPeer p :
  Obs E (request_demand.loadPeer p) (fun r s => if hasSuccessorArea s then demandOf r p else DomainBitmap_empty).
Proof.
  apply (Obs_bind E _ _ (fun _ s => hasSuccessorArea s) (fun (b : bool) r _ => if b then demandOf r p else DomainBitmap_empty));
    [apply Obs_get|].
  intros b. apply Obs_if; [|apply Obs_ret].
  apply (Obs_bind E _ _ (fun r _ => Region.demand r !!! p) (fun line _ _ => DemandLine_t.load line)); [by apply Obs_read|].
  intros line. apply Obs_ret.
Qed.

(** What the packing loop has stored after the members [packed]. *)
Definition packed_slot (s : t) (r : Region.t) (packed : list Z) (slot : AggregatedRequest_t.t) : Prop :=
  length (AggregatedRequest_t.packedBitmaps slot) = 64%nat /\
  forall p, p ∈ packed -> unpackAggregatedRequest slot (p / getGroups s) (getBitmapBytes s) = demandOf r p.

Lemma demand_word r p : exists word, demandOf r p = Bits.mk [word] /\ in_u64 word.
Proof.
  unfold demandOf, DemandLine_t.load. rewrite load_words_eq. eexists. split; [reflexivity|]. apply u64_range.
Qed.

Section loop.
Context (s : t) (r : Region.t) (groupId : Z).
Hypothesis Hv : valid_dims (numDomains s) (maxPeers s) (aggregatorGroups s).
Hypothesis Harea : hasSuccessorArea s = true.
Hypothesis Hgid : 0 <= groupId.
Hypothesis Hsmall : forall p, 0 <= p < maxPeers s -> Bits.getWord (demandOf r p) 0 < 256 ^ getBitmapBytes s.

Lemma pack_one packed p slot :
  (forall q, q ∈ p :: packed -> q ∈ groupMembers groupId (getGroups s) (maxPeers s)) -> p ∉ packed ->
  packed_slot s r packed slot ->
  packed_slot s r (p :: packed) (packSlice slot (p / getGroups s) (getBitmapBytes s) (demandOf r p)).
Proof.
  intros Hm Hnew [Hlen Hp]. pose proof (agg_group_count_bound _ _ _ Hv) as Hg. fold (getGroups s) in Hg.
  destruct (members_per_slot_bound (numDomains s)) as (_ & _ & Hb); [by destruct (valid_dims_range _ _ _ Hv)|].
  assert (forall q, q ∈ p :: packed -> groupId <= q < maxPeers s /\ (q - groupId) mod getGroups s = 0) as Hm'.
  { intros q Hin. by apply elem_of_groupMembers, Hm. }
  destruct (Hm' p) as [Hr Hmod]; [by left|].
  destruct (group_index_fits _ _ _ p Hv ltac:(lia)) as [Hi Hi']. fold (getGroups s) (getBitmapBytes s) in Hi, Hi'.
  assert (fits_slice slot (p / getGroups s) (getBitmapBytes s)) as Hf.
  { split_and!; [lia|unfold getBitmapBytes; lia|lia|done]. }
  split; [by apply packSlice_length|]. intros q Hin. destruct (decide (q = p)) as [->|Hne].
  - rewrite unpack_pack_same by done. destruct (demand_word r p) as (word & Hw & Hu). pose proof (Hsmall p ltac:(lia)) as Hs.
    rewrite Hw in Hs |- *. change (Bits.getWord (Bits.mk [word]) 0) with word in *. unfold in_u64 in Hu. rewrite Z.mod_small by lia. done.
  - destruct (Hm' q Hin) as [Hrq Hmodq]. apply elem_of_cons in Hin as [?|Hin]; [done|].
    rewrite unpack_pack_other; [by apply Hp|done|apply Z.div_pos; lia|].
    intros Heq. apply Hne. by apply (group_index_inj q p groupId (getGroups s)); [lia|..].
Qed.

Lemma pack_loop l packed slot w :
  World.region w = r -> World.local w = s ->
  NoDup l -> (forall q, q ∈ packed \/ q ∈ l -> q ∈ groupMembers groupId (getGroups s) (maxPeers s)) ->
  (forall q, q ∈ l -> q ∉ packed) -> packed_slot s r packed slot ->
  wp (foldM l slot (fun aggregated peerId =>
        let! wanted := request_demand.loadPeer peerId in
        ret (packSlice aggregated (peerId / getGroups s) (getBitmapBytes s) wanted))) E
    (fun slot' w' => same w w' /\ packed_slot s r (rev l ++ packed) slot') w.
Proof.
  intros Hr Hl. revert packed slot w Hr Hl. induction l as [|p l IH]; intros packed slot w Hr Hl Hnd Hm Hnew Hp.
  - by apply wp_ret.
  - cbn [foldM]. apply NoDup_cons in Hnd as [Hpl Hnd]. apply wp_bind, wp_bind.
    apply (Obs_wp E _ _ _ _ (Obs_loadPeer p)). intros w1 Hs1. apply wp_ret. rewrite Hl, Hr, Harea.
    eapply wp_mono; [apply (IH (p :: packed))|].
    + by rewrite (same_region _ _ Hs1).
    + by rewrite (same_local _ _ Hs1).
    + done.
    + intros q [Hin|Hin]; apply Hm; [|right; by right]. apply elem_of_cons in Hin as [->|Hin]; [right; by left|by left].
    + intros q Hin [->|Hin']%elem_of_cons; [done|]. by apply (Hnew q); [right|].
    + apply pack_one; [|by apply Hnew; left|done]. intros q Hin. apply Hm.
      apply elem_of_cons in Hin as [->|Hin]; [right; by left|by left].
    + intros slot' w' [Hs' Hp']. split; [by transitivity w1|]. cbn [rev]. by rewrite <- app_assoc.
Qed.
End loop.

(** C18: the aggregated slot loses nobody's demand.  For every legal region the
    slice of each group member lies inside the 64-byte slot and overlaps no
    other, and packing the group's demand lines then unpacking a member's slice
    gives back exactly the bits that member published, as long as it asks only
    for provisioned domains. *)
Theorem aggregate_roundtrip groupId w :
  let s := World.local w in
  let groups := getGroups s in
  let bytes := getBitmapBytes s in
  valid_dims (numDomains s) (maxPeers s) (aggregatorGroups s) -> hasSuccessorArea s = true -> 0 <= groupId < groups ->
  (forall p, 0 <= p < maxPeers s -> Bits.getWord (demandOf (World.region w) p) 0 < 256 ^ bytes) ->
  wp (packAggregatedRequest groups bytes groupId) E (fun slot w' => same w w' /\
    forall p, p ∈ groupMembers groupId groups (maxPeers s) ->
      unpackAggregatedRequest slot (p / groups) bytes = demandOf (World.region w) p) w.
Proof.
  intros s groups bytes Hv Harea Hgid Hsmall. unfold packAggregatedRequest. do 2 wp_step. cbv beta. fold s.
  eapply wp_mono; [apply (pack_loop s (World.region w) groupId Hv Harea (proj1 Hgid) Hsmall _ [])|].
  - done.
  - done.
  - apply NoDup_groupMembers.
  - intros q [Hin%not_elem_of_nil|Hin]; done.
  - intros q _. apply not_elem_of_nil.
  - split; [done|]. by intros p Hin%not_elem_of_nil.
  - intros slot w' [Hs [_ Hp]]. split; [done|]. intros p Hin. apply Hp. rewrite app_nil_r.
    by rewrite list_elem_of_In, <- in_rev, <- list_elem_of_In.
Qed.
End packing.
End codec.

(** ** The demand bit of a peer with several waiters *)

(** A thread of this peer starts or stops waiting on a domain. *)
Definition event : Type := Z * bool.

Definition bump (d : Z) (requesting : bool) (count : Z -> Z) : Z -> Z :=
  fun d' => if d' =? d then if requesting then count d + 1 else Z.max 0 (count d - 1) else count d'.

(** Threads still waiting per domain after the events; a stop with nobody
    waiting is ignored. *)
Fixpoint outstanding (events : list event) (count : Z -> Z) : Z -> Z :=
  match events with
  | [] => count
  | (d, requesting) :: rest => outstanding rest (bump d requesting count)
  end.

Lemma bump_ne d b count d' : d' <> d -> bump d b count d' = count d'.
Proof. intros Hne. unfold bump. by rewrite (proj2 (Z.eqb_neq d' d)). Qed.

Section waiters.
Context (E : Env.t) (self : Z).

Record counted (count : Z -> Z) (w : World.t) : Prop := {
  counted_self : peerId_ (World.local w) = self /\ hasSuccessorArea (World.local w) = true;
  counted_waiters : forall d, 0 <= d < 64 -> default 0 (pendingWaiters_ (World.local w) !! d) = count d;
  counted_wf : Bits.wf MaxDomains (selfPending_ (World.local w));
  counted_bits : forall d, 0 <= d < 64 -> Bits.has (selfPending_ (World.local w)) d = (0 <? count d);
  counted_line : demandOf (World.region w) self = selfPending_ (World.local w);
}.

Lemma countWaiter_spec d b s count :
  0 <= d < 64 -> 0 <= count d < 2 ^ 32 - 1 -> default 0 (pendingWaiters_ s !! d) = count d ->
  countWaiter d b s =
    with_selfPending_ (if 0 <? bump d b count d then Bits.set (selfPending_ s) d else Bits.clear (selfPending_ s) d)
      (with_pendingWaiters_ (<[d := bump d b count d]> (pendingWaiters_ s)) s).
Proof.
  intros Hd Hc Hw. unfold countWaiter. rewrite Hw. unfold bump. rewrite Z.eqb_refl.
  assert ((if b then u32 (count d + 1) else if 0 <? count d then count d - 1 else count d)
    = (if b then count d + 1 else Z.max 0 (count d - 1))) as ->; [|done].
  destruct b; [by rewrite u32_small by (unfold in_u32; lia)|]. destruct (Z.ltb_spec 0 (count d)); lia.
Qed.

Lemma update_counted d b count w :
  0 <= d < 64 -> 0 <= count d < 2 ^ 32 - 1 -> counted count w ->
  wp (updateSelfPending d b request_demand.publishOwn) E (fun _ w' => counted (bump d b count) w') w.
Proof.
  intros Hd Hc [[Hs Ha] Hw Hwf Hb Hl]. unfold updateSelfPending, request_demand.publishOwn, request_demand.storePending.
  do 8 wp_step. cbv beta. rewrite (countWaiter_spec d b _ count) by auto.
  cbn [World.local World.with_local hasSuccessorArea]. set (s' := with_selfPending_ _ _).
  assert (hasSuccessorArea s' = true) as Ha' by done. rewrite Ha'. cbn [negb]. apply wp_write.
  assert (d / BitsPerWord < Z.of_nat (length (Bits.words_ (selfPending_ (World.local w))))) as Hlen.
  { rewrite (Bits.wf_len _ _ Hwf). change BitsPerWord with 64. rewrite Z.div_small by lia. done. }
  assert (Bits.wf MaxDomains (selfPending_ s')) as Hwf'.
  { unfold s'. cbn [selfPending_ with_selfPending_]. case_if; [apply Bits.wf_set|apply Bits.wf_clear]; done || apply Bits.fits_64. }
  split; cbn [World.local World.region put World.with_steps World.with_region tick World.with_accesses World.with_local].
  - by split.
  - intros d' Hd'. cbn [s' pendingWaiters_ with_selfPending_ with_pendingWaiters_].
    destruct (decide (d' = d)) as [->|Hne]; [by rewrite lookup_insert_eq|].
    rewrite lookup_insert_ne, bump_ne by done. by apply Hw.
  - done.
  - intros d' Hd'. cbn [s' selfPending_ with_selfPending_].
    destruct (0 <? bump d b count d) eqn:Hp; [rewrite Bits.has_set by (done || lia)|rewrite Bits.has_clear by (done || lia)].
    all: destruct (Z.eqb_spec d' d) as [->|Hne]; [by rewrite Hp|]; rewrite bump_ne by done; by apply Hb.
  - unfold demandOf. cbn [Region.demand Region.setDemand Region.with_demand].
    assert (peerId_ s' = self) as -> by done. rewrite lookup_total_insert_eq.
    by apply load_store_words.
Qed.

(** One demand bit serves every thread of a peer.  Whatever sequence of
    raises and drops the peer's threads make, after each of them the published
    demand line asks for a domain exactly when some thread still waits on it:
    a thread that gives up never withdraws another one's request, and no
    request outlives its last waiter. *)
Theorem demand_counts_waiters events count w :
  counted count w -> (forall d, 0 <= count d) ->
  Forall (fun e : event => 0 <= e.1 < 64) events ->
  (forall d, count d + Z.of_nat (length events) < 2 ^ 32 - 1) ->
  wp (forM events (fun e : event => if e.2 then request_demand.raise e.1 else request_demand.drop e.1)) E (fun _ w' =>
    counted (outstanding events count) w' /\
    forall d, 0 <= d < 64 -> Bits.has (demandOf (World.region w') self) d = (0 <? outstanding events count d)) w.
Proof.
  intros Hc Hpos Hev Hlen.
  enough (wp (forM events (fun e : event => if e.2 then request_demand.raise e.1 else request_demand.drop e.1)) E
    (fun _ w' => counted (outstanding events count) w') w) as Hwp.
  { eapply wp_mono; [exact Hwp|]. intros ? w' Hc'. split; [done|]. intros d Hd. rewrite (counted_line _ _ Hc').
    by apply (counted_bits _ _ Hc'). }
  revert count w Hc Hpos Hlen. induction Hev as [|[d b] events Hd _ IH]; intros count w Hc Hpos Hlen; [by apply wp_ret|].
  cbn [forM outstanding fst snd]. apply wp_bind.
  assert (wp (if b then request_demand.raise d else request_demand.drop d) E (fun _ w' => counted (bump d b count) w') w) as H1.
  { specialize (Hlen d) as Hd'. cbn [length fst] in Hd', Hd.
    destruct b; apply update_counted; try done; specialize (Hpos d); lia. }
  eapply wp_mono; [exact H1|]. intros ? w' Hc'. apply IH; [done|..].
  - intros d'. pose proof (Hpos d') as Hp'. specialize (Hpos d). unfold bump. repeat case_if; lia.
  - intros d'. specialize (Hlen d') as Ha. specialize (Hlen d) as Hb. specialize (Hpos d) as Hp. cbn [length] in Ha, Hb.
    unfold bump. destruct (Z.eqb_spec d' d); [destruct b; lia|lia].
Qed.
End waiters.

Definition sample_demand : World.t :=
  World.with_local (with_successorPolicyKind Request (sample.local 1))
    (World.with_region (format.beforeHeader 3 2 Request 0) (sample.world 1)).

Lemma sample_counted : counted 1 (fun _ => 0) sample_demand.
Proof.
  split.
  - split; reflexivity.
  - intros d _. reflexivity.
  - apply (wf_load_words [0]).
  - intros d _. apply (Bits.has_empty 64).
  - vm_compute. reflexivity.
Qed.

(** Two threads ask for domain 2, one gives up: the request stands. *)
Lemma demand_counts_waiters_witness :
  exists w', forM [(2, true); (2, true); (2, false)] (fun e : event => if e.2 then request_demand.raise e.1 else request_demand.drop e.1)
    sample.env sample_demand = Some (tt, w') /\ Bits.has (demandOf (World.region w') 1) 2 = true.
Proof.
  pose proof (demand_counts_waiters sample.env 1 [(2, true); (2, true); (2, false)] (fun _ => 0) sample_demand
    sample_counted ltac:(intros; lia) ltac:(do 3 (constructor; [cbn; lia|]); constructor) ltac:(intros; cbn; lia)) as H.
  apply wp_elim in H as ([] & w' & Hrun & _ & H). exists w'. split; [exact Hrun|]. exact (H 2 ltac:(lia)).
Defined.

Definition sample_aggregated : World.t :=
  World.with_local (with_successorPolicyKind RequestAgg (sample.local 1))
    (World.with_region (Region.setDemand 1 (DemandLine_t.mk [5]) (format.beforeHeader 3 2 RequestAgg 0)) (sample.world 1)).

Lemma aggregate_roundtrip_witness :
  exists slot w', RequestAggPolicy.packAggregatedRequest 1 1 0 sample.env sample_aggregated = Some (slot, w') /\
    RequestAggPolicy.unpackAggregatedRequest slot 1 1 = Bits.mk [5].
Proof.
  assert (RequestAggPolicy.getGroups (World.local sample_aggregated) = 1) as Hg by (vm_compute; reflexivity).
  assert (RequestAggPolicy.getBitmapBytes (World.local sample_aggregated) = 1) as Hb by (vm_compute; reflexivity).
  pose proof (aggregate_roundtrip sample.env sample_quiet 0 sample_aggregated) as H. cbv zeta in H. rewrite Hg, Hb in H.
  assert (forall p, 0 <= p < 2 -> Bits.getWord (demandOf (World.region sample_aggregated) p) 0 < 256) as Hs.
  { intros p Hp. assert (p = 0 \/ p = 1) as [->| ->] by lia; vm_compute; reflexivity. }
  assert (maxPeers (World.local sample_aggregated) = 2) as Hp by reflexivity.
  assert (numDomains (World.local sample_aggregated) = 3) as Hd by reflexivity.
  assert (aggregatorGroups (World.local sample_aggregated) = 0) as Ha by reflexivity.
  rewrite Hp, Hd, Ha in H. change (256 ^ 1) with 256 in H.
  specialize (H ltac:(split; [reflexivity|reflexivity|lia]) ltac:(vm_compute; reflexivity) ltac:(lia) Hs).
  apply wp_elim in H as (slot & w' & Hrun & _ & H). exists slot, w'. split; [exact Hrun|].
  apply (H 1). vm_compute. by right; left.
Defined.

(** ** Who an unlock hands the domain to *)

Section granting.
Context (E : Env.t) (Hq : quiet E).

Lemma guarded_quiet d nh w (Q : bool -> World.t -> Prop) :
  let pc := maxPeers (World.local w) in
  let rec := Region.truth pc (World.region w) d in
  LocalDomainView.pinCount (getDomain (World.local w) d) = 0 -> mayTransfer pc (peerId_ (World.local w)) nh rec = true ->
  (forall w', LocalDomainView.pinCount (getDomain (World.local w') d) = 0 ->
    World.region w' = Region.setTruth pc d (handed nh rec) (Region.setShadow pc d nh (handed nh rec) (World.region w)) ->
    Q true w') ->
  wp (transferOwnershipGuarded d nh) E Q w.
Proof.
  intros pc rec Hpin Hmay HQ. unfold transferOwnershipGuarded. do 2 wp_step. cbv beta.
  unfold LocalDomainView.tryBeginOwnershipTransfer. rewrite Hpin. cbn [fst snd negb Z.eqb].
  wp_step. apply (transfer_quiet E Hq); [done|]. intros w1 tbl Hl1 Hr1. wp_run. apply HQ; [|exact Hr1].
  cbn [World.local World.with_local]. by rewrite getDomain_upd_eq.
Qed.

(** The first peer clockwise whose demand line asks for the domain. *)
Definition requesterOf (d : Z) (r : Region.t) (s : t) : option Z :=
  find_first (fun p => Bits.has (demandOf r p) d) (getPeerRing s).

Lemma Obs_find_requester d l :
  Obs E (findM l (fun p => let! wanted := request_demand.loadPeer p in ret (Bits.has wanted d)))
    (fun r s => find_first (fun p => Bits.has (if hasSuccessorArea s then demandOf r p else DomainBitmap_empty) d) l).
Proof.
  apply Obs_findM. intros p.
  apply (Obs_bind E _ _ (fun r s => if hasSuccessorArea s then demandOf r p else DomainBitmap_empty) (fun wanted _ _ => Bits.has wanted d));
    [by apply Obs_loadPeer|]. intros wanted. apply Obs_ret.
Qed.

(** A Request unlock feeds the nearest requester.  The last thread to unlock
    a domain this peer holds hands it, at the next epoch, to the first peer
    clockwise whose demand line asks for it, in the truth record and in that
    peer's shadow; with nobody asking the domain stays; no other domain's
    record moves. *)
Theorem request_unlock_grants_nearest d w :
  let s := World.local w in let r := World.region w in let pc := maxPeers s in
  let rec := Region.truth pc r d in
  0 <= d < 64 -> 0 <= peerId_ s < pc -> pc <= 64 -> 0 < getPeerScanBound s <= pc -> hasSuccessorArea s = true ->
  LocalDomainView.pinCount (getDomain s d) = 1 ->
  DomainRecord_t.isValidMagic rec = true -> DomainRecord_t.getHolder rec = peerId_ s ->
  wp (RequestPolicy.unlock d) E (fun _ w' =>
    LocalDomainView.pinCount (getDomain (World.local w') d) = 0 /\
    (forall d', 0 <= d' < 64 -> d' <> d -> Region.truth pc (World.region w') d' = Region.truth pc r d') /\
    match requesterOf d r s with
    | Some p => p <> peerId_ s /\ Region.truth pc (World.region w') d = handed p rec /\
        Region.shadow pc (World.region w') d p = handed p rec
    | None => World.region w' = r
    end) w.
Proof.
  intros s r pc rec Hd Hself Hpc Hb Harea Hpin Hm Hh. unfold RequestPolicy.unlock, unpin. do 4 wp_step. cbv beta.
  cbn [World.local World.with_local]. set (w1 := World.with_local _ w).
  assert (LocalDomainView.pinCount (getDomain (World.local w1) d) = 0) as Hpin1.
  { unfold w1. cbn [World.local World.with_local]. rewrite getDomain_upd_eq. unfold LocalDomainView.unpinOwnership.
    fold s. by rewrite Hpin. }
  apply wp_when; intros Hc.
  2:{ unfold canTransferDomain, LocalDomainView.canTransferOwnership in Hc.
      change (upd_domain d LocalDomainView.unpinOwnership (World.local w)) with (World.local w1) in Hc.
      rewrite Hpin1 in Hc. done. }
  unfold RequestPolicy.transferOwnershipToRequester. do 4 wp_step. cbv beta.
  eapply Obs_wp; [apply Obs_find_requester|]. intros w2 [Hr2 Hl2 _].
  change (getPeerRing (World.local w1)) with (getPeerRing s). change (World.region w1) with r.
  assert (hasSuccessorArea (World.local w1) = true) as -> by exact Harea.
  fold (requesterOf d r s). destruct (requesterOf d r s) as [p|] eqn:Hreq.
  - apply find_first_Some in Hreq as [Hin _]. unfold getPeerRing in Hin.
    apply IdRing_ne in Hin as [Hpr Hne]; [|unfold in_u32; lia..].
    apply guarded_quiet.
    + by rewrite Hl2.
    + rewrite Hl2, Hr2. change (maxPeers (World.local w1)) with pc. change (peerId_ (World.local w1)) with (peerId_ s).
      change (World.region w1) with r. unfold mayTransfer. fold rec. rewrite Hm.
      unfold DomainRecord_t.getHolder in Hh. rewrite Hh, Z.eqb_refl, orb_true_r, (proj2 (Z.ltb_lt p pc)) by lia. done.
    + rewrite Hl2, Hr2. change (maxPeers (World.local w1)) with pc. change (World.region w1) with r. fold rec.
      intros w3 Hp3 Hr3. apply wp_ret. rewrite Hr3. split_and!; [done| |done| |].
      * intros d' Hd' Hne'. by rewrite truth_setTruth_ne, truth_setShadow by lia.
      * by rewrite truth_setTruth_eq.
      * by rewrite shadow_setTruth, shadow_setShadow_eq by lia.
  - apply wp_ret. apply wp_ret. rewrite Hr2, Hl2. done.
Qed.
End granting.

(** Peer 0 holds domain 0, pinned once; peer 1 asks for it. *)
Definition sample_requested : World.t :=
  World.with_local (upd_domain 0 (LocalDomainView.with_pinCount 1) (with_successorPolicyKind Request (sample.local 0)))
    (World.with_region (Region.setDemand 1 (DemandLine_t.mk [1]) (format.beforeHeader 3 2 Request 0)) (sample.world 0)).

Lemma request_unlock_grants_nearest_witness :
  exists w', RequestPolicy.unlock 0 sample.env sample_requested = Some (tt, w') /\
    DomainRecord_t.getHolder (Region.truth 2 (World.region w') 0) = 1.
Proof.
  pose proof (request_unlock_grants_nearest sample.env sample_quiet 0 sample_requested ltac:(lia)
    ltac:(vm_compute; split; congruence) ltac:(vm_compute; congruence) ltac:(vm_compute; split; congruence)
    ltac:(vm_compute; reflexivity) ltac:(vm_compute; reflexivity) ltac:(vm_compute; reflexivity) ltac:(vm_compute; reflexivity)) as H.
  apply wp_elim in H as ([] & w' & Hrun & _ & _ & H).
  assert (requesterOf 0 (World.region sample_requested) (World.local sample_requested) = Some 1) as Hreq by (vm_compute; reflexivity).
  cbv zeta in H. rewrite Hreq in H. destruct H as (_ & Ht & _). exists w'. split; [exact Hrun|].
  change (maxPeers (World.local sample_requested)) with 2 in Ht. rewrite Ht. reflexivity.
Defined.
