(* ===== verification/Failover.v ===== *)
(** * Failover: the theorems on failure detection and recovery

    The heartbeat judgement, who watches whom, the seizure of a dead peer's
    slot, the takeover of its domains and the end of a recovery. *)

From S2P Require Import Prelude Bitmap Types Layout Region Effect World Runtime Ownership StakeClaim Policies Recovery Lifecycle.
From S2P Require Import Token Transfer Quiet Exclusion Registry.
Import LocalPeerState peer_state ownership_transfer.

(** ** Failure detection *)

(** The age test, past the wrap-around of its subtraction. *)
Lemma isPastDeadWindow_iff stamp wall :
  in_u64 stamp -> in_u64 wall -> wall - stamp < 2 ^ 63 ->
  liveness.isPastDeadWindow stamp wall = true <-> config.liveness.DeadWindowEffective < wall - stamp.
Proof.
  unfold in_u64. intros Hs Hw Hd. unfold liveness.isPastDeadWindow, timing.WallStamp.ageAt.
  assert (0 <= config.liveness.DeadWindowEffective) as He by by vm_compute.
  destruct (Z.leb_spec wall stamp); [split; [done|lia]|].
  rewrite s64_small by lia. apply Z.ltb_lt.
Qed.

(** C19: [hasFailed] is exact.  It suspects a peer exactly when the stamp it
    judged is older than the dead window plus the clock-skew bound plus the
    cache's lifetime, on this host's wall clock; a stamp ahead of that clock is
    never suspected; and the stamp is either the cached one, cached no longer
    ago than that lifetime, or the slot's at the moment it was read. *)
Theorem hasFailed_exact E p w :
  let s := World.local w in
  let cached := memberCache_ s !!! p in
  let fresh := Region.member (World.region (tick E (World.with_clockReads (S (World.clockReads w)) w))) p in
  0 <= p < maxPeers s ->
  wp (liveness.hasFailed p) E (fun failed w' => exists stamp,
    (CachedMember_t.valid cached = true /\
       s64 (Env.clock E (World.clockReads w)) - CachedMember_t.stampNs cached <= config.membership.CacheTTL /\
       stamp = CachedMember_t.lastSeenNanos cached \/
     stamp = if Member_t.isValidMagic fresh then Member_t.lastSeenNanos fresh else 0) /\
    (in_u64 stamp -> in_u64 (Env.wall E (World.wallReads w)) -> Env.wall E (World.wallReads w) - stamp < 2 ^ 63 ->
     failed = true <-> config.liveness.DeadWindow + config.liveness.ClockSkewBound + config.membership.CacheTTL
       < Env.wall E (World.wallReads w) - stamp)) w.
Proof.
  intros s cached fresh Hp. unfold liveness.hasFailed, getMemberView. do 2 wp_step. cbv beta.
  unfold isValidPeer. fold s. rewrite (proj2 (Z.ltb_lt p (maxPeers s))) by lia. cbn [negb].
  do 3 wp_step. cbv beta. unfold isValidPeer. fold s. rewrite (proj2 (Z.ltb_lt p (maxPeers s))) by lia. cbn [negb].
  do 4 wp_step. cbv beta. fold s cached.
  destruct (CachedMember_t.valid cached && _) eqn:Hc.
  - do 4 wp_step. cbv beta. zbool. eexists. split; [left; eauto|]. intros. by apply isPastDeadWindow_iff.
  - unfold loadMemberSnapshot, cacheMemberSnapshot. do 5 wp_step. cbv beta. cbn [World.local World.with_clockReads tick World.with_accesses World.with_region].
    unfold isValidPeer. fold s. rewrite (proj2 (Z.ltb_lt p (maxPeers s))) by lia. cbn [negb].
    do 7 wp_step. cbv beta. eexists. split; [right; reflexivity|]. intros. by apply isPastDeadWindow_iff.
Qed.

(** ** Who watches whom *)

(** Steps clockwise from [a] to [b]. *)
Definition dist (n a b : Z) : Z := (b - a) mod n.

Lemma dist_ring n a i : 0 <= a < n -> 0 <= i < n - 1 -> dist n a ((a + 1 + i) mod n) = i + 1.
Proof.
  intros Ha Hi. unfold dist. rewrite Zminus_mod_idemp_l. replace (a + 1 + i - a) with (i + 1) by lia.
  apply Z.mod_small. lia.
Qed.

Lemma dist_cycle n a b : 0 <= a < n -> 0 <= b < n -> a <> b -> dist n a b + dist n b a = n.
Proof.
  intros Ha Hb Hne. unfold dist. destruct (Z.lt_ge_cases a b).
  - rewrite (Z.mod_small (b - a)) by lia. rewrite <- (Z.mod_add (a - b) 1 n), Z.mod_small by lia. lia.
  - rewrite (Z.mod_small (a - b)) by lia. rewrite <- (Z.mod_add (b - a) 1 n), Z.mod_small by lia. lia.
Qed.

Lemma dist_split n a t b : 0 <= a < n -> 0 <= t < n -> 0 <= b < n -> dist n a t < dist n a b ->
  dist n t b = dist n a b - dist n a t.
Proof.
  intros Ha Ht Hb Hlt. unfold dist in *. replace (b - t) with ((b - a) - (t - a)) by lia.
  rewrite Zminus_mod. apply Z.mod_small.
  pose proof (Z.mod_pos_bound (t - a) n ltac:(lia)). pose proof (Z.mod_pos_bound (b - a) n ltac:(lia)). lia.
Qed.

(** The first hit of a ring walk is the nearest clockwise. *)
Lemma find_first_ring (P : Z -> bool) a n t :
  0 <= a < n -> n <= 2 ^ 31 -> find_first P (IdRing a n) = Some t ->
  forall b, 0 <= b < n -> b <> a -> P b = true -> b <> t -> dist n a t < dist n a b.
Proof.
  intros Ha Hn Hf b Hb Hba HPb Hbt.
  assert (forall i x, IdRing a n !! i = Some x -> dist n a x = Z.of_nat i + 1) as Hdist.
  { intros i x Hx. assert (i < Z.to_nat (n - 1))%nat as Hi.
    { apply lookup_lt_Some in Hx. unfold IdRing, zrange in Hx. rewrite length_fmap, length_seqZ in Hx. lia. }
    rewrite IdRing_lookup in Hx by lia. injection Hx as <-. apply dist_ring; lia. }
  assert (b ∈ IdRing a n) as (j & Hj)%list_elem_of_lookup by (by apply elem_of_IdRing; [lia..|]).
  assert (exists i, IdRing a n !! i = Some t /\ forall k x, (k < i)%nat -> IdRing a n !! k = Some x -> P x = false) as (i & Hi & Hmin).
  { clear -Hf. revert Hf. generalize (IdRing a n). intros l. induction l as [|x l IH]; cbn; [done|].
    destruct (P x) eqn:HP.
    - intros [= ->]. exists 0%nat. split; [done|]. lia.
    - intros Hf. destruct (IH Hf) as (i & Hi & Hmin). exists (S i). split; [done|]. intros [|k] y Hk; cbn; [congruence|].
      apply Hmin. lia. }
  rewrite (Hdist i t Hi), (Hdist j b Hj). destruct (decide (j < i)%nat) as [Hlt|Hge].
  - rewrite (Hmin j b Hlt Hj) in HPb. done.
  - assert (j <> i) by (intros ->; congruence). lia.
Qed.

Lemma nearest_unique (P : Z -> bool) n a b t :
  0 <= a < n -> 0 <= b < n -> n <= 2 ^ 31 -> P a = true -> P b = true ->
  find_first P (IdRing a n) = Some t -> find_first P (IdRing b n) = Some t -> a = b.
Proof.
  intros Ha Hb Hn HPa HPb Hfa Hfb. destruct (decide (a = b)) as [|Hne]; [done|].
  pose proof Hfa as [Hta _]%find_first_Some. pose proof Hfb as [Htb _]%find_first_Some.
  apply elem_of_IdRing in Hta as [Ht Hta]; [|lia..]. apply elem_of_IdRing in Htb as [_ Htb]; [|lia..].
  pose proof (find_first_ring P a n t Ha Hn Hfa b Hb (not_eq_sym Hne) HPb (not_eq_sym Htb)) as H1.
  pose proof (find_first_ring P b n t Hb Hn Hfb a Ha Hne HPa (not_eq_sym Hta)) as H2.
  pose proof (dist_split n a t b Ha Ht Hb H1). pose proof (dist_split n b t a Hb Ht Ha H2).
  pose proof (dist_cycle n a b Ha Hb Hne). pose proof (dist_cycle n a t Ha Ht (not_eq_sym Hta)).
  pose proof (dist_cycle n b t Hb Ht (not_eq_sym Htb)). lia.
Qed.

(** The region as it was, and of this peer's state only its cache of members. *)
Definition walked (w w' : World.t) : Prop :=
  World.region w' = World.region w /\ World.steps w' = World.steps w /\
  exists cache, World.local w' = with_memberCache_ cache (World.local w).

Lemma walked_refl w : walked w w.
Proof. split_and!; [done|done|]. exists (memberCache_ (World.local w)). by destruct (World.local w). Qed.

Lemma walked_trans w1 w2 w3 : walked w1 w2 -> walked w2 w3 -> walked w1 w3.
Proof.
  intros (H1 & H2 & c & H3) (H4 & H5 & c' & H6). split_and!; [congruence|congruence|]. exists c'. rewrite H6, H3. done.
Qed.

Lemma walked_same w w' : same w w' -> walked w w'.
Proof. intros [H1 H2 H3]. split_and!; [done|done|]. exists (memberCache_ (World.local w)). rewrite H2. by destruct (World.local w). Qed.

Definition alive (r : Region.t) (p : Z) : bool := liveness.isAlive (Region.member r p).

(** What the walk answers: [None] with nobody alive, else a candidate with
    nobody alive before it that is alive or a stranded recovery. *)
Definition watches (r : Region.t) (ring : list Z) (found : option Z) : Prop :=
  match found with
  | None => forall p, p ∈ ring -> alive r p = false
  | Some p => exists before after, ring = before ++ p :: after /\ (forall q, q ∈ before -> alive r q = false) /\
      (alive r p = true \/ Member_t.isRecovering (Region.member r p) = true)
  end.

Lemma watches_nearest r ring :
  (forall p, p ∈ ring -> Member_t.isRecovering (Region.member r p) = false) ->
  forall found, watches r ring found -> found = find_first (alive r) ring.
Proof.
  intros Hnr [p|] Hf; cbn in Hf.
  - destruct Hf as (before & after & -> & Hb & Hp). unfold find_first.
    assert (alive r p = true) as Ha.
    { destruct Hp as [Hp|Hp]; [done|]. rewrite Hnr in Hp; [done|]. set_solver. }
    induction before as [|q before IH]; cbn; [by rewrite Ha|].
    rewrite Hb by by left. apply IH; [|intros x Hx; apply Hb; by right]. intros x Hx. apply Hnr. by right.
  - destruct (find_first (alive r) ring) as [p|] eqn:Hp; [|done]. apply find_first_Some in Hp as [Hin Ha].
    rewrite Hf in Ha by done. done.
Qed.

Section watching.
Context (E : Env.t) (Hq : quiet E).

Definition Walks {A} (m : M A) : Prop := forall w, wp m E (fun _ w' => walked w w') w.

Lemma Walks_bind {A B} (m : M A) (k : A -> M B) : Walks m -> (forall a, Walks (k a)) -> Walks (bind m k).
Proof.
  intros Hm Hk w. apply wp_bind. eapply wp_mono; [apply Hm|]. intros a w1 H1. eapply wp_mono; [apply Hk|].
  intros b w2 H2. exact (walked_trans _ _ _ H1 H2).
Qed.

Lemma Walks_ret {A} (a : A) : Walks (ret a).
Proof. intros w. apply wp_ret, walked_refl. Qed.

Lemma Walks_get {A} (f : t -> A) : Walks (get f).
Proof. intros w. apply wp_get, walked_refl. Qed.

Lemma Walks_read {A} (f : Region.t -> A) : Walks (read f).
Proof. intros w. apply wp_read. apply walked_same. by apply tick_same. Qed.

Lemma Walks_now : Walks now.
Proof. intros w. apply wp_now. by apply walked_same. Qed.

Lemma Walks_wallNow : Walks wallNow.
Proof. intros w. apply wp_wallNow. by apply walked_same. Qed.

Lemma Walks_cache p m : Walks (cacheMemberSnapshot p m).
Proof.
  apply Walks_bind; [apply Walks_get|]. intros []; [|apply Walks_ret]. apply Walks_bind; [apply Walks_now|].
  intros stamp w. apply wp_modify. split_and!; [done|done|]. eexists. reflexivity.
Qed.

Lemma Walks_hasFailed p : Walks (liveness.hasFailed p).
Proof.
  apply Walks_bind; [apply Walks_get|]. intros []; [|apply Walks_ret].
  apply Walks_bind; [|intros view; apply Walks_bind; [apply Walks_wallNow|intros; apply Walks_ret]].
  apply Walks_bind; [apply Walks_get|]. intros []; [|apply Walks_ret].
  apply Walks_bind; [apply Walks_get|]. intros slot. apply Walks_bind; [apply Walks_now|]. intros instant.
  destruct (CachedMember_t.valid slot && _); [apply Walks_ret|].
  apply Walks_bind; [apply Walks_read|]. intros m. apply Walks_bind; [apply Walks_cache|]. intros _. apply Walks_ret.
Qed.

Lemma Walks_stranded p : Walks (recoveryAuthority.isRecoveryStranded p).
Proof.
  apply Walks_bind; [apply Walks_bind; [apply Walks_read|intros; apply Walks_ret]|]. intros ra.
  apply Walks_bind; [apply Walks_get|]. intros []; [apply Walks_hasFailed|apply Walks_ret].
Qed.

Lemma watch_spec p w :
  wp (recoveryAuthority.watchCandidate p) E (fun hit w' => walked w w' /\
    (alive (World.region w) p = true -> hit = true) /\
    (hit = true -> alive (World.region w) p = true \/ Member_t.isRecovering (Region.member (World.region w) p) = true)) w.
Proof.
  unfold recoveryAuthority.watchCandidate, loadMemberSnapshot. wp_step.
  apply (Obs_wp E _ _ _ _ (Obs_read E Hq _)). intros w1 Hs1. wp_step.
  eapply wp_mono; [apply Walks_cache|]. intros ? w2 Hw2. cbv beta.
  pose proof (walked_trans _ _ _ (walked_same _ _ Hs1) Hw2) as Hw.
  unfold alive. destruct (liveness.isAlive (Region.member (World.region w) p)) eqn:Ha; [apply wp_ret; auto|].
  destruct (Member_t.isRecovering (Region.member (World.region w) p)) eqn:Hr; [|apply wp_ret; by split_and!].
  eapply wp_mono; [apply Walks_stranded|]. intros hit w3 Hw3. split_and!; [exact (walked_trans _ _ _ Hw Hw3)|done|by right].
Qed.

Lemma walk_spec ring w :
  wp (findM ring recoveryAuthority.watchCandidate) E (fun found w' => walked w w' /\ watches (World.region w) ring found) w.
Proof.
  revert w. induction ring as [|p ring IH]; intros w; cbn [findM].
  - apply wp_ret. split; [apply walked_refl|]. by intros p Hp%not_elem_of_nil.
  - wp_step. eapply wp_mono; [apply watch_spec|]. intros hit w1 (Hw1 & H1 & H2). cbv beta.
    destruct hit.
    + apply wp_ret. split; [done|]. exists [], ring. split_and!; [done|by intros q Hq'%not_elem_of_nil|auto].
    + assert (alive (World.region w) p = false) as Hp by (destruct (alive _ p); [by specialize (H1 eq_refl)|done]).
      eapply wp_mono; [apply IH|]. intros found w2 [Hw2 Hf]. split; [exact (walked_trans _ _ _ Hw1 Hw2)|].
      rewrite (proj1 Hw1) in Hf. destruct found as [q|].
      * destruct Hf as (before & after & -> & Hb & Hq'). exists (p :: before), after.
        split_and!; [done| |done]. intros x [->|Hx]%elem_of_cons; [done|by apply Hb].
      * intros x [->|Hx]%elem_of_cons; [done|by apply Hf].
Qed.

Lemma target_spec w :
  claimTarget_ (World.local w) = NoPeer ->
  wp recoveryAuthority.getRecoveryTarget E (fun target w' => walked w w' /\
    exists found, target = default NoPeer found /\ watches (World.region w) (getPeerRing (World.local w)) found) w.
Proof.
  intros Hl. unfold recoveryAuthority.getRecoveryTarget. do 2 wp_step. cbv beta. rewrite Hl. cbn [negb Z.eqb NoPeer].
  change (NoPeer =? NoPeer) with true. cbn [negb].
  do 3 wp_step. cbv beta. eapply wp_mono; [apply walk_spec|]. intros found w' [Hw Hf]. apply wp_ret. eauto.
Qed.
End watching.

Lemma nearest_exists (P : Z -> bool) n a b :
  0 <= a < n -> 0 <= b < n -> n <= 2 ^ 31 -> a <> b -> P b = true ->
  exists t, find_first P (IdRing a n) = Some t /\ P t = true /\ t <> a.
Proof.
  intros Ha Hb Hn Hne HP. destruct (find_first P (IdRing a n)) as [t|] eqn:Hf.
  - exists t. pose proof Hf as [Hin HPt]%find_first_Some. apply elem_of_IdRing in Hin as [_ Hta]; [|lia..]. done.
  - rewrite (find_first_None P _ Hf b) in HP; [done|]. by apply elem_of_IdRing; [lia..|].
Qed.

(** C20: every watched peer has one watcher.  While no recovery is under way in
    the region, a peer that is alive by its slot and not the only one watches an
    alive peer other than itself, and two different watchers never watch the
    same one: a crashed peer, whose slot still reads Active, is recovered by a
    single authority. *)
Theorem recovery_target_unique Ea Eb n r wa wb :
  quiet Ea -> quiet Eb -> World.region wa = r -> World.region wb = r -> n <= 64 ->
  getPeerScanBound (World.local wa) = n -> getPeerScanBound (World.local wb) = n ->
  claimTarget_ (World.local wa) = NoPeer -> claimTarget_ (World.local wb) = NoPeer ->
  let a := peerId_ (World.local wa) in let b := peerId_ (World.local wb) in
  0 <= a < n -> 0 <= b < n -> a <> b -> alive r a = true -> alive r b = true ->
  (forall p, 0 <= p < n -> Member_t.isRecovering (Region.member r p) = false) ->
  wp recoveryAuthority.getRecoveryTarget Ea (fun ta _ => alive r ta = true /\ ta <> a /\
    wp recoveryAuthority.getRecoveryTarget Eb (fun tb _ => alive r tb = true /\ tb <> b /\ tb <> ta) wb) wa.
Proof.
  intros Hqa Hqb Hra Hrb Hn Hna Hnb Hla Hlb a b Ha Hb Hne Haa Hab Hnr.
  assert (forall x found, 0 <= x < n -> watches r (IdRing x n) found -> found = find_first (alive r) (IdRing x n)) as Hw.
  { intros x found Hx. apply watches_nearest. intros p Hp. apply elem_of_IdRing in Hp; [|lia..]. apply Hnr. lia. }
  destruct (nearest_exists (alive r) n a b) as (ta & Hfa & Hta & Hne_a); [lia..|done|done|].
  destruct (nearest_exists (alive r) n b a) as (tb & Hfb & Htb & Hne_b); [lia..|by apply not_eq_sym|done|].
  eapply wp_mono; [by apply (target_spec Ea)|]. intros ? wa' (_ & fa & -> & Hwa). cbv beta.
  unfold getPeerRing in Hwa. rewrite Hra, Hna in Hwa. apply Hw in Hwa as ->; [|done]. fold a. rewrite Hfa. change (default NoPeer (Some ta)) with ta.
  split_and!; [done|done|].
  eapply wp_mono; [by apply (target_spec Eb)|]. intros ? wb' (_ & fb & -> & Hwb). cbv beta.
  unfold getPeerRing in Hwb. rewrite Hrb, Hnb in Hwb. apply Hw in Hwb as ->; [|done]. fold b. rewrite Hfb. change (default NoPeer (Some tb)) with tb.
  split_and!; [done|done|]. intros ->. apply Hne. by apply (nearest_unique (alive r) n a b ta); [lia..|done|done|done|].
Qed.

(** Both peers of the sample region up. *)
Definition sample_up : Region.t :=
  Region.setMember 0 (Member_t.setStatus Member_t.Active (Region.member sample.region 0))
    (Region.setMember 1 (Member_t.setStatus Member_t.Active (Region.member sample.region 1)) sample.region).

Lemma recovery_target_unique_witness :
  exists w', recoveryAuthority.getRecoveryTarget sample.env (World.with_region sample_up (sample.world 0)) = Some (1, w').
Proof.
  pose proof (recovery_target_unique sample.env sample.env 2 sample_up (World.with_region sample_up (sample.world 0))
    (World.with_region sample_up (sample.world 1)) sample_quiet sample_quiet eq_refl eq_refl ltac:(lia) eq_refl eq_refl eq_refl eq_refl
    ltac:(cbn; lia) ltac:(cbn; lia) ltac:(done) ltac:(vm_compute; reflexivity) ltac:(vm_compute; reflexivity)) as H.
  assert (forall p, 0 <= p < 2 -> Member_t.isRecovering (Region.member sample_up p) = false) as Hn.
  { intros p Hp. assert (p = 0 \/ p = 1) as [->| ->] by lia; vm_compute; reflexivity. }
  specialize (H Hn). apply wp_elim in H as (ta & w' & Hrun & _).
  assert (answer recoveryAuthority.getRecoveryTarget sample.env (World.with_region sample_up (sample.world 0)) = Some 1) as Hx
    by (vm_compute; reflexivity).
  pose proof (answer_run _ _ _ _ _ _ Hrun Hx) as ->. exists w'. exact Hrun.
Defined.

Lemma hasFailed_exact_witness :
  exists failed w', liveness.hasFailed 1 sample.env (sample.world 0) = Some (failed, w') /\ 0 <= 1 < maxPeers (World.local (sample.world 0)).
Proof.
  pose proof (hasFailed_exact sample.env 1 (sample.world 0) ltac:(cbn; lia)) as H.
  apply wp_elim in H as (failed & w' & Hrun & _). exists failed, w'. split; [exact Hrun|cbn; lia].
Defined.

(** ** Taking over a dead peer's domains *)

Definition claimHeld (r : Region.t) (self dead : Z) : bool :=
  stake.valueOf (recoveryAuthority.getClaimField dead) (Region.claim r dead) =? self.

Section takeover.
Context (E : Env.t) (Hq : quiet E) (dead : Z).

Lemma Obs_isClaimHeld : Obs E (recoveryAuthority.isClaimHeld dead) (fun r s => claimHeld r (peerId_ s) dead).
Proof.
  intros w. unfold recoveryAuthority.isClaimHeld, stake.isMine, stake.FieldWord_read. do 4 wp_step.
  apply (Obs_wp E _ _ _ _ (Obs_read E Hq _)). intros w1 Hs1. wp_run. done.
Qed.

(** The record of [d] names the dead peer. *)
Definition named (pc : Z) (w : World.t) (d : Z) : bool := DomainRecord_t.getHolder (Region.truth pc (World.region w) d) =? dead.
End takeover.

(** ** A takeover among live peers *)

Section entitled_takeover.
Context (E : Env.t) (pc self dead : Z).
Hypothesis Hpc : 0 <= self < pc /\ pc <= 64.
Hypothesis Hdead : dead <> self.

(** What the confirmed claim entitles its holder to. *)
Definition authority (d h : Z) : Prop := h = self \/ h = dead.
Hypothesis HE : respects E (tokenR pc authority).

Local Abbreviation ctx := (ctx pc self authority).
Local Abbreviation safe := (safe pc self authority).

Lemma Hself : forall d, authority d self.
Proof. by left. Qed.

Lemma takeover_safe d rec w :
  0 <= d < 64 -> ctx w -> holder pc (World.region w) d = dead ->
  wp (takeoverOwnership d rec) E (fun _ w' => safe w w') w.
Proof.
  intros Hd Hw Hh. unfold takeoverOwnership. do 2 wp_step. cbv beta zeta. rewrite (ctx_self _ _ _ _ Hw).
  wp_step. eapply wp_mono.
  { apply (publish_spec E pc self authority HE Hself Hpc d); [done|done| |by right; symmetry|cbn; lia].
    intros [Hp _]. congruence. }
  intros ? w1 (Hs1 & _). unfold adoptOwnership. apply wp_modify. eapply safe_trans; [exact Hs1|].
  apply safe_local; [by apply keeps_upd_domain; intros []|apply Hs1].
Qed.

Lemma takeoverLoop_safe l pass w :
  (forall d, d ∈ l -> 0 <= d < 64) -> ctx w ->
  wp (recovery.takeoverLoop l dead pass) E (fun _ w' => safe w w') w.
Proof.
  revert pass w. induction l as [|d l IH]; intros pass w Hl Hw; cbn [recovery.takeoverLoop]; [apply wp_ret; by apply safe_refl|].
  assert (forall d', d' ∈ l -> 0 <= d' < 64) as Hl' by (intros; apply Hl; by right).
  assert (0 <= d < 64) as Hd by (apply Hl; by left).
  unfold loadDomainRecordSnapshot at 1. do 4 wp_step. rewrite (ctx_pc _ _ _ _ Hw).
  pose proof (safe_tick E pc self authority HE Hself w Hw) as Hs1. set (w1 := tick E w) in *.
  destruct (Z.eqb_spec (DomainRecord_t.getHolder (Region.truth pc (World.region w1) d)) dead) as [Hh|Hh].
  - unfold recoveryAuthority.isClaimHeld, stake.isMine, stake.FieldWord_read. do 5 wp_step.
    pose proof (safe_tick E pc self authority HE Hself w1 (safe_ctx _ _ _ _ _ Hs1)) as Hs2. do 3 wp_step.
    set (w2 := tick E w1) in *. pose proof (safe_trans _ _ _ _ _ _ Hs1 Hs2) as Hs. case_if; [by apply wp_ret|].
    assert (holder pc (World.region w2) d = dead) as Hh2.
    { destruct (tick_mine E pc authority HE w1 d Hd) as [Hb _]; [right; exact Hh|]. exact (eq_trans (block_eq_holder _ _ _ _ Hb) Hh). }
    wp_step. eapply wp_mono; [by apply takeover_safe; [done|apply Hs|]|]. intros ? w3 Hs3.
    eapply wp_mono; [apply IH; [done|apply Hs3]|]. intros ? w4 Hs4.
    exact (safe_trans _ _ _ _ _ _ Hs (safe_trans _ _ _ _ _ _ Hs3 Hs4)).
  - eapply wp_mono; [apply IH; [done|apply Hs1]|]. intros ? w2 Hs2. exact (safe_trans _ _ _ _ _ _ Hs1 Hs2).
Qed.

(** C22: a takeover pass keeps the ownership protocol.  With every other peer
    at work, each within its own entitlement, the pass only ever stores to the
    lines of domains whose record names this authority or the peer it recovers,
    and never moves a domain a thread of this peer has pinned; so the exclusion
    theorem covers peers that recover others. *)
Theorem takeover_keeps_protocol w :
  ctx w -> 0 <= numDomains (World.local w) <= 64 ->
  wp (recovery.takeoverDomainsHeldByDeadPeer dead) E (fun _ w' => safe w w') w.
Proof.
  intros Hw Hn. unfold recovery.takeoverDomainsHeldByDeadPeer. do 2 wp_step. cbv beta.
  apply takeoverLoop_safe; [|done]. intros d Hd%elem_of_zrange. lia.
Qed.
End entitled_takeover.

(** ** A takeover pass, store by store *)

(** The recovery claim on [dead] names this peer. *)
Definition claimStands (self dead : Z) (r : Region.t) : bool :=
  (RecoveryClaim_t.magic (Region.claim r dead) =? RecoveryClaim_t.Magic) &&
  (RecoveryClaim_t.recoveryAuthority (Region.claim r dead) =? self).

Section takeover_stores.
Context (E : Env.t) (pc self dead : Z).
Hypothesis Hpc : 0 <= self < pc /\ pc <= 64.
Hypothesis Hdead : dead <> self.
(** The others write no domain that names this peer or the dead one, and none
    of them writes this peer's id into the claim. *)
Hypothesis HE : respects E (tokenR pc (authority self dead)).
Hypothesis Hclaim : forall n r, claimStands self dead r = false -> claimStands self dead (Env.interf E n r) = false.

(** A handoff the dead peer left half done: a shadow one epoch above the truth,
    which is not about to wrap. *)
Definition in_flight (r : Region.t) (d : Z) : Prop :=
  0 <= DomainRecord_t.epoch (Region.truth pc r d) < 2 ^ 64 - 9 /\
  forall p, 0 <= p < pc -> DomainRecord_t.epoch (Region.shadow pc r d p) <= DomainRecord_t.epoch (Region.truth pc r d) + 1.

(** Domain [d] is taken: the record it had under this peer's name, nine epochs
    on, in the truth and in this peer's shadow, above every other shadow; and
    this peer believes. *)
Record took (w w' : World.t) (d : Z) : Prop := {
  took_truth : let rec := Region.truth pc (World.region w) d in
    Region.truth pc (World.region w') d = DomainRecord_t.mk (DomainRecord_t.magic rec) (DomainRecord_t.state rec)
      (DomainRecord_t.generation rec) (DomainRecord_t.epoch rec + 9) self (DomainRecord_t.name rec);
  took_shadow : Region.shadow pc (World.region w') d self = Region.truth pc (World.region w') d;
  took_above : forall p, 0 <= p < pc -> p <> self ->
    DomainRecord_t.epoch (Region.shadow pc (World.region w') d p) < DomainRecord_t.epoch (Region.truth pc (World.region w') d);
  took_believes : believes w' d = true;
}.

(** The stores made while the claim did not stand. *)
Definition deposedStores (new : list (Region.t * Region.t)) : list (Region.t * Region.t) :=
  List.filter (fun step => negb (claimStands self dead step.1)) new.

(** What a pass over the domains [l] does, [new] being its stores, latest first. *)
Record passed (l : list Z) (pass res : recovery.TakeoverPass) (new : list (Region.t * Region.t)) (w w' : World.t) : Prop := {
  passed_steps : World.steps w' = new ++ World.steps w;
  passed_own : forall d, 0 <= d < 64 -> holder pc (World.region w) d = self ->
    block_eq pc (World.region w) (World.region w') d /\ getDomain (World.local w') d = getDomain (World.local w) d;
  passed_dead : forall d, d ∈ l -> holder pc (World.region w) d = dead -> in_flight (World.region w) d ->
    took w w' d \/ res = recovery.Deposed /\ block_eq pc (World.region w) (World.region w') d;
  passed_deposed : (length (deposedStores new) <= 2)%nat /\ (claimStands self dead (World.region w) = false -> new = []);
  passed_rest : Forall (fun step => Region.members step.2 = Region.members step.1 /\ Region.claims step.2 = Region.claims step.1) new;
  passed_answer : res = recovery.Deposed /\ claimStands self dead (World.region w') = false \/
    res = match new with [] => pass | _ => recovery.Touched end /\
    (new = [] -> forall d, d ∈ l -> holder pc (World.region w) d <> dead);
}.

Local Abbreviation identity w := (maxPeers (World.local w) = pc /\ peerId_ (World.local w) = self).

Lemma mine_block w d :
  0 <= d < 64 -> holder pc (World.region w) d = self \/ holder pc (World.region w) d = dead ->
  block_eq pc (World.region w) (World.region (tick E w)) d.
Proof. intros Hd Hh. apply HE; [done|]. destruct Hh; [by left|by right]. Qed.

(** Between two accesses of the pass: the domains it relies on stand, and a claim
    that was lost stays lost. *)
Record idle (w w' : World.t) : Prop := {
  idle_steps : World.steps w' = World.steps w;
  idle_local : World.local w' = World.local w;
  idle_block : forall d, 0 <= d < 64 -> holder pc (World.region w) d = self \/ holder pc (World.region w) d = dead ->
    block_eq pc (World.region w) (World.region w') d;
  idle_claim : claimStands self dead (World.region w) = false -> claimStands self dead (World.region w') = false;
}.

Lemma idle_tick w : idle w (tick E w).
Proof. split; [done|done|intros; by apply mine_block|apply Hclaim]. Qed.

Lemma idle_holder w w' d :
  idle w w' -> 0 <= d < 64 -> holder pc (World.region w) d = self \/ holder pc (World.region w) d = dead ->
  holder pc (World.region w') d = holder pc (World.region w) d.
Proof. intros Hi Hd Hm. by apply block_eq_holder, Hi. Qed.

Lemma idle_trans w w1 w2 : idle w w1 -> idle w1 w2 -> idle w w2.
Proof.
  intros Hi Hi'. pose proof Hi as [Hs Hl Hb Hc]. destruct Hi' as [Hs' Hl' Hb' Hc']. split; [congruence|congruence| |auto].
  intros d Hd Hm. apply (block_eq_trans _ _ (World.region w1)); [by apply Hb|]. apply Hb'; [done|]. by rewrite (idle_holder w w1 d Hi Hd Hm).
Qed.

(** A pass from the world a few accesses later. *)
Lemma took_block w w1 w' d : block_eq pc (World.region w) (World.region w1) d -> took w1 w' d -> took w w' d.
Proof. intros [Ht _] [H1 H2 H3 H4]. split; try done. cbv zeta in *. by rewrite H1, Ht. Qed.

Lemma in_flight_block w w1 d :
  block_eq pc (World.region w) (World.region w1) d -> in_flight (World.region w) d -> in_flight (World.region w1) d.
Proof. intros [Ht Hs] [Hf1 Hf2]. unfold in_flight. rewrite Ht. split; [done|]. intros p Hp. rewrite Hs by done. by apply Hf2. Qed.

Lemma passed_skip d l pass res new w w1 w' :
  (forall d', d' ∈ d :: l -> 0 <= d' < 64) -> idle w w1 -> holder pc (World.region w1) d <> dead ->
  passed l pass res new w1 w' -> passed (d :: l) pass res new w w'.
Proof.
  intros Hl Hi Hh [Hst Hown Htook [Hc Hc'] Hrest Hans]. pose proof Hi as [His Hil Hib Hic].
  assert (forall d', d' ∈ d :: l -> holder pc (World.region w) d' = dead -> d' ∈ l /\ holder pc (World.region w1) d' = dead) as Hin.
  { intros d' Hd' Hm. pose proof (idle_holder w w1 d' Hi (Hl d' Hd') (or_intror Hm)) as Heq. rewrite Hm in Heq. split; [|done].
    apply elem_of_cons in Hd' as [->|]; done. }
  split; [congruence|..|done|].
  - intros d' Hd' Hm. destruct (Hown d' Hd') as [Hbl Hv]; [by rewrite (idle_holder w w1 d' Hi Hd' (or_introl Hm))|].
    split; [by eapply block_eq_trans; [apply Hib; [|left]|]|congruence].
  - intros d' Hd' Hm Hf. destruct (Hin d' Hd' Hm) as [Hd'l Hm1]. pose proof (Hib d' (Hl d' Hd') (or_intror Hm)) as Hbl.
    destruct (Htook d' Hd'l Hm1) as [Hto|[-> Hbl']]; [by eapply in_flight_block|left; by eapply took_block|].
    right. split; [done|by eapply block_eq_trans].
  - split; [done|]. intros Hc0. by apply Hc', Hic.
  - destruct Hans as [?|[-> Hq]]; [by left|right]. split; [done|]. intros Hn d' Hd' Hm. destruct (Hin d' Hd' Hm) as [? ?]. by apply (Hq Hn d').
Qed.

(** A take's two stores touch no other domain this peer relies on. *)
Lemma put_other d d' rec r :
  0 <= d < 64 -> 0 <= d' < 64 -> d' <> d ->
  block_eq pc r (Region.setShadow pc d self rec r) d' /\ block_eq pc r (Region.setTruth pc d rec r) d'.
Proof.
  intros Hd Hd' Hne. split; (split; [|intros p Hp]).
  - apply truth_setShadow; lia.
  - apply shadow_setShadow_ne; (lia || congruence).
  - apply truth_setTruth_ne; lia.
  - apply shadow_setTruth; lia.
Qed.

(** The stores of one take, from the look that found the claim standing. *)
Lemma take_stores d rec w :
  0 <= d < 64 -> identity w -> holder pc (World.region w) d = dead -> Region.truth pc (World.region w) d = rec ->
  wp (takeoverOwnership d (DomainRecord_t.with_epoch (u64 (DomainRecord_t.epoch rec + config.recovery.SeizeEpochGap)) rec)) E
    (fun _ w' => identity w' /\
      (exists r1 r2 r3, World.steps w' = [(r3, World.region w'); (r1, r2)] ++ World.steps w /\
        (claimStands self dead (World.region w) = false -> claimStands self dead r1 = false) /\
        (claimStands self dead r1 = false -> claimStands self dead r3 = false) /\
        (claimStands self dead r3 = false -> claimStands self dead (World.region w') = false) /\
        Forall (fun step => Region.members step.2 = Region.members step.1 /\ Region.claims step.2 = Region.claims step.1)
          [(r3, World.region w'); (r1, r2)]) /\
      (forall d', 0 <= d' < 64 -> d' <> d -> holder pc (World.region w) d' = self \/ holder pc (World.region w) d' = dead ->
        block_eq pc (World.region w) (World.region w') d' /\ getDomain (World.local w') d' = getDomain (World.local w) d') /\
      holder pc (World.region w') d = self /\
      (in_flight (World.region w) d -> took w w' d)) w.
Proof.
  intros Hd [Hmax Hid] Hh Hrec. unfold takeoverOwnership, publishDomainRecord, adoptOwnership. do 4 wp_step. cbv beta zeta.
  rewrite Hid. cbn [DomainRecord_t.getHolder DomainRecord_t.holder DomainRecord_t.with_epoch DomainRecord_t.with_holder].
  set (rec' := DomainRecord_t.with_epoch _ _). do 3 wp_step. rewrite Hmax. change (DomainRecord_t.getHolder rec') with self.
  set (w1 := tick E w). set (w2 := put (Region.setShadow pc d self rec') w1). wp_step. set (w3 := tick E w2).
  set (w4 := put (Region.setTruth pc d rec') w3). wp_step. cbv beta.
  assert (forall d', 0 <= d' < 64 -> holder pc (World.region w) d' = self \/ holder pc (World.region w) d' = dead ->
    block_eq pc (World.region w) (World.region w1) d') as H1 by (intros; by apply mine_block).
  assert (forall d', 0 <= d' < 64 -> d' <> d -> holder pc (World.region w) d' = self \/ holder pc (World.region w) d' = dead ->
    block_eq pc (World.region w) (World.region w4) d') as Hother.
  { intros d' Hd' Hne Hm. pose proof (H1 d' Hd' Hm) as Hb1. destruct (put_other d d' rec' (World.region w1) Hd Hd' Hne) as [Hb2 _].
    pose proof (block_eq_trans _ _ _ _ _ Hb1 Hb2) as Hb12.
    assert (block_eq pc (World.region w2) (World.region w3) d') as Hb3.
    { apply mine_block; [done|]. by rewrite (block_eq_holder _ _ _ _ Hb12 : holder pc (World.region w2) d' = _). }
    destruct (put_other d d' rec' (World.region w3) Hd Hd' Hne) as [_ Hb4]. by do 2 (eapply block_eq_trans; [eassumption|]). }
  destruct (H1 d Hd (or_intror Hh)) as [Ht1 Hs1].
  assert (Region.truth pc (World.region w2) d = rec) as Ht2 by (etransitivity; [apply truth_setShadow; lia|congruence]).
  assert (block_eq pc (World.region w2) (World.region w3) d) as [_ Hs3].
  { apply mine_block; [done|]. right. unfold holder in *. congruence. }
  split_and!; [done|done|..].
  - exists (World.region w1), (World.region w2), (World.region w3). split_and!; [done|by apply Hclaim|by intros ?; apply Hclaim|done|by repeat constructor].
  - intros d' Hd' Hne Hm. split; [by apply Hother|]. cbn. by rewrite getDomain_upd_ne.
  - unfold holder. cbn. by rewrite truth_setTruth_eq.
  - intros [Hf Hfs]. rewrite Hrec in *.
    assert (DomainRecord_t.epoch rec' = DomainRecord_t.epoch rec + 9) as He.
    { unfold rec', config.recovery.SeizeEpochGap. cbn.
      rewrite (u64_small (DomainRecord_t.epoch rec + 8)) by (unfold in_u64; lia). rewrite u64_small by (unfold in_u64; lia). lia. }
    assert (Region.truth pc (World.region w4) d = rec') as Ht4 by apply truth_setTruth_eq.
    assert (forall p, 0 <= p < pc -> Region.shadow pc (World.region w4) d p = Region.shadow pc (World.region w2) d p) as Hs4.
    { intros p Hp. rewrite <- Hs3 by done. apply shadow_setTruth; lia. }
    split; cbn [World.region World.with_local]; rewrite ?Ht4.
    + cbv zeta. rewrite Hrec, <- He. reflexivity.
    + rewrite Hs4 by lia. apply shadow_setShadow_eq.
    + intros p Hp Hne. rewrite He, Hs4 by done. assert (Region.shadow pc (World.region w2) d p = Region.shadow pc (World.region w) d p) as ->.
      { rewrite <- Hs1 by done. apply shadow_setShadow_ne; (lia || congruence). }
      specialize (Hfs p Hp). lia.
    + unfold believes. cbn. by rewrite getDomain_upd_eq.
Qed.

(** A look that finds the claim gone ends the pass. *)
Lemma passed_stop d l pass w w2 :
  (forall d', d' ∈ d :: l -> 0 <= d' < 64) -> idle w w2 -> claimStands self dead (World.region w2) = false ->
  passed (d :: l) pass recovery.Deposed [] w w2.
Proof.
  intros Hl [His Hil Hib Hic] Hc. split; [done| | |split; [cbn; lia|done]|constructor|by left].
  - intros d' Hd' Hm. split; [apply Hib; [done|by left]|congruence].
  - intros d' Hd' Hm _. right. split; [done|]. apply Hib; [by apply Hl|by right].
Qed.

(** A take, and the pass over the rest. *)
Lemma passed_take d l pass res new r1 r2 r3 w w2 w3 w' :
  (forall d', d' ∈ d :: l -> 0 <= d' < 64) -> d ∉ l -> idle w w2 -> claimStands self dead (World.region w2) = true ->
  holder pc (World.region w2) d = dead ->
  World.steps w3 = [(r3, World.region w3); (r1, r2)] ++ World.steps w2 ->
  (claimStands self dead r1 = false -> claimStands self dead r3 = false) ->
  (claimStands self dead r3 = false -> claimStands self dead (World.region w3) = false) ->
  Forall (fun step => Region.members step.2 = Region.members step.1 /\ Region.claims step.2 = Region.claims step.1)
    [(r3, World.region w3); (r1, r2)] ->
  (forall d', 0 <= d' < 64 -> d' <> d -> holder pc (World.region w2) d' = self \/ holder pc (World.region w2) d' = dead ->
    block_eq pc (World.region w2) (World.region w3) d' /\ getDomain (World.local w3) d' = getDomain (World.local w2) d') ->
  holder pc (World.region w3) d = self -> (in_flight (World.region w2) d -> took w2 w3 d) ->
  passed l recovery.Touched res new w3 w' ->
  passed (d :: l) pass res (new ++ [(r3, World.region w3); (r1, r2)]) w w'.
Proof.
  intros Hl Hnl Hi Hc Hh Hst3 Hl1 Hl3 Hrest3 Hoth Hself3 Htook3 [Hst Hown Htook [Hd Hd'] Hrest Hans].
  pose proof Hi as [His Hil Hib Hic].
  assert (forall e, 0 <= e < 64 -> e <> d -> holder pc (World.region w) e = self \/ holder pc (World.region w) e = dead ->
    block_eq pc (World.region w) (World.region w3) e /\ holder pc (World.region w3) e = holder pc (World.region w) e /\
    getDomain (World.local w3) e = getDomain (World.local w) e) as Hto3.
  { intros e He Hne Hm. destruct (Hoth e He Hne) as [Hb3 Hv3]; [by rewrite (idle_holder w w2 e Hi He Hm)|].
    assert (block_eq pc (World.region w) (World.region w3) e) as Hb by (eapply block_eq_trans; [by apply Hib|done]).
    split_and!; [done|by apply block_eq_holder|congruence]. }
  split.
  - rewrite Hst, Hst3, His, app_assoc. done.
  - intros e He Hm. assert (e <> d) as Hne by (intros ->; pose proof (idle_holder w w2 d Hi He (or_introl Hm)); congruence). destruct (Hto3 e He Hne (or_introl Hm)) as (Hb & Hh3 & Hv).
    destruct (Hown e He) as [Hb' Hv']; [congruence|]. split; [by eapply block_eq_trans|congruence].
  - intros e He Hm Hf. apply elem_of_cons in He as [->|He].
    + left. assert (0 <= d < 64) as Hd64 by (apply Hl; left). pose proof (Hib d Hd64 (or_intror Hm)) as Hb.
      destruct (Htook3 (in_flight_block _ _ _ Hb Hf)) as [H1 H2 H3 H4]. destruct (Hown d Hd64 Hself3) as [[Ht' Hs'] Hv'].
      apply (took_block w w2); [done|]. destruct Hpc. split; [by cbv zeta; rewrite Ht'|rewrite Hs' by lia; congruence| |].
      * intros p Hp Hne. rewrite Ht', Hs' by done. by apply H3.
      * unfold believes in *. by rewrite Hv'.
    + assert (e <> d) as Hne by (intros ->; done). assert (0 <= e < 64) as He64 by (apply Hl; by right).
      destruct (Hto3 e He64 Hne (or_intror Hm)) as (Hb & Hh3 & _).
      destruct (Htook e He) as [Ht|[-> Hb']]; [congruence|by eapply in_flight_block|left; by eapply took_block|].
      right. split; [done|by eapply block_eq_trans].
  - split.
    + unfold deposedStores in *. rewrite List.filter_app, length_app. cbn.
      destruct (claimStands self dead r3) eqn:H3; cbn; [|rewrite (Hd' (Hl3 eq_refl)); cbn].
      * destruct (claimStands self dead r1) eqn:H1; cbn; [lia|]. by specialize (Hl1 eq_refl).
      * destruct (claimStands self dead r1); cbn; lia.
    + intros Hc0. rewrite (Hic Hc0) in Hc. done.
  - by apply Forall_app.
  - destruct Hans as [Hans|[-> _]]; [by left|right]. split; [by destruct new|]. by destruct new.
Qed.

Lemma takeoverLoop_passed l pass w :
  (forall d, d ∈ l -> 0 <= d < 64) -> NoDup l -> identity w ->
  wp (recovery.takeoverLoop l dead pass) E (fun res w' => exists new, passed l pass res new w w') w.
Proof.
  revert pass w. induction l as [|d l IH]; intros pass w Hl Hnd Hw; cbn [recovery.takeoverLoop].
  { apply wp_ret. exists []. split; [done|done| |split; [cbn; lia|done]|constructor|].
    - intros d Hd. by apply elem_of_nil in Hd.
    - right. split; [done|]. intros _ d Hd. by apply elem_of_nil in Hd. }
  apply NoDup_cons in Hnd as [Hd Hnd]. assert (forall d', d' ∈ l -> 0 <= d' < 64) as Hl' by (intros; apply Hl; by right).
  unfold loadDomainRecordSnapshot at 1. do 4 wp_step. rewrite (proj1 Hw). pose proof (idle_tick w) as Hi1. set (w1 := tick E w) in *.
  destruct (Z.eqb_spec (DomainRecord_t.getHolder (Region.truth pc (World.region w1) d)) dead) as [Hh|Hh].
  2:{ eapply wp_mono; [by apply (IH pass w1)|]. intros res w' [new Hp]. exists new. by eapply passed_skip. }
  unfold recoveryAuthority.isClaimHeld, stake.isMine, stake.FieldWord_read. do 5 wp_step. pose proof (idle_tick w1) as Hi2.
  set (w2 := tick E w1) in *. pose proof (idle_trans _ _ _ Hi1 Hi2) as Hi. do 3 wp_step.
  assert (identity w2) as Hw2 by (rewrite (idle_local _ _ Hi); exact Hw). change (tick E w1) with w2.
  change (World.local w1) with (World.local w). rewrite (proj2 Hw).
  assert ((stake.valueOf (recoveryAuthority.getClaimField dead) (stake.slot (recoveryAuthority.getClaimField dead) (World.region w2)) =? self)
    = claimStands self dead (World.region w2)) as ->.
  { unfold stake.valueOf, claimStands. cbn. unfold RecoveryClaim_t.isValidMagic. destruct (_ =? RecoveryClaim_t.Magic); [done|].
    cbn. apply Z.eqb_neq. unfold NoPeer. lia. }
  destruct (claimStands self dead (World.region w2)) eqn:Hc; cbn [negb]; [|by apply wp_ret; exists []; apply passed_stop].
  assert (0 <= d < 64) as Hd64 by (apply Hl; left).
  pose proof (idle_block _ _ Hi2 d Hd64 (or_intror Hh)) as Hb. pose proof (block_eq_holder _ _ _ _ Hb) as Hh2.
  change (DomainRecord_t.getHolder (Region.truth pc (World.region w1) d)) with (holder pc (World.region w1) d) in Hh. rewrite Hh in Hh2.
  wp_step. eapply wp_mono; [apply take_stores; [done|done|done|apply Hb]|].
  intros ? w3 (Hw3 & (r1 & r2 & r3 & Hst3 & _ & H1 & H3 & Hrest) & Hoth & Hs3 & Ht3).
  eapply wp_mono; [by apply (IH recovery.Touched w3)|]. intros res w' [new Hp]. eexists. by eapply passed_take.
Qed.

End takeover_stores.

(** ** The end of a recovery *)

(** The records, slots and claims as they were, and this peer's state. *)
Record framed (w w' : World.t) : Prop := {
  framed_records : Region.records (World.region w') = Region.records (World.region w);
  framed_members : Region.members (World.region w') = Region.members (World.region w);
  framed_claims : Region.claims (World.region w') = Region.claims (World.region w);
  framed_local : World.local w' = World.local w;
}.

#[export] Instance framed_preorder : PreOrder framed.
Proof. split; [by intros w|]. intros w w' w'' [? ? ? ?] [? ? ? ?]. split; congruence. Qed.

Section finishing.
Context (E : Env.t) (Hq : quiet E).

Definition Frames {A} (m : M A) : Prop := forall w, wp m E (fun _ w' => framed w w') w.

Lemma Frames_bind {A B} (m : M A) (k : A -> M B) : Frames m -> (forall a, Frames (k a)) -> Frames (bind m k).
Proof.
  intros Hm Hk w. apply wp_bind. eapply wp_mono; [apply Hm|]. intros a w1 H1. eapply wp_mono; [apply Hk|].
  intros b w2 H2. by transitivity w1.
Qed.

Lemma Frames_ret {A} (a : A) : Frames (ret a).
Proof. intros w. by apply wp_ret. Qed.

Lemma Frames_get {A} (f : t -> A) : Frames (get f).
Proof. intros w. by apply wp_get. Qed.

Lemma framed_same w w' : same w w' -> framed w w'.
Proof. intros [Hr Hl _]. split; by rewrite ?Hr. Qed.

Lemma Frames_read {A} (f : Region.t -> A) : Frames (read f).
Proof. intros w. apply wp_read. by apply framed_same, tick_same. Qed.

Lemma Frames_write f :
  (forall r, Region.records (f r) = Region.records r /\ Region.members (f r) = Region.members r /\
    Region.claims (f r) = Region.claims r) -> Frames (write f).
Proof.
  intros Hf w. apply wp_write. transitivity (tick E w); [by apply framed_same, tick_same|].
  destruct (Hf (World.region (tick E w))) as (? & ? & ?). by split.
Qed.

Lemma Frames_when b m : Frames m -> Frames (when b m).
Proof. intros Hm. destruct b; [done|apply Frames_ret]. Qed.

Lemma Frames_forM {A} (l : list A) body : (forall x, Frames (body x)) -> Frames (forM l body).
Proof.
  intros Hb. induction l as [|x l IH]; cbn [forM]; [apply Frames_ret|]. by apply Frames_bind.
Qed.

Lemma Frames_findM {A} (l : list A) test : (forall x, Frames (test x)) -> Frames (findM l test).
Proof.
  intros Hb. induction l as [|x l IH]; cbn [findM]; [apply Frames_ret|]. apply Frames_bind; [done|].
  intros []; [apply Frames_ret|done].
Qed.

Lemma Frames_scrub_line p : Frames (request_demand.scrub p).
Proof. apply Frames_bind; [apply Frames_get|]. intros []; [by apply Frames_write|apply Frames_ret]. Qed.

Lemma Frames_handDuty g p : Frames (RequestAggPolicy.handDuty g p).
Proof.
  apply Frames_bind; [apply Frames_read|]. intros snapshot. destruct (negb _); [apply Frames_ret|].
  apply Frames_bind; [apply Frames_get|]. intros groups. apply Frames_bind; [|intros next; by apply Frames_write].
  apply Frames_bind; [apply Frames_get|]. intros pc. apply Frames_bind; [|intros; apply Frames_ret].
  apply Frames_findM. intros q. destruct (q =? p); [apply Frames_ret|].
  apply Frames_bind; [apply Frames_read|intros; apply Frames_ret].
Qed.

Lemma Frames_cleanup p : Frames (PetersonPolicy.cleanupDeadPeer p).
Proof.
  do 2 (apply Frames_bind; [apply Frames_get|intros ?]). apply Frames_forM. intros step. apply Frames_forM. intros d.
  apply Frames_bind; [apply Frames_get|intros base]. apply Frames_bind; [apply Frames_read|intros owner].
  apply Frames_when, Frames_write. done.
Qed.

(** No policy's scrub touches what recovery itself works on. *)
Lemma Frames_scrub kind p : Frames (@scrubRecoveredPeer (policyOf kind) p).
Proof.
  destruct kind; cbn [policyOf scrubRecoveredPeer].
  - apply Frames_ret.
  - apply Frames_scrub_line.
  - apply Frames_bind; [apply Frames_scrub_line|intros ?]. apply Frames_bind; [apply Frames_get|intros ?]. apply Frames_handDuty.
  - apply Frames_cleanup.
Qed.

Section span.
Context (target : Z).

Lemma takeoverLoop_none l pass w :
  (forall d, d ∈ l -> named target (maxPeers (World.local w)) w d = false) ->
  wp (recovery.takeoverLoop l target pass) E (fun res w' => res = pass /\ same w w') w.
Proof.
  revert w. induction l as [|d l IH]; intros w Hn; cbn [recovery.takeoverLoop]; [by apply wp_ret|].
  wp_step. apply (Obs_wp E _ _ _ _ (Obs_loadDomainRecordSnapshot E Hq d)). intros w1 Hs1.
  fold (named target (maxPeers (World.local w)) w d). rewrite Hn by by left.
  eapply wp_mono; [apply (IH w1)|].
  - intros d' Hd'. unfold named. rewrite (same_region _ _ Hs1), (same_local _ _ Hs1). apply Hn. by right.
  - intros res w' [-> Hs]. split; [done|by transitivity w1].
Qed.

(** Nothing of the target is left to take, and the claim stands. *)
Definition settled (w : World.t) : Prop :=
  claimHeld (World.region w) (peerId_ (World.local w)) target = true /\
  forall d, 0 <= d < numDomains (World.local w) -> named target (maxPeers (World.local w)) w d = false.

Lemma span_turn w (Q : unit -> World.t -> Prop) :
  settled w ->
  (forall w1, World.region w1 = World.region w -> World.local w1 = (isRecoveryOngoing (World.local w)).2 ->
    if (isRecoveryOngoing (World.local w)).1 then Q tt w1
    else wp (recoveryAuthority.retractClaimsBy target ;;; recovery.finishRecoveryCleanup target ;;; recoveryAuthority.resetClaim) E Q w1) ->
  wp (recovery.serviceSpan target) E Q w.
Proof.
  intros [Hc Hn] HQ. unfold recovery.serviceSpan, recovery.takeoverDomainsHeldByDeadPeer. do 3 wp_step. cbv beta.
  eapply wp_mono; [apply takeoverLoop_none; intros d Hd%elem_of_zrange; apply Hn; lia|].
  intros res w1 [-> [Hr1 Hl1 _]]. cbv beta iota. do 2 wp_step. cbv beta. rewrite Hl1.
  set (w2 := World.with_local _ w1).
  assert (peerId_ (isRecoveryOngoing (World.local w)).2 = peerId_ (World.local w)) as Hid.
  { unfold isRecoveryOngoing. repeat case_if; done. }
  specialize (HQ w2 Hr1 eq_refl) as HQ2. specialize (fun w3 Hr3 => HQ w3 Hr3).
  destruct (isRecoveryOngoing (World.local w)).1.
  - apply wp_bind, wp_ret. apply HQ2.
  - apply wp_bind. apply (Obs_wp E _ _ _ _ (Obs_isClaimHeld E Hq target)). intros w3 [Hr3 Hl3 _].
    change (World.region w2) with (World.region w1). change (World.local w2) with (isRecoveryOngoing (World.local w)).2.
    rewrite Hr1, Hid, Hc. cbn [when]. apply HQ; [by rewrite Hr3|exact Hl3].
Qed.

Lemma span_ticks n c w :
  (n < c)%nat -> settled w -> recoveryCycles (World.local w) = Z.of_nat c ->
  wp (forM (replicate n tt) (fun _ => recovery.serviceSpan target)) E (fun _ w1 =>
    World.region w1 = World.region w /\ World.local w1 = with_recoveryCycles (Z.of_nat (c - n)) (World.local w)) w.
Proof.
  revert c w. induction n as [|n IH]; intros c w Hlt Hs Hc; cbn [replicate forM].
  - apply wp_ret. split; [done|]. rewrite Nat.sub_0_r, <- Hc. by destruct (World.local w).
  - assert (isRecoveryOngoing (World.local w) = (true, with_recoveryCycles (Z.of_nat (c - 1)) (World.local w))) as Hon.
    { unfold isRecoveryOngoing. rewrite Hc, (proj2 (Z.eqb_neq (Z.of_nat c) 0)) by lia. cbn [recoveryCycles with_recoveryCycles].
      rewrite (proj2 (Z.eqb_neq (Z.of_nat c - 1) 0)) by lia. by replace (Z.of_nat c - 1) with (Z.of_nat (c - 1)) by lia. }
    wp_step. apply span_turn; [done|]. rewrite Hon. cbn [fst snd]. intros w1 Hr1 Hl1.
    eapply wp_mono; [apply (IH (c - 1)%nat w1); [lia| |by rewrite Hl1]|].
    + unfold settled, named. rewrite Hr1, Hl1. exact Hs.
    + intros ? w2 [Hr2 Hl2]. split; [congruence|]. rewrite Hl2, Hl1.
      replace (c - 1 - n)%nat with (c - S n)%nat by lia. done.
Qed.

(** What the end of a recovery leaves. *)
Record finished (pc : Z) (w w' : World.t) : Prop := {
  finished_slot : Region.member (World.region w') target
    = Member_t.setStatus Member_t.None_ (Region.member (World.region w) target);
  finished_authored : forall p, 0 <= p < pc -> RecoveryClaim_t.isValidMagic (Region.claim (World.region w') p) = true ->
    RecoveryClaim_t.recoveryAuthority (Region.claim (World.region w') p) <> target;
  finished_claim : RecoveryClaim_t.recoveryAuthority (Region.claim (World.region w') target) = NoPeer;
  finished_records : Region.records (World.region w') = Region.records (World.region w);
  finished_local : claimTarget_ (World.local w') = NoPeer /\ Claim.isStaked (stake_ (World.local w')) = false /\
    orphanSweepPending (World.local w') = true;
}.

Lemma finish_spec w :
  let s := World.local w in
  0 <= peerId_ s < maxPeers s -> maxPeers s <= 64 -> 0 <= target < maxPeers s -> target <> peerId_ s ->
  claimHeld (World.region w) (peerId_ s) target = true -> Member_t.isValidMagic (Region.member (World.region w) target) = true ->
  claimTarget_ s = target -> Claim.isStaked (stake_ s) = true -> Claim.mine_ (stake_ s) = peerId_ s ->
  wp (recoveryAuthority.retractClaimsBy target ;;; recovery.finishRecoveryCleanup target ;;; recoveryAuthority.resetClaim) E
    (fun _ w' => finished (maxPeers s) w w') w.
Proof.
  intros s Hself Hpc Ht Hne Hc Hm Hlatch Hst Hmine.
  assert (RecoveryClaim_t.isValidMagic (Region.claim (World.region w) target) = true /\
    RecoveryClaim_t.recoveryAuthority (Region.claim (World.region w) target) = peerId_ s) as [Hcm Hcr].
  { unfold claimHeld, stake.valueOf in Hc. cbn in Hc. destruct (RecoveryClaim_t.isValidMagic _); zbool; [done|].
    unfold NoPeer in Hc. lia. }
  unfold recoveryAuthority.retractClaimsBy. do 3 wp_step. cbv beta. fold s.
  eapply wp_mono; [apply (retract_all E Hq target 0 (maxPeers s))|]. intros ? w1 (Hl1 & Hr1 & Hm1 & Hc1).
  unfold recovery.finishRecoveryCleanup. do 3 wp_step. cbv beta. wp_step.
  eapply wp_mono; [apply Frames_scrub|]. intros ? w2 [Hr2 Hm2 Hc2 Hl2]. do 3 wp_step. cbv beta.
  set (w3 := World.with_local _ w2). do 2 wp_step.
  apply (Obs_wp E _ _ _ _ (Obs_read E Hq _)). intros w4 [Hr4 Hl4 _].
  assert (Region.member (World.region w3) target = Region.member (World.region w) target) as Hmem.
  { unfold Region.member. change (World.region w3) with (World.region w2). by rewrite Hm2, Hm1. }
  rewrite Hmem, Hm. cbn [negb]. wp_run. set (w5 := put _ _).
  assert (World.region w5 = Region.setMember target (Member_t.setStatus Member_t.None_ (Region.member (World.region w) target)) (World.region w3)) as Hr5.
  { unfold w5. cbn. by rewrite Hq, Hr4. }
  assert (World.local w5 = requestOrphanSweep s) as Hl5 by (unfold w5; cbn; rewrite Hl4; cbn; by rewrite Hl2, Hl1).
  unfold recoveryAuthority.resetClaim. do 2 wp_step. cbv beta. rewrite Hl5. cbn [claimTarget_ requestOrphanSweep with_orphanSweepPending].
  rewrite Hlatch. assert (target =? NoPeer = false) as -> by (apply Z.eqb_neq; unfold NoPeer; lia). cbn [negb when].
  do 3 wp_step. cbv beta. rewrite Hl5. cbn [stake_ requestOrphanSweep with_orphanSweepPending].
  unfold stake.reset. do 2 wp_step. rewrite Hst. cbn [when]. rewrite Hmine.
  cbn [stake.word_retract recoveryAuthority.RecoveryClaimWord]. apply (retract_turn E Hq). intros w6 Hl6 Hr6 Hm6 Hc6.
  wp_run.
  assert (forall q, Region.claim (World.region w5) q = Region.claim (World.region w1) q) as Hc5.
  { intros q. rewrite Hr5. unfold Region.claim. cbn [Region.setMember Region.claims Region.with_members].
    change (World.region w3) with (World.region w2). by rewrite Hc2. }
  assert (Region.claim (World.region w1) target = Region.claim (World.region w) target) as Hct.
  { rewrite Hc1, (proj2 (Z.leb_le 0 target)), (proj2 (Z.ltb_lt target _)) by lia. cbn [andb]. unfold retracted.
    rewrite Hcr, (proj2 (Z.eqb_neq (peerId_ s) target)) by congruence. by rewrite andb_false_r. }
  split; cbn [World.region World.local World.with_local].
  - unfold Region.member. rewrite Hm6, Hr5. apply member_setMember_eq.
  - intros p Hp. rewrite Hc6. destruct (Z.eqb_spec p target) as [->|Hpt].
    + rewrite Hc5, Hct. unfold retracted. rewrite Hcm, Hcr, Z.eqb_refl. cbn. intros _. unfold NoPeer. lia.
    + rewrite Hc5, Hc1, (proj2 (Z.leb_le 0 p)), (proj2 (Z.ltb_lt p _)) by lia. cbn [andb]. unfold retracted.
      destruct (RecoveryClaim_t.isValidMagic (Region.claim (World.region w) p)) eqn:Hv; cbn [andb].
      * destruct (Z.eqb_spec (RecoveryClaim_t.recoveryAuthority (Region.claim (World.region w) p)) target); [|done].
        intros _. cbn. unfold NoPeer. lia.
      * by rewrite Hv.
  - rewrite Hc6, Z.eqb_refl, Hc5, Hct. unfold retracted. rewrite Hcm, Hcr, Z.eqb_refl. done.
  - rewrite Hr6, Hr5. cbn [Region.setMember Region.records Region.with_members]. change (World.region w3) with (World.region w2).
    by rewrite Hr2, Hr1.
  - rewrite Hl6, Hl5. done.
Qed.

(** C23: a recovery ends after its quiet span and not before.  Armed, with the
    target's domains all taken and the claim standing, the authority makes
    [QuietCycles - 1] ticks that write nothing and keep the span armed; the next
    one frees the target's slot, after every claim the target had authored and
    the strategy's residue are gone, withdraws the authority's own claim, drops
    the latch and arms the orphan sweep; no domain record moves. *)
Theorem recovery_ends_after_quiet_span w :
  let s := World.local w in
  0 <= peerId_ s < maxPeers s -> maxPeers s <= 64 -> 0 <= target < maxPeers s -> target <> peerId_ s ->
  settled w -> Member_t.isValidMagic (Region.member (World.region w) target) = true ->
  claimTarget_ s = target -> Claim.isStaked (stake_ s) = true -> Claim.mine_ (stake_ s) = peerId_ s ->
  recoveryCycles s = config.recovery.QuietCycles -> recoveryTarget s = target ->
  wp (forM (replicate (Z.to_nat config.recovery.QuietCycles - 1) tt) (fun _ => recovery.serviceSpan target)) E (fun _ w1 =>
    World.region w1 = World.region w /\ isRecoveryArmed (World.local w1) target = true /\
    wp (recovery.serviceSpan target) E (fun _ w2 => finished (maxPeers s) w w2) w1) w.
Proof.
  intros s Hself Hpc Ht Hne Hset Hm Hlatch Hst Hmine Hcyc Htgt.
  eapply wp_mono; [apply (span_ticks _ (Z.to_nat config.recovery.QuietCycles)); [by apply Nat.ltb_lt|done|]|].
  { fold s. rewrite Hcyc. by rewrite Z2Nat.id. }
  intros ? w1 [Hr1 Hl1]. fold s in Hl1.
  assert (isRecoveryOngoing (World.local w1) = (false, with_recoveryTarget NoPeer (with_recoveryCycles 0 s))) as Hon by by rewrite Hl1.
  split_and!; [done|rewrite Hl1; unfold isRecoveryArmed; cbn; by rewrite Htgt, Z.eqb_refl|].
  apply span_turn.
  - unfold settled, named. rewrite Hr1, Hl1. exact Hset.
  - rewrite Hon. cbn [fst snd]. intros w2 Hr2 Hl2.
    eapply wp_mono; [apply finish_spec; rewrite ?Hl2, ?Hr2, ?Hr1; try done; apply Hset|].
    intros ? w3 [? ? ? ? ?]. split; try done; rewrite Hl2 in *; rewrite Hr2, Hr1 in *; done.
Qed.
End span.
End finishing.

(** Peer 1 is the recovery authority of peer 0, which holds domain 0. *)
Definition sample_claimed : World.t :=
  World.with_region (Region.setClaim 0 (RecoveryClaim_t.mk RecoveryClaim_t.Magic 1) sample.region) (sample.world 1).


Lemma takeover_keeps_protocol_witness :
  exists res w', recovery.takeoverDomainsHeldByDeadPeer 0 sample.env sample_claimed = Some (res, w') /\
    guarantees (tokenG 2 (authority 1 0)) w'.
Proof.
  pose proof (takeover_keeps_protocol sample.env 2 1 0 ltac:(lia) ltac:(lia) (sample.respects_env _ (fun r => reflexivity r))
    sample_claimed ltac:(split; [reflexivity|reflexivity|unfold in_u32; cbn; lia|constructor]) ltac:(cbn; lia)) as H.
  apply wp_elim in H as (res & w' & Hrun & [Hc _]). exists res, w'. split; [exact Hrun|apply Hc].
Defined.

(** Peer 0 is the recovery authority of peer 1, has nothing of it left to take
    and has just armed the quiet span. *)
Definition sample_quieting : World.t :=
  World.with_region (Region.setClaim 1 (RecoveryClaim_t.mk RecoveryClaim_t.Magic 0) sample.region)
    (World.with_local (with_recoveryTarget 1 (with_recoveryCycles config.recovery.QuietCycles (with_claimTarget_ 1
      (with_stake_ (Claim.with_phase_ Claim.Settling (Claim.with_mine_ 0 Claim.initial)) (sample.local 0))))) (sample.world 0)).

Lemma recovery_ends_after_quiet_span_witness :
  exists u w1, forM (replicate (Z.to_nat config.recovery.QuietCycles - 1) tt) (fun _ => recovery.serviceSpan 1)
      sample.env sample_quieting = Some (u, w1) /\
    wp (recovery.serviceSpan 1) sample.env (fun _ w2 => finished 1 2 sample_quieting w2) w1.
Proof.
  assert (settled 1 sample_quieting) as Hset.
  { split; [vm_compute; reflexivity|]. intros d Hd. change (0 <= d < 3) in Hd.
    assert (d = 0 \/ d = 1 \/ d = 2) as [-> | [-> | ->]] by lia; vm_compute; reflexivity. }
  pose proof (recovery_ends_after_quiet_span sample.env sample_quiet 1 sample_quieting
    ltac:(cbn; lia) ltac:(cbn; lia) ltac:(cbn; lia) ltac:(cbn; lia) Hset ltac:(vm_compute; reflexivity)
    eq_refl eq_refl eq_refl eq_refl eq_refl) as H.
  apply wp_elim in H as (u & w1 & Hrun & _ & _ & H). exists u, w1. split; [exact Hrun|exact H].
Defined.
