(* ===== verification/Admission.v ===== *)
(** * Admission: claiming a member slot under the lease

    Models [src/admission/claim.cpp].  A joiner has no peer id yet, so the
    operations take the region's peer count instead of a bound peer state. *)

From S2P Require Import Prelude Types Layout Region Effect World StakeClaim.

#[export] Instance admissionLine : stake.ClaimLine AdmissionControl_t.t := {
  isValidMagic := AdmissionControl_t.isValidMagic;
  field := AdmissionControl_t.nonce;
  setField := fun v copy => AdmissionControl_t.mk (AdmissionControl_t.magic copy) v;
}.

Module admission.

(** Draw until nonzero: zero is the unlocked sentinel. *)
Fixpoint getRandomNonce_loop (fuel : nat) : M Z :=
  match fuel with
  | O => outOfFuel
  | S fuel => let! nonce := drawNonce in if nonce =? 0 then getRandomNonce_loop fuel else ret nonce
  end.
Definition getRandomNonce : M Z := let! fuel := getFuel in getRandomNonce_loop (S fuel).

Definition NonceField : stake.FieldWord AdmissionControl_t.t :=
  stake.mkField Region.admission Region.with_admission 0.

Definition releaseLease (nonce : Z) : M unit := stake.retract NonceField nonce.

(** [publish] stores the nonce field in place, unconditionally. *)
Definition LeaseWord : stake.Word :=
  stake.mkWord
    (stake.FieldWord_read NonceField)
    (fun nonce => ret (nonce =? 0))
    getRandomNonce
    (fun nonce =>
       write (fun r => Region.with_admission
                (AdmissionControl_t.mk (AdmissionControl_t.magic (Region.admission r)) nonce) r) ;;;
       ret true)
    releaseLease
    config.lease.LateStakeHold
    (Some config.lease.Timeout).

Fixpoint acquireLease_loop (fuel : nat) (deadline : timing.Deadline.t) (claim : Claim.t) : M (Z + Error) :=
  match fuel with
  | O => outOfFuel
  | S fuel =>
      let! instant := now in
      if timing.Deadline.expiredAt deadline instant then ret (inr NoFreeSlotError)
      else
        let! outcome := stake.tick LeaseWord claim in
        match outcome.1 with
        | stake.Won => ret (inl (Claim.mine_ outcome.2))
        | stake.Pending =>
            let! _ := stake.getNextWait config.lease.PollGap outcome.2 in
            acquireLease_loop fuel deadline outcome.2
        end
  end.

Definition acquireLease : M (Z + Error) :=
  let! began := now in
  let! fuel := getFuel in
  acquireLease_loop (S fuel) (timing.Deadline.make began config.lease.AcquireDeadline) Claim.initial.

Definition isFreeSlot (member : Member_t.t) : bool :=
  Member_t.isValidMagic member && Member_t.hasStatus member Member_t.None_.

Definition reserveMemberSlot (peerCount : Z) : M (Z + Error) :=
  let! found := findM (IdRange 0 peerCount) (fun peerId =>
    rmwIfTrueM (fun r => Region.member r peerId) (Region.setMember peerId) (fun member =>
      if negb (isFreeSlot member) then ret None
      else
        let! wall := wallNow in
        ret (Some (Member_t.with_lastSeenNanos wall (Member_t.setStatus Member_t.Active member))))) in
  ret (match found with Some peerId => inl peerId | None => inr NoFreeSlotError end).

(** [for (slotsAbove = peerCount; slotsAbove > bound; --slotsAbove)]. *)
Definition slotTaken (member : Member_t.t) : bool :=
  Member_t.isValidMagic member && negb (Member_t.hasStatus member Member_t.None_).

Definition adjustPeerScanBound (peerCount peerId : Z) : M unit :=
  let bound := u32 (peerId + 1) in
  let! found := findM (rev (zrange (bound + 1) (peerCount + 1))) (fun slotsAbove =>
    let! member := read (fun r => Region.member r (slotsAbove - 1)) in ret (slotTaken member)) in
  let bound := default bound found in
  let! _ := rmwIfTrue Region.peerBound Region.with_peerBound (fun line =>
    if PeerBound_t.peerScanBound line =? bound then None
    else Some (PeerBound_t.mk (PeerBound_t.magic line) bound)) in
  ret tt.

Definition claimPeerSlot (peerCount : Z) : M (Z + Error) :=
  let! lease := acquireLease in
  match lease with
  | inr error => ret (inr error)
  | inl nonce =>
      let! reserved := reserveMemberSlot peerCount in
      match reserved with
      | inl peerId => adjustPeerScanBound peerCount peerId ;;; releaseLease nonce ;;; ret (inl peerId)
      | inr error => releaseLease nonce ;;; ret (inr error)
      end
  end.

End admission.
