(* ===== verification/Peer.v ===== *)
(** * Peer: the peer object and its poll thread

    Models [src/core/algo/peer.cpp]: construction and teardown, the lock guard,
    the domain operations under the control lock, and one tick of the poll
    thread.  An operation that throws answers its [Error]; a guard released by
    a destructor is the [unlock] on that path. *)

From S2P Require Import Prelude Bitmap Types Layout Region Effect World Runtime Ownership Policies Recovery Lifecycle.
Import LocalPeerState peer_state ownership_transfer.

Module Peer.
Section with_policy.
Context {policy : SuccessorPolicy}.

Definition validatedState (domainId : Z) : M (option Error) :=
  let! domains := get numDomains in
  ret (if domains <=? domainId then Some JoinError else None).

Definition refuseReplacedDomain (domainId : Z) (expectedIncarnation : option Z) : M (option Error) :=
  match expectedIncarnation with
  | None => ret None
  | Some expected =>
      let! incarnation := lifecycle.readDomainIncarnation domainId in
      ret (if negb (incarnation =? expected) then Some UnknownDomainError else None)
  end.

(** [lock]: the guard is the pin it takes. *)
Definition lock_ (domainId : Z) : M (unit + Error) :=
  let! invalid := validatedState domainId in
  match invalid with
  | Some error => ret (inr error)
  | None =>
      let! participating := get (fun s => isParticipating s domainId) in
      if negb participating then ret (inr NotParticipatingError)
      else
        let! instant := now in
        let! result := lock domainId (timing.Deadline.make instant config.acquire.Timeout) in
        ret (match result with Arrived => inl tt | NotArrived => inr LockTimeoutError end)
  end.

Definition tryLock (domainId timeout : Z) : M (option unit + Error) :=
  let! invalid := validatedState domainId in
  match invalid with
  | Some error => ret (inr error)
  | None =>
      let! participating := get (fun s => isParticipating s domainId) in
      if negb participating then ret (inl None)
      else
        let! instant := now in
        let! result := lock domainId (timing.Deadline.make instant timeout) in
        ret (inl (match result with Arrived => Some tt | NotArrived => None end))
  end.

Definition release (domainId : Z) : M unit := unlock domainId.

(** One turn of [pollThreadLoop] past its sleep.  The control section's mutex,
    which serialises this peer's own threads, is free. *)
Definition pollTick : M unit :=
  let! idle := get (fun s => freeze s || negb (active_ s)) in
  if idle then recoveryAuthority.resetClaim ;;; modify resetRecoveryCycles
  else
    bumpHeartbeat ;;;
    let! scan := query tickPeriodicScan in
    when scan (refreshPeerScanBound ;;; refreshActiveDomains) ;;;
    pollCycle ;;;
    recovery.serviceRecovery ;;;
    let! sweep := get orphanSweepPending in
    when sweep (
      let! guard := tryLock ControlDomainId config.recovery.SweepControlTimeout in
      match guard with
      | inl (Some _) =>
          let! _ := lifecycle.reclaimOrphansLocked in
          modify clearOrphanSweep ;;;
          release ControlDomainId
      | _ => ret tt
      end).

(** Run [body] under the control lock; the guard is released on every path. *)
Definition underControl {A} (body : M (A + Error)) : M (A + Error) :=
  let! control := lock_ ControlDomainId in
  match control with
  | inr error => ret (inr error)
  | inl _ => let! result := body in release ControlDomainId ;;; ret result
  end.

Definition joinDomain (domainId : Z) (expectedIncarnation : option Z) : M (unit + Error) :=
  let! invalid := validatedState domainId in
  match invalid with
  | Some error => ret (inr error)
  | None =>
      let! participating := get (fun s => isParticipating s domainId) in
      if participating then
        let! replaced := refuseReplacedDomain domainId expectedIncarnation in
        ret (match replaced with Some error => inr error | None => inl tt end)
      else underControl (
        let! replaced := refuseReplacedDomain domainId expectedIncarnation in
        match replaced with
        | Some error => ret (inr error)
        | None =>
            let! result := lifecycle.joinDomain domainId in
            ret (match result with
                 | lifecycle.JoinOk => inl tt
                 | lifecycle.JoinUnknownDomain => inr UnknownDomainError
                 | lifecycle.JoinCorruptRegion => inr JoinError
                 end)
        end)
  end.

Definition leaveDomain (domainId : Z) (expectedIncarnation : option Z) : M (unit + Error) :=
  let! invalid := validatedState domainId in
  match invalid with
  | Some error => ret (inr error)
  | None =>
      if isControlDomain domainId then ret (inr NotParticipatingError)
      else underControl (
        let! replaced := refuseReplacedDomain domainId expectedIncarnation in
        match replaced with
        | Some error => ret (inr error)
        | None =>
            let! pins := get (fun s => LocalDomainView.hasOwnershipPins (getDomain s domainId)) in
            if pins then ret (inr DomainBusyError)
            else
              let! result := lifecycle.leaveDomain domainId in
              ret (match result with
                   | lifecycle.LeaveOk | lifecycle.LeaveNotParticipating => inl tt
                   | lifecycle.LeaveSoleParticipant => inr NotParticipatingError
                   end)
        end)
  end.

Definition createDomain (name : list Z) : M ((Z * Z) + Error) :=
  if negb (lifecycle.validName name) then ret (inr FormatError)
  else underControl (
    let! result := lifecycle.createDomainLocked name in
    ret (match result with
         | lifecycle.CreateOk domainId incarnation => inl (domainId, incarnation)
         | lifecycle.CreateDuplicateName => inr DomainExistsError
         | lifecycle.CreateNoFreeSlot => inr DomainLimitError
         | lifecycle.CreateCorruptRegion => inr JoinError
         end)).

(** The body runs under both locks; the control guard goes first. *)
Definition deleteDomain (domainId : Z) (expectedIncarnation : option Z) : M (unit + Error) :=
  let! invalid := validatedState domainId in
  match invalid with
  | Some error => ret (inr error)
  | None =>
      if isControlDomain domainId then ret (inr JoinError)
      else
        let! domainGuard := lock_ domainId in
        match domainGuard with
        | inr error => ret (inr error)
        | inl _ =>
            let! pins := get (fun s => LocalDomainView.getOwnershipPinCount (getDomain s domainId)) in
            let! result :=
              (if 1 <? pins then ret (inr DomainBusyError)
               else underControl (
                 let! replaced := refuseReplacedDomain domainId expectedIncarnation in
                 match replaced with
                 | Some error => ret (inr error)
                 | None =>
                     let! result := lifecycle.deleteDomainLocked domainId in
                     ret (match result with
                          | lifecycle.DeleteOk => inl tt
                          | lifecycle.DeleteNotSoleParticipant => inr NotParticipatingError
                          | lifecycle.DeleteNotHolder | lifecycle.DeleteCorruptRegion => inr JoinError
                          end)
                 end)) in
            release domainId ;;;
            ret result
        end
  end.

Definition resolveDomainName (name : list Z) : M (Z * Z) := lifecycle.findDataDomainByName name.

Definition readDomainIncarnation (domainId : Z) : M Z :=
  let! domains := get numDomains in
  if domains <=? domainId then ret 0 else lifecycle.readDomainIncarnation domainId.

Definition setFreeze (frozen : bool) : M unit := modify (with_freeze frozen).

(** The destructor: drain, hand off the policy's role, leave. *)
Definition destroy : M unit :=
  publishSelfMember (Member_t.setStatus Member_t.Leaving) ;;;
  modify (with_stop true) ;;;
  leave ;;;
  lifecycle.leaveMembership ;;;
  modify (with_active_ false).

End with_policy.

(** The constructor, from the header it finds.  A failure destroys the object,
    so which of the range check and the strategy check fires first is not
    observable. *)
Definition construct (peerId : Z) : M (unit + Error) :=
  let! header := read Region.header in
  let kind := Header_t.getStrategy header in
  match makeSuccessorPolicy kind with
  | None =>
      ret (inr JoinError)
  | Some strategy =>
      modify (setConfig (Header_t.numDomains header) (Header_t.maxPeers header) strategy
                (Header_t.getAggregatorGroups header)) ;;;
      let! valid := get (fun s => isValidPeer s peerId) in
      if negb valid then ret (inr JoinError)
      else
        modify (with_peerId_ peerId) ;;;
        refreshPeerScanBound ;;;
        refreshActiveDomains ;;;
        modify allocateDomains ;;;
        @bindPolicy (policyOf strategy) ;;;
        modify (fun s => with_stake_ Claim.initial (with_claimTarget_ NoPeer s)) ;;;
        modify (with_active_ true) ;;;
        let! joined := lifecycle.joinMembership in
        match joined with
        | lifecycle.JoinOk => ret (inl tt)
        | _ => modify (with_active_ false) ;;; ret (inr JoinError)
        end
  end.

End Peer.
