(* ===== verification/Session.v ===== *)
(** * Session: the public facade of the library

    Models [src/src/shared.cpp]: formatting and opening a region, the two locks
    by name and by handle with the incarnation checked on both sides of the
    acquire, participation, creation and deletion, and the guard a lock answers.

    [impl] is whether the session still owns its implementation: a moved-from
    session has none.  A mapping is what the memory backend answered. *)

From S2P Require Import Prelude Bitmap Types Layout Region Effect World Runtime Ownership Policies Lifecycle Admission Peer.
Import LocalPeerState peer_state.

(** ** Formatting *)

Module FormatOpts_t.
Record t := mk {
  maxDomains : Z;
  maxPeers : Z;
  strategy : Strategy;
  aggregatorGroups : Z;
  coherency : CoherencyMode;
}.
Definition default : t := mk 8 8 Peterson 0 Uncached.
End FormatOpts_t.

Definition makeInternalFormatOpts (opts : FormatOpts_t.t) : (Strategy * Z * CoherencyMode) + Error :=
  if (FormatOpts_t.maxDomains opts <? 2) || (MaxDomains <? FormatOpts_t.maxDomains opts) then inr FormatError
  else if (FormatOpts_t.maxPeers opts =? 0) || (MaxPeers <? FormatOpts_t.maxPeers opts) then inr FormatError
  else inl (FormatOpts_t.strategy opts, FormatOpts_t.aggregatorGroups opts, FormatOpts_t.coherency opts).

(** [Geometry::create].  [memory areaSize mode] is what [Memory::create]
    answers: the base and the size it mapped; [ProfileEnabled] is the build
    toggle of the profile section. *)
Definition Geometry_create (ProfileEnabled : bool) (memory : Z -> CoherencyMode -> (option Z * Z) + Error)
    (domainCount peerCount : Z) (strategy : Strategy) (aggregatorGroups : Z) (coherency : CoherencyMode)
    (generation : Z) : Region.t + Error :=
  if negb (isValidDomainCount domainCount) || negb (isValidPeerCount peerCount) then inr FormatError
  else if peerCount <? aggregatorGroups then inr FormatError
  else
    let areaSize := computeAreaSize ProfileEnabled domainCount peerCount (Strategy_to_u32 strategy) aggregatorGroups in
    match memory areaSize coherency with
    | inr error => inr error
    | inl (base, mappedSize) =>
        if mappedSize <? areaSize then inr FormatError
        else match Geometry.construct ProfileEnabled base mappedSize domainCount peerCount (Strategy_to_u32 strategy) aggregatorGroups with
        | inr error => inr error
        | inl g => format.format g strategy aggregatorGroups generation
        end
    end.

(** ** The guard *)

Module Guard.
(** The domain a guard holds, if it holds one. *)
Definition t : Type := option Z.
Definition empty : t := None.

Section with_policy.
Context {policy : SuccessorPolicy}.

Definition unlock (guard : t) : M t :=
  match guard with
  | Some domainId => Peer.release domainId ;;; ret empty
  | None => ret empty
  end.

(** Move assignment: the guard overwritten is released, the source emptied. *)
Definition assign (guard other : t) : M (t * t) :=
  let! _ := unlock guard in ret (other, empty).
End with_policy.
End Guard.

(** ** The session *)

Module Session.

Definition format (ProfileEnabled : bool) (memory : Z -> CoherencyMode -> (option Z * Z) + Error) (opts : FormatOpts_t.t)
    (generation : Z) : Region.t + Error :=
  match makeInternalFormatOpts opts with
  | inr error => inr error
  | inl (strategy, aggregatorGroups, coherency) =>
      Geometry_create ProfileEnabled memory (FormatOpts_t.maxDomains opts) (FormatOpts_t.maxPeers opts)
        strategy aggregatorGroups coherency generation
  end.

(** [open], from the mapping [Geometry::open] made.  [looks] and [clock] are the
    header line and the clock as the wait for a format in flight reads them. *)
Definition open_ (ProfileEnabled : bool) (mapped : Geometry.t + Error) (looks : nat -> Header_t.t) (clock : nat -> Z)
    (formatTimeout : Z) : M (unit + Error) :=
  match mapped with
  | inr error => ret (inr error)
  | inl geometry =>
      let! fuel := getFuel in
      match Geometry.bindBlocking ProfileEnabled (S fuel) geometry looks clock formatTimeout with
      | None => outOfFuel
      | Some (inr error) => ret (inr error)
      | Some (inl geometry) =>
          let! claimed := admission.claimPeerSlot (Geometry.peerCount_ geometry) in
          match claimed with
          | inr error => ret (inr error)
          | inl peerId => Peer.construct peerId
          end
      end
  end.

Section with_policy.
Context {policy : SuccessorPolicy}.

Definition resolveHandle (name : list Z) : M (handle + Error) :=
  let! found := Peer.resolveDomainName name in
  ret (if isNoDomain found.1 then inr UnknownDomainError else inl (DomainHandle_t.mk found.1 found.2)).

(** What [refuseStaleHandle] throws, if it does. *)
Definition refuseStaleHandle (h : handle) : M (option Error) :=
  if DomainHandle_t.incarnation h =? 0 then ret (Some UnknownDomainError)
  else
    let! incarnation := Peer.readDomainIncarnation (DomainHandle_t.id h) in
    ret (if negb (incarnation =? DomainHandle_t.incarnation h) then Some UnknownDomainError else None).

(** The second refusal destroys the guard it has just been handed. *)
Definition lockByHandle (h : handle) : M (Guard.t + Error) :=
  let! stale := refuseStaleHandle h in
  match stale with
  | Some error => ret (inr error)
  | None =>
      let! locked := Peer.lock_ (DomainHandle_t.id h) in
      match locked with
      | inr error => ret (inr error)
      | inl _ =>
          let! stale := refuseStaleHandle h in
          match stale with
          | Some error => Peer.release (DomainHandle_t.id h) ;;; ret (inr error)
          | None => ret (inl (Some (DomainHandle_t.id h)))
          end
      end
  end.

Definition tryLockByHandle (h : handle) (timeout : Z) : M (option Guard.t + Error) :=
  let! stale := refuseStaleHandle h in
  match stale with
  | Some error => ret (inr error)
  | None =>
      let! locked := Peer.tryLock (DomainHandle_t.id h) timeout in
      match locked with
      | inr error => ret (inr error)
      | inl None => ret (inl None)
      | inl (Some _) =>
          let! stale := refuseStaleHandle h in
          match stale with
          | Some error => Peer.release (DomainHandle_t.id h) ;;; ret (inr error)
          | None => ret (inl (Some (Some (DomainHandle_t.id h))))
          end
      end
  end.

(** Run [body] on the handle a name resolves to. *)
Definition resolved {A} (name : list Z) (body : handle -> M (A + Error)) : M (A + Error) :=
  let! found := resolveHandle name in
  match found with inr error => ret (inr error) | inl h => body h end.

Definition lock (impl : bool) (name : list Z) : M (Guard.t + Error) :=
  if negb impl then ret (inr JoinError) else resolved name lockByHandle.
Definition lockHandle (impl : bool) (h : handle) : M (Guard.t + Error) :=
  if negb impl then ret (inr JoinError) else lockByHandle h.
Definition tryLock (impl : bool) (name : list Z) (timeout : Z) : M (option Guard.t + Error) :=
  if negb impl then ret (inl None) else resolved name (fun h => tryLockByHandle h timeout).
Definition tryLockHandle (impl : bool) (h : handle) (timeout : Z) : M (option Guard.t + Error) :=
  if negb impl then ret (inl None) else tryLockByHandle h timeout.
Definition resolveDomain (impl : bool) (name : list Z) : M (handle + Error) :=
  if negb impl then ret (inr JoinError) else resolveHandle name.

Definition joinDomain (impl : bool) (name : list Z) : M (handle + Error) :=
  if negb impl then ret (inr JoinError)
  else resolved name (fun h =>
    let! joined := Peer.joinDomain (DomainHandle_t.id h) (Some (DomainHandle_t.incarnation h)) in
    ret (match joined with inr error => inr error | inl _ => inl h end)).
Definition leaveHandle (impl : bool) (h : handle) : M (unit + Error) :=
  if negb impl then ret (inr JoinError)
  else Peer.leaveDomain (DomainHandle_t.id h) (Some (DomainHandle_t.incarnation h)).
Definition leaveDomain (impl : bool) (name : list Z) : M (unit + Error) :=
  if negb impl then ret (inr JoinError)
  else resolved name (fun h => Peer.leaveDomain (DomainHandle_t.id h) (Some (DomainHandle_t.incarnation h))).
Definition createDomain (impl : bool) (name : list Z) : M (handle + Error) :=
  if negb impl then ret (inr JoinError)
  else
    let! created := Peer.createDomain name in
    ret (match created with inr error => inr error | inl (id, incarnation) => inl (DomainHandle_t.mk id incarnation) end).
Definition deleteDomain (impl : bool) (name : list Z) : M (unit + Error) :=
  if negb impl then ret (inr JoinError)
  else resolved name (fun h => Peer.deleteDomain (DomainHandle_t.id h) (Some (DomainHandle_t.incarnation h))).

(** The live data domains, name and handle from one snapshot each.  [domains] is
    the geometry's own count. *)
Definition getDomainEntries (impl : bool) (domains : Z) : M (list (list Z * handle)) :=
  if negb impl then ret []
  else foldM (zrange 1 domains) [] (fun entries domainId =>
    let! record := loadDomainRecordSnapshot domainId in
    ret (if lifecycle.isLive record
         then entries ++ [(DomainRecord_t.getName record, DomainHandle_t.mk domainId (DomainRecord_t.generation record))]
         else entries)).
Definition getDomainNames (impl : bool) (domains : Z) : M (list (list Z)) :=
  let! entries := getDomainEntries impl domains in ret (map fst entries).

(** The destructor, which leaves and frees the slot. *)
Definition destroy (impl : bool) : M unit := when impl Peer.destroy.

End with_policy.

(** A moved-from session maps nothing. *)
Definition getCoherencyMode (impl : option CoherencyMode) : CoherencyMode := default Flush impl.

End Session.
