(* ===== verification/Cohort.v ===== *)
(** * Cohort: many threads of one process over one session

    Models [src/src/serializers/shared_session.cpp]: the per-domain tier of
    [SharedSession], a mutex over the peer's ownership, which a batch of local
    threads shares before it is handed back.

    A thread is the access it takes next; every access to the tier, the mutex and
    the session is one step, and threads interleave freely.  What the outside
    decides is the [answer] of a step: whether a timed wait got the mutex in
    time, and whether the session granted the domain. *)

From S2P Require Import Prelude Types.

Definition DefaultCohortCap : Z := 16.

(** What a thread does next. *)
Inductive tpc :=
| TOut                        (* in no call *)
| TAnnounce (bounded : bool)  (* the tier is found: [waiters.add(1)] *)
| TQueue (bounded : bool)     (* on the mutex *)
| TWithdraw                   (* past its deadline: [waiters.subtract(1)] *)
| TEntered                    (* the mutex is taken: [waiters.subtract(1)] *)
| TJudge                      (* reuse the ownership held, or take a new one *)
| TAcquire                    (* [session.lock], [session.tryLock] *)
| TInside                     (* the guard is out *)
| TRelease                    (* [releaseCohort]: the look at [waiters] *)
| TDrop                       (* [held.reset(); batch = 0] *)
| TUnlock                     (* the mutex goes *)
| TDropQueue                  (* [dropHeldOwnership], on the mutex *)
| TDropHeld.                  (* [dropHeldOwnership], with it *)
#[global] Instance tpc_eq_dec : EqDecision tpc.
Proof. solve_decision. Defined.

Module DomainTier_t.
Record t := mk {
  mutex : option Z;
  held : bool;
  batch : Z;
  waiters : Z;
  cohortCap : Z;               (* the session's, read by every acquire *)
  threads : gmap Z tpc;
}.
Definition with_mutex (v : option Z) (s : t) : t := mk v (held s) (batch s) (waiters s) (cohortCap s) (threads s).
Definition with_held (v : bool) (s : t) : t := mk (mutex s) v (batch s) (waiters s) (cohortCap s) (threads s).
Definition with_batch (v : Z) (s : t) : t := mk (mutex s) (held s) v (waiters s) (cohortCap s) (threads s).
Definition with_waiters (v : Z) (s : t) : t := mk (mutex s) (held s) (batch s) v (cohortCap s) (threads s).
Definition with_cohortCap (v : Z) (s : t) : t := mk (mutex s) (held s) (batch s) (waiters s) v (threads s).
Definition goes (thread : Z) (p : tpc) (s : t) : t :=
  mk (mutex s) (held s) (batch s) (waiters s) (cohortCap s) (<[thread := p]> (threads s)).
Definition initial : t := mk None false 0 0 DefaultCohortCap ∅.
End DomainTier_t.

Module SharedSession.
Import DomainTier_t.

Definition pcOf (s : t) (thread : Z) : tpc := standing TOut (threads s) thread.

(** The tiers of the process, by name. *)
Definition findTier (domains : gmap (list Z) t) (name : list Z) : option t := domains !! name.
Definition ensureEntry (domains : gmap (list Z) t) (name : list Z) : gmap (list Z) t :=
  match domains !! name with Some _ => domains | None => <[name := initial]> domains end.

(** A call of [lock] or [tryLock] on a name nobody joined through this object. *)
Definition refuseUnjoined (domains : gmap (list Z) t) (name : list Z) : option Error :=
  match findTier domains name with None => Some NotParticipatingError | Some _ => None end.

(** [tier->held.has_value() && tier->batch < cohortCap]. *)
Definition mayReuse (s : t) : bool := held s && (batch s <? cohortCap s).

(** [held.reset()] gives the domain back to the region, when it is held. *)
Definition handBack (s : t) : t := with_batch 0 (with_held false s).

Definition countAcquire (s : t) : t := with_batch (u32 (batch s + 1)) s.

(** [releaseCohort], its look at the waiters. *)
Definition keepsCohort (s : t) : bool := negb (waiters s =? 0).

(** The next access of [thread]. *)
Definition step (thread : Z) (answer : bool) (s : t) : option t :=
  match pcOf s thread with
  | TAnnounce bounded => Some (goes thread (TQueue bounded) (with_waiters (u32 (waiters s + 1)) s))
  | TQueue bounded =>
      if bounded && negb answer then Some (goes thread TWithdraw s)
      else match mutex s with
      | Some _ => None
      | None => Some (goes thread TEntered (with_mutex (Some thread) s))
      end
  | TWithdraw => Some (goes thread TOut (with_waiters (u32 (waiters s - 1)) s))
  | TEntered => Some (goes thread TJudge (with_waiters (u32 (waiters s - 1)) s))
  | TJudge =>
      Some (if mayReuse s then goes thread TInside (countAcquire s) else goes thread TAcquire (handBack s))
  | TAcquire =>
      Some (if answer then goes thread TInside (countAcquire (with_held true s)) else goes thread TUnlock s)
  | TRelease => Some (goes thread (if keepsCohort s then TUnlock else TDrop) s)
  | TDrop => Some (goes thread TUnlock (handBack s))
  | TUnlock => Some (goes thread TOut (with_mutex None s))
  | TDropQueue =>
      match mutex s with
      | Some _ => None
      | None => Some (goes thread TDropHeld (with_mutex (Some thread) s))
      end
  | TDropHeld => Some (goes thread TUnlock (handBack s))
  | TOut | TInside => None
  end.

(** The calls the application makes: a thread in no call, and the thread whose
    guard is out, which destroys it. *)
Definition lock (thread : Z) (s : t) : t := goes thread (TAnnounce false) s.
Definition tryLock (thread : Z) (s : t) : t := goes thread (TAnnounce true) s.
Definition dropHeldOwnership (thread : Z) (s : t) : t := goes thread TDropQueue s.
Definition destroyGuard (thread : Z) (s : t) : t := goes thread TRelease s.
Definition setCohortCap (cap : Z) (s : t) : t := with_cohortCap cap s.

(** Every interleaving of the process's threads. *)
Inductive move (s : t) : t -> Prop :=
| m_lock thread : pcOf s thread = TOut -> move s (lock thread s)
| m_tryLock thread : pcOf s thread = TOut -> move s (tryLock thread s)
| m_drop thread : pcOf s thread = TOut -> move s (dropHeldOwnership thread s)
| m_destroy thread : pcOf s thread = TInside -> move s (destroyGuard thread s)
| m_cap cap : in_u32 cap -> move s (setCohortCap cap s)
| m_step thread answer s' : step thread answer s = Some s' -> move s s'.

(** ** The invariant *)

(** The thread has the mutex. *)
Definition owns (p : tpc) : bool :=
  match p with
  | TEntered | TJudge | TAcquire | TInside | TRelease | TDrop | TUnlock | TDropHeld => true
  | _ => false
  end.

(** The thread is counted in [waiters]. *)
Definition counted (p : tpc) : bool :=
  match p with TQueue _ | TWithdraw | TEntered => true | _ => false end.

Definition queue (s : t) : gmap Z tpc := those counted (threads s).

Record inv (s : t) : Prop := {
  inv_mutex : forall thread, owns (pcOf s thread) = true <-> mutex s = Some thread;
  inv_waiters : waiters s = u32 (Z.of_nat (size (queue s)));
  inv_section : forall thread, pcOf s thread = TInside \/ pcOf s thread = TRelease -> held s = true /\ 1 <= batch s;
  inv_acquire : forall thread, pcOf s thread = TAcquire -> held s = false;
  inv_free : held s = false -> batch s = 0;
  inv_batch : in_u32 (batch s);
  inv_cap : in_u32 (cohortCap s);
}.

Lemma pcOf_goes thread other p s : pcOf (goes thread p s) other = if decide (thread = other) then p else pcOf s other.
Proof. apply standing_insert. Qed.

(** The queue after a thread moved on. *)
Lemma queue_goes thread p s :
  Z.of_nat (size (queue (goes thread p s)))
  = Z.of_nat (size (queue s)) + (if counted p then 1 else 0) - (if counted (pcOf s thread) then 1 else 0).
Proof. by apply (those_insert counted TOut). Qed.

Lemma inv_initial : inv initial.
Proof. split; try done. by intros thread [?|?]. Qed.

(** A thread moves on and the words change: what is left to show. *)
Lemma inv_goes thread p s s0 :
  inv s -> threads s0 = threads s ->
  (owns p = true -> mutex s0 = Some thread) ->
  (owns p = false -> mutex s0 = if owns (pcOf s thread) then None else mutex s) ->
  (mutex s0 = mutex s \/ (mutex s = None /\ mutex s0 = Some thread) \/ (mutex s = Some thread /\ mutex s0 = None)) ->
  waiters s0 = u32 (waiters s + (if counted p then 1 else 0) - (if counted (pcOf s thread) then 1 else 0)) ->
  (p = TInside \/ p = TRelease -> held s0 = true /\ 1 <= batch s0) ->
  (p = TAcquire -> held s0 = false) -> (held s0 = false -> batch s0 = 0) ->
  (held s0 = held s /\ batch s0 = batch s \/ mutex s = Some thread) ->
  in_u32 (batch s0) -> in_u32 (cohortCap s0) -> inv (goes thread p s0).
Proof.
  intros [Hm Hw Hs Ha Hf Hb Hc] Ht Hown Hnot Hmx Hw0 Hs0 Ha0 Hf0 Hkeep Hb0 Hc0.
  assert (forall other, pcOf (goes thread p s0) other = if decide (thread = other) then p else pcOf s other) as Hpc.
  { intros other. rewrite pcOf_goes. unfold pcOf. by rewrite Ht. }
  split; cbn [goes mutex held batch waiters cohortCap]; [..|done|done|done].
  - intros other. rewrite Hpc. case_decide as Hd.
    + subst other. split; [auto|]. intros Hmo. destruct (owns p) eqn:Hop; [done|]. specialize (Hnot eq_refl).
      pose proof (Hm thread). destruct (owns (pcOf s thread)) eqn:Ho; [congruence|]. rewrite Hnot in Hmo. by apply Hm in Hmo; congruence.
    + rewrite Hm. destruct Hmx as [->|[[Hn Hsm]|[Hn Hsm]]]; [done|rewrite Hn, Hsm|rewrite Hn, Hsm]; split; congruence.
  - rewrite queue_goes. unfold queue. rewrite Ht. fold (queue s).
    assert (pcOf s0 thread = pcOf s thread) as -> by (unfold pcOf; by rewrite Ht). rewrite Hw0, Hw. unfold u32.
    by rewrite <- !Z.add_sub_assoc, Zplus_mod_idemp_l.
  - intros other Ho. rewrite Hpc in Ho. case_decide; [auto|].
    assert (mutex s = Some other) as Hmo by (apply Hm; by destruct Ho as [-> | ->]).
    destruct Hkeep as [[-> ->]|Hmt]; [by apply (Hs other)|congruence].
  - intros other Ho. rewrite Hpc in Ho. case_decide; [auto|].
    assert (mutex s = Some other) as Hmo by (apply Hm; by rewrite Ho).
    destruct Hkeep as [[-> _]|Hmt]; [by apply (Ha other)|congruence].
Qed.

Lemma waiters_same s w a b : inv s -> w = waiters s -> a = b -> w = u32 (waiters s + a - b).
Proof.
  intros Hi -> ->. replace (waiters s + b - b) with (waiters s) by lia. symmetry. apply u32_small.
  rewrite (inv_waiters _ Hi). apply u32_range.
Qed.

(** The moves of a thread that change no word but its own place. *)
Lemma inv_idle thread p s :
  inv s -> owns p = owns (pcOf s thread) -> counted p = counted (pcOf s thread) -> p <> TInside -> p <> TAcquire ->
  (p = TRelease -> pcOf s thread = TInside) -> inv (goes thread p s).
Proof.
  intros Hi Ho Hc Hp Hp' Hr. apply (inv_goes thread p s s); try apply Hi; try done.
  - intros Hop. rewrite Ho in Hop. by apply Hi.
  - intros Hop. by rewrite Hop in Ho; rewrite <- Ho.
  - by left.
  - apply waiters_same; [done|done|by rewrite Hc].
  - intros [?|Heq]; [done|]. apply (inv_section _ Hi thread). left. by apply Hr.
  - by left.
Qed.

Lemma inv_handBack thread p s :
  inv s -> mutex s = Some thread -> owns p = true -> counted p = counted (pcOf s thread) ->
  p <> TInside -> p <> TRelease -> inv (goes thread p (handBack s)).
Proof.
  intros Hi Hm Ho Hc Hp Hp'. apply (inv_goes thread p s); try apply Hi; try done.
  - congruence.
  - by left.
  - apply waiters_same; [done|done|by rewrite Hc].
  - by intros [?|?].
  - by right.
Qed.

Lemma inv_enterSection thread s s0 :
  inv s -> mutex s = Some thread -> counted (pcOf s thread) = false ->
  threads s0 = threads s -> mutex s0 = mutex s -> waiters s0 = waiters s -> cohortCap s0 = cohortCap s ->
  held s0 = true -> 0 <= batch s0 < 2 ^ 32 - 1 -> inv (goes thread TInside (countAcquire s0)).
Proof.
  intros Hi Hm Hc Ht Hm0 Hw0 Hc0 Hh Hb. assert (batch (countAcquire s0) = batch s0 + 1) as Hb1.
  { cbn. apply u32_small. unfold in_u32. lia. }
  apply (inv_goes thread TInside s); try done; try rewrite Hb1.
  - intros _. cbn. congruence.
  - by left.
  - rewrite Hc. by apply waiters_same.
  - intros _. cbn [held countAcquire with_batch]. split; [done|lia].
  - cbn. congruence.
  - by right.
  - unfold in_u32. lia.
  - cbn. rewrite Hc0. apply Hi.
Qed.

Lemma tier_inv_step thread answer s s' : inv s -> step thread answer s = Some s' -> inv s'.
Proof.
  intros Hi Hst. pose proof (inv_mutex _ Hi thread) as Hm. unfold step in Hst.
  pose proof (inv_cap _ Hi) as Hcap. pose proof (inv_batch _ Hi) as Hbt. unfold in_u32 in Hcap, Hbt.
  destruct (pcOf s thread) as [|b|b| | | | | | | | | |] eqn:Hpc; try discriminate; cbn in Hm.
  - injection Hst as <-. apply (inv_goes thread _ s); try apply Hi; try done.
    + by intros _; rewrite Hpc. + by left. + cbn. rewrite Hpc. cbn. f_equal. lia. + by intros [?|?]. + by left.
  - destruct (b && negb answer); [injection Hst as <-; apply inv_idle; try done; by rewrite Hpc|].
    destruct (mutex s) eqn:Hmx; [discriminate|]. injection Hst as <-.
    apply (inv_goes thread _ s); try apply Hi; try done.
    + right; left. done. + rewrite Hpc. by apply waiters_same. + by intros [?|?]. + by left.
  - injection Hst as <-. apply (inv_goes thread _ s); try apply Hi; try done.
    + by intros _; rewrite Hpc. + by left. + cbn. rewrite Hpc. cbn. f_equal. lia. + by intros [?|?]. + by left.
  - assert (mutex s = Some thread) as Hmx by by apply Hm. injection Hst as <-. apply (inv_goes thread _ s); try apply Hi; try done.
    + by left. + cbn. rewrite Hpc. cbn. f_equal. lia. + by intros [?|?]. + by left.
  - assert (mutex s = Some thread) as Hmx by by apply Hm. injection Hst as <-. unfold mayReuse. destruct (held s) eqn:Hh; cbn [andb].
    + destruct (Z.ltb_spec (batch s) (cohortCap s)).
      * apply (inv_enterSection thread s s); try done; [by rewrite Hpc|lia].
      * apply inv_handBack; try done; by rewrite Hpc.
    + apply inv_handBack; try done; by rewrite Hpc.
  - assert (mutex s = Some thread) as Hmx by by apply Hm. injection Hst as <-. case_if.
    + apply (inv_enterSection thread s); try done; [by rewrite Hpc|]. cbn.
      rewrite (inv_free _ Hi (inv_acquire _ Hi _ Hpc)). lia.
    + apply inv_idle; try done; by rewrite Hpc.
  - injection Hst as <-. case_if; apply inv_idle; try done; by rewrite Hpc.
  - assert (mutex s = Some thread) as Hmx by by apply Hm. injection Hst as <-. apply inv_handBack; try done; by rewrite Hpc.
  - assert (mutex s = Some thread) as Hmx by by apply Hm. injection Hst as <-. apply (inv_goes thread _ s); try apply Hi; try done.
    + by intros _; rewrite Hpc. + right; right. done. + rewrite Hpc. by apply waiters_same. + by intros [?|?]. + by left.
  - destruct (mutex s) eqn:Hmx; [discriminate|]. injection Hst as <-.
    apply (inv_goes thread _ s); try apply Hi; try done.
    + right; left. done. + rewrite Hpc. by apply waiters_same. + by intros [?|?]. + by left.
  - assert (mutex s = Some thread) as Hmx by by apply Hm. injection Hst as <-. apply inv_handBack; try done; by rewrite Hpc.
Qed.

Lemma inv_move s s' : inv s -> move s s' -> inv s'.
Proof.
  intros Hi [thread Hp|thread Hp|thread Hp|thread Hp|cap Hcap|thread answer ? Hst].
  - apply inv_idle; try done; by rewrite Hp.
  - apply inv_idle; try done; by rewrite Hp.
  - apply inv_idle; try done; by rewrite Hp.
  - apply inv_idle; try done; by rewrite Hp.
  - by destruct Hi; split.
  - by eapply tier_inv_step.
Qed.

Lemma tier_inv_reachable s : rtc move initial s -> inv s.
Proof.
  intros Hr. refine (rtc_ind_r (fun s => inv s) initial inv_initial _ s Hr). intros s1 s2 _ Hm Hi. by eapply inv_move.
Qed.

(** C32: the local tier serialises the process's threads.  In every reachable
    interleaving of any number of threads that lock, try to lock, give up,
    destroy their guards, leave the domain and change the cap: at most one
    guard is out, the thread that has it has the mutex, and the peer's ownership
    is held under it; [waiters] counts exactly the threads on the queue. *)
Theorem cohort_exclusive s :
  rtc move initial s ->
  (forall a b, pcOf s a = TInside -> pcOf s b = TInside -> a = b) /\
  (forall a, pcOf s a = TInside -> mutex s = Some a /\ held s = true) /\
  waiters s = u32 (Z.of_nat (size (queue s))).
Proof.
  intros Hr. pose proof (tier_inv_reachable s Hr) as Hi.
  assert (forall a, pcOf s a = TInside -> mutex s = Some a) as Hm by (intros a Ha; apply Hi; by rewrite Ha).
  split_and!; [|intros a Ha|apply Hi].
  - intros a b Ha Hb. apply Hm in Ha, Hb. congruence.
  - split; [by apply Hm|]. apply (inv_section _ Hi a). by left.
Qed.

(** ** How long the region waits *)

(** The critical sections begun since the ownership was last taken from the
    region or given back to it. *)
Definition ridden (thread : Z) (answer : bool) (s : t) (n : nat) : nat :=
  match pcOf s thread with
  | TJudge => if mayReuse s then S n else O
  | TAcquire => if answer then S n else n
  | TDrop | TDropHeld => O
  | _ => n
  end.

(** A history under one cap, with that count. *)
Inductive history (cap : Z) : nat -> t -> Prop :=
| h_start : history cap 0 (setCohortCap cap initial)
| h_call n s s' thread p : history cap n s ->
    pcOf s thread = TOut /\ (p = TAnnounce false \/ p = TAnnounce true \/ p = TDropQueue) \/
    pcOf s thread = TInside /\ p = TRelease ->
    s' = goes thread p s -> history cap n s'
| h_step n s s' thread answer : history cap n s -> step thread answer s = Some s' ->
    history cap (ridden thread answer s n) s'.

Lemma history_move cap n s : in_u32 cap -> history cap n s -> rtc move initial s.
Proof.
  intros Hc. induction 1 as [|n s s' thread p _ IH Hp ->|n s s' thread answer _ IH Hst].
  - apply rtc_once. by apply m_cap.
  - eapply rtc_r; [exact IH|]. destruct Hp as [[Hp [-> | [-> | ->]]]|[Hp ->]];
      [by apply m_lock|by apply m_tryLock|by apply m_drop|by apply m_destroy].
  - eapply rtc_r; [exact IH|]. by eapply m_step.
Qed.

Lemma history_batch cap n s :
  in_u32 cap -> history cap n s -> batch s = Z.of_nat n /\ batch s <= Z.max 1 cap /\ cohortCap s = cap.
Proof.
  intros Hc Hh. induction Hh as [|n s s' thread p Hh IH Hp ->|n s s' thread answer Hh IH Hst].
  - cbn. lia.
  - done.
  - destruct IH as (Hn & Hle & Hcap). pose proof (tier_inv_reachable s (history_move cap n s Hc Hh)) as Hi.
    pose proof (inv_batch _ Hi) as Hb. unfold in_u32 in *. unfold ridden. unfold step, mayReuse in *.
    destruct (pcOf s thread) as [|b|b| | | | | | | | | |] eqn:Hpc; try discriminate;
      try (injection Hst as <-; cbn; lia).
    + destruct (b && negb answer); [injection Hst as <-; done|]. destruct (mutex s); [discriminate|]. by injection Hst as <-.
    + injection Hst as <-. destruct (held s); cbn [andb]; [|cbn; lia]. rewrite Hcap. destruct (Z.ltb_spec (batch s) cap); cbn; [|lia].
      rewrite u32_small by (unfold in_u32; lia). lia.
    + pose proof (inv_free _ Hi (inv_acquire _ Hi _ Hpc)). injection Hst as <-. destruct answer; cbn; [|lia].
      rewrite u32_small by (unfold in_u32; lia). lia.
    + destruct (mutex s); [discriminate|]. by injection Hst as <-.
Qed.

(** The cap bounds a cohort.  Under a cap that is not changed, at most
    [cap] critical sections, and one when the cap is 0, begin between two
    moments at which the ownership goes back to the region or comes from it,
    in every interleaving; the counter never wraps. *)
Theorem cohort_bounded cap n s :
  in_u32 cap -> history cap n s -> Z.of_nat n <= Z.max 1 cap /\ batch s = Z.of_nat n.
Proof. intros Hc Hh. destruct (history_batch cap n s Hc Hh) as (? & ? & _). lia. Qed.

(** ** The quiet process *)

(** A history in which no [tryLock] runs out its deadline on the mutex. *)
Definition patient (s : t) : Prop := forall thread, pcOf s thread <> TWithdraw.
Inductive patiently : t -> Prop :=
| p_start : patiently initial
| p_move s s' : patiently s -> move s s' -> patient s' -> patiently s'.

(** Ownership kept past a release is for somebody on the queue. *)
Definition queued (s : t) : Prop := exists thread b, pcOf s thread = TQueue b.
Definition kept (s : t) : Prop :=
  held s = true -> mutex s = None \/ (exists thread, pcOf s thread = TUnlock) -> queued s.

Lemma queued_goes thread p s s0 :
  threads s0 = threads s -> (forall b, pcOf s thread <> TQueue b) -> queued s -> queued (goes thread p s0).
Proof.
  intros Ht Hn (other & b & Ho). exists other, b. rewrite pcOf_goes. case_decide as Hd; [subst; by destruct (Hn b)|].
  unfold pcOf. by rewrite Ht.
Qed.

(** A thread other than the mutex's owner that is counted is on the queue. *)
Lemma waiters_queued s thread :
  inv s -> patient s -> mutex s = Some thread -> pcOf s thread <> TEntered -> waiters s <> 0 -> queued s.
Proof.
  intros Hi Hp Hm Hne Hw. destruct (decide (queue s = ∅)) as [Hq|Hq].
  { rewrite (inv_waiters _ Hi), Hq, map_size_empty in Hw. by destruct Hw. }
  apply map_choose in Hq as (other & p & Ho). apply map_lookup_filter_Some in Ho as [Ho Hc]. cbn in Hc.
  assert (pcOf s other = p) as Hpo by (unfold pcOf, standing; by rewrite Ho).
  destruct p as [|b|b| | | | | | | | | |]; try discriminate; [by exists other, b|by destruct (Hp other)|].
  assert (mutex s = Some other) as Hmo by (apply Hi; by rewrite Hpo). congruence.
Qed.

(** A thread moves on: what the others leave of the claim. *)
Lemma kept_goes thread p s s0 :
  kept s -> threads s0 = threads s -> (held s0 = true -> held s = true) ->
  (mutex s0 = None -> held s0 = true -> mutex s = None \/ pcOf s thread = TUnlock) ->
  (forall b, pcOf s thread <> TQueue b) -> (p = TUnlock -> held s0 = true -> queued s) -> kept (goes thread p s0).
Proof.
  intros Hk Ht Hh Hm Hn Hu Hheld Hor. cbn in Hheld, Hor. apply (queued_goes thread p s s0 Ht Hn).
  destruct Hor as [Hm0|[other Ho]].
  - apply Hk; [by apply Hh|]. destruct (Hm Hm0 Hheld); [by left|right; by exists thread].
  - rewrite pcOf_goes in Ho. case_decide; [by apply Hu|]. apply Hk; [by apply Hh|]. right. exists other.
    unfold pcOf in *. by rewrite Ht in Ho.
Qed.

(** With the mutex held there is nobody on the way out but its owner. *)
Lemma kept_locked thread p s s0 :
  inv s -> threads s0 = threads s -> mutex s0 = Some thread -> (mutex s = None \/ mutex s = Some thread) ->
  (p = TUnlock -> held s0 = true -> queued s /\ forall b, pcOf s thread <> TQueue b) -> kept (goes thread p s0).
Proof.
  intros Hi Ht Hm0 Hm Hu Hheld Hor. cbn in Hheld, Hor. destruct Hor as [?|[other Ho]]; [congruence|].
  rewrite pcOf_goes in Ho. case_decide as Hd.
  - destruct (Hu Ho Hheld). by apply (queued_goes thread p s s0).
  - assert (mutex s = Some other) as Hmo by (apply Hi; unfold pcOf in *; rewrite Ht in Ho; by rewrite Ho).
    destruct Hm; congruence.
Qed.

Lemma kept_step thread answer s s' :
  inv s -> patient s -> patient s' -> kept s -> step thread answer s = Some s' -> kept s'.
Proof.
  intros Hi Hpa Hpa' Hk Hst. pose proof (inv_mutex _ Hi thread) as Hm. unfold step in Hst.
  destruct (pcOf s thread) as [|b|b| | | | | | | | | |] eqn:Hpc; try discriminate; cbn in Hm.
  - injection Hst as <-. apply (kept_goes thread _ s); auto; congruence.
  - destruct (b && negb answer).
    { injection Hst as <-. destruct (Hpa' thread). by rewrite pcOf_goes, decide_True. }
    destruct (mutex s) eqn:Hmx; [discriminate|]. injection Hst as <-. apply (kept_locked thread _ s); auto; done.
  - by destruct (Hpa thread).
  - injection Hst as <-. apply (kept_locked thread _ s); auto; [by apply Hm|right; by apply Hm|done].
  - injection Hst as <-. assert (mutex s = Some thread) by by apply Hm.
    destruct (mayReuse s); apply (kept_locked thread _ s); auto; done.
  - injection Hst as <-. assert (mutex s = Some thread) by by apply Hm.
    destruct answer; apply (kept_locked thread _ s); auto; [done|]. intros _ Hh.
    rewrite (inv_acquire _ Hi _ Hpc) in Hh. done.
  - injection Hst as <-. assert (mutex s = Some thread) by by apply Hm. apply (kept_locked thread _ s); auto.
    unfold keepsCohort. destruct (Z.eqb_spec (waiters s) 0) as [|Hw]; cbn [negb]; [done|]. intros _ _.
    split; [|by intros b; rewrite Hpc]. apply (waiters_queued s thread); auto; congruence.
  - injection Hst as <-. assert (mutex s = Some thread) by by apply Hm. apply (kept_locked thread _ s); auto; done.
  - injection Hst as <-. apply (kept_goes thread _ s); auto; congruence.
  - destruct (mutex s) eqn:Hmx; [discriminate|]. injection Hst as <-. apply (kept_locked thread _ s); auto; done.
  - injection Hst as <-. assert (mutex s = Some thread) by by apply Hm. apply (kept_locked thread _ s); auto; done.
Qed.

Lemma kept_move s s' : inv s -> patient s -> patient s' -> kept s -> move s s' -> kept s'.
Proof.
  intros Hi Hpa Hpa' Hk Hm. destruct Hm as [thread Hp|thread Hp|thread Hp|thread Hp|cap Hcap|thread answer ? Hst];
    try (apply (kept_goes thread _ s); auto; congruence).
  - exact Hk.
  - by eapply kept_step.
Qed.

Lemma patiently_inv s : patiently s -> rtc move initial s /\ patient s /\ kept s.
Proof.
  induction 1 as [|s s' _ (Hr & Hp & Hk) Hm Hp']; [done|].
  split_and!; [by eapply rtc_r|done|]. eapply kept_move; eauto using tier_inv_reachable.
Qed.

(** C33: a quiet process holds nothing.  In every history in which no [tryLock]
    runs out its deadline on the local mutex, a moment at which no thread is in
    a call and no guard is out is a moment at which the ownership is back in
    the region. *)
Theorem cohort_quiet_released s :
  patiently s -> (forall thread, pcOf s thread = TOut) -> held s = false.
Proof.
  intros Hp Hq. destruct (patiently_inv s Hp) as (Hr & _ & Hk). destruct (held s) eqn:Hh; [|done].
  destruct (Hk Hh) as (thread & b & Ht); [|by rewrite Hq in Ht].
  left. destruct (mutex s) as [thread|] eqn:Hm; [|done]. apply (inv_mutex _ (tier_inv_reachable s Hr)) in Hm. by rewrite Hq in Hm.
Qed.

(** ** Histories as lists of events *)

Inductive event := ELock (thread : Z) | ETryLock (thread : Z) | EDestroy (thread : Z) | EStep (thread : Z) (answer : bool).
Definition apply (e : event) (s : t) : option t :=
  match e with
  | ELock thread => if bool_decide (pcOf s thread = TOut) then Some (lock thread s) else None
  | ETryLock thread => if bool_decide (pcOf s thread = TOut) then Some (tryLock thread s) else None
  | EDestroy thread => if bool_decide (pcOf s thread = TInside) then Some (destroyGuard thread s) else None
  | EStep thread answer => step thread answer s
  end.
Fixpoint applyAll (events : list event) (s : t) : option t :=
  match events with
  | [] => Some s
  | e :: events => match apply e s with Some s => applyAll events s | None => None end
  end.

Lemma apply_move e s s' : apply e s = Some s' -> move s s'.
Proof.
  destruct e; cbn; [..|apply m_step]; case_bool_decide; try done; intros [= <-]; by constructor.
Qed.

Lemma applyAll_moves events s s' : applyAll events s = Some s' -> rtc move s s'.
Proof.
  revert s. induction events as [|e events IH]; intros s; cbn; [intros [= <-]; apply rtc_refl|].
  destruct (apply e s) eqn:He; [|done]. intros H. eapply rtc_l; [by eapply apply_move|by apply IH].
Qed.

(** Thread 1 gets its guard out; thread 2 tries and queues; thread 1 destroys
    its guard, keeping the ownership for thread 2; thread 2 runs out of time. *)
Definition handedToNobody : list event :=
  [ELock 1; EStep 1 true; EStep 1 true; EStep 1 true; EStep 1 true; EStep 1 true;
   ETryLock 2; EStep 2 true; EDestroy 1; EStep 1 true; EStep 2 false; EStep 2 true; EStep 1 true].

(** The deadline is what the theorem above leaves out: thread 2 is on the queue
    when thread 1 destroys its guard, so the ownership is kept for it; then its
    deadline passes on the mutex, and it goes away.  Nobody is in a call, and the
    peer holds the domain against every other node until somebody here locks it
    again. *)
Theorem tryLock_timeout_strands_ownership :
  exists s, rtc move initial s /\ (forall thread, pcOf s thread = TOut) /\ held s = true.
Proof.
  exists (default initial (applyAll handedToNobody initial)). split_and!.
  - apply (applyAll_moves handedToNobody). vm_compute. reflexivity.
  - assert (threads (default initial (applyAll handedToNobody initial)) = {[ 1 := TOut; 2 := TOut ]}) as Ht by (vm_compute; reflexivity).
    intros thread. unfold pcOf, standing. rewrite Ht. destruct (decide (thread = 1)) as [->|]; [by vm_compute|].
    destruct (decide (thread = 2)) as [->|]; [by vm_compute|]. by rewrite lookup_insert_ne, lookup_singleton_ne by done.
  - by vm_compute.
Qed.

(** ** Examples *)

(** Two threads, one after the other, on one ownership. *)
Definition shared : list event :=
  [ELock 1; EStep 1 true; EStep 1 true; EStep 1 true; EStep 1 true; EStep 1 true;
   ELock 2; EStep 2 true; EDestroy 1; EStep 1 true; EStep 1 true; EStep 2 true; EStep 2 true; EStep 2 true].

Lemma cohort_exclusive_witness :
  exists s, applyAll shared initial = Some s /\ pcOf s 2 = TInside /\ mutex s = Some 2 /\ held s = true.
Proof.
  exists (default initial (applyAll shared initial)). assert (pcOf (default initial (applyAll shared initial)) 2 = TInside) as H2 by (vm_compute; reflexivity).
  destruct (cohort_exclusive (default initial (applyAll shared initial))) as (_ & H & _).
  - apply (applyAll_moves shared). vm_compute. reflexivity.
  - split_and!; [vm_compute; reflexivity|done|by apply (H 2)|by apply (H 2)].
Defined.

(** One thread that takes the domain and is inside, as a counted history. *)
Lemma sample_history : history 2 1 (default initial (applyAll (take 6 shared) (setCohortCap 2 initial))).
Proof.
  assert (forall n s e s', history 2 n s -> apply e s = Some s' ->
    history 2 (match e with EStep thread answer => ridden thread answer s n | _ => n end) s') as Hev.
  { intros n s e s' Hh He. destruct e; cbn in He; try (case_bool_decide as Hp; [|done]; injection He as <-).
    - eapply h_call; [exact Hh|left; split; [exact Hp|by left]|done].
    - eapply h_call; [exact Hh|left; split; [exact Hp|by right; left]|done].
    - eapply h_call; [exact Hh|right; split; [exact Hp|done]|done].
    - by eapply h_step. }
  pose (s n := default initial (applyAll (take n shared) (setCohortCap 2 initial))).
  assert (history 2 0 (s 1%nat)) as H1 by exact (Hev 0%nat _ (ELock 1) _ (h_start 2) eq_refl).
  assert (history 2 0 (s 2%nat)) as H2 by exact (Hev _ _ (EStep 1 true) (s 2%nat) H1 ltac:(vm_compute; reflexivity)).
  assert (history 2 0 (s 3%nat)) as H3 by exact (Hev _ _ (EStep 1 true) (s 3%nat) H2 ltac:(vm_compute; reflexivity)).
  assert (history 2 0 (s 4%nat)) as H4 by exact (Hev _ _ (EStep 1 true) (s 4%nat) H3 ltac:(vm_compute; reflexivity)).
  assert (history 2 0 (s 5%nat)) as H5 by exact (Hev _ _ (EStep 1 true) (s 5%nat) H4 ltac:(vm_compute; reflexivity)).
  exact (Hev _ _ (EStep 1 true) (s 6%nat) H5 ltac:(vm_compute; reflexivity)).
Qed.

Lemma cohort_bounded_witness :
  Z.of_nat 1 <= Z.max 1 2 /\ batch (default initial (applyAll (take 6 shared) (setCohortCap 2 initial))) = 1.
Proof. apply (cohort_bounded 2 1 _ ltac:(unfold in_u32; lia) sample_history). Defined.

(** The whole life of two critical sections, nobody giving up. *)
Definition finished : list event := shared ++ [EDestroy 2; EStep 2 true; EStep 2 true; EStep 2 true].

Lemma patiently_applyAll events s s' :
  forallb (fun e => match e with ETryLock _ => false | _ => true end) events = true ->
  (forall thread, pcOf s thread <> TWithdraw /\ pcOf s thread <> TQueue true /\ pcOf s thread <> TAnnounce true) ->
  patiently s -> applyAll events s = Some s' -> patiently s'.
Proof.
  revert s. induction events as [|e events IH]; intros s Hall Hn Hp; cbn; [by intros [= <-]|].
  cbn in Hall. apply andb_prop in Hall as [He Hall]. destruct (apply e s) as [s1|] eqn:Ha; [|done].
  assert (forall thread, pcOf s1 thread <> TWithdraw /\ pcOf s1 thread <> TQueue true /\ pcOf s1 thread <> TAnnounce true) as Hn1.
  { intros other. specialize (Hn other) as Ho. destruct e as [thread|thread|thread|thread answer]; try discriminate; cbn in Ha.
    - case_bool_decide; [|done]. injection Ha as <-. unfold lock. rewrite pcOf_goes. by case_decide.
    - case_bool_decide; [|done]. injection Ha as <-. unfold destroyGuard. rewrite pcOf_goes. by case_decide.
    - specialize (Hn thread). unfold step in Ha.
      destruct (pcOf s thread) as [|[]|[]| | | | | | | | | |] eqn:Hpc; try (by destruct Hn as (? & ? & ?)); try discriminate; cbn in Ha.
      all: repeat match type of Ha with
        | context [match ?m with _ => _ end] => destruct m
        end; try discriminate; injection Ha as <-; rewrite pcOf_goes; case_decide; done. }
  apply IH; [done|done|]. eapply p_move; [exact Hp|by eapply apply_move|]. intros thread. by destruct (Hn1 thread).
Qed.

Lemma cohort_quiet_released_witness :
  exists s, applyAll finished initial = Some s /\ held s = false /\ pcOf s 1 = TOut.
Proof.
  exists (default initial (applyAll finished initial)). split_and!; [vm_compute; reflexivity| |vm_compute; reflexivity].
  assert (threads (default initial (applyAll finished initial)) = {[ 1 := TOut; 2 := TOut ]}) as Ht by (vm_compute; reflexivity).
  apply cohort_quiet_released.
  - apply (patiently_applyAll finished initial); [done|by intros thread; split_and!|apply p_start|vm_compute; reflexivity].
  - intros thread. unfold pcOf, standing. rewrite Ht. destruct (decide (thread = 1)) as [->|]; [by vm_compute|].
    destruct (decide (thread = 2)) as [->|]; [by vm_compute|]. by rewrite lookup_insert_ne, lookup_singleton_ne by done.
Defined.

End SharedSession.
