(* ===== verification/Pins.v ===== *)
(** * Pins: what the handlers leave of the pin counts

    A handler that pins and unpins nothing leaves every pin count as it found
    it.  The notion needs no assumption on the other peers or on the clock, so it
    composes over the effects; the unlock of every token policy is one unpin
    and otherwise such a handler. *)

From S2P Require Import Prelude Bitmap Types Layout Region Effect World Runtime Ownership Token Transfer Policies PolicySafety Lifecycle.
Import LocalPeerState peer_state ownership_transfer.

#[global] Instance same_pins_preorder : PreOrder same_pins.
Proof. split; [done|]. intros w w' w'' H H' d. by rewrite H', H. Qed.

Definition PinsKept {A} (m : M A) : Prop := forall E w, wlp m E (fun _ w' => same_pins w w') w.

Section rules.
Lemma PinsKept_same {A} (m : M A) : (forall E w a w', m E w = Some (a, w') -> World.local w' = World.local w) -> PinsKept m.
Proof. intros Hm E w. unfold wlp. destruct (m E w) as [[a w']|] eqn:E'; [|done]. intros d. by rewrite (Hm _ _ _ _ E'). Qed.

Lemma PinsKept_ret {A} (a : A) : PinsKept (ret a).
Proof. apply PinsKept_same. by intros ? ? ? ? [= _ <-]. Qed.
Lemma PinsKept_read {A} (f : Region.t -> A) : PinsKept (read f).
Proof. apply PinsKept_same. by intros ? ? ? ? [= _ <-]. Qed.
Lemma PinsKept_write f : PinsKept (write f).
Proof. apply PinsKept_same. by intros ? ? ? ? [= _ <-]. Qed.
Lemma PinsKept_get {A} (f : t -> A) : PinsKept (get f).
Proof. apply PinsKept_same. by intros ? ? ? ? [= _ <-]. Qed.
Lemma PinsKept_now : PinsKept now.
Proof. apply PinsKept_same. by intros ? ? ? ? [= _ <-]. Qed.
Lemma PinsKept_wallNow : PinsKept wallNow.
Proof. apply PinsKept_same. by intros ? ? ? ? [= _ <-]. Qed.
Lemma PinsKept_getFuel : PinsKept getFuel.
Proof. apply PinsKept_same. by intros ? ? ? ? [= _ <-]. Qed.
Lemma PinsKept_outOfFuel {A} : PinsKept (@outOfFuel Env.t World.t A).
Proof. done. Qed.

Lemma PinsKept_bind {A B} (m : M A) (k : A -> M B) : PinsKept m -> (forall a, PinsKept (k a)) -> PinsKept (bind m k).
Proof.
  intros Hm Hk E w. apply wlp_bind. eapply wlp_mono; [apply Hm|]. intros a w' Hw.
  eapply wlp_mono; [apply Hk|]. intros b w''. by transitivity w'.
Qed.

Definition keepsPins (f : t -> t) : Prop :=
  forall s d, LocalDomainView.pinCount (getDomain (f s) d) = LocalDomainView.pinCount (getDomain s d).

Lemma PinsKept_modify f : keepsPins f -> PinsKept (modify f).
Proof. intros Hf E w d. apply Hf. Qed.

Lemma PinsKept_query {A} (f : t -> A * t) : keepsPins (fun s => (f s).2) -> PinsKept (query f).
Proof.
  intros Hf E w. unfold wlp, query. specialize (Hf (World.local w)). cbv beta in Hf.
  destruct (f (World.local w)) as [a s]. exact Hf.
Qed.

Lemma keepsPins_domains f : (forall s, domains_ (f s) = domains_ s) -> keepsPins f.
Proof. intros Hf s d. unfold getDomain. by rewrite Hf. Qed.

Lemma keepsPins_upd d f :
  (forall v, LocalDomainView.pinCount (f v) = LocalDomainView.pinCount v) -> keepsPins (upd_domain d f).
Proof.
  intros Hf s d'. destruct (decide (d = d')) as [->|]; [by rewrite getDomain_upd_eq|by rewrite getDomain_upd_ne].
Qed.

Lemma PinsKept_when b m : PinsKept m -> PinsKept (when b m).
Proof. intros Hm. destruct b; [done|apply PinsKept_ret]. Qed.

Lemma PinsKept_if {A} (b : bool) (m m' : M A) : PinsKept m -> PinsKept m' -> PinsKept (if b then m else m').
Proof. by destruct b. Qed.

Lemma PinsKept_forM {A} (l : list A) body : (forall x, PinsKept (body x)) -> PinsKept (forM l body).
Proof. intros Hb. induction l; [apply PinsKept_ret|by apply PinsKept_bind]. Qed.

Lemma PinsKept_foldM {A C} (l : list A) (acc : C) body :
  (forall acc x, PinsKept (body acc x)) -> PinsKept (foldM l acc body).
Proof. intros Hb. revert acc. induction l; intros acc; [apply PinsKept_ret|by apply PinsKept_bind]. Qed.

Lemma PinsKept_findM {A} (l : list A) test : (forall x, PinsKept (test x)) -> PinsKept (findM l test).
Proof.
  intros Hb. induction l as [|x l IH]; [apply PinsKept_ret|]. apply PinsKept_bind; [done|].
  intros []; [apply PinsKept_ret|done].
Qed.
End rules.

#[export] Hint Resolve PinsKept_ret PinsKept_read PinsKept_write PinsKept_get PinsKept_now PinsKept_wallNow
  PinsKept_getFuel PinsKept_outOfFuel : cme.

Ltac pins_step :=
  match goal with
  | |- PinsKept (bind _ _) => apply PinsKept_bind; [|intros ?]
  | |- PinsKept (modify _) => apply PinsKept_modify; first [by apply keepsPins_domains | by apply keepsPins_upd]
  | |- PinsKept (when _ _) => apply PinsKept_when
  | |- PinsKept (if _ then _ else _) => apply PinsKept_if
  | |- PinsKept (match ?x with _ => _ end) => destruct x
  | |- PinsKept (match ?x with _ => _ end _) => destruct x
  | |- PinsKept (forM _ _) => apply PinsKept_forM; intros ?
  | |- PinsKept (foldM _ _ _) => apply PinsKept_foldM; intros ? ?
  | |- PinsKept (findM _ _) => apply PinsKept_findM; intros ?
  | |- PinsKept (rmw _ _ _) => unfold rmw
  | |- PinsKept (rmwIfTrue _ _ _) => unfold rmwIfTrue
  | |- PinsKept _ => solve [eauto 2 with cme]
  end.
Ltac pins_run := repeat (pins_step; cbv beta zeta).

Lemma PinsKept_loadDomainRecordSnapshot d : PinsKept (loadDomainRecordSnapshot d).
Proof. unfold loadDomainRecordSnapshot. pins_run. Qed.
Lemma PinsKept_getMemberView p age : PinsKept (getMemberView p age).
Proof. unfold getMemberView, loadMemberSnapshot, cacheMemberSnapshot. pins_run. Qed.
Lemma PinsKept_loadPeer p : PinsKept (request_demand.loadPeer p).
Proof. unfold request_demand.loadPeer, request_demand.loadPending. pins_run. Qed.
#[export] Hint Resolve PinsKept_loadDomainRecordSnapshot PinsKept_getMemberView PinsKept_loadPeer : cme.

Lemma PinsKept_transferOwnership d nh : PinsKept (transferOwnership d nh).
Proof. unfold transferOwnership, publishDomainRecord, loseHolder, adoptOwnership. pins_run. Qed.

(** The latch: the count it replaces is the zero it puts back. *)
Lemma PinsKept_transferOwnershipGuarded d nh : PinsKept (transferOwnershipGuarded d nh).
Proof.
  intros E w. unfold transferOwnershipGuarded, query. apply wlp_bind. unfold wlp at 1.
  unfold LocalDomainView.tryBeginOwnershipTransfer.
  destruct (Z.eqb_spec (LocalDomainView.pinCount (getDomain (World.local w) d)) 0) as [Hz|Hz]; cbn [negb].
  2:{ apply wlp_ret. intros d'. cbn. by rewrite getDomain_upd_same. }
  apply wlp_bind. eapply wlp_mono; [apply PinsKept_transferOwnership|]. intros ? w1 H1. cbn beta.
  intros d'. pose proof (H1 d') as H1'. cbn in H1' |- *. destruct (decide (d = d')) as [->|].
  - rewrite getDomain_upd_eq. by rewrite Hz.
  - rewrite getDomain_upd_ne by done. by rewrite H1', getDomain_upd_ne.
Qed.
#[export] Hint Resolve PinsKept_transferOwnership PinsKept_transferOwnershipGuarded : cme.

(** ** The policies *)

(** An unlock takes one pin off its domain and leaves every other count. *)
Class PinPolicy (P : SuccessorPolicy) : Prop :=
  unlock_pins : forall E d w, wlp (unlock d) E (fun _ w' => same_pins (released d w) w') w.

Lemma unlock_pins_from (rest : M unit) E d w :
  PinsKept rest -> wlp (unpin d ;;; rest) E (fun _ w' => same_pins (released d w) w') w.
Proof. intros Hr. apply wlp_bind. exact (Hr E (released d w)). Qed.

#[export] Instance orderPolicy_pins : PinPolicy orderPolicy.
Proof.
  intros E d w. apply unlock_pins_from. unfold OrderPolicy.findSuccessor. pins_run.
Qed.

#[export] Instance requestPolicy_pins : PinPolicy requestPolicy.
Proof. intros E d w. apply unlock_pins_from. unfold RequestPolicy.transferOwnershipToRequester. pins_run. Qed.

#[export] Instance requestAggPolicy_pins : PinPolicy requestAggPolicy.
Proof.
  intros E d w. apply unlock_pins_from.
  unfold RequestAggPolicy.transferHeldDomainsAgg, RequestAggPolicy.scanGroup, RequestAggPolicy.grantHeldToPeer, grantAll.
  pins_run.
Qed.

(** ** Joining a domain *)

Lemma PinsKept_lifecycle_joinDomain d : PinsKept (lifecycle.joinDomain d).
Proof.
  unfold lifecycle.joinDomain, lifecycle.syncDomainView, becomeHolder, loseHolder, setParticipation,
    participationBitRmw, publishSelfMember.
  pins_run.
Qed.

Section joining.
Context (E : Env.t) (pc self : Z) (mine : Z -> Z -> Prop).
Hypothesis HE : respects E (tokenR pc mine).
Hypothesis Hself : forall d, mine d self.

Lemma Safe_lifecycle_joinDomain d : Safe E pc self mine (lifecycle.joinDomain d).
Proof.
  unfold lifecycle.joinDomain, lifecycle.syncDomainView, becomeHolder, loseHolder, setParticipation,
    participationBitRmw, publishSelfMember, loadDomainRecordSnapshot. safe_run.
Qed.
End joining.
