(* ===== verification/Leases.v ===== *)
(** * Leases: the theorems on the stake-settle-confirm claim

    What one [tick] does against any word, by the instants it read its clock at,
    and what those instants are worth when several hosts stake one word whose
    stores take a bounded time to land. *)

From S2P Require Import Prelude Types Layout Region Effect World StakeClaim Admission Token Transfer Exclusion.
Import stake.

(** ** One tick *)

Section contract.
Context (word : Word) (E : Env.t).
(** [Saw v w w']: a read between [w] and [w'] saw [v]. *)
Context (Saw : Z -> World.t -> World.t -> Prop).

Definition later (w w' : World.t) : Prop := (World.clockReads w <= World.clockReads w')%nat.

(** A word whose operations return. *)
Record sound_word : Prop := {
  sound_read w : wp (word_read word) E (fun v w' => later w w' /\ Saw v w w') w;
  sound_isFree v w : wp (word_isFree word v) E (fun _ w' => later w w') w;
  sound_makeOwn w : wp (word_makeOwn word) E (fun _ w' => later w w') w;
  sound_publish v w : wp (word_publish word v) E (fun _ w' => later w w') w;
  sound_retract v w : wp (word_retract word v) E (fun _ w' => later w w') w;
}.
Hypothesis Hsound : sound_word.

(** A stake made between [w] and [w']: the window is opened at instant [i], the
    word read after it, the store flushed by instant [j], and the phase and its
    end follow from whether [j] was inside the window, with [l] read after it. *)
Definition stakedBetween (w w' : World.t) (c : Claim.t) : Prop :=
  exists i j l seen w1 w2,
    (World.clockReads w <= i < World.clockReads w1)%nat /\ Saw seen w1 w2 /\ (World.clockReads w2 <= j < l)%nat /\ (l < World.clockReads w')%nat /\
    let late := Env.clock E i + config.stake.Window <=? Env.clock E j in
    Claim.phase_ c = (if late then Claim.Holding else Claim.Settling) /\
    timing.Deadline.ends_ (Claim.window_ c) = Env.clock E l + (if late then LateHold word else config.stake.Settle).

(** What a try leaves: nothing staked, or a stake timed as above. *)
Definition tried (w w' : World.t) (out : Outcome * Claim.t) : Prop :=
  out.1 = Pending /\ (Claim.isStaked out.2 = false \/ stakedBetween w w' out.2).

Lemma stakeOver_tried i began c w w0 w1 w2 seen :
  began = Env.clock E i -> (World.clockReads w0 <= i < World.clockReads w1)%nat -> Saw seen w1 w2 -> later w2 w ->
  wp (stakeOver word (timing.Deadline.make began config.stake.Window) c) E (fun out w' => tried w0 w' out) w.
Proof.
  intros -> Hi Hsaw Hw. unfold stakeOver. apply wp_bind. eapply wp_mono; [apply Hsound|]. intros mine w3 Hw3.
  apply wp_bind. eapply wp_mono; [apply Hsound|]. intros [] w4 Hw4; cbn [negb]; [|by apply wp_ret; split; [|left]].
  apply wp_bind, wp_now. apply wp_bind, wp_now. apply wp_ret. split; [done|right]. unfold later in *.
  exists i, (World.clockReads w4), (S (World.clockReads w4)), seen, w1, w2. cbn. split_and!; done || lia.
Qed.

Lemma tried_later w0 w w' out : later w0 w -> tried w w' out -> tried w0 w' out.
Proof.
  unfold later. intros Hl [Ho [H|(i & j & l & seen & w1 & w2 & Hi & H)]]; (split; [done|]); [by left|].
  right. exists i, j, l, seen, w1, w2. split; [lia|done].
Qed.

(** A claim not watching is never found to have stood its timeout. *)
Lemma hasStoodTimeout_pending seen c w :
  Claim.isStaked c = false ->
  wp (hasStoodTimeout word seen c) E (fun stood w' => later w w' /\ Claim.isStaked stood.2 = false /\
    (stood.1 = true -> Claim.phase_ c = Claim.Watching /\ Claim.phase_ stood.2 = Claim.Idle)) w.
Proof.
  intros Hc. unfold hasStoodTimeout, later. destruct (StallTimeout word) as [stall|]; [|apply wp_ret; split_and!; done || lia].
  destruct (bool_decide_reflect (Claim.phase_ c = Claim.Watching)) as [Hw|Hw]; cbn [negb orb].
  2:{ apply wp_bind, wp_now, wp_ret. cbn. split_and!; done || lia. }
  destruct (negb _).
  { apply wp_bind, wp_now, wp_ret. cbn. split_and!; done || lia. }
  apply wp_bind, wp_now. destruct (_ <? stall); apply wp_ret; cbn; split_and!; done || lia.
Qed.

Lemma tryStake_turns_tried turns c w :
  Claim.isStaked c = false -> (Claim.phase_ c = Claim.Watching -> 2 <= turns)%nat -> (1 <= turns)%nat ->
  wp (tryStake_turns word turns c) E (fun out w' => tried w w' out) w.
Proof.
  revert c w. induction turns as [|turns IH]; intros c w Hc Hw Ht; [lia|]. cbn [tryStake_turns]. apply wp_bind, wp_now.
  set (w1 := World.with_clockReads _ w). apply wp_bind. eapply wp_mono; [apply Hsound|]. intros seen w2 [Hl2 Hsaw].
  apply wp_bind. eapply wp_mono; [apply Hsound|]. intros free w3 Hl3. unfold later in *. cbn in Hl2.
  destruct (negb free && _).
  - apply wp_bind. eapply wp_mono; [by apply hasStoodTimeout_pending|]. intros [[] c'] w4 (Hl4 & Hc' & Hstood); cbn [fst snd] in *.
    + destruct (Hstood eq_refl) as [Hwatch Hidle]. eapply wp_mono; [apply IH; [done|congruence|specialize (Hw Hwatch); lia]|].
      intros out w5. apply tried_later. unfold later in *. lia.
    + apply wp_ret. split; [done|by left].
  - apply (stakeOver_tried (World.clockReads w) _ c w3 w w1 w2 seen); [done|cbn; lia|done|done].
Qed.

Lemma tryStake_tried c w : Claim.isStaked c = false -> wp (tryStake word c) E (fun out w' => tried w w' out) w.
Proof. intros Hc. apply tryStake_turns_tried; [done|lia|lia]. Qed.

(** What one tick of a claim does, against any word whose operations return.
    It returns: a value that stood its timeout is read once more and no third
    time.  It answers [Won] only for a claim that was settling, at an instant no
    earlier than the end of its settle, on a word it has just read its own value
    from, and leaves that claim as it is.  Any claim it leaves staked is the one
    it was given, still inside its window, or a new stake: settling for
    [Settle] past an instant after its flush when the flush was inside [Window]
    of an instant before the read it staked on, and otherwise held for the word's
    [LateHold], never to be confirmed. *)
Theorem tick_contract c w :
  wp (tick word c) E (fun out w' =>
    match out.1 with
    | Won => Claim.phase_ c = Claim.Settling /\ out.2 = c /\
        exists i w1, (World.clockReads w <= i < World.clockReads w1)%nat /\
          timing.Deadline.ends_ (Claim.window_ c) <= Env.clock E i /\ Saw (Claim.mine_ c) w1 w'
    | Pending => out.2 = c \/ Claim.isStaked out.2 = false \/ stakedBetween w w' out.2
    end) w.
Proof.
  assert (forall c w0, Claim.isStaked c = false -> later w w0 -> wp (tryStake word c) E (fun out w' =>
    match out.1 with Won => False | Pending => Claim.isStaked out.2 = false \/ stakedBetween w w' out.2 end) w0) as Htry.
  { intros c0 w0 Hc Hl. eapply wp_mono; [by apply tryStake_tried|]. intros out w' Hout%(tried_later w); [|done].
    destruct Hout as [-> H]. done. }
  assert (forall c0 w0, Claim.isStaked c0 = false -> later w w0 -> wp (tryStake word c0) E (fun out w' =>
    match out.1 with
    | Won => Claim.phase_ c = Claim.Settling /\ out.2 = c /\
        exists i w1, (World.clockReads w <= i < World.clockReads w1)%nat /\
          timing.Deadline.ends_ (Claim.window_ c) <= Env.clock E i /\ Saw (Claim.mine_ c) w1 w'
    | Pending => out.2 = c \/ Claim.isStaked out.2 = false \/ stakedBetween w w' out.2
    end) w0) as Hretry.
  { intros c0 w0 Hc Hl. eapply wp_mono; [by apply Htry|]. intros [[] c'] w'; cbn; tauto. }
  unfold tick. destruct (Claim.phase_ c) eqn:Hp.
  1,2: apply Hretry; [by unfold Claim.isStaked; rewrite Hp|unfold later; lia].
  - unfold endSettle. apply wp_bind, wp_now. unfold timing.Deadline.expiredAt.
    destruct (Z.leb_spec (timing.Deadline.ends_ (Claim.window_ c)) (Env.clock E (World.clockReads w))) as [Hend|]; cbn [negb]; [|by apply wp_ret; left].
    apply wp_bind. eapply wp_mono; [apply Hsound|]. intros value w2 [Hl Hsaw]. unfold later in Hl. cbn in Hl.
    destruct (Z.eqb_spec value (Claim.mine_ c)) as [->|]; [|apply Hretry; [done|unfold later; lia]].
    apply wp_ret. split_and!; [done..|]. eexists (World.clockReads w), _. split_and!; [lia| |done|exact Hsaw]. cbn. lia.
  - unfold endHold. apply wp_bind, wp_now. destruct (negb _); [by apply wp_ret; left|]. apply wp_bind.
    eapply wp_mono; [apply Hsound|]. intros [] w2 Hl. apply Hretry; [done|]. unfold later in *. cbn in Hl. lia.
Qed.
End contract.

(** The lease word is such a word, whoever else writes the line, when the engine
    does not draw zero for ever. *)
Definition nonceSeen (v : Z) (w w' : World.t) : Prop :=
  v = valueOf admission.NonceField (Region.admission (World.region w')).
Definition draws_nonzero (E : Env.t) : Prop := forall n, exists m, (m <= Env.fuel E)%nat /\ Env.draw E (n + m)%nat <> 0.

Lemma getRandomNonce_returns E fuel w :
  (exists m, (m < fuel)%nat /\ Env.draw E (World.draws w + m)%nat <> 0) ->
  wp (admission.getRandomNonce_loop fuel) E (fun nonce w' => nonce <> 0 /\ later w w') w.
Proof.
  revert w. induction fuel as [|fuel IH]; intros w (m & Hm & Hd); [lia|]. cbn [admission.getRandomNonce_loop].
  apply wp_bind, wp_drawNonce. destruct (Z.eqb_spec (Env.draw E (World.draws w)) 0) as [H0|]; [|by apply wp_ret; split; [|unfold later; cbn; lia]].
  destruct m as [|m]; [rewrite Nat.add_0_r in Hd; done|]. eapply wp_mono; [apply IH|by intros ? ? [? ?]; split].
  exists m. split; [lia|]. cbn. by replace (S (World.draws w + m)) with (World.draws w + S m)%nat by lia.
Qed.

Lemma lease_sound E : draws_nonzero E -> sound_word admission.LeaseWord E nonceSeen.
Proof.
  intros Hd. split; unfold later.
  - intros w. cbn. unfold FieldWord_read. by wp_run.
  - intros v w. cbn. by wp_run.
  - intros w. cbn. unfold admission.getRandomNonce. apply wp_bind, wp_getFuel. eapply wp_mono; [apply getRandomNonce_returns|by intros ? ? [_ ?]].
    destruct (Hd (World.draws w)) as (m & Hm & H). exists m. split; [lia|done].
  - intros v w. cbn. by wp_run.
  - intros v w. cbn. unfold admission.releaseLease, retract. wp_run; try done; cbn in *; lia.
Qed.

(** A joiner whose clock moves a tenth of a millisecond per reading stakes the
    free lease in time, and wins once the settle has passed. *)
Definition sample_joiner : Env.t :=
  Env.mk (fun n => Z.of_nat n * 100000) (fun n => Z.of_nat n) (fun n => Z.of_nat n + 1) (fun _ r => r) 4.
Definition settled : Claim.t := Claim.mk Claim.Settling 0 0 0 None (timing.Deadline.mk 0).

Lemma tick_contract_witness :
  exists out w', tick admission.LeaseWord settled sample_joiner (sample.world 0) = Some (out, w') /\
    out.1 = Won /\ out.2 = settled.
Proof.
  assert (draws_nonzero sample_joiner) as Hd by (intros n; exists 0%nat; cbn; split; lia).
  pose proof (tick_contract admission.LeaseWord sample_joiner nonceSeen (lease_sound _ Hd) settled
    (sample.world 0)) as H.
  apply wp_elim in H as ([o c'] & w' & Hrun & H). exists (o, c'), w'. split; [exact Hrun|].
  assert (answer (tick admission.LeaseWord settled) sample_joiner (sample.world 0) = Some (Won, settled)) as Ha
    by (vm_compute; reflexivity).
  pose proof (answer_run _ _ _ _ _ _ Hrun Ha) as [= -> ->]. split; reflexivity.
Defined.

(** ** Several hosts and one lease

    A history of the lease word on one time axis: the stakes hosts made, the
    clears they made, and the instants each procedure read, wrote and looked
    again.  A store lands by [StoreVisibilityLag] after its flush, and a writer
    that looked before it wrote writes within [WriterStall]; these are the
    assumptions [config.hpp] states.  The values are nonces, drawn once each. *)
Module lease_history.
Import config.

(** One run of [tryStake] that published: its window opened at [began], the word
    read at [readAt], the store landing at [landed] and flushed by [flushed], the
    settle or the hold opened at [opened], and, for a stake that won, the read
    back at [confirmed]. *)
Record Attempt := mkAttempt {
  nonce : Z; began : Z; readAt : Z; landed : Z; flushed : Z; opened : Z; confirmed : Z;
}.
(** One [retract]: the look that found the nonce and the clear it made. *)
Record Clear := mkClear { of_ : Attempt; checkAt : Z; clearAt : Z }.

Record t := mk { attempts : list Attempt; clears : list Clear }.

(** The landings, and the word at an instant: the value of the last one. *)
Definition landings (h : t) : list (Z * Z) :=
  map (fun a => (landed a, nonce a)) (attempts h) ++ map (fun c => (clearAt c, 0)) (clears h).
Definition newer (t : Z) (e best : Z * Z) : Z * Z := if (e.1 <=? t) && (best.1 <? e.1) then e else best.
Definition lastAt (h : t) (t : Z) : Z * Z := fold_right (newer t) (-1, 0) (landings h).
Definition valueAt (h : t) (t : Z) : Z := (lastAt h t).2.

(** [hasStoodTimeout]: the value read at [t] is one a look saw before, the
    [Timeout] ago. *)
Definition stoodTimeout (h : t) (t : Z) : Prop :=
  exists since, 0 <= since /\ since + lease.Timeout <= t /\ valueAt h since = valueAt h t.
(** [tryStake]: read after the window opened, the word free or its value stalled,
    landed after the read and within the lag of the flush. *)
Definition stakes (h : t) (a : Attempt) : Prop :=
  0 <= began a <= readAt a /\ readAt a < landed a <= flushed a + stake.StoreVisibilityLag /\
  flushed a <= opened a /\ nonce a <> 0 /\ (valueAt h (readAt a) = 0 \/ stoodTimeout h (readAt a)).
Definition inTime (a : Attempt) : Prop := flushed a < began a + stake.Window.
(** [endSettle]: the settle is over and the word reads back. *)
Definition wins (h : t) (a : Attempt) : Prop :=
  inTime a /\ opened a + stake.Settle <= confirmed a /\ valueAt h (confirmed a) = nonce a.
(** [endHold] of a late stake, and the release of a winner: both look first. *)
Definition clearsOwn (h : t) (c : Clear) : Prop :=
  of_ c ∈ attempts h /\ valueAt h (checkAt c) = nonce (of_ c) /\
  checkAt c < clearAt c <= checkAt c + lease.WriterStall + stake.StoreVisibilityLag /\
  (~ inTime (of_ c) /\ opened (of_ c) + lease.LateStakeHold <= checkAt c \/
   wins h (of_ c) /\ confirmed (of_ c) <= checkAt c).

Record possible (h : t) : Prop := {
  p_stakes : forall a, a ∈ attempts h -> stakes h a;
  p_clears : forall c, c ∈ clears h -> clearsOwn h c;
  p_nonce : forall a b, a ∈ attempts h -> b ∈ attempts h -> nonce a = nonce b -> a = b;
  p_once : forall c d, c ∈ clears h -> d ∈ clears h -> of_ c = of_ d -> c = d;
  p_instant : forall a b, a ∈ attempts h -> b ∈ attempts h -> landed a = landed b -> a = b;
  p_apart : forall a c, a ∈ attempts h -> c ∈ clears h -> landed a <> clearAt c;
}.

(** What the static asserts of [config.hpp] take for granted of the hosts that
    are alive: a withdrawal or a release lands, and a holder finishes, before the
    nonce has stood its timeout.  A host that stopped clears nothing and is not
    bound by it. *)
Record prompt (h : t) : Prop := {
  prompt_clear : forall c, c ∈ clears h -> clearAt c <= landed (of_ c) + lease.Timeout;
  prompt_holder : forall a, a ∈ attempts h -> wins h a -> confirmed a + lease.WriterStall <= landed a + lease.Timeout;
}.

(** *** The word between two landings *)

Lemma lastAt_spec (l : list (Z * Z)) t :
  let e := fold_right (newer t) (-1, 0) l in
  (e = (-1, 0) \/ e ∈ l /\ e.1 <= t) /\ (forall x, x ∈ l -> x.1 <= t -> x.1 <= e.1).
Proof.
  induction l as [|x rest IH]; cbn; [split; [by left|]; intros x Hx; by apply elem_of_nil in Hx|].
  destruct IH as [H1 H2]. set (best := fold_right (newer t) (-1, 0) rest) in *. unfold newer.
  destruct (Z.leb_spec x.1 t) as [Hx|Hx], (Z.ltb_spec best.1 x.1) as [Hb|Hb]; cbn.
  1: split; [right; split; [by left|done]|]; intros y [->|Hy]%elem_of_cons Hyt; [lia|specialize (H2 y Hy Hyt); lia].
  all: split; [destruct H1 as [->|[? ?]]; [by left|right; split; [by right|done]]|].
  all: intros y [->|Hy]%elem_of_cons Hyt; [lia|by apply H2].
Qed.

Section possible.
Context (h : t).
Hypothesis Hh : possible h.

Lemma elem_landings x :
  x ∈ landings h <-> (exists a, a ∈ attempts h /\ x = (landed a, nonce a)) \/ (exists c, c ∈ clears h /\ x = (clearAt c, 0)).
Proof.
  unfold landings. rewrite elem_of_app, !list_elem_of_fmap. naive_solver.
Qed.

(** The stake whose value stands at [t], with nothing landed since. *)
Lemma stands_at a t :
  a ∈ attempts h -> valueAt h t = nonce a ->
  landed a <= t /\ (forall b, b ∈ attempts h -> landed a < landed b <= t -> False) /\
  (forall c, c ∈ clears h -> landed a < clearAt c <= t -> False).
Proof.
  intros Ha Hv. destruct (p_stakes _ Hh a Ha) as (_ & _ & _ & Hn & _). unfold valueAt, lastAt in Hv.
  destruct (lastAt_spec (landings h) t) as [H1 H2]. set (e := fold_right _ _ _) in *.
  destruct H1 as [->|[He Ht]]; [by destruct Hn|]. apply elem_landings in He as [(b & Hb & ->)|(c & Hc & ->)]; [|by destruct Hn].
  cbn in *. assert (b = a) as -> by by apply (p_nonce _ Hh). split_and!; [done| |].
  - intros b Hb' Hl. specialize (H2 (landed b, nonce b)). cbn in H2. rewrite elem_landings in H2. assert (landed b <= landed a); [|lia].
    apply H2; [left; by exists b|lia].
  - intros c Hc Hl. specialize (H2 (clearAt c, 0)). cbn in H2. rewrite elem_landings in H2. assert (clearAt c <= landed a); [|lia].
    apply H2; [right; by exists c|lia].
Qed.

(** What stands at an instant past a landing: a stake that landed no earlier, or
    nothing, and then the word was cleared in between. *)
Lemma stands_since a t :
  a ∈ attempts h -> landed a <= t ->
  (valueAt h t = 0 /\ exists c, c ∈ clears h /\ landed a < clearAt c <= t) \/
  (exists x, x ∈ attempts h /\ valueAt h t = nonce x /\ landed a <= landed x).
Proof.
  intros Ha Hl. unfold valueAt, lastAt. destruct (lastAt_spec (landings h) t) as [H1 H2]. set (e := fold_right _ _ _) in *.
  assert (landed a <= e.1) as Hle.
  { apply (H2 (landed a, nonce a)); [|done]. apply elem_landings. left. by exists a. }
  destruct (p_stakes _ Hh a Ha) as (Hb & Hr & _). destruct H1 as [->|[He Ht]]; [cbn in Hle; lia|].
  apply elem_landings in He as [(x & Hx & He)|(c & Hc & He)]; rewrite He in *; cbn in *.
  - right. by exists x.
  - left. split; [done|]. exists c. split; [done|]. pose proof (p_apart _ Hh a c Ha Hc). lia.
Qed.

(** A stake reads a word an earlier one landed in: it was cleared in between, or
    it holds a nonce that landed no earlier and has stood its timeout. *)
Lemma opened_since a b :
  a ∈ attempts h -> b ∈ attempts h -> landed a <= readAt b ->
  (exists c, c ∈ clears h /\ landed a < clearAt c <= readAt b) \/
  (exists x, x ∈ attempts h /\ (x = a \/ landed a < landed x) /\ landed x + lease.Timeout <= readAt b).
Proof.
  intros Ha Hb Hl. destruct (stands_since a _ Ha Hl) as [[_ Hc]|(x & Hx & Hv & Hle)]; [by left|right].
  destruct (p_stakes _ Hh x Hx) as (_ & _ & _ & Hn & _). destruct (p_stakes _ Hh b Hb) as (_ & _ & _ & _ & [H0|(since & _ & Hs & Hsv)]); [congruence|].
  rewrite Hv in Hsv. destruct (stands_at x since Hx Hsv) as (Hlx & _). exists x. split_and!; [done| |lia].
  destruct (Z.eq_dec (landed a) (landed x)) as [He|]; [left; symmetry; by apply (p_instant _ Hh)|right; lia].
Qed.

(** The static asserts, as numbers of nanoseconds. *)
Ltac spans := unfold lease.Timeout, lease.LateStakeHold, lease.WriterStall, stake.Settle, stake.Window, stake.StoreVisibilityLag, timing.Millis in *.

Lemma lands_soon a : a ∈ attempts h -> inTime a -> landed a < readAt a + stake.Window + stake.StoreVisibilityLag.
Proof. intros Ha Hi. destruct (p_stakes _ Hh a Ha) as (? & ? & _). unfold inTime in Hi. lia. Qed.

Lemma late_check c :
  c ∈ clears h -> ~ inTime (of_ c) -> landed (of_ c) + lease.WriterStall + stake.StoreVisibilityLag <= checkAt c.
Proof.
  intros Hc Hl. destruct (p_clears _ Hh c Hc) as (Ha & _ & _ & [[_ Ho]|[[Hi _] _]]); [|done].
  destruct (p_stakes _ Hh _ Ha) as (_ & ? & ? & _). spans. lia.
Qed.

(** A look that finds its own nonce comes after every in-time stake that read the
    word before that nonce landed. *)
Lemma check_after c : c ∈ clears h -> landed (of_ c) + stake.Window + stake.StoreVisibilityLag <= checkAt c.
Proof.
  intros Hc. destruct (p_clears _ Hh c Hc) as (Ha & _ & _ & [[_ Ho]|[(_ & Ho & _) Hk]]);
    destruct (p_stakes _ Hh _ Ha) as (_ & ? & ? & _); spans; lia.
Qed.

Hypothesis Hprompt : prompt h.

(** An in-time stake past such a look read a word somebody had cleared since, or
    read it when the clear had landed. *)
Lemma freed_past_check a c :
  a ∈ attempts h -> inTime a -> c ∈ clears h -> checkAt c < landed a ->
  (exists e, e ∈ clears h /\ checkAt c < clearAt e <= readAt a) \/ clearAt c <= readAt a.
Proof.
  intros Ha Hi Hc Hlt. pose proof (lands_soon a Ha Hi) as Hsoon. pose proof (check_after c Hc) as Hafter.
  destruct (p_clears _ Hh c Hc) as (HC & Hv & Ht & _). destruct (stands_at (of_ c) (checkAt c) HC Hv) as (_ & Hnext & Hno).
  destruct (opened_since (of_ c) a HC Ha ltac:(lia)) as [(e & He & Hl)|(x & Hx & [->|Hlx] & Hstood)].
  - left. exists e. split; [done|]. specialize (Hno e He). lia.
  - right. pose proof (prompt_clear _ Hprompt c Hc). lia.
  - right. specialize (Hnext x Hx). spans. lia.
Qed.

Lemma check_nonneg c : c ∈ clears h -> 0 <= checkAt c.
Proof.
  intros Hc. pose proof (check_after c Hc). destruct (p_clears _ Hh c Hc) as (Ha & _). destruct (p_stakes _ Hh _ Ha) as (? & ? & _). spans. lia.
Qed.

(** No two clears are under way at once. *)
Lemma no_overlap c d : c ∈ clears h -> d ∈ clears h -> c <> d -> checkAt c <= checkAt d < clearAt c -> False.
Proof.
  intros Hc Hd. revert c d Hc Hd.
  cut (forall n, 0 <= n -> forall c d, c ∈ clears h -> d ∈ clears h -> checkAt d = n -> c <> d -> checkAt c <= checkAt d < clearAt c -> False).
  { intros Hall c d Hc Hd. by apply (Hall (checkAt d)); [apply check_nonneg|..]. }
  apply (Zlt_0_ind (fun n => forall c d, c ∈ clears h -> d ∈ clears h -> checkAt d = n -> c <> d -> checkAt c <= checkAt d < clearAt c -> False)).
  intros n IH Hn c d Hc Hd <- Hne Hov.
  destruct (p_clears _ Hh c Hc) as (HC & HvC & HtC & _). destruct (p_clears _ Hh d Hd) as (HD & HvD & HtD & Hwhy).
  assert (of_ c <> of_ d) as HCD by (intros He; apply Hne; by apply (p_once _ Hh)).
  destruct (stands_at _ _ HC HvC) as (HlC & HnoC & _). destruct (stands_at _ _ HD HvD) as (HlD & HnoD & _).
  assert (checkAt c < landed (of_ d)) as Hlate.
  { specialize (HnoC _ HD). specialize (HnoD _ HC). assert (landed (of_ c) <> landed (of_ d)) by (intros He; apply HCD; by apply (p_instant _ Hh)). lia. }
  destruct Hwhy as [[Hnot _]|[[Hi _] _]].
  { pose proof (late_check d Hd Hnot). lia. }
  destruct (p_stakes _ Hh _ HD) as (_ & ? & _). destruct (freed_past_check _ c HD Hi Hc Hlate) as [(e & He & Hgap)|]; [|lia].
  destruct (p_clears _ Hh e He) as (_ & _ & HtE & _).
  assert (e <> c) as Hec by (intros ->; lia).
  destruct (Z.le_gt_cases (checkAt c) (checkAt e)) as [Hle|Hgt].
  - apply (IH (checkAt e)) with c e; try done; [pose proof (check_nonneg e He); lia|lia].
  - apply (IH (checkAt c)) with e c; try done; [pose proof (check_nonneg c Hc); lia|lia].
Qed.

(** No clear is under way across an in-time stake. *)
Lemma no_clear_across a c : a ∈ attempts h -> inTime a -> c ∈ clears h -> checkAt c < landed a < clearAt c -> False.
Proof.
  intros Ha Hi Hc Hx. destruct (p_stakes _ Hh _ Ha) as (_ & ? & _).
  destruct (freed_past_check a c Ha Hi Hc ltac:(lia)) as [(e & He & Hgap)|]; [|lia]. destruct (p_clears _ Hh e He) as (_ & _ & HtE & _).
  assert (e <> c) as Hec by (intros ->; lia).
  destruct (Z.le_gt_cases (checkAt c) (checkAt e)); [apply (no_overlap c e)|apply (no_overlap e c)]; done || lia.
Qed.

(** *** Two winners *)

Context (a : Attempt).
Hypothesis (Ha : a ∈ attempts h) (Hwin : wins h a).

(** A stake that lands after the winner's is one the winner did not see. *)
Lemma unseen b : b ∈ attempts h -> landed a < landed b -> confirmed a < landed b.
Proof.
  intros Hb Hlt. destruct Hwin as (_ & _ & Hv). destruct (stands_at _ _ Ha Hv) as (_ & Hno & _). specialize (Hno b Hb). lia.
Qed.

(** An in-time one read a word cleared past the winner's confirmation, or read it
    once the winner has had its [WriterStall]. *)
Lemma freed_past_confirm b :
  b ∈ attempts h -> inTime b -> landed a < landed b ->
  (exists c, c ∈ clears h /\ confirmed a < clearAt c <= readAt b) \/ confirmed a + lease.WriterStall <= readAt b.
Proof.
  intros Hb Hi Hlt. pose proof (unseen b Hb Hlt). pose proof (lands_soon b Hb Hi).
  destruct (p_stakes _ Hh a Ha) as (_ & ? & ? & _). pose proof Hwin as (_ & Hs & Hv).
  destruct (stands_at _ _ Ha Hv) as (_ & _ & Hno).
  destruct (opened_since a b Ha Hb ltac:(spans; lia)) as [(c & Hc & Hl)|(x & Hx & [->|Hlx] & Hstood)].
  - left. exists c. split; [done|]. specialize (Hno c Hc). lia.
  - right. pose proof (prompt_holder _ Hprompt a Ha Hwin). lia.
  - right. pose proof (unseen x Hx Hlx). spans. lia.
Qed.

(** The word opens past a confirmation by the winner's own release, or once the
    winner has had its [WriterStall]. *)
Lemma opens_after c :
  c ∈ clears h -> confirmed a < clearAt c ->
  (exists r, r ∈ clears h /\ of_ r = a /\ clearAt r <= clearAt c) \/ confirmed a + lease.WriterStall <= clearAt c.
Proof.
  intros Hc. pose proof (check_nonneg c Hc) as Hpos. destruct (p_clears _ Hh c Hc) as (_ & _ & Ht & _). revert Hc. revert c Hpos Ht.
  cut (forall n, 0 <= n -> forall c, c ∈ clears h -> clearAt c = n -> confirmed a < clearAt c ->
    (exists r, r ∈ clears h /\ of_ r = a /\ clearAt r <= clearAt c) \/ confirmed a + lease.WriterStall <= clearAt c).
  { intros Hall c Hpos Ht Hc. apply (Hall (clearAt c)); [lia|done|done]. }
  apply (Zlt_0_ind (fun n => forall c, c ∈ clears h -> clearAt c = n -> confirmed a < clearAt c ->
    (exists r, r ∈ clears h /\ of_ r = a /\ clearAt r <= clearAt c) \/ confirmed a + lease.WriterStall <= clearAt c)).
  intros n IH Hn c Hc <- Hlt.
  destruct (p_clears _ Hh c Hc) as (HC & HvC & HtC & Hwhy). destruct (stands_at _ _ HC HvC) as (HlC & HnoC & _).
  destruct (Z.lt_trichotomy (landed (of_ c)) (landed a)) as [Hbefore|[Hsame|Hafter]].
  - exfalso. pose proof Hwin as (Hi & _ & Hv). destruct (stands_at _ _ Ha Hv) as (Hla & _). specialize (HnoC a Ha).
    apply (no_clear_across a c); try done. lia.
  - left. exists c. split_and!; [done|by apply (p_instant _ Hh)|lia].
  - pose proof (unseen _ HC Hafter). destruct Hwhy as [[Hnot _]|[[Hi _] _]].
    { right. pose proof (late_check c Hc Hnot). spans. lia. }
    destruct (p_stakes _ Hh _ HC) as (_ & ? & _). destruct (freed_past_confirm _ HC Hi Hafter) as [(e & He & Hgap)|]; [|right; lia].
    pose proof (check_nonneg e He). destruct (p_clears _ Hh e He) as (_ & _ & HtE & _).
    destruct (IH (clearAt e) ltac:(lia) e He eq_refl ltac:(lia)) as [(r & Hr & Hof & Hle)|Hle]; [left; exists r; split_and!; done || lia|right; lia].
Qed.
End possible.

(** *** The histories the procedure makes

    A host runs [stake.tick] on the lease word.  Here the word answers what the
    history holds at the instant of the look, an instant of the host's clock, so
    every event of a run is one reading of that clock; its store and its clear
    land where the history says. *)

Definition leaseOver (h : t) : Word :=
  mkWord
    (let! instant := now in ret (valueAt h instant))
    (word_isFree admission.LeaseWord)
    (word_makeOwn admission.LeaseWord)
    (fun _ => ret true)
    (fun _ => let! _ := now in ret tt)
    (LateHold admission.LeaseWord)
    (StallTimeout admission.LeaseWord).

Section runs.
Context (h : t) (E : Env.t).
Definition host : Prop := clock_monotone E /\ 0 <= Env.clock E 0.

(** The claims a candidate comes to, from a fresh one by its ticks, however long
    it sleeps between them. *)
Inductive reached : Claim.t -> World.t -> Prop :=
| reached_start w : reached Claim.initial w
| reached_later c w w' : reached c w -> later w w' -> reached c w'
| reached_tick c w o c' w' : reached c w -> tick (leaseOver h) c E w = Some ((o, c'), w') -> reached c' w'.

(** The attempt of a tick that staked anew: the last four readings of the clock
    are its window, its look, its flush and its settle or hold. *)
Definition made (a : Attempt) (c' : Claim.t) (w' : World.t) : Prop :=
  exists c w k, reached c w /\ tick (leaseOver h) c E w = Some ((Pending, c'), w') /\ Claim.isStaked c' = true /\ c' <> c /\
    nonce a = Claim.mine_ c' /\ World.clockReads w' = (k + 4)%nat /\ began a = Env.clock E k /\ readAt a = Env.clock E (k + 1) /\
    flushed a = Env.clock E (k + 2) /\ opened a = Env.clock E (k + 3).
(** It won: a later tick of the same claim says so, its last reading being the
    look that read the nonce back. *)
Definition won (a : Attempt) (c : Claim.t) (w w2 : World.t) : Prop :=
  made a c w /\ exists w1 k, later w w1 /\ tick (leaseOver h) c E w1 = Some ((Won, c), w2) /\
    World.clockReads w2 = (k + 1)%nat /\ confirmed a = Env.clock E k.
(** Its clear: the hold of a late stake over, or the release of a winner.  Each
    looks at the word first, at [checkAt]. *)
Definition cleared (c : Clear) : Prop :=
  exists claim w, made (of_ c) claim w /\
  ((Claim.phase_ claim = Claim.Holding /\ exists w1 out w2, later w w1 /\ tick (leaseOver h) claim E w1 = Some (out, w2) /\
      (World.clockReads w1 + 1 < World.clockReads w2)%nat /\ checkAt c = Env.clock E (World.clockReads w1 + 1)) \/
   (exists w2 w3 w4, won (of_ c) claim w w2 /\ later w2 w3 /\ word_retract (leaseOver h) (Claim.mine_ claim) E w3 = Some (tt, w4) /\
      checkAt c = Env.clock E (World.clockReads w3))).

Hypothesis Hhost : host.

(** What a claim remembers of the word was there to be seen. *)
Record watching (c : Claim.t) (w : World.t) : Prop := {
  watching_since : Claim.phase_ c = Claim.Watching -> exists n, (n < World.clockReads w)%nat /\
    valueAt h (Env.clock E n) = Claim.watched_ c /\ Env.clock E n <= Claim.watchedSince_ c;
  watching_stalled : forall v, Claim.stalled_ c = Some v -> exists n m, (m < World.clockReads w)%nat /\
    valueAt h (Env.clock E n) = v /\ Env.clock E n + lease.Timeout <= Env.clock E m;
}.
Definition freshStake (c : Claim.t) (w : World.t) : Prop :=
  exists k, World.clockReads w = (k + 4)%nat /\ Claim.mine_ c <> 0 /\
    (valueAt h (Env.clock E (k + 1)) = 0 \/ stoodTimeout h (Env.clock E (k + 1))) /\
    let late := Env.clock E k + stake.Window <=? Env.clock E (k + 2) in
    Claim.phase_ c = (if late then Claim.Holding else Claim.Settling) /\
    timing.Deadline.ends_ (Claim.window_ c) = Env.clock E (k + 3) + (if late then lease.LateStakeHold else stake.Settle).

Lemma clock_nonneg n : 0 <= Env.clock E n.
Proof. destruct Hhost as [Hm H0]. specialize (Hm 0%nat n ltac:(lia)). lia. Qed.

Lemma watching_later c w w' : later w w' -> watching c w -> watching c w'.
Proof.
  unfold later. intros Hl [H1 H2]. split.
  - intros Hp. destruct (H1 Hp) as (n & Hn & H). exists n. split; [lia|done].
  - intros v Hv. destruct (H2 v Hv) as (n & m & Hm & H). exists n, m. split; [lia|done].
Qed.
Lemma watching_phase p c w : p <> Claim.Watching -> watching c w -> watching (Claim.with_phase_ p c) w.
Proof. intros Hp [_ H2]. by split. Qed.

Lemma drawn_nonzero fuel w : wlp (admission.getRandomNonce_loop fuel) E (fun v w' => v <> 0 /\ World.clockReads w' = World.clockReads w) w.
Proof.
  revert w. induction fuel as [|fuel IH]; intros w; [done|]. cbn [admission.getRandomNonce_loop]. apply wlp_bind.
  unfold wlp at 1, drawNonce. destruct (Z.eqb_spec (Env.draw E (World.draws w)) 0); [|by apply wlp_ret].
  eapply wlp_mono; [apply IH|]. by intros v w' [? ?].
Qed.

Lemma stakeOver_fresh k c w :
  World.clockReads w = (k + 2)%nat -> (valueAt h (Env.clock E (k + 1)) = 0 \/ stoodTimeout h (Env.clock E (k + 1))) ->
  wlp (stakeOver (leaseOver h) (timing.Deadline.make (Env.clock E k) stake.Window) c) E
    (fun out w' => out.1 = Pending /\ watching out.2 w' /\ freshStake out.2 w') w.
Proof.
  intros Hk Hv. unfold stakeOver. cbn [leaseOver word_makeOwn word_publish admission.LeaseWord]. apply wlp_bind.
  unfold admission.getRandomNonce. apply wlp_bind. unfold wlp at 1, getFuel.
  eapply wlp_mono; [apply drawn_nonzero|]. intros mine w1 [Hmine Hw1]. apply wlp_bind, wlp_ret. cbn [negb].
  apply wlp_bind. unfold wlp at 1, now. apply wlp_bind. unfold wlp at 1, now. apply wlp_ret.
  split; [done|]. split; [split; [cbn; by case_if|done]|]. exists k. cbn -[Z.leb]. rewrite Hw1, Hk. split; [lia|]. split; [done|]. split; [done|].
  replace (Env.clock E (S (k + 2))) with (Env.clock E (k + 3)) by (f_equal; lia). unfold timing.Deadline.expiredAt. cbn -[Z.leb]. done.
Qed.

(** A watch begun, kept or stood: what it remembers is what the looks saw. *)
Lemma hasStoodTimeout_watches r seen c w :
  World.clockReads w = S r -> valueAt h (Env.clock E r) = seen -> Claim.isStaked c = false -> watching c w ->
  wlp (hasStoodTimeout (leaseOver h) seen c) E (fun stood w' => watching stood.2 w' /\ Claim.isStaked stood.2 = false) w.
Proof.
  intros Hr Hv Hc Hw. unfold hasStoodTimeout. cbn [leaseOver StallTimeout admission.LeaseWord].
  destruct (bool_decide_reflect (Claim.phase_ c = Claim.Watching)) as [Hp|Hp]; cbn [negb orb].
  2: apply wlp_bind; unfold wlp at 1, now; apply wlp_ret; (split; [|done]); split; [|done]; intros _; exists r; cbn; rewrite Hr;
     (split; [lia|]); split; [done|]; apply Hhost; lia.
  destruct (Z.eqb_spec seen (Claim.watched_ c)) as [Heq|]; cbn [negb].
  2: apply wlp_bind; unfold wlp at 1, now; apply wlp_ret; (split; [|done]); split; [|done]; intros _; exists r; cbn; rewrite Hr;
     (split; [lia|]); split; [done|]; apply Hhost; lia.
  apply wlp_bind. unfold wlp at 1, now. destruct (watching_since _ _ Hw Hp) as (n & Hn & Hvn & Hsince).
  unfold timing.elapsed. destruct (Z.ltb_spec (Env.clock E (World.clockReads w) - Claim.watchedSince_ c) lease.Timeout); apply wlp_ret; cbn.
  - split; [|done]. by eapply watching_later; [|exact Hw]; unfold later; cbn; lia.
  - split; [|done]. split; [done|]. cbn. intros v [= <-]. exists n, (World.clockReads w). split; [cbn; lia|]. split; [congruence|lia].
Qed.

Lemma tryStake_turns_watches turns c w :
  Claim.isStaked c = false -> watching c w ->
  wlp (tryStake_turns (leaseOver h) turns c) E (fun out w' => out.1 = Pending /\ watching out.2 w' /\
    (Claim.isStaked out.2 = false \/ freshStake out.2 w')) w.
Proof.
  revert c w. induction turns as [|turns IH]; intros c w Hc Hw; [done|]. cbn [tryStake_turns]. apply wlp_bind. unfold wlp at 1, now.
  cbn [leaseOver word_read word_isFree admission.LeaseWord]. do 2 apply wlp_bind. unfold wlp at 1, now. apply wlp_ret. cbn [World.clockReads].
  apply wlp_bind, wlp_ret. set (k := World.clockReads w). match goal with |- wlp _ _ _ ?x => set (w2 := x) end.
  assert (World.clockReads w2 = S (k + 1)) as Hw2 by (cbn; lia).
  assert (watching c w2) as Hwat by (eapply watching_later; [|exact Hw]; unfold later; cbn; lia).
  replace (S k) with (k + 1)%nat by lia. set (seen := valueAt h (Env.clock E (k + 1))). case_if.
  - apply wlp_bind. eapply wlp_mono; [by apply (hasStoodTimeout_watches (k + 1))|]. intros [stood c'] w3 [Hw3 Hc']. cbn [fst snd] in *.
    destruct stood; [by apply IH|]. apply wlp_ret. auto.
  - eapply wlp_mono; [apply (stakeOver_fresh k)|]; [cbn in *; lia| |intros out w' (? & ? & ?); auto].
    apply andb_false_iff in E0 as [Hf|Hs]; apply negb_false_iff in Hf || apply negb_false_iff in Hs.
    + left. by apply Z.eqb_eq.
    + right. destruct (Claim.stalled_ c) as [v|] eqn:Hst; [|done]. apply Z.eqb_eq in Hs. subst v.
      destruct (watching_stalled _ _ Hw _ Hst) as (n & m & Hm & Hvn & Ht). exists (Env.clock E n). split; [apply clock_nonneg|]. split; [|done].
      pose proof (proj1 Hhost m (k + 1)%nat ltac:(unfold k; lia)). lia.
Qed.

(** One tick over the history. *)
Lemma tick_watches c w :
  watching c w ->
  wlp (tick (leaseOver h) c) E (fun out w' => watching out.2 w' /\
    match out.1 with
    | Won => Claim.phase_ c = Claim.Settling /\ out.2 = c /\ World.clockReads w' = (World.clockReads w + 2)%nat /\
        timing.Deadline.ends_ (Claim.window_ c) <= Env.clock E (World.clockReads w) /\
        valueAt h (Env.clock E (World.clockReads w + 1)) = Claim.mine_ c
    | Pending => out.2 = c \/ Claim.isStaked out.2 = false \/ freshStake out.2 w'
    end) w.
Proof.
  intros Hw.
  assert (forall c0 w0, Claim.isStaked c0 = false -> watching c0 w0 -> wlp (tryStake (leaseOver h) c0) E (fun out w' => watching out.2 w' /\
    match out.1 with
    | Won => Claim.phase_ c = Claim.Settling /\ out.2 = c /\ World.clockReads w' = (World.clockReads w + 2)%nat /\
        timing.Deadline.ends_ (Claim.window_ c) <= Env.clock E (World.clockReads w) /\
        valueAt h (Env.clock E (World.clockReads w + 1)) = Claim.mine_ c
    | Pending => out.2 = c \/ Claim.isStaked out.2 = false \/ freshStake out.2 w'
    end) w0) as Htry.
  { intros c0 w0 Hc0 Hw0. eapply wlp_mono; [by apply tryStake_turns_watches|]. intros [o c'] w' (Ho & Hwat & Hor). cbn in *. subst o. auto. }
  unfold tick. destruct (Claim.phase_ c) eqn:Hp.
  1,2: apply Htry; [by unfold Claim.isStaked; rewrite Hp|done].
  - unfold endSettle. apply wlp_bind. unfold wlp at 1, now. set (w1 := World.with_clockReads _ w).
    assert (watching c w1) as Hw1 by (eapply watching_later; [|exact Hw]; unfold later; cbn; lia).
    unfold timing.Deadline.expiredAt. destruct (Z.leb_spec (timing.Deadline.ends_ (Claim.window_ c)) (Env.clock E (World.clockReads w))) as [Hend|];
      cbn [negb]; [|by apply wlp_ret; split; [|left]].
    cbn [leaseOver word_read]. do 2 apply wlp_bind. unfold wlp at 1, now. apply wlp_ret. set (w2 := World.with_clockReads _ w1).
    assert (watching c w2) as Hw2 by (eapply watching_later; [|exact Hw1]; unfold later; cbn; lia).
    destruct (Z.eqb_spec (valueAt h (Env.clock E (World.clockReads w1))) (Claim.mine_ c)) as [Hv|].
    + apply wlp_ret. split; [done|]. cbn in Hv |- *. rewrite Nat.add_1_r. split_and!; done || lia.
    + apply Htry; [done|]. by apply watching_phase.
  - unfold endHold. apply wlp_bind. unfold wlp at 1, now. set (w1 := World.with_clockReads _ w).
    assert (watching c w1) as Hw1 by (eapply watching_later; [|exact Hw]; unfold later; cbn; lia).
    destruct (negb _); [by apply wlp_ret; split; [|left]|]. cbn [leaseOver word_retract]. do 2 apply wlp_bind. unfold wlp at 1, now. apply wlp_ret.
    apply Htry; [done|]. apply watching_phase; [done|]. eapply watching_later; [|exact Hw1]. unfold later; cbn; lia.
Qed.

Lemma reached_watching c w : reached c w -> watching c w.
Proof.
  induction 1 as [w|c w w' _ IH Hl|c w o c' w' _ IH Hrun]; [by split|by eapply watching_later|].
  by apply (wlp_elim E _ _ _ _ _ (tick_watches c w IH) Hrun).
Qed.

(** *** What the runs are worth *)

Lemma made_fresh a c' w' : made a c' w' -> freshStake c' w'.
Proof.
  intros (c & w & k & Hr & Hrun & Hst & Hne & _).
  destruct (wlp_elim E _ _ _ _ _ (tick_watches c w (reached_watching _ _ Hr)) Hrun) as [_ [?|[Hno|?]]]; [done|cbn in Hno; congruence|done].
Qed.

Lemma made_stakes a c' w' :
  made a c' w' -> readAt a < landed a <= flushed a + stake.StoreVisibilityLag -> stakes h a.
Proof.
  intros Hm Hland. destruct (made_fresh _ _ _ Hm) as (k & Hk & Hn & Hv & _).
  destruct Hm as (c & w & k' & _ & _ & _ & _ & Hnonce & Hk' & Hb & Hr & Hf & Ho). assert (k' = k) as -> by lia.
  rewrite <- Hr in Hv. unfold stakes. rewrite Hb, Hf, Ho in *. rewrite Hr in *. destruct Hhost as [Hmono H0].
  pose proof (clock_nonneg k). pose proof (Hmono k (k + 1)%nat ltac:(lia)). pose proof (Hmono (k + 2)%nat (k + 3)%nat ltac:(lia)).
  split_and!; try done; try lia; congruence.
Qed.

Lemma made_phase a c' w' : made a c' w' ->
  (Claim.phase_ c' = Claim.Settling -> inTime a /\ timing.Deadline.ends_ (Claim.window_ c') = opened a + stake.Settle) /\
  (Claim.phase_ c' = Claim.Holding -> ~ inTime a /\ timing.Deadline.ends_ (Claim.window_ c') = opened a + lease.LateStakeHold).
Proof.
  intros Hm. destruct (made_fresh _ _ _ Hm) as (k & Hk & _ & _ & Hp & Hends).
  destruct Hm as (c & w & k' & _ & _ & _ & _ & _ & Hk' & Hb & _ & Hf & Ho). assert (k' = k) as -> by lia.
  unfold inTime. rewrite Hb, Hf, Ho. destruct (Z.leb_spec (Env.clock E k + stake.Window) (Env.clock E (k + 2))); rewrite Hp; split; intros Heq; try done; (split; [lia|done]).
Qed.

Lemma made_reached a c' w' : made a c' w' -> reached c' w'.
Proof. intros (c & w & k & Hr & Hrun & _). by eapply reached_tick. Qed.

Lemma won_wins a c w w2 : won a c w w2 -> wins h a.
Proof.
  intros [Hm (w1 & k & Hl & Hrun & Hk & Hc)].
  pose proof (reached_watching _ _ (reached_later _ _ _ (made_reached _ _ _ Hm) Hl)) as Hwat.
  destruct (wlp_elim E _ _ _ _ _ (tick_watches c w1 Hwat) Hrun) as (_ & Hp & _ & Hreads & Hends & Hv).
  destruct (proj1 (made_phase _ _ _ Hm) Hp) as [Hi Hw]. assert (k = (World.clockReads w1 + 1)%nat) as -> by lia.
  destruct Hm as (_ & _ & _ & _ & _ & _ & _ & Hn & _). unfold wins. rewrite Hc, Hv, Hn. split; [done|split; [|done]].
  pose proof (proj1 Hhost (World.clockReads w1) (World.clockReads w1 + 1)%nat ltac:(lia)). lia.
Qed.

Lemma cleared_why c : cleared c ->
  ~ inTime (of_ c) /\ opened (of_ c) + lease.LateStakeHold <= checkAt c \/ wins h (of_ c) /\ confirmed (of_ c) <= checkAt c.
Proof.
  intros (claim & w & Hm & [(Hp & w1 & out & w2 & Hl & Hrun & Hpast & Hck)|(w2 & w3 & w4 & Hwon & Hl & _ & Hck)]).
  - left. destruct (proj2 (made_phase _ _ _ Hm) Hp) as [Hlate Hends]. split; [done|].
    assert (timing.Deadline.ends_ (Claim.window_ claim) <= Env.clock E (World.clockReads w1)) as Hover.
    { unfold tick in Hrun. rewrite Hp in Hrun. unfold endHold, bind, now, timing.Deadline.expiredAt in Hrun.
      destruct (Z.leb_spec (timing.Deadline.ends_ (Claim.window_ claim)) (Env.clock E (World.clockReads w1))); [done|].
      cbn in Hrun. injection Hrun as _ <-. cbn in Hpast. lia. }
    pose proof (proj1 Hhost (World.clockReads w1) (World.clockReads w1 + 1)%nat ltac:(lia)). lia.
  - right. split; [by eapply won_wins|]. destruct Hwon as [_ (w1 & k & _ & _ & Hk & ->)]. rewrite Hck. apply Hhost. unfold later in Hl. lia.
Qed.
End runs.

(** A history hosts can make: each attempt by a run of [stake.tick] over it, each
    clear by the hold of a late stake or the release of a winner; a store lands
    within the lag of its flush, a clear within [WriterStall] and the lag of its
    look, which found the nonce.  The nonces are distinct, and no two landings are
    at one instant. *)
Record produced (h : t) : Prop := {
  by_tick : forall a, a ∈ attempts h -> (exists E c w, host E /\ made h E a c w) /\
    readAt a < landed a <= flushed a + stake.StoreVisibilityLag;
  by_retract : forall c, c ∈ clears h -> of_ c ∈ attempts h /\ (exists E, host E /\ cleared h E c) /\
    valueAt h (checkAt c) = nonce (of_ c) /\ checkAt c < clearAt c <= checkAt c + lease.WriterStall + stake.StoreVisibilityLag;
  own_nonce : forall a b, a ∈ attempts h -> b ∈ attempts h -> nonce a = nonce b -> a = b;
  clears_once : forall c d, c ∈ clears h -> d ∈ clears h -> of_ c = of_ d -> c = d;
  own_instant : forall a b, a ∈ attempts h -> b ∈ attempts h -> landed a = landed b -> a = b;
  clears_apart : forall a c, a ∈ attempts h -> c ∈ clears h -> landed a <> clearAt c;
}.
Definition winner (h : t) (a : Attempt) : Prop := exists E c w w2, host E /\ won h E a c w w2.

Lemma produced_possible h : produced h -> possible h.
Proof.
  intros [Ht Hr H1 H2 H3 H4]. split; try done.
  - intros a Ha. destruct (Ht a Ha) as [(E & c & w & HE & Hm) Hl]. by eapply made_stakes.
  - intros c Hc. destruct (Hr c Hc) as (Ha & (E & HE & Hcl) & Hv & Hl). split_and!; try done; try lia. by eapply cleared_why.
Qed.
Lemma winner_wins h a : winner h a -> wins h a.
Proof. intros (E & c & w & w2 & HE & Hw). by eapply won_wins. Qed.

(** C24: two hosts never hold the lease at once.  Take a history of the lease word
    made by any number of hosts that run [stake.tick] on it, each by its own
    clock readings on one time axis; stores land within the lag [config.hpp]
    assumes, a clear within [WriterStall] and the lag of the look before it.
    Suppose the hosts are prompt: a clear lands, and a holder has had its
    [WriterStall], before its nonce has stood [lease.Timeout].  Then of two
    winners the later one read the word, free or to be reclaimed, only after the
    earlier holder had cleared it itself, or had had its whole [WriterStall] past
    its confirmation, the bound on a holder's work.  Late stakes, late
    withdrawals, hosts that stop with their nonce in the word and hosts that
    reclaim a nonce that stood its timeout are part of the history; without
    promptness it fails ([stalled_confirmation_shares]). *)
Theorem lease_exclusive h a b :
  produced h -> prompt h -> a ∈ attempts h -> b ∈ attempts h -> winner h a -> winner h b -> landed a < landed b ->
  confirmed a < readAt b /\
  ((exists r, r ∈ clears h /\ of_ r = a /\ clearAt r <= readAt b) \/ confirmed a + lease.WriterStall <= readAt b).
Proof.
  intros Hh%produced_possible Hp Ha Hb Hwa%winner_wins Hwb%winner_wins Hlt.
  destruct (freed_past_confirm h Hh Hp a Ha Hwa b Hb (proj1 Hwb) Hlt) as [(c & Hc & Hgap)|Hle].
  2:{ split; [revert Hle; vm_compute (lease.WriterStall); lia|by right]. }
  split; [lia|]. destruct (opens_after h Hh Hp a Ha Hwa c Hc ltac:(lia)) as [(r & Hr & Hof & Hle)|Hle]; [left; exists r; split_and!; done || lia|right; lia].
Qed.

(** *** Hosts with their clocks *)

(** A host whose clock reads the given instants and whose engine draws [nonce]. *)
Fixpoint ascending (instants : list Z) (far : Z) : bool :=
  match instants with [] => true | x :: rest => (x <=? hd far rest) && ascending rest far end.
Definition far : Z := 10 ^ 12.
Definition joiner (instants : list Z) (nonce : Z) : Env.t :=
  Env.mk (fun n => nth n instants far) (fun _ => 0) (fun _ => nonce) (fun _ r => r) 4.

Lemma host_joiner instants nonce : ascending instants far = true -> 0 <= nth 0 instants far -> host (joiner instants nonce).
Proof.
  intros Ha H0. split; [|done]. assert (forall n, nth n instants far <= nth (S n) instants far) as Hstep.
  { clear H0. revert Ha. induction instants as [|x rest IH]; cbn [ascending]; [by intros _ [|n]|]. intros [Hx Hr]%andb_prop [|n]; cbn.
    - apply Z.leb_le in Hx. by destruct rest.
    - by apply IH. }
  intros i j Hij. cbn. induction Hij as [|j _ IH]; [done|]. specialize (Hstep j). lia.
Qed.

(** Its ticks, one after the other, on the history it takes part in. *)
Definition ticked (h : t) (E : Env.t) (s : Claim.t * World.t) : Claim.t * World.t :=
  match tick (leaseOver h) s.1 E s.2 with Some ((_, c), w) => (c, w) | None => s end.
Definition after (h : t) (E : Env.t) (n : nat) : Claim.t * World.t := Nat.iter n (ticked h E) (Claim.initial, sample.world 0).

Lemma reached_after h E n : reached h E (after h E n).1 (after h E n).2.
Proof.
  induction n as [|n IH]; [constructor|]. change (after h E (S n)) with (ticked h E (after h E n)). unfold ticked.
  destruct (tick _ _ _ _) as [[[o c] w]|] eqn:Hrun; [by eapply reached_tick|done].
Qed.

(** A joiner that wins, works and releases, a second one after it that stops as
    the holder, and a third that sees its nonce from 20 ms on and reclaims it. *)
Definition first_ : Attempt := mkAttempt 11 0 1 2 3 4 5000010.
Definition second_ : Attempt := mkAttempt 12 7000000 7000001 7000002 7000003 7000004 12000010.
Definition third_ : Attempt := mkAttempt 13 230000000 230000001 230000002 230000003 230000004 236000000.
Definition release_ : Clear := mkClear first_ 6000000 6000001.
Definition sample_history : t := mk [first_; second_; third_] [release_].

Definition firstHost : Env.t := joiner [0; 1; 3; 4; 5000009; 5000010; 6000000] 11.
Definition secondHost : Env.t := joiner [7000000; 7000001; 7000003; 7000004; 12000009; 12000010] 12.
Definition thirdHost : Env.t :=
  joiner [19999999; 20000000; 20000001; 229999990; 229999991; 229999992; 230000000; 230000001; 230000003; 230000004; 235999999; 236000000] 13.

(** The n-th tick of the host staked. *)
Ltac staked_at n k :=
  match goal with
  | |- made ?h ?E ?a _ _ => exists (after h E n).1, (after h E n).2, k
  end; split; [apply reached_after|]; split; [vm_compute; reflexivity|]; split; [vm_compute; reflexivity|];
  split; [vm_compute; discriminate|]; repeat (split; [vm_compute; reflexivity|]); vm_compute; reflexivity.
(** The next one won. *)
Ltac won_at n k r :=
  match goal with
  | |- won ?h ?E ?a _ _ _ => split; [staked_at n k|]; exists (after h E (S n)).2, r
  end; split; [unfold later; lia|]; split; [vm_compute; reflexivity|]; split; vm_compute; reflexivity.

Lemma first_made : made sample_history firstHost first_ (after sample_history firstHost 1).1 (after sample_history firstHost 1).2.
Proof. staked_at 0%nat 0%nat. Qed.
Lemma first_won : won sample_history firstHost first_ (after sample_history firstHost 1).1 (after sample_history firstHost 1).2
  (after sample_history firstHost 2).2.
Proof. won_at 0%nat 0%nat 5%nat. Qed.
Lemma second_won : won sample_history secondHost second_ (after sample_history secondHost 1).1 (after sample_history secondHost 1).2
  (after sample_history secondHost 2).2.
Proof. won_at 0%nat 0%nat 5%nat. Qed.
Lemma third_won : won sample_history thirdHost third_ (after sample_history thirdHost 2).1 (after sample_history thirdHost 2).2
  (after sample_history thirdHost 3).2.
Proof. won_at 1%nat 6%nat 11%nat. Qed.

Lemma in_attempts x : x ∈ attempts sample_history -> x = first_ \/ x = second_ \/ x = third_.
Proof. intros [->|[->|[->|[]%elem_of_nil]%elem_of_cons]%elem_of_cons]%elem_of_cons; auto. Qed.
Lemma in_clears x : x ∈ clears sample_history -> x = release_.
Proof. by intros [->|[]%elem_of_nil]%elem_of_cons. Qed.

Lemma first_host : host firstHost.
Proof. by apply host_joiner. Qed.
Lemma second_host : host secondHost.
Proof. by apply host_joiner. Qed.
Lemma third_host : host thirdHost.
Proof. by apply host_joiner. Qed.

Lemma sample_produced : produced sample_history.
Proof.
  split.
  - intros x [->|[->| ->]]%in_attempts; (split; [|vm_compute; split; congruence]).
    + exists firstHost. eexists _, _. split; [apply first_host|apply first_won].
    + exists secondHost. eexists _, _. split; [apply second_host|apply second_won].
    + exists thirdHost. eexists _, _. split; [apply third_host|apply third_won].
  - intros x ->%in_clears. split; [left|]. split; [|vm_compute; split; [reflexivity|split; congruence]].
    exists firstHost. split; [apply first_host|]. eexists _, _. split; [apply first_made|]. right.
    eexists _, _, _. split; [apply first_won|]. split; [unfold later; reflexivity|]. split; [reflexivity|]. vm_compute. reflexivity.
  - by intros x y [->|[->| ->]]%in_attempts [->|[->| ->]]%in_attempts.
  - by intros x y ->%in_clears ->%in_clears.
  - by intros x y [->|[->| ->]]%in_attempts [->|[->| ->]]%in_attempts.
  - by intros x y [->|[->| ->]]%in_attempts ->%in_clears.
Qed.

Lemma sample_prompt : prompt sample_history.
Proof. split; [intros c ->%in_clears|intros x [->|[->| ->]]%in_attempts _]; vm_compute; congruence. Qed.

Lemma lease_exclusive_witness :
  confirmed first_ < readAt second_ /\ confirmed second_ + lease.WriterStall <= readAt third_.
Proof.
  assert (winner sample_history first_) as H1 by (exists firstHost; eexists _, _, _; split; [apply first_host|apply first_won]).
  assert (winner sample_history second_) as H2 by (exists secondHost; eexists _, _, _; split; [apply second_host|apply second_won]).
  assert (winner sample_history third_) as H3 by (exists thirdHost; eexists _, _, _; split; [apply third_host|apply third_won]).
  split.
  - refine (proj1 (lease_exclusive sample_history first_ second_ sample_produced sample_prompt _ _ H1 H2 _)); [left|right; left|vm_compute; reflexivity].
  - destruct (lease_exclusive sample_history second_ third_ sample_produced sample_prompt ltac:(right; left) ltac:(right; right; left) H2 H3 eq_refl)
      as [_ [(r & ->%in_clears & Hof & _)|Hle]]; [discriminate Hof|exact Hle].
Defined.

(** Without [prompt] the procedure does not exclude: a host that sleeps through
    the timeout of its own settling nonce, and reads it back just before the
    host that reclaims it stores, holds the lease together with that host, which
    confirms 5 ms into the [WriterStall] the first may still work for. *)
Definition sleeper : Attempt := mkAttempt 21 0 1 2 3 4 230000002.
Definition reclaimer : Attempt := mkAttempt 22 230000000 230000001 230000003 230000003 230000004 235000005.
Definition sleepy_history : t := mk [sleeper; reclaimer] [].
Definition sleepyHost : Env.t := joiner [0; 1; 3; 4; 230000001; 230000002] 21.
Definition reclaimingHost : Env.t :=
  joiner [19999999; 20000000; 20000001; 229999990; 229999991; 229999992; 230000000; 230000001; 230000003; 230000004; 235000004; 235000005] 22.

Theorem stalled_confirmation_shares :
  produced sleepy_history /\ winner sleepy_history sleeper /\ winner sleepy_history reclaimer /\
  readAt reclaimer < confirmed sleeper /\ confirmed reclaimer < confirmed sleeper + lease.WriterStall.
Proof.
  assert (forall x, x ∈ attempts sleepy_history -> x = sleeper \/ x = reclaimer) as Hin
    by (intros x [->|[->|[]%elem_of_nil]%elem_of_cons]%elem_of_cons; auto).
  assert (won sleepy_history sleepyHost sleeper (after sleepy_history sleepyHost 1).1 (after sleepy_history sleepyHost 1).2
    (after sleepy_history sleepyHost 2).2) as Hs by won_at 0%nat 0%nat 5%nat.
  assert (won sleepy_history reclaimingHost reclaimer (after sleepy_history reclaimingHost 2).1 (after sleepy_history reclaimingHost 2).2
    (after sleepy_history reclaimingHost 3).2) as Hr by won_at 1%nat 6%nat 11%nat.
  assert (host sleepyHost) as Hh by by apply host_joiner. assert (host reclaimingHost) as Hh' by by apply host_joiner.
  split_and!; [|by exists sleepyHost; eexists _, _, _|by exists reclaimingHost; eexists _, _, _|vm_compute; congruence|vm_compute; congruence].
  split; [|by intros ? []%elem_of_nil| |by intros ? ? []%elem_of_nil| |by intros ? ? _ []%elem_of_nil].
  - intros x [->| ->]%Hin; (split; [|vm_compute; split; congruence]).
    + exists sleepyHost. eexists _, _. split; [done|apply Hs].
    + exists reclaimingHost. eexists _, _. split; [done|apply Hr].
  - by intros x y [->| ->]%Hin [->| ->]%Hin.
  - by intros x y [->| ->]%Hin [->| ->]%Hin.
Qed.
End lease_history.
