(* ===== verification/Wire.v ===== *)
(** * Wire: the messages between a requester and the daemon

    Models [src/daemon/shared/protocol/message.hpp], [messages.hpp],
    [domain_name.hpp] and [id_lookup.hpp].  A message is the list of its bytes;
    both ends run on one little-endian host, so a word travels as its four
    bytes, lowest first. *)

From S2P Require Import Prelude Types Layout.

(** ** Names *)

Module DomainName.
Definition FieldWidth : Z := MaxDomainNameLen.

(** The whole field: the name's bytes, then zeros. *)
Definition t : Type := list Z.

Definition pad (name : list Z) : t := name ++ replicate (Z.to_nat FieldWidth - length name) 0.

Definition make (name : list Z) : option t :=
  if Nat.eqb (length name) 0 || (FieldWidth <=? Z.of_nat (length name)) then None else Some (pad name).

(** Up to the first NUL, or the whole field. *)
Definition read (field : list Z) : list Z := DomainRecord_t.until_nul field.

Definition getText (name : t) : list Z := read name.
Definition clear : list Z := replicate (Z.to_nat FieldWidth) 0.
Definition write (name : t) : list Z := name.
End DomainName.

(** Names to ids, by the whole field. *)
Module IdLookup.
Definition t : Type := gmap (list Z) Z.

Definition find (name : DomainName.t) (ids : t) : option Z := ids !! name.
Definition set (name : DomainName.t) (identifier : Z) (ids : t) : t := <[name := identifier]> ids.
Definition clear (name : DomainName.t) (identifier : Z) (ids : t) : t :=
  match ids !! name with
  | Some found => if found =? identifier then delete name ids else ids
  | None => ids
  end.
End IdLookup.

(** ** The header *)

(** The enum's underlying words: a peer may send any of them. *)
Module MessageType.
Definition None_ : Z := 0.
Definition Answer : Z := 1.
Definition Hello : Z := 2.
Definition Welcome : Z := 3.
Definition CreateDomain : Z := 4.
Definition DeleteDomain : Z := 5.
Definition JoinDomain : Z := 6.
Definition LeaveDomain : Z := 7.
End MessageType.

Definition isDomainRequest (type : Z) : bool :=
  (type =? MessageType.CreateDomain) || (type =? MessageType.DeleteDomain) ||
  (type =? MessageType.JoinDomain) || (type =? MessageType.LeaveDomain).

Module Header_msg.
Record t := mk { version : Z; type : Z; sequence : Z; payloadBytes : Z }.
Definition size : nat := 16.
End Header_msg.

Module ProtocolLimits.
Definition Version : Z := 1.
Definition OldestVersion : Z := 1.
Definition LongestMessage : Z := Z.of_nat Header_msg.size + 64.
Definition MostDescriptors : Z := 4.
End ProtocolLimits.

Definition isSupported (version : Z) : bool :=
  (ProtocolLimits.OldestVersion <=? version) && (version <=? ProtocolLimits.Version).

(** ** What travels as its bytes *)

(** A trivially copyable payload: its size, and [memcpy] in both directions. *)
Class Payload (P : Type) := {
  payload_size : nat;
  payload_bytes : P -> list Z;
  payload_of : list Z -> P;
  payload_ok : P -> Prop;
  payload_bytes_length p : payload_ok p -> length (payload_bytes p) = payload_size;
  payload_of_bytes p : payload_ok p -> payload_of (payload_bytes p) = p;
}.

(** A 32-bit word read back as its signed value. *)
Definition s32 (word : Z) : Z := if word <? 2 ^ 31 then word else word - 2 ^ 32.

Module Answer_t.
Record t := mk { result : Z }.
End Answer_t.

Module Hello_t.
Record t := mk { abiVersion : Z }.
End Hello_t.

Module Welcome_t.
Record t := mk { abiVersion : Z; areaBytes : Z }.
End Welcome_t.

Module DomainRequest_t.
Record t := mk { name : list Z }.
End DomainRequest_t.

Definition word_at (offset : nat) (bytes : list Z) : Z := le_word (take 4 (drop offset bytes)).

(** What a socket carries. *)
Definition isByte (b : Z) : Prop := 0 <= b < 256.

Lemma le_word_range bytes : Forall isByte bytes -> 0 <= le_word bytes < 256 ^ Z.of_nat (length bytes).
Proof.
  induction 1 as [|b rest Hb _ IH]; [done|]. cbn [le_word length]. rewrite Nat2Z.inj_succ, Z.pow_succ_r by lia.
  unfold isByte in Hb. lia.
Qed.

Lemma word_at_range offset bytes : Forall isByte bytes -> in_u32 (word_at offset bytes).
Proof.
  intros H. unfold word_at. apply (Forall_drop _ offset), (Forall_take _ 4) in H.
  assert (length (take 4 (drop offset bytes)) <= 4)%nat as Hl by (rewrite length_take; lia).
  destruct (le_word_range _ H) as [H0 H1]. split; [done|]. eapply Z.lt_le_trans; [exact H1|].
  change (2 ^ 32) with (256 ^ 4). apply Z.pow_le_mono_r; lia.
Qed.

Lemma le_word_le_bytes_u32 v : in_u32 v -> le_word (le_bytes 4 v) = v.
Proof. intros H. rewrite le_word_bytes. apply Z.mod_small. exact H. Qed.

Lemma word_at_0 v rest : in_u32 v -> word_at 0 (le_bytes 4 v ++ rest) = v.
Proof.
  intros H. unfold word_at. rewrite drop_0, take_app_le by by rewrite le_bytes_length.
  rewrite take_ge by by rewrite le_bytes_length. by apply le_word_le_bytes_u32.
Qed.

Lemma word_at_skip offset bs rest : length bs = offset -> word_at offset (bs ++ rest) = word_at 0 rest.
Proof. intros <-. unfold word_at. by rewrite drop_app_length. Qed.

Lemma s32_of_word v : - 2 ^ 31 <= v < 2 ^ 31 -> s32 (v mod 2 ^ 32) = v.
Proof.
  intros H. unfold s32. destruct (decide (0 <= v)).
  - rewrite Z.mod_small by lia. destruct (Z.ltb_spec v (2 ^ 31)); lia.
  - assert (v mod 2 ^ 32 = v + 2 ^ 32) as ->.
    { rewrite <-(Z_mod_plus_full v 1 (2 ^ 32)). rewrite Z.mod_small; lia. }
    destruct (Z.ltb_spec (v + 2 ^ 32) (2 ^ 31)); lia.
Qed.

#[local] Obligation Tactic := idtac.

#[export] Program Instance Answer_payload : Payload Answer_t.t := {
  payload_size := 4;
  payload_bytes p := le_bytes 4 (u32 (Answer_t.result p));
  payload_of bytes := Answer_t.mk (s32 (word_at 0 bytes));
  payload_ok p := - 2 ^ 31 <= Answer_t.result p < 2 ^ 31;
}.
Next Obligation. intros p _. apply le_bytes_length. Qed.
Next Obligation.
  intros [v] H. cbv beta. rewrite <-(app_nil_r (le_bytes 4 _)), word_at_0 by apply u32_range. f_equal. by apply s32_of_word.
Qed.

#[export] Program Instance Hello_payload : Payload Hello_t.t := {
  payload_size := 4;
  payload_bytes p := le_bytes 4 (Hello_t.abiVersion p);
  payload_of bytes := Hello_t.mk (word_at 0 bytes);
  payload_ok p := in_u32 (Hello_t.abiVersion p);
}.
Next Obligation. intros p _. apply le_bytes_length. Qed.
Next Obligation. intros [v] H. cbv beta. by rewrite <-(app_nil_r (le_bytes 4 _)), word_at_0. Qed.

#[export] Program Instance Welcome_payload : Payload Welcome_t.t := {
  payload_size := 8;
  payload_bytes p := le_bytes 4 (Welcome_t.abiVersion p) ++ le_bytes 4 (Welcome_t.areaBytes p);
  payload_of bytes := Welcome_t.mk (word_at 0 bytes) (word_at 4 bytes);
  payload_ok p := in_u32 (Welcome_t.abiVersion p) /\ in_u32 (Welcome_t.areaBytes p);
}.
Next Obligation. intros p _. cbv beta. by rewrite length_app, !le_bytes_length. Qed.
Next Obligation.
  intros [v a] [Hv Ha]. cbv beta. cbn [Welcome_t.abiVersion Welcome_t.areaBytes] in *. rewrite word_at_0 by done.
  rewrite word_at_skip by by rewrite le_bytes_length. by rewrite <-(app_nil_r (le_bytes 4 a)), word_at_0.
Qed.

#[export] Program Instance DomainRequest_payload : Payload DomainRequest_t.t := {
  payload_size := Z.to_nat MaxDomainNameLen;
  payload_bytes p := DomainRequest_t.name p;
  payload_of bytes := DomainRequest_t.mk (take (Z.to_nat MaxDomainNameLen) bytes);
  payload_ok p := length (DomainRequest_t.name p) = Z.to_nat MaxDomainNameLen;
}.
Next Obligation. done. Qed.
Next Obligation. intros [n] H. cbv beta. cbn [DomainRequest_t.name] in *. by rewrite take_ge by lia. Qed.

(** ** One message *)

Module Message.
Definition encodeHeader (h : Header_msg.t) : list Z :=
  le_bytes 4 (Header_msg.version h) ++ le_bytes 4 (Header_msg.type h) ++
  le_bytes 4 (Header_msg.sequence h) ++ le_bytes 4 (Header_msg.payloadBytes h).

Definition header (bytes : list Z) : option Header_msg.t :=
  if (length bytes <? Header_msg.size)%nat then None
  else Some (Header_msg.mk (word_at 0 bytes) (word_at 4 bytes) (word_at 8 bytes) (word_at 12 bytes)).

Definition version (bytes : list Z) : Z :=
  match header bytes with Some h => Header_msg.version h | None => 0 end.
Definition sequence (bytes : list Z) : Z :=
  match header bytes with Some h => Header_msg.sequence h | None => 0 end.
Definition type (bytes : list Z) : Z :=
  match header bytes with Some h => Header_msg.type h | None => MessageType.None_ end.

(** [expects] is what the class is: [None] for the base, which accepts whatever
    arrived. *)
Definition isReadable (expects : option Z) (bytes : list Z) : bool :=
  match header bytes with
  | Some h => isSupported (Header_msg.version h) && (Header_msg.type h =? default (type bytes) expects)
  | None => false
  end.

Definition payload {P} `{Payload P} (expects : option Z) (bytes : list Z) : option P :=
  match header bytes with
  | Some h =>
      if negb (isReadable expects bytes) || (Header_msg.payloadBytes h <? Z.of_nat payload_size) ||
         (length bytes <? Header_msg.size + payload_size)%nat
      then None
      else Some (payload_of (take payload_size (drop Header_msg.size bytes)))
  | None => None
  end.

Definition makeFrame {P} `{Payload P} (type version sequence : Z) (carried : P) : list Z :=
  encodeHeader (Header_msg.mk version type sequence (Z.of_nat payload_size)) ++ payload_bytes carried.
End Message.

(** A message of one fixed type. *)
Module TypedMessage.
Definition read {P} `{Payload P} (kind : Z) (bytes : list Z) : option P := Message.payload (Some kind) bytes.
Definition frame {P} `{Payload P} (kind version sequence : Z) (carried : P) : list Z :=
  Message.makeFrame kind version sequence carried.
End TypedMessage.

(** The one whose type its reader chooses. *)
Module DomainRequestMessage.
Definition read (asked : Z) (bytes : list Z) : option DomainRequest_t.t := Message.payload (Some asked) bytes.
Definition frame (asked version sequence : Z) (wanted : DomainRequest_t.t) : list Z :=
  Message.makeFrame asked version sequence wanted.
End DomainRequestMessage.

(** ** Framing and reading *)

Section framing.
Context {P : Type} `{HP : Payload P}.
Import Message.

Lemma encodeHeader_length h : length (encodeHeader h) = Header_msg.size.
Proof. unfold encodeHeader. by rewrite !length_app, !le_bytes_length. Qed.

Lemma header_encode h rest :
  in_u32 (Header_msg.version h) -> in_u32 (Header_msg.type h) -> in_u32 (Header_msg.sequence h) ->
  in_u32 (Header_msg.payloadBytes h) -> header (encodeHeader h ++ rest) = Some h.
Proof.
  intros Hv Ht Hs Hp. unfold header. rewrite (proj2 (Nat.ltb_ge _ _)) by (rewrite length_app, encodeHeader_length; lia).
  unfold encodeHeader. rewrite <-!app_assoc. f_equal.
  destruct h as [v t s p]. cbn [Header_msg.version Header_msg.type Header_msg.sequence Header_msg.payloadBytes] in *. f_equal.
  - by rewrite word_at_0.
  - rewrite word_at_skip by by rewrite le_bytes_length. by rewrite word_at_0.
  - rewrite app_assoc, word_at_skip by by rewrite length_app, !le_bytes_length. by rewrite word_at_0.
  - rewrite (app_assoc (le_bytes 4 v)), (app_assoc (le_bytes 4 v ++ _)), word_at_skip by by rewrite !length_app, !le_bytes_length. by rewrite word_at_0.
Qed.

(** What a reader of [P] makes of a header followed by the bytes of a [P]: the
    payload, when the header says it is at least as long. *)
Lemma read_encoded kind version_ sequence_ declared (carried : P) rest wanted :
  in_u32 kind -> in_u32 version_ -> in_u32 sequence_ -> in_u32 declared -> payload_ok carried ->
  TypedMessage.read wanted (encodeHeader (Header_msg.mk version_ kind sequence_ declared) ++ payload_bytes carried ++ rest)
  = if isSupported version_ && (kind =? wanted) && (Z.of_nat payload_size <=? declared) then Some carried else None.
Proof.
  intros Hk Hv Hs Hd Hok. set (bytes := encodeHeader _ ++ _).
  assert (header bytes = Some (Header_msg.mk version_ kind sequence_ declared)) as Hh by by apply header_encode.
  unfold TypedMessage.read, payload, isReadable. rewrite Hh. cbn [Header_msg.version Header_msg.type Header_msg.payloadBytes].
  change (default (type bytes) (Some wanted)) with wanted.
  assert ((length bytes <? Header_msg.size + payload_size)%nat = false) as ->.
  { apply Nat.ltb_ge. unfold bytes. rewrite !length_app, encodeHeader_length, payload_bytes_length by done. lia. }
  rewrite Z.ltb_antisym. destruct (isSupported version_ && (kind =? wanted)), (Z.of_nat payload_size <=? declared); cbn [negb orb andb]; try done.
  f_equal. unfold bytes. rewrite drop_app_length' by by rewrite encodeHeader_length.
  rewrite take_app_length' by by rewrite payload_bytes_length. by apply payload_of_bytes.
Qed.

(** A message cut short of the payload is none. *)
Lemma read_short wanted bytes : (length bytes < Header_msg.size + payload_size)%nat -> TypedMessage.read (P := P) wanted bytes = None.
Proof.
  intros Hl. unfold TypedMessage.read, payload. destruct (header bytes) as [h|]; [|done].
  by rewrite (proj2 (Nat.ltb_lt _ _) Hl), orb_true_r.
Qed.

(** What every accessor makes of a frame. *)
Lemma frame_header kind version_ sequence_ (carried : P) rest :
  in_u32 kind -> in_u32 version_ -> in_u32 sequence_ -> Z.of_nat payload_size < 2 ^ 32 ->
  let bytes := TypedMessage.frame kind version_ sequence_ carried ++ rest in
  version bytes = version_ /\ sequence bytes = sequence_ /\ type bytes = kind.
Proof.
  intros Hk Hv Hs Hsz bytes.
  assert (header bytes = Some (Header_msg.mk version_ kind sequence_ (Z.of_nat payload_size))) as Hh.
  { unfold bytes, TypedMessage.frame, makeFrame. rewrite <-app_assoc. apply header_encode; try done. unfold in_u32. cbn. lia. }
  unfold version, sequence, type. by rewrite Hh.
Qed.
End framing.

(** A frame of this build's own payload, as [Control] reads and sends it. *)
Lemma frame_reads {P} `{Payload P} kind version_ sequence_ (carried : P) extra :
  in_u32 kind -> in_u32 version_ -> in_u32 sequence_ -> payload_ok carried -> Z.of_nat payload_size < 2 ^ 32 ->
  let bytes := TypedMessage.frame kind version_ sequence_ carried ++ extra in
  Message.version bytes = version_ /\ Message.sequence bytes = sequence_ /\ Message.type bytes = kind /\
  (forall wanted, TypedMessage.read wanted bytes
    = if isSupported version_ && (kind =? wanted) then Some carried else None).
Proof.
  intros Hk Hv Hs Hok Hsz bytes. destruct (frame_header kind version_ sequence_ carried extra Hk Hv Hs Hsz) as (? & ? & ?).
  split_and!; [done..|]. intros wanted. unfold bytes, TypedMessage.frame, Message.makeFrame. rewrite <-app_assoc.
  rewrite read_encoded by (try done; unfold in_u32; lia). by rewrite Z.leb_refl, andb_true_r.
Qed.

(** C31: a framed message reads back as what was framed, across builds.  Take a
    payload type and one of a later build that adds fields at its end, or the
    same one.  Under a supported version the reader of the earlier type gets from
    a frame of the later one exactly the fields it knows, with the sequence and
    version the message went out under, whatever follows it; a reader of any other
    message type, and a build that does not speak the version, gets no payload; a
    message cut anywhere short of the payload is none; and a reader that knows
    more fields than the frame carries gets none. *)
Theorem frame_roundtrip {P P'} `{HP : Payload P} `{HP' : Payload P'} kind version_ sequence_ (carried : P) (later : P') added extra :
  in_u32 kind -> in_u32 version_ -> in_u32 sequence_ -> payload_ok carried -> payload_ok later ->
  payload_bytes later = payload_bytes carried ++ added -> Z.of_nat (payload_size (P := P')) < 2 ^ 32 ->
  let bytes := TypedMessage.frame kind version_ sequence_ later ++ extra in
  Message.version bytes = version_ /\ Message.sequence bytes = sequence_ /\ Message.type bytes = kind /\
  (forall wanted, TypedMessage.read (P := P) wanted bytes
    = if isSupported version_ && (kind =? wanted) then Some carried else None) /\
  (forall wanted n, (n < Header_msg.size + payload_size (P := P))%nat -> TypedMessage.read (P := P) wanted (take n bytes) = None) /\
  (forall wanted more, added <> [] ->
    TypedMessage.read (P := P') wanted (TypedMessage.frame kind version_ sequence_ carried ++ more) = None).
Proof.
  intros Hk Hv Hs Hok Hok' Hadd Hsz bytes.
  assert (payload_size (P := P') = payload_size (P := P) + length added)%nat as Hsize.
  { rewrite <- (payload_bytes_length later Hok'), <- (payload_bytes_length carried Hok), Hadd. apply length_app. }
  destruct (frame_header kind version_ sequence_ later extra Hk Hv Hs Hsz) as (? & ? & ?). split_and!; [done..| | |].
  - intros wanted. unfold bytes, TypedMessage.frame, Message.makeFrame. rewrite Hadd, <-!app_assoc, read_encoded by (try done; unfold in_u32; lia).
    by rewrite (proj2 (Z.leb_le _ _)), andb_true_r by lia.
  - intros wanted n Hn. apply read_short. rewrite length_take. lia.
  - intros wanted more Hne. destruct added as [|b added]; [done|]. cbn [length] in Hsize.
    unfold TypedMessage.read, Message.payload, TypedMessage.frame, Message.makeFrame.
    rewrite <-app_assoc, header_encode by (try done; unfold in_u32; cbn; lia).
    cbn [Header_msg.payloadBytes]. rewrite (proj2 (Z.ltb_lt (Z.of_nat (payload_size (P := P))) _)) by lia. by rewrite orb_true_r.
Qed.

(** A Welcome begins with the bytes of a Hello. *)
Lemma frame_roundtrip_witness :
  TypedMessage.read MessageType.Welcome
    (TypedMessage.frame MessageType.Welcome 1 7 (Welcome_t.mk 1 8320) ++ [9; 9]) = Some (Hello_t.mk 1) /\
  TypedMessage.read MessageType.Welcome (take 19 (TypedMessage.frame MessageType.Welcome 1 7 (Welcome_t.mk 1 8320) ++ [9; 9]))
    = (None : option Hello_t.t) /\
  TypedMessage.read MessageType.Welcome (TypedMessage.frame MessageType.Welcome 1 7 (Hello_t.mk 1) ++ [9; 9]) = (None : option Welcome_t.t).
Proof.
  pose proof (frame_roundtrip MessageType.Welcome 1 7 (Hello_t.mk 1) (Welcome_t.mk 1 8320) (le_bytes 4 8320) [9; 9]
    ltac:(by vm_compute) ltac:(by vm_compute) ltac:(by vm_compute) ltac:(by vm_compute) ltac:(split; by vm_compute) eq_refl
    ltac:(vm_compute; reflexivity)) as (_ & _ & _ & H & Hs & Hl).
  split; [exact (H MessageType.Welcome)|]. split; [apply Hs; cbn; lia|]. apply Hl. discriminate.
Defined.
