(* ===== verification/Area.v ===== *)
(** * Area: the shared area a daemon and its requesters both map

    Models [src/daemon/shared/protocol/shared_area.hpp], [util/robust_lock.cpp],
    [util/occupancy.hpp], the [AtomicBits] of [common/bitmap.hpp] and the
    [SeqCst] and [Published] words of [common/ordered.hpp].  The header is
    compiled into both processes, so its operations are written once, against
    the class of the worlds they run in.

    Each word access is one step of an interleaving all processes agree on, which
    is what [SeqCst] promises; between two of them the other processes act.  The
    futex wait is the next look at its word: it may return at any time. *)

From S2P Require Import Prelude Effect Bitmap Types Wire.

(** ** The records *)

Inductive DomainState := Free | Live | Broken.
#[global] Instance DomainState_eq_dec : EqDecision DomainState.
Proof. solve_decision. Defined.

Inductive RequestState := Idle | LockRequested | Granting | LockHeld | Error_.
#[global] Instance RequestState_eq_dec : EqDecision RequestState.
Proof. solve_decision. Defined.

Definition isAcquireAnswered (state : RequestState) : bool :=
  match state with LockHeld | Error_ => true | _ => false end.

(** A [PTHREAD_MUTEX_ROBUST] mutex: a holder that dies leaves it for one next
    locker to be told. *)
Inductive Mutex := Unlocked | LockedBy (thread : Z) | OwnerDead.
#[global] Instance Mutex_eq_dec : EqDecision Mutex.
Proof. solve_decision. Defined.

Module Domain_t.
Record t := mk {
  lock : Mutex;
  state : RequestState;
  abandonCount : Z;
  seq : Z;
  waiters : Z;
  result : Z;
  expiresAtNanos : Z;
  name : list Z;
  registryState : DomainState;
}.

Definition with_lock (v : Mutex) (s : t) : t :=
  mk v (state s) (abandonCount s) (seq s) (waiters s) (result s) (expiresAtNanos s) (name s) (registryState s).
Definition with_state (v : RequestState) (s : t) : t :=
  mk (lock s) v (abandonCount s) (seq s) (waiters s) (result s) (expiresAtNanos s) (name s) (registryState s).
Definition with_abandonCount (v : Z) (s : t) : t :=
  mk (lock s) (state s) v (seq s) (waiters s) (result s) (expiresAtNanos s) (name s) (registryState s).
Definition with_seq (v : Z) (s : t) : t :=
  mk (lock s) (state s) (abandonCount s) v (waiters s) (result s) (expiresAtNanos s) (name s) (registryState s).
Definition with_waiters (v : Z) (s : t) : t :=
  mk (lock s) (state s) (abandonCount s) (seq s) v (result s) (expiresAtNanos s) (name s) (registryState s).
Definition with_result (v : Z) (s : t) : t :=
  mk (lock s) (state s) (abandonCount s) (seq s) (waiters s) v (expiresAtNanos s) (name s) (registryState s).
Definition with_expiresAtNanos (v : Z) (s : t) : t :=
  mk (lock s) (state s) (abandonCount s) (seq s) (waiters s) (result s) v (name s) (registryState s).
Definition with_name (v : list Z) (s : t) : t :=
  mk (lock s) (state s) (abandonCount s) (seq s) (waiters s) (result s) (expiresAtNanos s) v (registryState s).
Definition with_registryState (v : DomainState) (s : t) : t :=
  mk (lock s) (state s) (abandonCount s) (seq s) (waiters s) (result s) (expiresAtNanos s) (name s) v.

Definition zero : t := mk Unlocked Idle 0 0 0 0 0 DomainName.clear Free.
End Domain_t.
#[global] Instance Domain_inhabited : Inhabited Domain_t.t := populate Domain_t.zero.

Definition AbiVersion : Z := 1.

Module SharedArea_t.
Record t := mk {
  abiVersion : Z;
  maxDomains : Z;
  areaBytes : Z;
  dispatcherParked : Z;
  doorbell : Z;
  pending : Bits.t;
  table : gmap Z Domain_t.t;
}.

Definition with_doorbell (v : Z) (s : t) : t :=
  mk (abiVersion s) (maxDomains s) (areaBytes s) (dispatcherParked s) v (pending s) (table s).
Definition with_pending (v : Bits.t) (s : t) : t :=
  mk (abiVersion s) (maxDomains s) (areaBytes s) (dispatcherParked s) (doorbell s) v (table s).
Definition with_table (v : gmap Z Domain_t.t) (s : t) : t :=
  mk (abiVersion s) (maxDomains s) (areaBytes s) (dispatcherParked s) (doorbell s) (pending s) v.

Definition slot (a : t) (d : Z) : Domain_t.t := table a !!! d.
Definition setSlot (d : Z) (v : Domain_t.t) (a : t) : t := with_table (<[d := v]> (table a)) a.

(** [publishReady]: the version goes last. *)
Definition publishReady (bytes : Z) (a : t) : t :=
  mk AbiVersion MaxDomains bytes (dispatcherParked a) (doorbell a) (pending a) (table a).
End SharedArea_t.

Lemma slot_setSlot_eq d v a : SharedArea_t.slot (SharedArea_t.setSlot d v a) d = v.
Proof. apply lookup_total_insert_eq. Qed.

Lemma slot_setSlot_ne d d' v a : d <> d' -> SharedArea_t.slot (SharedArea_t.setSlot d v a) d' = SharedArea_t.slot a d'.
Proof. intros. by apply lookup_total_insert_ne. Qed.

(** ** The worlds the header is compiled into *)

(** What a process brings: where its mapping is, how the other processes act
    before its next access, its clocks, its thread and the turns its waits may
    take. *)
Class AreaWorld (R W : Type) := {
  area : W -> SharedArea_t.t;
  with_area : SharedArea_t.t -> W -> W;
  interfere : R -> W -> W;
  wallOf : R -> W -> Z;
  tickWall : W -> W;
  clockOf : R -> W -> Z;
  tickClock : W -> W;
  waitTurns : R -> nat;
  thread : R -> Z;
}.

Section header.
Context {R W : Type} `{AreaWorld R W}.

(** One access: the others first. *)
Definition load {A} (f : SharedArea_t.t -> A) : run R W A := fun E w =>
  let w := interfere E w in Some (f (area w), w).
Definition store (f : SharedArea_t.t -> SharedArea_t.t) : run R W unit := fun E w =>
  let w := interfere E w in Some (tt, with_area (f (area w)) w).
(** A read-modify-write, which answers the value before the change. *)
Definition atomically {A} (f : SharedArea_t.t -> A) (g : SharedArea_t.t -> SharedArea_t.t) : run R W A := fun E w =>
  let w := interfere E w in Some (f (area w), with_area (g (area w)) w).

Definition wallNanos : run R W Z := fun E w => Some (wallOf E w, tickWall w).
Definition steadyNow : run R W Z := fun E w => Some (clockOf E w, tickClock w).
Definition getTurns : run R W nat := fun E w => Some (waitTurns E, w).
Definition getThread : run R W Z := fun E w => Some (thread E, w).

Definition onSlot (d : Z) (f : Domain_t.t -> Domain_t.t) (a : SharedArea_t.t) : SharedArea_t.t :=
  SharedArea_t.setSlot d (f (SharedArea_t.slot a d)) a.
Definition loadSlot {A} (d : Z) (f : Domain_t.t -> A) : run R W A := load (fun a => f (SharedArea_t.slot a d)).
Definition storeSlot (d : Z) (f : Domain_t.t -> Domain_t.t) : run R W unit := store (onSlot d f).

(** ** RobustLock *)

(** [Some abandoned] once the mutex is this thread's. *)
Definition RobustLock_tryLock (d : Z) : run R W (option bool) :=
  let! self := getThread in
  atomically
    (fun a => match Domain_t.lock (SharedArea_t.slot a d) with
              | Unlocked => Some false | OwnerDead => Some true | LockedBy _ => None end)
    (onSlot d (fun s => match Domain_t.lock s with LockedBy _ => s | _ => Domain_t.with_lock (LockedBy self) s end)).

(** The blocking lock: looks until the mutex is free. *)
Fixpoint RobustLock_lock_turns (turns : nat) (d : Z) : run R W bool :=
  match turns with
  | O => outOfFuel
  | S turns =>
      let! held := RobustLock_tryLock d in
      match held with Some abandoned => ret abandoned | None => RobustLock_lock_turns turns d end
  end.
Definition RobustLock_lock (d : Z) : run R W bool :=
  let! turns := getTurns in RobustLock_lock_turns (S turns) d.

Definition RobustLock_unlock (d : Z) : run R W unit := storeSlot d (Domain_t.with_lock Unlocked).

(** ** The state machine *)

Definition publish (d : Z) (next : RequestState) : run R W unit :=
  storeSlot d (Domain_t.with_state next) ;;;
  storeSlot d (fun s => Domain_t.with_seq (u32 (Domain_t.seq s + 1)) s).

Definition getState (d : Z) : run R W RequestState := loadSlot d Domain_t.state.

(** The deadline is read from the clock; a wait that a wake or a spurious return
    ends is one more turn. *)
Fixpoint awaitState_turns (turns : nat) (d : Z) (deadline : timing.Deadline.t) (settled : RequestState -> bool)
    : run R W (option RequestState) :=
  match turns with
  | O => outOfFuel
  | S turns =>
      let! _ := loadSlot d Domain_t.seq in
      let! seenState := getState d in
      if settled seenState then ret (Some seenState)
      else
        let! instant := steadyNow in
        match timing.Deadline.remaining 1 deadline instant with
        | None => ret None
        | Some _ => awaitState_turns turns d deadline settled
        end
  end.
Definition awaitState (d timeout : Z) (settled : RequestState -> bool) : run R W (option RequestState) :=
  let! began := steadyNow in
  let! turns := getTurns in
  awaitState_turns (S turns) d (timing.Deadline.make began timeout) settled.

(** ** The daemon's answer *)

Definition publishGrant (d : Z) : run R W unit :=
  storeSlot d (Domain_t.with_result 0) ;;; publish d LockHeld.
Definition publishFailure (d failure : Z) : run R W unit :=
  storeSlot d (Domain_t.with_result failure) ;;; publish d Error_.
Definition getFailureCode (d : Z) : run R W Z := loadSlot d Domain_t.result.

(** ** The turn behind a grant *)

Definition hasValidTurn (d : Z) : run R W bool :=
  let! stamp := loadSlot d Domain_t.expiresAtNanos in
  let! wall := wallNanos in
  ret (bool_decide (is_Some (timing.WallStamp.aheadAt stamp wall))).
Definition holdTurnUntil (d wallNanos : Z) : run R W unit := storeSlot d (Domain_t.with_expiresAtNanos wallNanos).
Definition revokeTurn (d : Z) : run R W unit := storeSlot d (Domain_t.with_expiresAtNanos 0).

(** ** Local demand *)

Definition hasWaiters (d : Z) : run R W bool := loadSlot d (fun s => 0 <? Domain_t.waiters s).

Definition recordAbandonment (d : Z) (abandoned : bool) : run R W unit :=
  when abandoned (storeSlot d (fun s => Domain_t.with_abandonCount ((Domain_t.abandonCount s + 1) mod 2 ^ 16) s)).

(** The token is counted in while the mutex is waited for. *)
Definition lockForRequest (d : Z) : run R W bool :=
  storeSlot d (fun s => Domain_t.with_waiters (u32 (Domain_t.waiters s + 1)) s) ;;;
  let! abandoned := RobustLock_lock d in
  recordAbandonment d abandoned ;;;
  storeSlot d (fun s => Domain_t.with_waiters (u32 (Domain_t.waiters s - 1)) s) ;;;
  ret abandoned.

(** [true] with the mutex held, [false] with it given back. *)
Definition tryLockIfIdle (d : Z) : run R W bool :=
  let! held := RobustLock_tryLock d in
  match held with
  | None => ret false
  | Some abandoned =>
      recordAbandonment d abandoned ;;;
      let! state := getState d in
      let! busy := (if bool_decide (state <> Idle) then ret true else hasWaiters d) in
      if busy then RobustLock_unlock d ;;; ret false else ret true
  end.

Definition reclaimAbandoned (d : Z) : run R W bool :=
  let! held := RobustLock_tryLock d in
  match held with
  | None => ret false
  | Some abandoned =>
      recordAbandonment d abandoned ;;;
      when abandoned (publish d Idle) ;;;
      RobustLock_unlock d ;;;
      ret abandoned
  end.

Definition getAbandonCount (d : Z) : run R W Z := loadSlot d Domain_t.abandonCount.
Definition clearAbandonCount (d seen : Z) : run R W bool :=
  atomically (fun a => Domain_t.abandonCount (SharedArea_t.slot a d) =? seen)
    (onSlot d (fun s => if Domain_t.abandonCount s =? seen then Domain_t.with_abandonCount 0 s else s)).

(** ** Name and slot *)

Definition setName (d : Z) (wanted : DomainName.t) : run R W unit := storeSlot d (Domain_t.with_name (DomainName.write wanted)).
Definition clearName (d : Z) : run R W unit := storeSlot d (Domain_t.with_name DomainName.clear).
Definition getName (d : Z) : run R W (list Z) := loadSlot d (fun s => DomainName.read (Domain_t.name s)).
Definition isExpectedState (d : Z) (expected : DomainState) : run R W bool :=
  loadSlot d (fun s => bool_decide (Domain_t.registryState s = expected)).
Definition isNamed (d : Z) (wanted : list Z) : run R W bool :=
  let! live := isExpectedState d Live in
  if negb live then ret false else let! name := getName d in ret (bool_decide (name = wanted)).
Definition markState (d : Z) (next : DomainState) : run R W unit := storeSlot d (Domain_t.with_registryState next).

(** [NoDomain] when no live domain carries the name. *)
Definition resolve (name : list Z) : run R W Z :=
  let! found := findM (zrange 0 MaxDomains) (fun index => isNamed index name) in
  ret (default NoDomain found).

(** ** The doorbell *)

Definition knock : run R W unit :=
  store (fun a => SharedArea_t.with_doorbell (u32 (SharedArea_t.doorbell a + 1)) a).
Definition ring (d : Z) : run R W unit :=
  if MaxDomains <=? d then ret tt
  else store (fun a => SharedArea_t.with_pending (Bits.set (SharedArea_t.pending a) d) a) ;;; knock.
Definition request (d : Z) (next : RequestState) : run R W unit := publish d next ;;; ring d.

End header.
