(* ===== verification/Manager.v ===== *)
(** * Manager: the daemon's domains

    Models [src/daemon/daemon/domain/local_domain.hpp] and [manager.cpp]: what
    the daemon alone knows of a domain, the commands a requester sends, the
    grant and the hand-back of a turn, and the reconciliation of the area's
    table with the region.

    The region is reached through libcme, as the class of the sessions the
    manager can be given.  A guard is the domain id it holds; destroying it is
    the session's [unlock].  The naming mutex and the entry mutex serialise the
    daemon's own threads, so a handler runs alone on what they protect, while
    the requesters act between any two of its accesses to the area.  Counters,
    spans and failpoints are left out. *)

From S2P Require Import Prelude Effect Bitmap Types Wire Area.

(** What libcme offers the daemon; [None] is a session whose own loop ran out of
    turns. *)
Class RegionSession (S : Type) := {
  session_createDomain : list Z -> S -> option ((handle + Error) * S);
  session_joinDomain : list Z -> S -> option ((handle + Error) * S);
  session_leaveDomain : list Z -> S -> option ((unit + Error) * S);
  session_leaveHandle : handle -> S -> option ((unit + Error) * S);
  session_deleteDomain : list Z -> S -> option ((unit + Error) * S);
  session_lock : handle -> S -> option ((unit + Error) * S);
  session_unlock : Z -> S -> option (unit * S);
  session_getDomainEntries : S -> option ((list (list Z * handle) + Error) * S);
}.

(** ** What the daemon holds for one domain *)

Module LocalDomain.
Record t := mk {
  guard_ : option Z;
  runUntil_ : timing.Deadline.t;
  resolved_ : handle;
  joined_ : Z;
}.

Definition with_guard_ (v : option Z) (s : t) : t := mk v (runUntil_ s) (resolved_ s) (joined_ s).
Definition with_joined_ (v : Z) (s : t) : t := mk (guard_ s) (runUntil_ s) (resolved_ s) v.

Definition zero : t := mk None (timing.Deadline.mk 0) (DomainHandle_t.mk 0 0) 0.

Definition hasTurn (s : t) : bool := bool_decide (is_Some (guard_ s)).
Definition takeTurn (taken : handle) (runUntil : timing.Deadline.t) (s : t) : t :=
  mk (Some (DomainHandle_t.id taken)) runUntil taken (joined_ s).
Definition turnHandle (s : t) : handle := resolved_ s.
Definition addJoin (s : t) : t := with_joined_ (u32 (joined_ s + 1)) s.
Definition dropJoin (s : t) : bool * t :=
  if joined_ s =? 0 then (false, s) else (true, with_joined_ (joined_ s - 1) s).
Definition clearJoins (s : t) : t := with_joined_ 0 s.
Definition keepsParticipation (s : t) : bool := (0 <? joined_ s) || hasTurn s.
End LocalDomain.
#[global] Instance LocalDomain_inhabited : Inhabited LocalDomain.t := populate LocalDomain.zero.

(** ** The daemon's process *)

Module DaemonConfig_t.
Record t := mk { hold : Z; grantValidity : Z; refreshInterval : Z; deleteWaitTimeout : Z }.
End DaemonConfig_t.

Module NodeEnv.
Record t := mk {
  clock : nat -> Z;
  wall : nat -> Z;
  interf : nat -> SharedArea_t.t -> SharedArea_t.t;   (* the requesters, before each access *)
  fuel : nat;
  config : DaemonConfig_t.t;
}.
End NodeEnv.

Module Node.
Record t (S : Type) := mk {
  shm : SharedArea_t.t;
  session : S;
  entries : gmap Z LocalDomain.t;
  ids : IdLookup.t;
  refreshDue : timing.Deadline.t;
  accesses : nat;
  clockReads : nat;
  wallReads : nat;
}.
Arguments mk {S}.
Arguments shm {S}.
Arguments session {S}.
Arguments entries {S}.
Arguments ids {S}.
Arguments refreshDue {S}.
Arguments accesses {S}.
Arguments clockReads {S}.
Arguments wallReads {S}.

Section updates.
Context {S : Type}.
Definition with_shm (v : SharedArea_t.t) (n : t S) : t S :=
  mk v (session n) (entries n) (ids n) (refreshDue n) (accesses n) (clockReads n) (wallReads n).
Definition with_session (v : S) (n : t S) : t S :=
  mk (shm n) v (entries n) (ids n) (refreshDue n) (accesses n) (clockReads n) (wallReads n).
Definition with_entries (v : gmap Z LocalDomain.t) (n : t S) : t S :=
  mk (shm n) (session n) v (ids n) (refreshDue n) (accesses n) (clockReads n) (wallReads n).
Definition with_ids (v : IdLookup.t) (n : t S) : t S :=
  mk (shm n) (session n) (entries n) v (refreshDue n) (accesses n) (clockReads n) (wallReads n).
Definition with_refreshDue (v : timing.Deadline.t) (n : t S) : t S :=
  mk (shm n) (session n) (entries n) (ids n) v (accesses n) (clockReads n) (wallReads n).
Definition with_accesses (v : nat) (n : t S) : t S :=
  mk (shm n) (session n) (entries n) (ids n) (refreshDue n) v (clockReads n) (wallReads n).
Definition with_clockReads (v : nat) (n : t S) : t S :=
  mk (shm n) (session n) (entries n) (ids n) (refreshDue n) (accesses n) v (wallReads n).
Definition with_wallReads (v : nat) (n : t S) : t S :=
  mk (shm n) (session n) (entries n) (ids n) (refreshDue n) (accesses n) (clockReads n) v.
Definition entry (n : t S) (d : Z) : LocalDomain.t := entries n !!! d.
Definition setEntry (d : Z) (v : LocalDomain.t) (n : t S) : t S := with_entries (<[d := v]> (entries n)) n.
End updates.
End Node.

(** The daemon's thread, as the area's mutexes know it. *)
Definition DaemonThread : Z := 0.

#[export] Instance NodeArea S : AreaWorld NodeEnv.t (Node.t S) := {
  area := Node.shm;
  with_area := Node.with_shm;
  interfere E n := Node.with_accesses (Datatypes.S (Node.accesses n)) (Node.with_shm (NodeEnv.interf E (Node.accesses n) (Node.shm n)) n);
  wallOf E n := NodeEnv.wall E (Node.wallReads n);
  tickWall n := Node.with_wallReads (Datatypes.S (Node.wallReads n)) n;
  clockOf E n := NodeEnv.clock E (Node.clockReads n);
  tickClock n := Node.with_clockReads (Datatypes.S (Node.clockReads n)) n;
  waitTurns := NodeEnv.fuel;
  thread _ := DaemonThread;
}.

(** ** The commands and the turn *)

Inductive DomainAnswer :=
| Served | NameUnusable | NameTaken | NoRoom | NoSuchDomain | StillInUse
| ParticipantsRemain | DomainBroken | NotParticipating | RegionUnusable.
#[global] Instance DomainAnswer_eq_dec : EqDecision DomainAnswer.
Proof. solve_decision. Defined.

(** The negative errno a reply carries. *)
Definition DomainAnswer_code (a : DomainAnswer) : Z :=
  match a with
  | Served => 0 | NameUnusable => -22 | NameTaken => -17 | NoRoom => -28 | NoSuchDomain => -2 | StillInUse => -16
  | ParticipantsRemain => -39 | DomainBroken => -11 | NotParticipating => -1 | RegionUnusable => -5
  end.

Inductive GrantRefusal := TurnUnavailable | DomainUnusable.
Definition GrantRefusal_code (r : GrantRefusal) : Z :=
  match r with TurnUnavailable => -16 | DomainUnusable => -22 end.

Module DomainManager.
Section with_session.
Context {S : Type} `{RegionSession S}.

Definition D (A : Type) : Type := run NodeEnv.t (Node.t S) A.

Definition config {A} (f : DaemonConfig_t.t -> A) : D A := fun E n => Some (f (NodeEnv.config E), n).
Definition onEntry {A} (d : Z) (f : LocalDomain.t -> A) : D A := fun _ n => Some (f (Node.entry n d), n).
Definition updateEntry (d : Z) (f : LocalDomain.t -> LocalDomain.t) : D unit :=
  fun _ n => Some (tt, Node.setEntry d (f (Node.entry n d)) n).
Definition findId (name : DomainName.t) : D (option Z) := fun _ n => Some (IdLookup.find name (Node.ids n), n).
Definition updateIds (f : IdLookup.t -> IdLookup.t) : D unit := fun _ n => Some (tt, Node.with_ids (f (Node.ids n)) n).
Definition onSession {A} (op : S -> option (A * S)) : D A := fun _ n =>
  match op (Node.session n) with Some (a, s) => Some (a, Node.with_session s n) | None => None end.

Definition wakeRequester (d : Z) : D unit := ret tt.

Definition refuse (d : Z) (failure : GrantRefusal) : D unit :=
  publishFailure d (GrantRefusal_code failure) ;;; wakeRequester d.

(** Both leaves swallow what the region answers. *)
Definition leaveByName (name : DomainName.t) : D unit :=
  let! _ := onSession (session_leaveDomain (DomainName.getText name)) in ret tt.
Definition leaveByHandle (h : handle) : D unit :=
  if DomainHandle_t.incarnation h =? 0 then ret tt
  else let! _ := onSession (session_leaveHandle h) in ret tt.

(** Destroying the optional guard: the hand-back, when there is one. *)
Definition releaseTurn (d : Z) : D unit :=
  let! held := onEntry d LocalDomain.guard_ in
  match held with
  | None => ret tt
  | Some id => let! _ := onSession (session_unlock id) in updateEntry d (LocalDomain.with_guard_ None)
  end.

Definition runExpired (d : Z) : D bool :=
  let! until_ := onEntry d LocalDomain.runUntil_ in
  let! instant := steadyNow in
  ret (timing.Deadline.expiredAt until_ instant).

Definition dropTurn (d : Z) : D bool :=
  revokeTurn d ;;;
  let! state := getState d in
  if bool_decide (state = LockHeld) then ret false
  else
    releaseTurn d ;;;
    let! keeps := onEntry d LocalDomain.keepsParticipation in
    when (negb keeps) (let! h := onEntry d LocalDomain.turnHandle in leaveByHandle h) ;;;
    ret true.

Definition dropTurnIfIdle (d : Z) : D unit :=
  let! turn := onEntry d LocalDomain.hasTurn in
  if negb turn then ret tt
  else
    let! waiting := hasWaiters d in
    let! keep := (if waiting then let! expired := runExpired d in ret (negb expired) else ret false) in
    if keep then ret tt else let! _ := dropTurn d in ret tt.

(** The acquire of a turn: what the requester is refused with when it fails. *)
Definition acquireTurn (d : Z) : D (option GrantRefusal) :=
  let! name := getName d in
  let! joined := onSession (session_joinDomain name) in
  match joined with
  | inr LockTimeoutError => ret (Some TurnUnavailable)
  | inr _ => ret (Some DomainUnusable)
  | inl resolved =>
      let! taken := onSession (session_lock resolved) in
      match taken with
      | inr LockTimeoutError => ret (Some TurnUnavailable)
      | inr _ => ret (Some DomainUnusable)
      | inl _ =>
          let! hold := config DaemonConfig_t.hold in
          let! began := steadyNow in
          updateEntry d (LocalDomain.takeTurn resolved (timing.Deadline.make began hold)) ;;;
          let! validity := config DaemonConfig_t.grantValidity in
          let! wall := wallNanos in
          holdTurnUntil d (timing.wallAfter wall validity) ;;;
          ret None
      end
  end.

Definition grant (d : Z) : D unit :=
  publish d Granting ;;;
  wakeRequester d ;;;
  let! turn := onEntry d LocalDomain.hasTurn in
  let! failure := (if turn then ret None else acquireTurn d) in
  match failure with
  | Some reason => refuse d reason
  | None => publishGrant d ;;; wakeRequester d
  end.

Definition serveLock (domainId : Z) : D unit :=
  if MaxDomains <=? domainId then ret tt
  else
    let! state := getState domainId in
    match state with
    | LockRequested => grant domainId
    | Idle => dropTurnIfIdle domainId
    | _ => ret tt
    end.

Definition dropExpiredTurn (d : Z) : D unit :=
  let! turn := onEntry d LocalDomain.hasTurn in
  if negb turn then ret tt
  else
    let! expired := runExpired d in
    if negb expired then ret tt
    else
      let! _ := reclaimAbandoned d in
      let! _ := dropTurn d in
      ret tt.

Definition dropExpiredTurns (isBusy : Z -> bool) : D unit :=
  forM (zrange 0 MaxDomains) (fun d => if isBusy d then ret tt else dropExpiredTurn d).

(** Called under the naming mutex. *)
Definition claim (name : DomainName.t) (h : handle) : D DomainAnswer :=
  let d := DomainHandle_t.id h in
  if MaxDomains <=? d then ret NameUnusable
  else
    let! named := isNamed d (DomainName.getText name) in
    if named then updateIds (IdLookup.set name d) ;;; ret Served
    else
      let! live := isExpectedState d Live in
      when live (markState d Broken) ;;;
      let! broken := isExpectedState d Broken in
      let! taken :=
        (if broken then
           let! held := tryLockIfIdle d in
           if held then markState d Free ;;; RobustLock_unlock d ;;; ret true else ret false
         else ret true) in
      if negb taken then ret DomainBroken
      else
        setName d name ;;;
        markState d Live ;;;
        updateIds (IdLookup.set name d) ;;;
        ret Served.

Definition create (name : DomainName.t) : D DomainAnswer :=
  let text := DomainName.getText name in
  let finish created :=
    let! claimed := claim name created in
    match claimed with
    | Served => updateEntry (DomainHandle_t.id created) LocalDomain.addJoin ;;; ret Served
    | refused => ret refused
    end in
  let! created := onSession (session_createDomain text) in
  match created with
  | inl h => finish h
  | inr DomainExistsError =>
      let! joined := onSession (session_joinDomain text) in
      match joined with
      | inl h => finish h
      | inr UnknownDomainError => ret DomainBroken
      | inr _ => ret RegionUnusable
      end
  | inr DomainLimitError => ret NoRoom
  | inr _ => ret RegionUnusable
  end.

Definition retire (d : Z) (name : DomainName.t) : D unit :=
  clearName d ;;; updateIds (IdLookup.clear name d) ;;; updateEntry d LocalDomain.clearJoins.

(** [polling::awaitValue] over [tryLockIfIdle]: the look comes before the
    deadline test. *)
Fixpoint awaitIdle_turns (turns : nat) (d : Z) (waiting : timing.Deadline.t) : D bool :=
  match turns with
  | O => outOfFuel
  | Datatypes.S turns =>
      let! quiet := tryLockIfIdle d in
      if quiet then ret true
      else
        let! instant := steadyNow in
        if timing.Deadline.expiredAt waiting instant then ret false else awaitIdle_turns turns d waiting
  end.
Definition awaitIdle (d : Z) : D bool :=
  let! within := config DaemonConfig_t.deleteWaitTimeout in
  let! began := steadyNow in
  let! turns := getTurns in
  awaitIdle_turns (Datatypes.S turns) d (timing.Deadline.make began within).

(** The quiet lock is given back on every path past the wait. *)
Definition remove (name : DomainName.t) : D DomainAnswer :=
  let! found := findId name in
  match found with
  | None => ret NoSuchDomain
  | Some d =>
      let! keeps := onEntry d LocalDomain.keepsParticipation in
      if negb keeps then ret NotParticipating
      else
        markState d Free ;;;
        let! quiet := awaitIdle d in
        if negb quiet then markState d Live ;;; ret StillInUse
        else
          releaseTurn d ;;;
          revokeTurn d ;;;
          let! deleted := onSession (session_deleteDomain (DomainName.getText name)) in
          let! answered :=
            (match deleted with
             | inl _ | inr UnknownDomainError => retire d name ;;; ret Served
             | inr NotParticipatingError => markState d Live ;;; ret ParticipantsRemain
             | inr _ => markState d Live ;;; ret RegionUnusable
             end) in
          RobustLock_unlock d ;;;
          ret answered
  end.

Definition join (name : DomainName.t) : D DomainAnswer :=
  let! found := findId name in
  match found with
  | None => ret NoSuchDomain
  | Some d =>
      let! joined := onSession (session_joinDomain (DomainName.getText name)) in
      match joined with
      | inl _ => updateEntry d LocalDomain.addJoin ;;; ret Served
      | inr UnknownDomainError => ret NoSuchDomain
      | inr _ => ret RegionUnusable
      end
  end.

Definition leave (name : DomainName.t) : D DomainAnswer :=
  let! found := findId name in
  match found with
  | None => ret NoSuchDomain
  | Some d =>
      let! dropped := onEntry d (fun s => (LocalDomain.dropJoin s).1) in
      updateEntry d (fun s => (LocalDomain.dropJoin s).2) ;;;
      if negb dropped then ret Served
      else
        let! keeps := onEntry d LocalDomain.keepsParticipation in
        when (negb keeps) (leaveByName name) ;;;
        ret Served
  end.

Definition serveCommand (asked : Z) (asking : list Z) : D DomainAnswer :=
  match DomainName.make asking with
  | None => ret NameUnusable
  | Some name =>
      if asked =? MessageType.CreateDomain then create name
      else if asked =? MessageType.DeleteDomain then remove name
      else if asked =? MessageType.JoinDomain then join name
      else if asked =? MessageType.LeaveDomain then leave name
      else ret NameUnusable
  end.

(** ** The refresh *)

(** The slots the region's answer confirms at their own number. *)
Definition confirmOne (acc : gset Z) (e : list Z * handle) : D (gset Z) :=
  let d := DomainHandle_t.id e.2 in
  if MaxDomains <=? d then ret acc
  else
    let! named := isNamed d e.1 in
    let! sound := (if named then ret true else isExpectedState d Broken) in
    ret (if sound then {[d]} ∪ acc else acc).
Definition confirmed (living : list (list Z * handle)) : D (gset Z) := foldM living ∅ confirmOne.

Definition retireStale (sound : gset Z) (d : Z) : D unit :=
  let! live := isExpectedState d Live in
  let! taken := (if live then ret true else isExpectedState d Broken) in
  if negb taken || bool_decide (d ∈ sound) then ret tt
  else
    let! held := tryLockIfIdle d in
    if negb held then ret tt
    else
      let! text := getName d in
      markState d Free ;;;
      clearName d ;;;
      match DomainName.make text with
      | Some retired => updateIds (IdLookup.clear retired d)
      | None => ret tt
      end ;;;
      RobustLock_unlock d.

Definition claimAll (living : list (list Z * handle)) : D unit :=
  forM living (fun e =>
    match DomainName.make e.1 with
    | Some name => let! _ := claim name e.2 in ret tt
    | None => ret tt
    end).

Definition refresh : D unit :=
  let! due := (fun _ n => Some (Node.refreshDue n, n)) : D _ in
  let! instant := steadyNow in
  if negb (timing.Deadline.expiredAt due instant) then ret tt
  else
    let! interval := config DaemonConfig_t.refreshInterval in
    let! began := steadyNow in
    ((fun _ n => Some (tt, Node.with_refreshDue (timing.Deadline.make began interval) n)) : D unit) ;;;
    let! living := onSession session_getDomainEntries in
    match living with
    | inr _ => ret tt
    | inl living =>
        let! sound := confirmed living in
        forM (zrange 0 MaxDomains) (retireStale sound) ;;;
        claimAll living
    end.

Definition maintain (isBusy : Z -> bool) : D unit := refresh ;;; dropExpiredTurns isBusy.

End with_session.
End DomainManager.
