(* ===== verification/Turn.v ===== *)
(** * Turn: the turn protocol between the daemon and its requesters

    One slot of the area as a state machine: the requester that holds the
    slot's mutex and the daemon, each taking the accesses its code takes.  The
    machine's invariant says that a requester inside its section rides a turn
    the daemon holds; [serveLock] simulates the machine, access by access. *)

From stdpp Require Import relations.
From S2P Require Import Prelude Effect Bitmap Types Wire Area Manager.

Module turn_machine.

(** Where the holder of the slot's mutex stands: nobody holds it; locked and
    named; the claim stored; the turn found missing; the claim taken back; the
    request stored; inside the section; about to take the request back; the
    release stored. *)
Inductive rpc := Out | Locked | Claimed | Missed | Backed | Waiting | Inside | Leaving | Released.

(** Where the daemon stands on this slot: at rest; a request seen; [Granting]
    stored; the turn acquired; the turn behind the grant; the turn revoked; about
    to hand it back; a delete holding the slot's mutex, before and after it gave
    the turn back. *)
Inductive dpc := Rest | Seen | Answering | Acquired | Backing | Revoked | Dropping | Removing | Removed.

Record state := mk { word : RequestState; expires : Z; turn : bool; req : rpc; dmn : dpc }.

(** One access of the requester: [tryLockOnce] and the guard's release. *)
Inductive rstep : state -> state -> Prop :=
| r_lock w e t d : d <> Removing -> d <> Removed -> rstep (mk w e t Out d) (mk w e t Locked d)
| r_unnamed w e t d : rstep (mk w e t Locked d) (mk w e t Out d)
| r_claim w e t d : rstep (mk w e t Locked d) (mk LockHeld e t Claimed d)
| r_ride w e t d : e <> 0 -> rstep (mk w e t Claimed d) (mk w e t Inside d)
| r_miss w e t d : rstep (mk w e t Claimed d) (mk w e t Missed d)
| r_back w e t d : rstep (mk w e t Missed d) (mk Idle e t Backed d)
| r_unserved w e t d : rstep (mk w e t Backed d) (mk w e t Out d)
| r_ask w e t d : rstep (mk w e t Backed d) (mk LockRequested e t Waiting d)
| r_granted e t d : rstep (mk LockHeld e t Waiting d) (mk LockHeld e t Inside d)
| r_give_up w e t d : rstep (mk w e t Waiting d) (mk w e t Leaving d)
| r_leave w e t d p : p = Inside \/ p = Leaving -> rstep (mk w e t p d) (mk Idle e t Released d)
| r_unlock w e t d : rstep (mk w e t Released d) (mk w e t Out d)
| r_die w e t d p : rstep (mk w e t p d) (mk w e t Out d).

(** One access of the daemon: [serveLock], [dropTurn], [reclaimAbandoned] and
    [remove]. *)
Inductive dstep : state -> state -> Prop :=
| d_see e t p : dstep (mk LockRequested e t p Rest) (mk LockRequested e t p Seen)
| d_granting w e t p : dstep (mk w e t p Seen) (mk Granting e t p Answering)
| d_ride w e p : dstep (mk w e true p Answering) (mk w e true p Backing)
| d_acquire w e p : dstep (mk w e false p Answering) (mk w e true p Acquired)
| d_stamp w e e' t p : dstep (mk w e t p Acquired) (mk w e' t p Backing)
| d_grant w e t p : dstep (mk w e t p Backing) (mk LockHeld e t p Rest)
| d_refuse w e p : dstep (mk w e false p Answering) (mk Error_ e false p Rest)
| d_revoke w e t p : dstep (mk w e t p Rest) (mk w 0 t p Revoked)
| d_keep e t p : dstep (mk LockHeld e t p Revoked) (mk LockHeld e t p Rest)
| d_judge w e t p : w <> LockHeld -> dstep (mk w e t p Revoked) (mk w e t p Dropping)
| d_drop w e t p : dstep (mk w e t p Dropping) (mk w e false p Rest)
| d_reclaim w e t : dstep (mk w e t Out Rest) (mk Idle e t Out Rest)
| d_quiet e t : dstep (mk Idle e t Out Rest) (mk Idle e t Out Removing)
| d_release w e t p : dstep (mk w e t p Removing) (mk w e false p Removed)
| d_forget w e t p : dstep (mk w e t p Removed) (mk w 0 t p Rest).

Definition step (s s' : state) : Prop := rstep s s' \/ dstep s s'.

(** The daemon is between [Granting] and its answer. *)
Definition answering (p : dpc) : bool :=
  match p with Answering | Acquired | Backing => true | _ => false end.

(** The daemon has no turn, or is past judging that nobody rides it. *)
Definition closed (s : state) : Prop := turn s = false \/ dmn s = Dropping.

Record inv (s : state) : Prop := {
  inv_closed : closed s -> req s <> Inside /\ (req s = Waiting -> word s <> LockHeld) /\ (dmn s <> Removed -> expires s = 0);
  inv_turn : dmn s = Acquired \/ dmn s = Backing -> turn s = true;
  inv_inside : req s = Inside -> word s = LockHeld \/ answering (dmn s) = true;
  inv_claimed : req s = Claimed -> word s = LockHeld \/ answering (dmn s) = true \/ expires s = 0;
  inv_revoked : dmn s = Revoked -> expires s = 0;
  inv_removing : dmn s = Removing \/ dmn s = Removed -> req s = Out;
}.

Ltac step_inv Hi Hs :=
  destruct Hi as [Hc Ht Hin Hcl Hr Hm]; destruct Hs; unfold closed in *; cbn in *; split; unfold closed; cbn;
  intuition (subst; cbn in *; congruence).

Lemma inv_rstep s s' : inv s -> rstep s s' -> inv s'.
Proof. intros Hi Hs. step_inv Hi Hs. Qed.

Lemma inv_dstep s s' : inv s -> dstep s s' -> inv s'.
Proof. intros Hi Hs. step_inv Hi Hs. Qed.

Lemma turn_inv_step s s' : inv s -> step s s' -> inv s'.
Proof. intros Hi [H|H]; [by eapply inv_rstep|by eapply inv_dstep]. Qed.

Lemma turn_inv_reachable s s' : inv s -> rtc step s s' -> inv s'.
Proof. intros Hi. induction 1 as [|s1 s2 s3 H1 _ IH]; [done|]. apply IH. by eapply turn_inv_step. Qed.

(** A formatted slot, nobody at it. *)
Definition start : state := mk Idle 0 false Out Rest.

Lemma turn_inv_start : inv start.
Proof. split; cbn; try done; intros [?|?]; done. Qed.

(** C25: a section rides the daemon's turn.  Whatever requesters and the daemon
    do on a slot, access by access and in any interleaving, with requests that
    time out, requesters that die anywhere, stamps that expire, hand-backs and
    deletes, a requester inside its critical section always has the daemon's
    ownership of the domain behind it. *)
Theorem section_rides_turn s : rtc step start s -> req s = Inside -> turn s = true.
Proof.
  intros Hs Hin. destruct (turn_inv_reachable _ _ turn_inv_start Hs) as [Hc _ _ _ _ _].
  destruct (turn s) eqn:Ht; [done|]. by destruct (Hc (or_introl Ht)).
Qed.

(** A request through the daemon: asked, acquired, stamped, granted, entered. *)
Lemma section_rides_turn_witness : turn (mk LockHeld 7 true Inside Rest) = true.
Proof.
  apply section_rides_turn; [|reflexivity].
  eapply rtc_l; [left; by apply r_lock|]. eapply rtc_l; [left; apply r_claim|]. eapply rtc_l; [left; apply r_miss|].
  eapply rtc_l; [left; apply r_back|]. eapply rtc_l; [left; apply r_ask|]. eapply rtc_l; [right; apply d_see|].
  eapply rtc_l; [right; apply d_granting|]. eapply rtc_l; [right; apply d_acquire|].
  eapply rtc_l; [right; apply (d_stamp _ _ 7)|]. eapply rtc_l; [right; apply d_grant|].
  eapply rtc_l; [left; apply r_granted|]. apply rtc_refl.
Defined.
End turn_machine.

(** ** The code at one slot *)

Section area_rules.
Context {R W : Type} `{AreaWorld R W} (E : R).

Lemma wp_load {A} (f : SharedArea_t.t -> A) (Q : A -> W -> Prop) w :
  Q (f (area (interfere E w))) (interfere E w) -> wp (load f) E Q w.
Proof. done. Qed.

Lemma wp_store f (Q : unit -> W -> Prop) w :
  Q tt (with_area (f (area (interfere E w))) (interfere E w)) -> wp (store f) E Q w.
Proof. done. Qed.

Lemma wp_wallNanos (Q : Z -> W -> Prop) w : Q (wallOf E w) (tickWall w) -> wp wallNanos E Q w.
Proof. done. Qed.

Lemma wp_steadyNow (Q : Z -> W -> Prop) w : Q (clockOf E w) (tickClock w) -> wp steadyNow E Q w.
Proof. done. Qed.

Lemma wp_getTurns (Q : nat -> W -> Prop) w : Q (waitTurns E) w -> wp getTurns E Q w.
Proof. done. Qed.

Lemma wp_getThread (Q : Z -> W -> Prop) w : Q (thread E) w -> wp getThread E Q w.
Proof. done. Qed.

Lemma wp_atomically {A} (f : SharedArea_t.t -> A) g (Q : A -> W -> Prop) w :
  Q (f (area (interfere E w))) (with_area (g (area (interfere E w))) (interfere E w)) -> wp (atomically f g) E Q w.
Proof. done. Qed.
End area_rules.

Section node_rules.
Context {S : Type} `{RegionSession S} (E : NodeEnv.t).
Import DomainManager.

Lemma wp_config {A} (f : DaemonConfig_t.t -> A) (Q : A -> Node.t S -> Prop) n :
  Q (f (NodeEnv.config E)) n -> wp (config f) E Q n.
Proof. done. Qed.

Lemma wp_onEntry {A} d (f : LocalDomain.t -> A) (Q : A -> Node.t S -> Prop) n :
  Q (f (Node.entry n d)) n -> wp (onEntry d f) E Q n.
Proof. done. Qed.

Lemma wp_updateEntry d f (Q : unit -> Node.t S -> Prop) n :
  Q tt (Node.setEntry d (f (Node.entry n d)) n) -> wp (updateEntry d f) E Q n.
Proof. done. Qed.

Lemma wp_findId name (Q : option Z -> Node.t S -> Prop) n :
  Q (IdLookup.find name (Node.ids n)) n -> wp (findId name) E Q n.
Proof. done. Qed.

Lemma wp_updateIds f (Q : unit -> Node.t S -> Prop) n :
  Q tt (Node.with_ids (f (Node.ids n)) n) -> wp (updateIds f) E Q n.
Proof. done. Qed.
End node_rules.

(** One step of symbolic execution on the daemon's own state and clocks. *)
Ltac node_step :=
  match goal with
  | |- wp (bind _ _) _ _ _ => apply wp_bind
  | |- wp (ret _) _ _ _ => apply wp_ret
  | |- wp (DomainManager.config _) _ _ _ => apply wp_config
  | |- wp (DomainManager.onEntry _ _) _ _ _ => apply wp_onEntry
  | |- wp (DomainManager.updateEntry _ _) _ _ _ => apply wp_updateEntry
  | |- wp (DomainManager.findId _) _ _ _ => apply wp_findId
  | |- wp (DomainManager.updateIds _) _ _ _ => apply wp_updateIds
  | |- wp wallNanos _ _ _ => apply wp_wallNanos
  | |- wp steadyNow _ _ _ => apply wp_steadyNow
  | |- wp getTurns _ _ _ => apply wp_getTurns
  | |- wp getThread _ _ _ => apply wp_getThread
  end; cbv beta.

Section daemon.
Context {S : Type} `{HS : RegionSession S} (E : NodeEnv.t) (d : Z).
Import turn_machine DomainManager.

(** The session answers: none of its own waits goes on for ever. *)
Record session_returns : Prop := {
  join_returns : forall name s, session_joinDomain name s <> None;
  lock_returns : forall h s, session_lock h s <> None;
  unlock_returns : forall id s, session_unlock id s <> None;
  leave_returns : forall h s, session_leaveHandle h s <> None;
}.
Hypothesis Hsession : session_returns.

(** The slot as the machine sees it. *)
Definition view (a : SharedArea_t.t) (p : rpc) (t : bool) (dm : dpc) : turn_machine.state :=
  mk (Domain_t.state (SharedArea_t.slot a d)) (Domain_t.expiresAtNanos (SharedArea_t.slot a d)) t p dm.

(** Where the slot's requester stands before the n-th access.  It only takes
    accesses of its own, and the daemon's stores do not move it. *)
Context (rival : nat -> SharedArea_t.t -> rpc -> Prop).
Hypothesis Hrival : forall n a p, rival n a p -> exists p',
  (forall t dm, dm <> Removing -> dm <> Removed -> rtc rstep (view a p t dm) (view (NodeEnv.interf E n a) p' t dm)) /\
  rival (Datatypes.S n) (NodeEnv.interf E n a) p'.
Hypothesis Hkept : forall n a p f, rival n a p -> rival n (onSlot d f a) p.

Definition turnOf (n : Node.t S) : bool := LocalDomain.hasTurn (Node.entry n d).

(** The daemon stands at [dm], its requester somewhere the machine allows. *)
Definition placed (dm : dpc) (n : Node.t S) : Prop :=
  exists p, rival (Node.accesses n) (Node.shm n) p /\ inv (view (Node.shm n) p (turnOf n) dm).

Definition free (dm : dpc) : Prop := dm <> Removing /\ dm <> Removed.

Lemma placed_interfere dm n : free dm -> placed dm n -> placed dm (interfere E n).
Proof.
  intros [H1 H2] (p & Hr & Hi). destruct (Hrival _ _ _ Hr) as (p' & Hs & Hr'). exists p'. split; [exact Hr'|].
  specialize (Hs (turnOf n) dm H1 H2). revert Hi Hs. change (turnOf (interfere E n)) with (turnOf n).
  change (Node.shm (interfere E n)) with (NodeEnv.interf E (Node.accesses n) (Node.shm n)). generalize (view (Node.shm n) p (turnOf n) dm).
  intros s Hi Hs. remember (view _ p' _ _) as s' eqn:Hs'. clear Hs'. induction Hs as [|s1 s2 s3 H12 _ IH]; [done|].
  apply IH. by eapply inv_rstep.
Qed.

(** A step the daemon takes without an access. *)
Lemma placed_think dm dm' n :
  placed dm n -> (forall p, dstep (view (Node.shm n) p (turnOf n) dm) (view (Node.shm n) p (turnOf n) dm')) -> placed dm' n.
Proof. intros (p & Hr & Hi) Hs. exists p. split; [done|]. by eapply inv_dstep. Qed.

(** A store to the slot that is a step of the machine, or none. *)
Lemma placed_put dm dm' f n :
  placed dm n ->
  (forall p, let s := SharedArea_t.slot (Node.shm n) d in
    dstep (view (Node.shm n) p (turnOf n) dm) (mk (Domain_t.state (f s)) (Domain_t.expiresAtNanos (f s)) (turnOf n) p dm') \/
    (dm = dm' /\ Domain_t.state (f s) = Domain_t.state s /\ Domain_t.expiresAtNanos (f s) = Domain_t.expiresAtNanos s)) ->
  placed dm' (Node.with_shm (onSlot d f (Node.shm n)) n).
Proof.
  intros (p & Hr & Hi) Hs. exists p. split; [by apply Hkept|].
  unfold view. change (Node.shm (Node.with_shm ?a n)) with a. unfold onSlot. rewrite slot_setSlot_eq.
  destruct (Hs p) as [Hs'|(-> & -> & ->)]; [by eapply inv_dstep|exact Hi].
Qed.

Lemma wp_storeSlot dm dm' f (Q : unit -> Node.t S -> Prop) n :
  free dm -> placed dm n ->
  (forall s t p,
    dstep (mk (Domain_t.state s) (Domain_t.expiresAtNanos s) t p dm) (mk (Domain_t.state (f s)) (Domain_t.expiresAtNanos (f s)) t p dm') \/
    (dm = dm' /\ Domain_t.state (f s) = Domain_t.state s /\ Domain_t.expiresAtNanos (f s) = Domain_t.expiresAtNanos s)) ->
  (forall n', turnOf n' = turnOf n -> placed dm' n' -> Q tt n') -> wp (storeSlot d f) E Q n.
Proof.
  intros Hf Hp Hs HQ. apply wp_store. apply HQ; [done|].
  apply (placed_put dm dm' f (interfere E n)); [by apply placed_interfere|]. intros p. apply Hs.
Qed.

Lemma wp_loadSlot {A} dm (f : Domain_t.t -> A) (Q : A -> Node.t S -> Prop) n :
  free dm -> placed dm n ->
  (forall n', turnOf n' = turnOf n -> Node.entries n' = Node.entries n -> placed dm n' ->
    Q (f (SharedArea_t.slot (Node.shm n') d)) n') -> wp (loadSlot d f) E Q n.
Proof. intros Hf Hp HQ. apply wp_load. apply HQ; [done|done|]. by apply placed_interfere. Qed.

Lemma wp_onSession {A} dm (op : S -> option (A * S)) (Q : A -> Node.t S -> Prop) n :
  (forall s, op s <> None) -> placed dm n ->
  (forall a n', turnOf n' = turnOf n -> Node.entries n' = Node.entries n -> placed dm n' -> Q a n') -> wp (onSession op) E Q n.
Proof.
  intros Hop Hp HQ. unfold wp, onSession. destruct (op (Node.session n)) as [[a s]|] eqn:Ho; [|by destruct (Hop _ Ho)].
  by apply HQ.
Qed.

(** A publish whose state store takes the daemon from [dm] to [dm']. *)
Lemma wp_publish dm dm' next (Q : unit -> Node.t S -> Prop) n :
  free dm -> free dm' -> placed dm n ->
  (forall w e p, dstep (mk w e (turnOf n) p dm) (mk next e (turnOf n) p dm')) ->
  (forall n', turnOf n' = turnOf n -> placed dm' n' -> Q tt n') -> wp (publish d next) E Q n.
Proof.
  intros Hf Hf' Hp Hs HQ. apply wp_bind. apply wp_store.
  assert (placed dm' (Node.with_shm (onSlot d (Domain_t.with_state next) (Node.shm (interfere E n))) (interfere E n))) as Hp'.
  { apply (placed_put dm); [by apply placed_interfere|]. intros p. left. apply Hs. }
  set (n1 := Node.with_shm _ _) in *. apply (wp_storeSlot dm' dm'); [done|done|by right|].
  intros n' Ht. by apply HQ.
Qed.

Lemma updateEntry_turn f n : turnOf (Node.setEntry d (f (Node.entry n d)) n) = LocalDomain.hasTurn (f (Node.entry n d)).
Proof. unfold turnOf, Node.entry, Node.setEntry. cbn. by rewrite lookup_total_insert_eq. Qed.

Lemma acquireTurn_placed n :
  placed Answering n -> turnOf n = false ->
  wp (acquireTurn d) E (fun failure n' =>
    match failure with Some _ => placed Answering n' /\ turnOf n' = false | None => placed Backing n' /\ turnOf n' = true end) n.
Proof.
  intros Hp Ht. unfold acquireTurn. apply wp_bind. apply (wp_loadSlot Answering); [done|done|]. intros n1 Ht1 _ Hp1.
  apply wp_bind. apply (wp_onSession Answering); [apply join_returns, Hsession|done|]. intros [h|err] n2 Ht2 _ Hp2.
  2: { destruct err; apply wp_ret; split; congruence || done. }
  apply wp_bind. apply (wp_onSession Answering); [apply lock_returns, Hsession|done|]. intros [u|err] n3 Ht3 _ Hp3.
  2: { destruct err; apply wp_ret; split; congruence || done. }
  do 6 node_step. set (n4 := Node.setEntry _ _ _).
  assert (turnOf n4 = true) as Ht4 by (unfold n4; by rewrite updateEntry_turn).
  assert (placed Acquired n4) as Hp4.
  { destruct Hp3 as (p & Hr & Hi). exists p. split; [done|]. rewrite Ht4. eapply inv_dstep; [exact Hi|].
    replace (turnOf n3) with false by congruence. apply d_acquire. }
  do 5 node_step.
  set (n5 := tickWall n4). apply (wp_storeSlot Acquired Backing); [done|exact Hp4|intros; left; apply d_stamp|].
  intros n6 Ht6 Hp6. apply wp_ret. split; [done|]. rewrite Ht6. exact Ht4.
Qed.

Lemma grant_placed n : placed Seen n -> wp (grant d) E (fun _ n' => placed Rest n') n.
Proof.
  intros Hp. unfold grant. apply wp_bind. apply (wp_publish Seen Answering); [done|done|done|intros; apply d_granting|].
  intros n1 _ Hp1. node_step. apply wp_ret. do 3 node_step.
  change (LocalDomain.hasTurn (Node.entry n1 d)) with (turnOf n1). destruct (turnOf n1) eqn:Ht.
  - apply wp_ret.
    assert (placed Backing n1) as Hp2 by (eapply placed_think; [exact Hp1|]; intros p; rewrite Ht; apply d_ride).
    apply wp_bind. unfold publishGrant. apply wp_bind. apply (wp_storeSlot Backing Backing); [done|done|by right|].
    intros n2 _ Hp3. apply (wp_publish Backing Rest); [done|done|done|intros; apply d_grant|]. intros n3 _ Hp4. by apply wp_ret.
  - eapply wp_mono; [by apply acquireTurn_placed|]. intros [reason|] n2 [Hp2 Ht2].
    + unfold refuse, publishFailure. do 2 apply wp_bind. apply (wp_storeSlot Answering Answering); [done|done|by right|].
      intros n3 Ht3 Hp3. apply (wp_publish Answering Rest); [done|done|done| |].
      { intros. replace (turnOf n3) with false by congruence. apply d_refuse. }
      intros n4 _ Hp4. by apply wp_ret.
    + apply wp_bind. unfold publishGrant. apply wp_bind. apply (wp_storeSlot Backing Backing); [done|done|by right|].
      intros n3 _ Hp3. apply (wp_publish Backing Rest); [done|done|done|intros; apply d_grant|]. intros n4 _ Hp4. by apply wp_ret.
Qed.

Lemma releaseTurn_placed n : placed Dropping n -> wp (releaseTurn d) E (fun _ n' => placed Rest n') n.
Proof.
  intros Hp. unfold releaseTurn. do 2 node_step.
  destruct (LocalDomain.guard_ (Node.entry n d)) as [id|] eqn:Hg.
  - apply wp_bind. apply (wp_onSession Dropping); [apply unlock_returns, Hsession|done|]. intros u n1 Ht1 He1 (p & Hr & Hi).
    node_step. exists p. split; [done|]. rewrite updateEntry_turn.
    eapply inv_dstep; [exact Hi|]. apply d_drop.
  - apply wp_ret. destruct Hp as (p & Hr & Hi). exists p. split; [done|]. eapply inv_dstep; [exact Hi|].
    assert (turnOf n = false) as -> by (unfold turnOf, LocalDomain.hasTurn; by rewrite Hg). apply d_drop.
Qed.

Lemma dropTurn_placed n : placed Rest n -> wp (dropTurn d) E (fun _ n' => placed Rest n') n.
Proof.
  intros Hp. unfold dropTurn. apply wp_bind. apply (wp_storeSlot Rest Revoked); [done|done|intros; left; apply d_revoke|].
  intros n1 _ Hp1. apply wp_bind. apply (wp_loadSlot Revoked); [done|done|]. intros n2 _ _ Hp2. case_bool_decide as Hst.
  - apply wp_ret. eapply placed_think; [exact Hp2|]. intros p. unfold view. rewrite Hst. apply d_keep.
  - apply wp_bind. eapply wp_mono.
    { apply releaseTurn_placed. eapply placed_think; [exact Hp2|]. intros p. by apply d_judge. }
    intros ? n3 Hp3. do 3 node_step.
    apply wp_when; intros _; [|by node_step]. do 2 node_step. unfold leaveByHandle.
    case_if; [by do 2 apply wp_ret|]. apply wp_bind. apply (wp_onSession Rest); [apply leave_returns, Hsession|done|].
    intros ? n4 _ _ Hp4. by do 2 apply wp_ret.
Qed.

(** C26: [serveLock] keeps the turn protocol.  With the slot's requesters taking
    whatever accesses their code takes between any two of the daemon's, and the
    region answering as it likes, a run of [serveLock] goes from one state of
    the turn machine's invariant to another: every requester inside its section
    has the turn behind it, and the turn is handed back only while nobody can be
    inside. *)
Theorem serveLock_keeps_turn n : placed Rest n -> wp (serveLock d) E (fun _ n' => placed Rest n') n.
Proof.
  intros Hp. unfold serveLock. case_if; [by apply wp_ret|]. apply wp_bind.
  apply (wp_loadSlot Rest); [done|done|]. intros n1 _ _ Hp1.
  destruct (Domain_t.state _) eqn:Hst; try by apply wp_ret.
  - unfold dropTurnIfIdle. do 2 node_step. case_if; [by apply wp_ret|].
    apply wp_bind. apply (wp_loadSlot Rest); [done|done|]. intros n2 _ _ Hp2. apply wp_bind.
    assert (forall n2, placed Rest n2 -> wp (let! _ := dropTurn d in ret tt) E (fun _ n' => placed Rest n') n2) as Hdrop.
    { intros n3 Hp3. apply wp_bind. eapply wp_mono; [by apply dropTurn_placed|]. intros ? n4 Hp4. by apply wp_ret. }
    case_if; [|apply wp_ret; by apply Hdrop].
    unfold runExpired. do 7 node_step. case_if; [by apply wp_ret|by apply Hdrop].
  - apply grant_placed. eapply placed_think; [exact Hp1|]. intros p. unfold view. rewrite Hst. apply d_see.
Qed.
End daemon.

(** ** A grant that arrives late *)

(** A slot granted to a requester that had already given up: the word says a
    section is under way, nobody holds the mutex, and the daemon has the turn. *)
Record stranded {S} (d : Z) (n : Node.t S) : Prop := {
  stranded_word : Domain_t.state (SharedArea_t.slot (Node.shm n) d) = LockHeld;
  stranded_lock : Domain_t.lock (SharedArea_t.slot (Node.shm n) d) = Unlocked;
  stranded_turn : LocalDomain.hasTurn (Node.entry n d) = true;
}.

Section late_grant.
Context {S : Type} `{HS : RegionSession S} (E : NodeEnv.t) (d : Z).
Import turn_machine DomainManager.

(** No requester of this slot comes back. *)
Hypothesis Hquiet : forall n a, NodeEnv.interf E n a = a.

Definition strandedAs (s : S) (n : Node.t S) : Prop := stranded d n /\ Node.session n = s.

Lemma stranded_access n s : strandedAs s n -> strandedAs s (interfere E n).
Proof. intros [[H1 H2 H3] <-]. split; [split|done]; cbn; by rewrite ?Hquiet. Qed.

Lemma stranded_store f n s (Q : unit -> Node.t S -> Prop) :
  strandedAs s n -> (forall x, Domain_t.state x = LockHeld -> Domain_t.state (f x) = LockHeld /\ (Domain_t.lock (f x) = Domain_t.lock x \/ Domain_t.lock (f x) = Unlocked)) ->
  (forall n', strandedAs s n' -> Q tt n') -> wp (storeSlot d f) E Q n.
Proof.
  intros Hn Hf HQ. apply stranded_access in Hn as [[H1 H2 H3] Hs]. apply wp_store. apply HQ.
  destruct (Hf _ H1) as [Hw Hl]. split; [|done].
  assert (SharedArea_t.slot (Node.shm (with_area (onSlot d f (area (interfere E n))) (interfere E n))) d
    = f (SharedArea_t.slot (Node.shm (interfere E n)) d)) as Hslot by apply slot_setSlot_eq.
  split; [by rewrite Hslot| |exact H3]. rewrite Hslot. destruct Hl as [->| ->]; done.
Qed.

Lemma dropExpiredTurn_stranded s n : strandedAs s n -> wp (dropExpiredTurn d) E (fun _ n' => strandedAs s n') n.
Proof.
  intros Hn. unfold dropExpiredTurn. do 2 node_step. destruct Hn as [[H1 H2 H3] Hs]. rewrite H3. cbn [negb].
  node_step. unfold runExpired. do 5 node_step. destruct (timing.Deadline.expiredAt _ _); cbn [negb]; [|by node_step].
  assert (strandedAs s (tickClock n)) as Hn by by split. clear H1 H2 H3 Hs. set (n1 := tickClock n) in *. clearbody n1.
  node_step. unfold reclaimAbandoned, RobustLock_tryLock. do 3 node_step.
  apply stranded_access in Hn as [[H1 H2 H3] Hs]. apply wp_atomically. change (area ?x) with (Node.shm x). rewrite H2. cbv beta iota.
  node_step. apply wp_ret. node_step. apply wp_ret. node_step. apply wp_store. node_step. node_step. unfold dropTurn.
  set (n2 := with_area _ _).
  assert (strandedAs s n2) as Hn2.
  { split; [|done]. set (n3 := interfere E n1) in *. set (g := fun x => match Domain_t.lock x with LockedBy _ => x | _ => Domain_t.with_lock (LockedBy DaemonThread) x end).
    assert (SharedArea_t.slot (Node.shm n2) d = Domain_t.with_lock Unlocked (g (SharedArea_t.slot (Node.shm n3) d))) as Hslot.
    { unfold n2. change (Node.shm (with_area ?a _)) with a. unfold onSlot at 1. rewrite slot_setSlot_eq. f_equal.
      change (area (interfere E (with_area ?a n3))) with (NodeEnv.interf E (Node.accesses n3) a). rewrite Hquiet. apply slot_setSlot_eq. }
    split; [rewrite Hslot; unfold g; by rewrite H2|by rewrite Hslot|exact H3]. }
  node_step. apply (stranded_store _ n2 s); [done|by auto|]. intros n3 Hn3. node_step.
  apply stranded_access in Hn3 as [[H1' H2' H3'] Hs']. apply wp_load. change (area ?x) with (Node.shm x). rewrite H1'.
  rewrite bool_decide_true by done. by do 2 node_step.
Qed.

Lemma serveLock_stranded s n : strandedAs s n -> wp (serveLock d) E (fun _ n' => strandedAs s n') n.
Proof.
  intros Hn. unfold serveLock. case_if; [by node_step|]. node_step. apply stranded_access in Hn as Hn'.
  apply wp_load. change (area ?x) with (Node.shm x). rewrite (stranded_word _ _ (proj1 Hn')). by node_step.
Qed.
End late_grant.

(** A late grant strands the turn.  A requester that gives up while the
    daemon is answering leaves a slot that says a section is under way with
    nobody in it; from there, as long as no local requester comes back, no
    number of passes of the worker and of the expired-turn sweep ever hands the
    turn back, and no other host gets the domain. *)
Theorem late_grant_strands_turn {S} `{RegionSession S} (E : NodeEnv.t) (d : Z) (passes : nat) (n : Node.t S) :
  (exists s, rtc turn_machine.step turn_machine.start s /\
    turn_machine.req s = turn_machine.Out /\ turn_machine.dmn s = turn_machine.Rest /\
    turn_machine.word s = LockHeld /\ turn_machine.turn s = true) /\
  ((forall k a, NodeEnv.interf E k a = a) -> stranded d n ->
   wp (forM (replicate passes tt) (fun _ => DomainManager.serveLock d ;;; DomainManager.dropExpiredTurn d)) E
     (fun _ n' => LocalDomain.hasTurn (Node.entry n' d) = true /\ Node.session n' = Node.session n) n).
Proof.
  split.
  - exists (turn_machine.mk LockHeld 7 true turn_machine.Out turn_machine.Rest). split; [|done].
    eapply rtc_l; [left; by apply turn_machine.r_lock|]. eapply rtc_l; [left; apply turn_machine.r_claim|].
    eapply rtc_l; [left; apply turn_machine.r_miss|]. eapply rtc_l; [left; apply turn_machine.r_back|].
    eapply rtc_l; [left; apply turn_machine.r_ask|]. eapply rtc_l; [right; apply turn_machine.d_see|].
    eapply rtc_l; [right; apply turn_machine.d_granting|]. eapply rtc_l; [right; apply turn_machine.d_acquire|].
    eapply rtc_l; [right; apply (turn_machine.d_stamp _ _ 7)|]. eapply rtc_l; [left; apply turn_machine.r_give_up|].
    eapply rtc_l; [left; apply turn_machine.r_leave; by right|]. eapply rtc_l; [left; apply turn_machine.r_unlock|].
    eapply rtc_l; [right; apply turn_machine.d_grant|]. apply rtc_refl.
  - intros Hq Hn. eapply wp_mono; [apply (wp_forM E _ _ (strandedAs d (Node.session n)))|].
    + by split.
    + intros [] n1 _ Hn1. node_step. eapply wp_mono; [by apply serveLock_stranded|]. intros ? n2 Hn2.
      by apply dropExpiredTurn_stranded.
    + intros ? n' [[? ? Ht] Hs]. by split.
Qed.

(** ** Examples *)

(** A region this node alone uses, which answers at once. *)
Module solo.
Record t := mk { domains : gmap (list Z) handle; next : Z }.

#[global] Instance session : RegionSession t := {
  session_createDomain name s :=
    Some (match domains s !! name with
          | Some _ => (inr DomainExistsError, s)
          | None =>
              if MaxDomains <=? next s then (inr DomainLimitError, s)
              else let h := DomainHandle_t.mk (next s) (next s) in (inl h, mk (<[name := h]> (domains s)) (next s + 1))
          end);
  session_joinDomain name s := Some (match domains s !! name with Some h => inl h | None => inr UnknownDomainError end, s);
  session_leaveDomain _ s := Some (inl tt, s);
  session_leaveHandle _ s := Some (inl tt, s);
  session_deleteDomain name s :=
    Some (match domains s !! name with
          | Some _ => (inl tt, mk (delete name (domains s)) (next s))
          | None => (inr UnknownDomainError, s)
          end);
  session_lock _ s := Some (inl tt, s);
  session_unlock _ s := Some (tt, s);
  session_getDomainEntries s := Some (inl (map_to_list (domains s)), s);
}.

Definition env : NodeEnv.t :=
  NodeEnv.mk (fun n => Z.of_nat n * 1000000) (fun n => 1000 + Z.of_nat n) (fun _ a => a) 4
    (DaemonConfig_t.mk (timing.Millis 150) (timing.Millis 400) (timing.Millis 1000) (timing.Millis 100)).

Definition job : list Z := [106; 111; 98].

(** A live slot 1 named job, of the region's domain 1, with a request on it. *)
Definition area (word : RequestState) : SharedArea_t.t :=
  SharedArea_t.setSlot 1
    (Domain_t.mk Unlocked word 0 0 0 0 0 (DomainName.pad job) Live)
    (SharedArea_t.mk AbiVersion MaxDomains 8320 0 0 (Bits.mk [0]) ∅).

Definition node (word : RequestState) : Node.t t :=
  Node.mk (area word) (mk {[ job := DomainHandle_t.mk 1 1 ]} 2) ∅ {[ DomainName.pad job := 1 ]} (timing.Deadline.mk 0) 0 0 0.
End solo.

Lemma serveLock_keeps_turn_witness :
  exists n', DomainManager.serveLock 1 solo.env (solo.node LockRequested) = Some (tt, n') /\
    placed 1 (fun _ _ p => p = turn_machine.Waiting) turn_machine.Rest n'.
Proof.
  pose proof (serveLock_keeps_turn solo.env 1 ltac:(split; intros; discriminate) (fun _ _ p => p = turn_machine.Waiting)
    ltac:(intros n a p ->; exists turn_machine.Waiting; split; [intros; apply rtc_refl|reflexivity]) ltac:(done)
    (solo.node LockRequested)) as H.
  assert (placed 1 (fun _ _ p => p = turn_machine.Waiting) turn_machine.Rest (solo.node LockRequested)) as Hp.
  { exists turn_machine.Waiting. split; [reflexivity|]. split; vm_compute; try done; intros [?|?]; done. }
  specialize (H Hp). apply wp_elim in H as ([] & n' & Hrun & Hp'). exists n'. split; [exact Hrun|exact Hp'].
Defined.

(** The daemon took the turn for domain 1 and its grant found nobody. *)
Definition sample_stranded : Node.t solo.t :=
  Node.setEntry 1 (LocalDomain.mk (Some 1) (timing.Deadline.mk 0) (DomainHandle_t.mk 1 1) 0) (solo.node LockHeld).

Lemma late_grant_strands_turn_witness :
  exists n', forM (replicate 3 tt) (fun _ => DomainManager.serveLock 1 ;;; DomainManager.dropExpiredTurn 1)
      solo.env sample_stranded = Some (tt, n') /\ LocalDomain.hasTurn (Node.entry n' 1) = true.
Proof.
  destruct (late_grant_strands_turn solo.env 1 3 sample_stranded) as [_ H].
  specialize (H ltac:(done) ltac:(split; vm_compute; reflexivity)).
  apply wp_elim in H as ([] & n' & Hrun & Ht & _). exists n'. split; [exact Hrun|exact Ht].
Defined.
