(* ===== verification/Participation.v ===== *)
(** * Participation: joining and leaving through the shared session

    Models the rest of [src/src/serializers/shared_session.cpp]: the object over
    one session with its tiers by name, and the calls that forward to the
    session around them.  The session is the interface of [Manager]; a tier is
    the machine of [Cohort].

    [leaveDomain] and [deleteDomain] take the tier's mutex first.  Here the
    calling thread's three accesses to the tier run together, which is a history
    of that machine; on a mutex that is taken the call waits, and answers
    nothing. *)

From S2P Require Import Prelude Effect Types Layout Region World Manager Cohort.
Import DomainTier_t SharedSession.

Module SharedDomains.

(** [SharedSession::Impl]: the session under the tiers of the process. *)
Record t (S : Type) := mk { domains : gmap (list Z) DomainTier_t.t; session : S; }.
Arguments mk {_} _ _.
Arguments domains {_} _.
Arguments session {_} _.

Definition open_ {S} (opened : S + Error) : t S + Error :=
  match opened with inl session => inl (mk ∅ session) | inr error => inr error end.

(** [dropHeldOwnership] by [thread] over the table: the accesses of the drop,
    one after the other.  [None] is the wait for the mutex. *)
Definition dropTier (thread : Z) (tier : DomainTier_t.t) : option DomainTier_t.t :=
  match step thread true (dropHeldOwnership thread tier) with
  | Some tier => match step thread true tier with Some tier => step thread true tier | None => None end
  | None => None
  end.
Definition dropByName (thread : Z) (name : list Z) (domains : gmap (list Z) DomainTier_t.t) : option (gmap (list Z) DomainTier_t.t) :=
  match findTier domains name with
  | None => Some domains
  | Some tier => match dropTier thread tier with Some tier => Some (<[name := tier]> domains) | None => None end
  end.

Section over_session.
Context {S : Type} `{RegionSession S}.

(** A handle the session answered gives the name its tier; a throw does not
    reach [ensureEntry]. *)
Definition answered (name : list Z) (p : t S) (result : option ((handle + Error) * S)) : option ((handle + Error) * t S) :=
  match result with
  | None => None
  | Some (inl joined, session) => Some (inl joined, mk (ensureEntry (domains p) name) session)
  | Some (inr error, session) => Some (inr error, mk (domains p) session)
  end.
Definition joinDomain (name : list Z) (p : t S) : option ((handle + Error) * t S) :=
  answered name p (session_joinDomain name (session p)).
Definition createDomain (name : list Z) (p : t S) : option ((handle + Error) * t S) :=
  answered name p (session_createDomain name (session p)).

(** The tier first, then the session, whatever it answers. *)
Definition dropThen (thread : Z) (name : list Z) (p : t S) (call : S -> option ((unit + Error) * S)) :
    option ((unit + Error) * t S) :=
  match dropByName thread name (domains p) with
  | None => None
  | Some domains => match call (session p) with Some (result, session) => Some (result, mk domains session) | None => None end
  end.
Definition leaveDomain (thread : Z) (name : list Z) (p : t S) : option ((unit + Error) * t S) :=
  dropThen thread name p (session_leaveDomain name).
Definition deleteDomain (thread : Z) (name : list Z) (p : t S) : option ((unit + Error) * t S) :=
  dropThen thread name p (session_deleteDomain name).

(** ** What the calls keep *)

(** Every tier is in a state its machine reaches, so the cohort's theorems hold
    of it. *)
Definition reachable (p : t S) : Prop := map_Forall (fun _ tier => rtc move initial tier) (domains p).

Lemma ensureEntry_spec (tiers : gmap (list Z) DomainTier_t.t) name :
  (forall other, findTier (ensureEntry tiers name) other =
     match findTier tiers other with Some tier => Some tier | None => if decide (other = name) then Some initial else None end).
Proof.
  intros other. unfold findTier, ensureEntry. destruct (tiers !! name) as [tier|] eqn:Hn.
  - destruct (tiers !! other) eqn:Ho; [done|]. case_decide; [congruence|done].
  - destruct (decide (other = name)) as [->|Hne]; [by rewrite lookup_insert_eq, Hn|]. rewrite lookup_insert_ne by done. by destruct (tiers !! other).
Qed.

(** The drop is a history of the tier, it waits exactly on a taken mutex, and it
    ends with the ownership back in the region, the batch at zero and the mutex
    free. *)
Lemma dropTier_spec thread tier :
  pcOf tier thread = TOut ->
  match dropTier thread tier with
  | None => is_Some (mutex tier)
  | Some tier' => mutex tier = None /\ rtc move tier tier' /\ held tier' = false /\ batch tier' = 0 /\ mutex tier' = None /\
      waiters tier' = waiters tier /\ forall other, pcOf tier' other = pcOf tier other
  end.
Proof.
  intros Hout. pose proof (m_drop tier thread Hout) as Hm0. unfold dropTier.
  assert (forall p s, pcOf (goes thread p s) thread = p) as Hpc by (intros; by rewrite pcOf_goes, decide_True).
  assert (step thread true (dropHeldOwnership thread tier) =
    match mutex tier with Some _ => None | None => Some (goes thread TDropHeld (with_mutex (Some thread) (dropHeldOwnership thread tier))) end) as H1.
  { unfold step. unfold dropHeldOwnership at 1. by rewrite Hpc. }
  rewrite H1. destruct (mutex tier) eqn:Hmx; [by eauto|]. set (t1 := goes thread TDropHeld _) in *.
  assert (step thread true t1 = Some (goes thread TUnlock (handBack t1))) as H2 by (unfold step, t1; by rewrite Hpc).
  rewrite H2. set (t2 := goes thread TUnlock _) in *.
  assert (step thread true t2 = Some (goes thread TOut (with_mutex None t2))) as H3 by (unfold step, t2; by rewrite Hpc).
  rewrite H3. split_and!; [done| |done..|].
  - eapply rtc_l; [exact Hm0|]. eapply rtc_l; [by eapply m_step|]. eapply rtc_l; [by eapply m_step|]. apply rtc_once. by eapply m_step.
  - intros other. destruct (decide (thread = other)) as [<-|Hne]; [by rewrite Hpc, Hout|].
    unfold t2, t1, pcOf, standing. cbn. by rewrite !lookup_insert_ne by done.
Qed.

Lemma dropByName_spec thread name (p : t S) tiers :
  reachable p -> (forall tier, findTier (domains p) name = Some tier -> pcOf tier thread = TOut) ->
  dropByName thread name (domains p) = Some tiers ->
  map_Forall (fun _ tier => rtc move initial tier) tiers /\
  (forall other, other <> name -> findTier tiers other = findTier (domains p) other) /\
  match findTier (domains p) name with
  | None => tiers = domains p
  | Some tier => exists tier', findTier tiers name = Some tier' /\ held tier' = false /\ batch tier' = 0 /\ waiters tier' = waiters tier
  end.
Proof.
  intros Hr Hout Hd. unfold dropByName in Hd. destruct (findTier (domains p) name) as [tier|] eqn:Hf; [|by injection Hd as <-].
  pose proof (dropTier_spec thread tier (Hout _ eq_refl)) as Hs. destruct (dropTier thread tier) as [tier'|]; [|done].
  injection Hd as <-. destruct Hs as (_ & Hm & Hh & Hb & _ & Hw & _). split_and!.
  - apply map_Forall_insert_2; [|done]. etrans; [|exact Hm]. by apply (Hr name).
  - intros other Hne. unfold findTier. by rewrite lookup_insert_ne.
  - exists tier'. unfold findTier. by rewrite lookup_insert_eq.
Qed.

(** Joining and creating open the door and nothing else.  A handle answered
    means that a lock of the name is no longer refused here; every tier that
    was there is the same tier, with its cohort, and a name that fails to join
    gets none. *)
Theorem join_opens_door name (p : t S) result p' :
  reachable p -> joinDomain name p = Some (result, p') \/ createDomain name p = Some (result, p') ->
  reachable p' /\
  (forall other tier, findTier (domains p) other = Some tier -> findTier (domains p') other = Some tier) /\
  match result with
  | inl _ => refuseUnjoined (domains p') name = None
  | inr _ => domains p' = domains p
  end.
Proof.
  intros Hr Hj. assert (exists result', answered name p result' = Some (result, p')) as (result' & Ha) by (destruct Hj; eauto).
  unfold answered in Ha. destruct result' as [[[h|err] s]|]; [|by injection Ha as <- <-|done]. injection Ha as <- <-.
  pose proof (ensureEntry_spec (domains p) name) as He. split_and!.
  - intros other tier Hl. cbn in Hl. specialize (He other). unfold findTier in He. rewrite He in Hl.
    destruct (domains p !! other) as [tier0|] eqn:Ho; [injection Hl as <-; by apply (Hr other)|].
    case_decide; [injection Hl as <-; apply rtc_refl|done].
  - intros other tier Hl. cbn. by rewrite He, Hl.
  - unfold refuseUnjoined. cbn. rewrite He. destruct (findTier _ _); [done|]. by rewrite decide_True.
Qed.

(** Leaving and deleting give the domain back first.  Whatever the session then
    answers, a refusal included, the tier of the name is still there, with no
    ownership in it and the same threads counted, the other tiers are as they
    were; and the call waits for a guard that is out, and for nothing else on
    this side. *)
Theorem leave_gives_back_first thread name (p : t S) (call : S -> option ((unit + Error) * S)) :
  reachable p -> (forall tier, findTier (domains p) name = Some tier -> pcOf tier thread = TOut) ->
  match dropThen thread name p call with
  | Some (result, p') => call (session p) = Some (result, session p') /\ reachable p' /\
      (forall other, other <> name -> findTier (domains p') other = findTier (domains p) other) /\
      (forall tier, findTier (domains p) name = Some tier ->
         exists tier', findTier (domains p') name = Some tier' /\ held tier' = false /\ batch tier' = 0 /\ waiters tier' = waiters tier)
  | None => call (session p) = None \/ exists tier, findTier (domains p) name = Some tier /\ is_Some (mutex tier)
  end.
Proof.
  intros Hr Hout. unfold dropThen. destruct (dropByName thread name (domains p)) as [tiers|] eqn:Hd.
  - destruct (dropByName_spec thread name p tiers Hr Hout Hd) as (Hr' & Ho & Hn).
    destruct (call (session p)) as [[result s]|]; [|by left]. split_and!; [done|exact Hr'|done|].
    intros tier Ht. by rewrite Ht in Hn.
  - right. unfold dropByName in Hd. destruct (findTier (domains p) name) as [tier|] eqn:Hf; [|done].
    exists tier. split; [done|]. pose proof (dropTier_spec thread tier (Hout _ eq_refl)) as Hs. by destruct (dropTier thread tier).
Qed.
End over_session.
End SharedDomains.
