(* ===== verification/Facade.v ===== *)
(** * Facade: the theorems on the public session

    What a lock by handle establishes and what a refused one leaves, for every
    token policy and whatever the other peers do; the session as the interface
    the daemon is written against; and the daemon's acquire over it. *)

From S2P Require Import Prelude Bitmap Types Layout Region Effect World Runtime Ownership Token Transfer Policies PolicySafety Exclusion Lifecycle Admission Peer Session Pins Wire Area Manager Turn.
Import LocalPeerState peer_state ownership_transfer.

(** The session a peer offers the daemon: the library under an environment. *)
Definition libcme {P : SuccessorPolicy} (E : Env.t) : RegionSession World.t := {|
  session_createDomain name := Session.createDomain true name E;
  session_joinDomain name := Session.joinDomain true name E;
  session_leaveDomain name := Session.leaveDomain true name E;
  session_leaveHandle h := Session.leaveHandle true h E;
  session_deleteDomain name := Session.deleteDomain true name E;
  session_lock h :=
    (let! taken := Session.lockHandle true h in
     ret (match taken with inl _ => inl tt | inr error => inr error end)) E;
  session_unlock id := (let! _ := Guard.unlock (Some id) in ret tt) E;
  session_getDomainEntries :=
    (let! domains := get numDomains in
     let! entries := Session.getDomainEntries true domains in ret (inl entries)) E;
|}.

Section facade.
Context {P : SuccessorPolicy} {HP : TokenPolicy P} {HK : PinPolicy P}.
Context (E : Env.t) (pc self : Z) (mine : Z -> Z -> Prop) (budget : Z).
Hypothesis HE : respects E (tokenR pc mine).
Hypothesis Hself : forall d, mine d self.
Hypothesis Hpc : 0 <= self < pc /\ pc <= 64.
Hypothesis Hmono : clock_monotone E.
Hypothesis Hadv : clock_advances E budget.
Hypothesis Hsettle : config.acquire.WithdrawSettle <= budget.

Local Abbreviation ctx := (ctx pc self mine).
Local Abbreviation safe := (safe pc self mine).
Local Abbreviation pinned := (pinned pc self).

(** The peer's state is untouched, and what was pinned still is. *)
Definition looked (w w' : World.t) : Prop := safe w w' /\ World.local w' = World.local w.

Lemma looked_trans w w' w'' : looked w w' -> looked w' w'' -> looked w w''.
Proof. intros [Hs Hl] [Hs' Hl']. split; [by eapply safe_trans|congruence]. Qed.

(** Nothing taken: the identity, the pinned domains and every pin count. *)
Definition untaken (w w' : World.t) : Prop := safe w w' /\ same_pins w w'.

Lemma untaken_trans w w' w'' : untaken w w' -> untaken w' w'' -> untaken w w''.
Proof. intros [Hs Hp] [Hs' Hp']. split; [by eapply safe_trans|by transitivity w']. Qed.

Lemma looked_untaken w w' : looked w w' -> untaken w w'.
Proof. intros [Hs Hl]. split; [done|]. intros d. by rewrite Hl. Qed.

(** The record of [d] is the live incarnation [inc]. *)
Definition incarnated (d inc : Z) (w : World.t) : Prop :=
  lifecycle.isLive (Region.truth pc (World.region w) d) = true /\
  DomainRecord_t.generation (Region.truth pc (World.region w) d) = inc /\ inc <> 0.

(** ** The pieces *)

Lemma Safe_untaken {A} (m : M A) w :
  Safe E pc self mine m -> PinsKept m -> ctx w -> wp m E (fun _ w' => untaken w w') w.
Proof.
  intros Hs Hk Hw. eapply wp_mono; [apply (wp_wlp E m _ _ w (Hs w Hw) (Hk E w))|]. by intros ? w' [? ?].
Qed.

Lemma snapshot_spec d w :
  ctx w -> wp (loadDomainRecordSnapshot d) E (fun rec w' => looked w w' /\ rec = Region.truth pc (World.region w') d) w.
Proof.
  intros Hw. unfold loadDomainRecordSnapshot. wp_run. rewrite (ctx_pc _ _ _ _ Hw).
  split; [|done]. split; [by apply safe_tick|done].
Qed.

Lemma incarnation_spec d w :
  ctx w -> wp (Peer.readDomainIncarnation d) E (fun inc w' => looked w w' /\ (inc <> 0 -> incarnated d inc w')) w.
Proof.
  intros Hw. unfold Peer.readDomainIncarnation. do 2 wp_step. cbv beta. case_if.
  { apply wp_ret. split; [by split; [apply safe_refl|]|done]. }
  unfold lifecycle.readDomainIncarnation. wp_step. eapply wp_mono; [by apply snapshot_spec|].
  intros rec w' [Hl ->]. apply wp_ret. split; [done|]. unfold incarnated.
  destruct (lifecycle.isLive _); cbn [negb]; done.
Qed.

Lemma stale_spec h w :
  ctx w -> wp (Session.refuseStaleHandle h) E (fun stale w' => looked w w' /\
    (stale = None -> incarnated (DomainHandle_t.id h) (DomainHandle_t.incarnation h) w')) w.
Proof.
  intros Hw. unfold Session.refuseStaleHandle. destruct (Z.eqb_spec (DomainHandle_t.incarnation h) 0) as [|Hz].
  { apply wp_ret. split; [by split; [apply safe_refl|]|done]. }
  wp_step. eapply wp_mono; [by apply incarnation_spec|]. intros inc w' [Hl Hi]. apply wp_ret. split; [done|].
  destruct (Z.eqb_spec inc (DomainHandle_t.incarnation h)) as [->|]; cbn [negb]; [|done]. intros _. by apply Hi.
Qed.

(** The acquire as the peer makes it, once its deadline is set. *)
Lemma locked_from d n w res w' :
  locked pc self mine d (World.with_clockReads n w) res w' -> ctx w -> locked pc self mine d w res w'.
Proof.
  intros [[Hc Hp] Ho Hpin Hown] Hw. split; [split; [done|]|done|done|done].
  intros d' Hd' Hpd. apply Hp; [done|]. exact Hpd.
Qed.

Lemma locked_untaken d w w' : locked pc self mine d w NotArrived w' -> untaken w w'.
Proof.
  intros [Hs Ho Hp _]. split; [done|]. intros d'. destruct (decide (d' = d)) as [->|]; [rewrite Hp; lia|by apply Ho].
Qed.

Lemma acquire_spec d timeout w :
  0 <= d < 64 -> ctx w -> can_pin w d -> timeout <= budget ->
  wp (let! instant := now in lock d (timing.Deadline.make instant timeout)) E (locked pc self mine d w) w.
Proof.
  intros Hd Hw Hp Hb. do 2 wp_step. cbv beta. set (w0 := World.with_clockReads (S (World.clockReads w)) w).
  eapply wp_mono; [apply (lock_ok E pc self mine budget); try done|].
  - by destruct Hw.
  - cbn. unfold timing.Deadline.make. cbn. pose proof (Hmono (World.clockReads w) (S (World.clockReads w)) ltac:(lia)). lia.
  - intros res w' Hl. by eapply locked_from.
Qed.

Lemma peer_lock_spec d w :
  0 <= d < 64 -> ctx w -> can_pin w d -> config.acquire.Timeout <= budget ->
  wp (Peer.lock_ d) E (fun res w' =>
    match res with inl _ => locked pc self mine d w Arrived w' | inr _ => untaken w w' end) w.
Proof.
  intros Hd Hw Hp Hb. assert (untaken w w) as Hr by by split; [apply safe_refl|].
  unfold Peer.lock_, Peer.validatedState. do 4 wp_step. cbv beta. case_if; [by apply wp_ret|].
  do 2 wp_step. cbv beta. case_if; [by apply wp_ret|].
  pose proof (acquire_spec d config.acquire.Timeout w Hd Hw Hp Hb) as Ha.
  do 2 wp_step. cbv beta. wp_step. eapply wp_mono; [exact Ha|]. intros [] w' Hl; apply wp_ret; [done|by eapply locked_untaken].
Qed.

Lemma peer_tryLock_spec d timeout w :
  0 <= d < 64 -> ctx w -> can_pin w d -> timeout <= budget ->
  wp (Peer.tryLock d timeout) E (fun res w' =>
    match res with inl (Some _) => locked pc self mine d w Arrived w' | _ => untaken w w' end) w.
Proof.
  intros Hd Hw Hp Hb. assert (untaken w w) as Hr by by split; [apply safe_refl|].
  unfold Peer.tryLock, Peer.validatedState. do 4 wp_step. cbv beta. case_if; [by apply wp_ret|].
  do 2 wp_step. cbv beta. case_if; [by apply wp_ret|].
  pose proof (acquire_spec d timeout w Hd Hw Hp Hb) as Ha.
  do 2 wp_step. cbv beta. wp_step. eapply wp_mono; [exact Ha|]. intros [] w' Hl; apply wp_ret; [done|by eapply locked_untaken].
Qed.

(** A guard destroyed: the pin of the lock goes and nothing else does. *)
Lemma release_spec d w w1 w2 :
  0 <= d < 64 -> can_pin w d -> ctx w -> locked pc self mine d w Arrived w1 -> untaken w1 w2 ->
  wp (Peer.release d) E (fun _ w' => untaken w w') w2.
Proof.
  intros Hd Hp Hw [[Hc1 Hs1] Ho1 Hp1 _] [[Hc2 Hs2] Hk2]. unfold Peer.release.
  pose proof (unlock_safe E pc self mine d w2 HE Hself Hpc Hd Hc2) as Hu.
  eapply wp_mono; [apply (wp_wlp E _ _ _ w2 Hu (HK E d w2))|]. intros ? w3 [[Hc3 Hs3] Hk3].
  assert (forall d', LocalDomainView.pinCount (getDomain (World.local (released d w2)) d')
            = LocalDomainView.pinCount (getDomain (World.local w) d')) as Hcount.
  { intros d'. cbn. destruct (decide (d = d')) as [<-|Hne].
    - rewrite getDomain_upd_eq. unfold can_pin in Hp. destruct (unpin_count (getDomain (World.local w2) d)) as [-> _];
        rewrite Hk2, Hp1; lia.
    - rewrite getDomain_upd_ne by done. by rewrite Hk2, Ho1. }
  split; [split; [done|]|intros d'; by rewrite Hk3, Hcount].
  intros d' Hd' Hpd. apply Hs3; [done|]. destruct (Hs2 d' Hd' (Hs1 d' Hd' Hpd)) as [Hh _]. destruct Hpd as [_ Hpd].
  split; [exact Hh|]. unfold LocalDomainView.hasOwnershipPins in *. by rewrite Hcount.
Qed.

(** What a granted handle means. *)
Record owned (h : handle) (w w' : World.t) : Prop := {
  owned_safe : safe w w';
  owned_pinned : pinned (DomainHandle_t.id h) w';
  owned_incarnated : incarnated (DomainHandle_t.id h) (DomainHandle_t.incarnation h) w';
  owned_pins : LocalDomainView.pinCount (getDomain (World.local w') (DomainHandle_t.id h))
             = LocalDomainView.pinCount (getDomain (World.local w) (DomainHandle_t.id h)) + 1;
  owned_others : forall d', d' <> DomainHandle_t.id h ->
    LocalDomainView.pinCount (getDomain (World.local w') d') = LocalDomainView.pinCount (getDomain (World.local w) d');
}.

Lemma locked_owned h w w1 w2 :
  0 <= DomainHandle_t.id h < 64 -> locked pc self mine (DomainHandle_t.id h) w Arrived w1 -> looked w1 w2 ->
  incarnated (DomainHandle_t.id h) (DomainHandle_t.incarnation h) w2 -> owned h w w2.
Proof.
  intros Hd [Hs Ho Hp Hown] [Hs2 Hl2] Hi. destruct (Hown eq_refl) as [Hpin _]. split; [by eapply safe_trans|..|done| |].
  - by apply (safe_pinned _ _ _ _ _ Hs2).
  - by rewrite Hl2, Hp.
  - intros d' Hd'. rewrite Hl2. by apply Ho.
Qed.

Lemma owned_from h w0 w w' : looked w0 w -> owned h w w' -> owned h w0 w'.
Proof.
  intros [Hs Hl] [Hs' Hp Hi Hc Ho]. split; [by eapply safe_trans|done|done|by rewrite Hc, Hl|].
  intros d' Hd'. rewrite Ho by done. by rewrite Hl.
Qed.

Lemma can_pin_looked w w' d : looked w w' -> can_pin w d -> can_pin w' d.
Proof. intros [_ Hl]. unfold can_pin. by rewrite Hl. Qed.

(** The check after the acquire: the turn is owned, or the guard is gone. *)
Lemma confirm_spec {A} h w w1 (won : A) :
  0 <= DomainHandle_t.id h < 64 -> ctx w -> can_pin w (DomainHandle_t.id h) ->
  locked pc self mine (DomainHandle_t.id h) w Arrived w1 ->
  wp (let! stale := Session.refuseStaleHandle h in
      match stale with
      | Some error => Peer.release (DomainHandle_t.id h) ;;; ret (inr error)
      | None => ret (inl won)
      end) E (fun (res : A + Error) w' => match res with
                | inl got => got = won /\ owned h w w'
                | inr _ => untaken w w' end) w1.
Proof.
  intros Hd Hw Hp Hl. wp_step. eapply wp_mono; [apply stale_spec; apply Hl|]. intros [err|] w2 [Hl2 Hi].
  - wp_step. eapply wp_mono; [eapply release_spec; try done; by apply looked_untaken|]. intros ? w3 Hu. by apply wp_ret.
  - apply wp_ret. split; [done|]. apply (locked_owned h w w1); auto.
Qed.

(** Under a turn nobody replaces the domain: the other peers' steps leave its
    record alone for as long as this peer takes none. *)
Lemma owned_lasts h w w' n :
  0 <= DomainHandle_t.id h < 64 -> owned h w w' ->
  incarnated (DomainHandle_t.id h) (DomainHandle_t.incarnation h) (Nat.iter n (tick E) w').
Proof.
  intros Hd Ho. assert (block_eq pc (World.region w') (World.region (Nat.iter n (tick E) w')) (DomainHandle_t.id h)) as [Ht _].
  { destruct Ho as [_ [Hh _] _ _ _]. induction n as [|n IH]; [apply block_eq_refl|].
    eapply block_eq_trans; [exact IH|]. apply (tick_respects E _ (Nat.iter n (tick E) w') HE); [done|]. rewrite (block_eq_holder _ _ _ _ IH), Hh. apply Hself. }
  unfold incarnated. rewrite Ht. apply Ho.
Qed.

(** The lock by handle on every branch. *)
Lemma lock_handle_spec h w :
  0 <= DomainHandle_t.id h < 64 -> ctx w -> can_pin w (DomainHandle_t.id h) -> config.acquire.Timeout <= budget ->
  wp (Session.lockHandle true h) E (fun res w' =>
    match res with
    | inl guard => guard = Some (DomainHandle_t.id h) /\ owned h w w' /\
        forall n, incarnated (DomainHandle_t.id h) (DomainHandle_t.incarnation h) (Nat.iter n (tick E) w')
    | inr _ => untaken w w'
    end) w.
Proof.
  intros Hd Hw Hp Hb. cbn [Session.lockHandle negb]. unfold Session.lockByHandle. wp_step.
  eapply wp_mono; [by apply stale_spec|]. intros [err|] w1 [Hl1 _]; [by apply wp_ret, looked_untaken|].
  pose proof (can_pin_looked _ _ _ Hl1 Hp) as Hp1. assert (ctx w1) as Hw1 by apply Hl1.
  wp_step. eapply wp_mono; [by apply peer_lock_spec|]. intros [[]|err] w2 Hl2.
  - eapply wp_mono; [by apply (confirm_spec h w1 w2 (Some (DomainHandle_t.id h)))|].
    intros [guard|err] w3 H3; [destruct H3 as [-> H3]|].
    + assert (owned h w w3) as Ho by by eapply owned_from. split_and!; [done|done|]. intros n. by eapply owned_lasts.
    + eapply untaken_trans; [by apply looked_untaken|done].
  - apply wp_ret. eapply untaken_trans; [by apply looked_untaken|done].
Qed.

(** C2: a lock by handle owns the domain the handle named.  For every token
    policy, whatever the other peers do under the protocol, the call returns;
    when it answers a guard, the record names this peer, the domain is pinned
    once more, its record is the live incarnation of the handle, and stays so
    however long the others run on; when it throws, also past the acquire,
    every pin count is what it was and every domain pinned before still is. *)
Theorem lock_by_handle_owns h w :
  0 <= DomainHandle_t.id h < 64 -> ctx w -> can_pin w (DomainHandle_t.id h) -> config.acquire.Timeout <= budget ->
  wp (Session.lockHandle true h) E (fun res w' =>
    match res with
    | inl guard => guard = Some (DomainHandle_t.id h) /\ owned h w w' /\
        forall n, incarnated (DomainHandle_t.id h) (DomainHandle_t.incarnation h) (Nat.iter n (tick E) w')
    | inr _ => untaken w w'
    end) w.
Proof. apply lock_handle_spec. Qed.

(** The bounded lock: the same on a guard, and nothing taken otherwise, on the
    deadline too. *)
Theorem tryLock_by_handle_owns h timeout w :
  0 <= DomainHandle_t.id h < 64 -> ctx w -> can_pin w (DomainHandle_t.id h) -> timeout <= budget ->
  wp (Session.tryLockHandle true h timeout) E (fun res w' =>
    match res with
    | inl (Some guard) => guard = Some (DomainHandle_t.id h) /\ owned h w w'
    | _ => untaken w w'
    end) w.
Proof.
  intros Hd Hw Hp Hb. cbn [Session.tryLockHandle negb]. unfold Session.tryLockByHandle. wp_step.
  eapply wp_mono; [by apply stale_spec|]. intros [err|] w1 [Hl1 _]; [by apply wp_ret, looked_untaken|].
  pose proof (can_pin_looked _ _ _ Hl1 Hp) as Hp1. assert (ctx w1) as Hw1 by apply Hl1.
  wp_step. eapply wp_mono; [by apply peer_tryLock_spec|]. intros [[[]|]|err] w2 Hl2.
  - eapply wp_mono; [by apply (confirm_spec h w1 w2 (Some (Some (DomainHandle_t.id h))))|].
    intros [guard|err] w3 H3; [destruct H3 as [-> H3]; split; [done|by eapply owned_from]|].
    eapply untaken_trans; [by apply looked_untaken|done].
  - apply wp_ret. eapply untaken_trans; [by apply looked_untaken|done].
  - apply wp_ret. eapply untaken_trans; [by apply looked_untaken|done].
Qed.

(** ** Joining by name *)

Lemma findByName_spec range name w :
  ctx w -> wp (lifecycle.findByName range name) E (fun found w' => looked w w' /\
    (found.1 = NoDomain \/ found.1 ∈ range)) w.
Proof.
  revert w. induction range as [|d rest IH]; intros w Hw.
  { apply wp_ret. split; [by split; [apply safe_refl|]|by left]. }
  cbn [lifecycle.findByName]. wp_step. eapply wp_mono; [by apply snapshot_spec|]. intros rec w1 [Hl1 _]. case_if.
  - apply wp_ret. split; [done|]. right. by left.
  - eapply wp_mono; [apply IH, Hl1|]. intros found w2 [Hl2 Hf]. split; [by eapply looked_trans|].
    destruct Hf; [by left|right; by right].
Qed.

Lemma resolve_spec name w :
  ctx w -> wp (Session.resolveHandle name) E (fun found w' => looked w w' /\
    match found with inl h => 1 <= DomainHandle_t.id h < numDomains (World.local w) | inr _ => True end) w.
Proof.
  intros Hw. unfold Session.resolveHandle, Peer.resolveDomainName, lifecycle.findDataDomainByName. do 3 wp_step. cbv beta.
  eapply wp_mono; [by apply findByName_spec|]. intros [d inc] w' [Hl Hf]. apply wp_ret. split; [done|].
  cbn [fst] in *. unfold isNoDomain. destruct (Z.eqb_spec d NoDomain); [done|]. destruct Hf as [?|Hf]; [done|].
  unfold getDataDomainIdRange, IdRange in Hf. by apply elem_of_zrange in Hf.
Qed.

Lemma replaced_spec d expected w :
  ctx w -> wp (Peer.refuseReplacedDomain d expected) E (fun _ w' => looked w w') w.
Proof.
  intros Hw. unfold Peer.refuseReplacedDomain. destruct expected as [inc|].
  2:{ apply wp_ret. by split; [apply safe_refl|]. }
  unfold lifecycle.readDomainIncarnation. do 2 wp_step. eapply wp_mono; [by apply snapshot_spec|].
  intros rec w' [Hl _]. do 2 apply wp_ret. done.
Qed.

Lemma underControl_spec {A} (body : M (A + Error)) w :
  ctx w -> can_pin w ControlDomainId -> config.acquire.Timeout <= budget ->
  (forall w1, ctx w1 -> (forall d, d <> ControlDomainId -> can_pin w d -> can_pin w1 d) -> wp body E (fun _ w' => untaken w1 w') w1) ->
  wp (Peer.underControl body) E (fun _ w' => untaken w w') w.
Proof.
  intros Hw Hp Hb Hbody. unfold Peer.underControl. wp_step.
  eapply wp_mono; [apply peer_lock_spec; [unfold ControlDomainId; lia|done|done|done]|].
  intros [u|err] w1 H1; [|by apply wp_ret]. wp_step.
  eapply wp_mono; [apply Hbody; [apply H1|]; intros d Hd; unfold can_pin; by rewrite (locked_others _ _ _ _ _ _ _ H1)|]. intros res w2 H2.
  wp_step. eapply wp_mono; [eapply release_spec; try done; unfold ControlDomainId; lia|]. intros ? w3 H3. by apply wp_ret.
Qed.

Lemma peer_join_spec d expected w :
  ctx w -> can_pin w ControlDomainId -> config.acquire.Timeout <= budget ->
  wp (Peer.joinDomain d expected) E (fun _ w' => untaken w w') w.
Proof.
  intros Hw Hp Hb. assert (untaken w w) as Hr by by split; [apply safe_refl|].
  unfold Peer.joinDomain, Peer.validatedState. do 4 wp_step. cbv beta. case_if; [by apply wp_ret|].
  do 2 wp_step. cbv beta. case_if.
  { wp_step. eapply wp_mono; [by apply replaced_spec|]. intros ? w' Hl. apply wp_ret. by apply looked_untaken. }
  apply underControl_spec; [done..|]. intros w1 Hw1 _. wp_step. eapply wp_mono; [by apply replaced_spec|].
  intros [err|] w2 Hl2; [by apply wp_ret, looked_untaken|]. wp_step.
  eapply wp_mono; [apply (Safe_untaken _ w2); [by apply Safe_lifecycle_joinDomain|apply PinsKept_lifecycle_joinDomain|apply Hl2]|].
  intros res w3 H3. apply wp_ret. eapply untaken_trans; [by apply looked_untaken|done].
Qed.

Lemma join_spec name w :
  ctx w -> can_pin w ControlDomainId -> config.acquire.Timeout <= budget ->
  wp (Session.joinDomain true name) E (fun res w' => untaken w w' /\
    match res with inl h => 1 <= DomainHandle_t.id h < numDomains (World.local w) | inr _ => True end) w.
Proof.
  intros Hw Hp Hb. cbn [Session.joinDomain negb]. unfold Session.resolved. wp_step.
  eapply wp_mono; [by apply resolve_spec|]. intros [h|err] w1 [Hl1 Hh].
  2:{ apply wp_ret. split; [by apply looked_untaken|done]. }
  wp_step. eapply wp_mono; [apply peer_join_spec; [apply Hl1|by eapply can_pin_looked|done]|]. intros joined w2 H2.
  apply wp_ret. split; [eapply untaken_trans; [by apply looked_untaken|done]|]. by destruct joined.
Qed.

(** ** Leaving a domain *)

(** A look at the membership, at any bound the region says: the ring offers
    other peers only. *)
Lemma successorOnLeave_spec d w :
  ctx w -> wp (lifecycle.getSuccessorOnLeave d) E (fun p w' => untaken w w' /\ (isNoPeer p = false -> 0 <= p /\ p <> self)) w.
Proof.
  intros Hw.
  assert (SafeP E pc self mine (fun p => isNoPeer p = false -> 0 <= p /\ p <> self) (lifecycle.getSuccessorOnLeave d)) as Hs.
  { unfold lifecycle.getSuccessorOnLeave, loadPeerRing, loadPeerScanBound, loadMemberSnapshot.
    eapply (SafeP_bind _ _ _ _ (fun ring => forall p, p ∈ ring -> 0 <= p /\ p <> self)).
    - eapply (SafeP_bind _ _ _ _ in_u32).
      + eapply SafeP_bind; [apply Safe_SafeP; by apply Safe_read|]. intros line _.
        eapply (SafeP_bind _ _ _ _ (fun m => m = pc)); [apply SafeP_get; by intros w0 []|]. intros m ->.
        apply SafeP_ret. case_if; [apply u32_range|unfold in_u32; lia].
      + intros bound Hb. eapply (SafeP_bind _ _ _ _ (fun me => me = self)); [apply SafeP_get; by intros w0 []|]. intros me ->.
        apply SafeP_ret. intros p Hp. apply IdRing_ne in Hp as [? ?]; [lia|unfold in_u32; lia|done].
    - intros ring Hring. eapply SafeP_bind; [apply (SafeP_findM E pc self mine (fun p => 0 <= p /\ p <> self)); [|exact Hring]|].
      + intros p _. apply Safe_bind; [by apply Safe_read|intros; apply Safe_ret].
      + intros [p|] Hp; apply SafeP_ret; [by intros _|]. done. }
  assert (PinsKept (lifecycle.getSuccessorOnLeave d)) as Hk.
  { unfold lifecycle.getSuccessorOnLeave, loadPeerRing, loadPeerScanBound, loadMemberSnapshot. pins_run. }
  eapply wp_mono; [apply (wp_wlp E _ _ _ w (Hs w Hw) (Hk E w))|]. intros p w' [[? ?] ?]. by split; [split|].
Qed.

Lemma can_pin_untaken w w' d : untaken w w' -> can_pin w d -> can_pin w' d.
Proof. intros [_ Hk]. unfold can_pin. by rewrite Hk. Qed.

Lemma unpinned_kept d w w' : untaken w w' -> unpinned d w -> unpinned d w'.
Proof. intros [_ Hk]. unfold unpinned, LocalDomainView.hasOwnershipPins. by rewrite Hk. Qed.

(** A peer with no pin of its own hands the domain on and takes nothing. *)
Lemma leave_domain_spec d w :
  0 <= d < 64 -> ctx w -> can_pin w d -> unpinned d w -> wp (lifecycle.leaveDomain d) E (fun _ w' => untaken w w') w.
Proof.
  intros Hd Hw Hcp Hup. assert (untaken w w) as Hr by by split; [apply safe_refl|].
  unfold lifecycle.leaveDomain. do 2 wp_step. cbv beta. case_if; [by apply wp_ret|].
  wp_step. eapply wp_mono; [by apply successorOnLeave_spec|]. intros p w1 [Hu1 Hp]. destruct (isNoPeer p); [by apply wp_ret|].
  destruct (Hp eq_refl) as [Hp0 Hpne]. do 3 wp_step. cbv beta. eapply wp_mono; [apply snapshot_spec, Hu1|]. intros rec w2 [Hl2 _].
  assert (untaken w w2) as Hu2 by (eapply untaken_trans; [exact Hu1|by apply looked_untaken]).
  wp_step. assert (forall w3, untaken w w3 -> wp (modify (upd_domain d LocalDomainView.resetOwnershipPins) ;;;
    clearParticipation d ;;; ret lifecycle.LeaveOk) E (fun _ w' => untaken w w') w3) as Hend.
  { intros w3 Hu3. pose proof (unpinned_kept d _ _ Hu3 Hup) as Hup3. do 2 wp_step. cbv beta. set (w4 := World.with_local _ w3).
    assert (same_pins w3 w4) as Hsame.
    { intros d'. cbn. destruct (decide (d = d')) as [<-|].
      - rewrite getDomain_upd_eq. cbn. pose proof (can_pin_untaken _ _ _ Hu3 Hcp) as Hcp3. unfold can_pin in Hcp3.
        unfold unpinned, LocalDomainView.hasOwnershipPins, LocalDomainView.TransferringPins in Hup3. apply andb_false_iff in Hup3 as [Hz|Hz]; zbool; lia.
      - by rewrite getDomain_upd_ne. }
    assert (untaken w3 w4) as Hu4.
    { split; [|exact Hsame]. split; [destruct (proj1 Hu3) as [[]]; by split|]. intros d' Hd' [Hh Hpd]. split; [done|].
      unfold LocalDomainView.hasOwnershipPins in *. by rewrite Hsame. }
    wp_step. eapply wp_mono; [apply (Safe_untaken (clearParticipation d) w4)|].
    - apply Safe_publishSelfMember; done.
    - unfold clearParticipation, publishSelfMember. pins_run.
    - apply Hu4.
    - intros ? w5 Hu5. apply wp_ret. eapply untaken_trans; [exact Hu3|]. by eapply untaken_trans. }
  apply wp_when; intros _; [|by apply Hend].
  eapply wp_mono; [apply (transfer_spec E pc self mine); try done; [apply Hu2|by eapply unpinned_kept|by left]|].
  intros ? w3 (Hs3 & Hk3 & _). apply Hend. eapply untaken_trans; [exact Hu2|by split].
Qed.

Lemma peer_leave_spec d expected w :
  0 <= d < 64 -> ctx w -> can_pin w ControlDomainId -> can_pin w d -> config.acquire.Timeout <= budget ->
  wp (Peer.leaveDomain d expected) E (fun _ w' => untaken w w') w.
Proof.
  intros Hd Hw Hp Hpd Hb. assert (untaken w w) as Hr by by split; [apply safe_refl|].
  unfold Peer.leaveDomain, Peer.validatedState. do 4 wp_step. cbv beta. case_if; [by apply wp_ret|].
  case_if; [by apply wp_ret|].
  apply underControl_spec; [done..|]. intros w1 Hw1 Hcp1. wp_step. eapply wp_mono; [by apply replaced_spec|].
  intros [err|] w2 Hl2; [by apply wp_ret, looked_untaken|]. do 2 wp_step. cbv beta. case_if; [by apply wp_ret, looked_untaken|].
  wp_step. eapply wp_mono; [apply (leave_domain_spec d w2); [done|apply Hl2| |done]|].
  { eapply can_pin_looked; [exact Hl2|]. apply Hcp1; [|done]. by apply Z.eqb_neq. }
  intros res w3 H3. apply wp_ret. eapply untaken_trans; [by apply looked_untaken|done].
Qed.

(** ** The daemon over the library *)

(** A call of the manager into the session is a run of the library. *)
Lemma wp_libcme {A} (m : M A) NE Q (n : Node.t World.t) :
  wp m E (fun a w' => Q a (Node.with_session w' n)) (Node.session n) ->
  wp (DomainManager.onSession (m E)) NE Q n.
Proof. unfold wp, DomainManager.onSession. by destruct (m E (Node.session n)) as [[a w']|]. Qed.

(** The acquire: a refusal took nothing and left the tables; otherwise the guard
    recorded is for the handle resolved, and the region backs it. *)
Lemma acquireTurn_spec NE d (n : Node.t World.t) :
  ctx (Node.session n) -> (forall id, 0 <= id < 64 -> can_pin (Node.session n) id) ->
  numDomains (World.local (Node.session n)) <= 64 -> config.acquire.Timeout <= budget ->
  wp (@DomainManager.acquireTurn _ (libcme E) d) NE (fun failure n' =>
    match failure with
    | None => exists h, LocalDomain.guard_ (Node.entry n' d) = Some (DomainHandle_t.id h) /\
        LocalDomain.turnHandle (Node.entry n' d) = h /\
        1 <= DomainHandle_t.id h < 64 /\ safe (Node.session n) (Node.session n') /\
        pinned (DomainHandle_t.id h) (Node.session n') /\
        incarnated (DomainHandle_t.id h) (DomainHandle_t.incarnation h) (Node.session n') /\
        forall id, LocalDomainView.pinCount (getDomain (World.local (Node.session n')) id)
          = LocalDomainView.pinCount (getDomain (World.local (Node.session n)) id)
            + (if id =? DomainHandle_t.id h then 1 else 0)
    | Some _ => untaken (Node.session n) (Node.session n') /\ Node.entries n' = Node.entries n
    end) n.
Proof.
  intros Hw Hp Hnd Hb. unfold DomainManager.acquireTurn, getName, loadSlot. apply wp_bind, wp_load.
  set (n1 := interfere NE n). assert (Node.session n1 = Node.session n) as Hn1 by done.
  apply wp_bind, wp_libcme. rewrite Hn1.
  eapply wp_mono; [apply join_spec; [done|by apply Hp; unfold ControlDomainId|done]|].
  intros [h|err] w2 [[Hs2 Hk2] Hh]; [|destruct err; by apply wp_ret].
  assert (can_pin w2 (DomainHandle_t.id h)) as Hp2 by (unfold can_pin; rewrite Hk2; apply Hp; lia).
  apply wp_bind. refine (wp_libcme (let! taken := Session.lockHandle true h in _) NE _ _ _). apply wp_bind.
  eapply wp_mono; [apply (lock_handle_spec h w2); [lia|apply Hs2|done|done]|].
  intros [guard|err] w3 H3; apply wp_ret.
  2:{ assert (untaken (Node.session n) w3) as Hu by (eapply untaken_trans; [by split|done]).
      destruct err; by apply wp_ret. }
  destruct H3 as (-> & [Hs3 Hpin Hi Hc Ho] & _). do 10 node_step. unfold holdTurnUntil, storeSlot.
  node_step. apply wp_store, wp_ret. cbn. exists h. unfold Node.entry. cbn. rewrite lookup_total_insert_eq.
  split_and!; [done|done|lia|lia|by eapply safe_trans|done|done|]. intros id. destruct (Z.eqb_spec id (DomainHandle_t.id h)) as [->|Hne].
  - by rewrite Hc, Hk2.
  - rewrite Ho, Hk2 by done. lia.
Qed.
(** *** What the daemon holds for a slot *)

Definition heldFor (e : LocalDomain.t) (id : Z) : Z :=
  match LocalDomain.guard_ e with Some g => if id =? g then 1 else 0 | None => 0 end.

(** The session has the pins of its other uses, [base], and one more on the domain
    of the guard of slot [d], if it has one; each of them is on a domain whose
    record names this peer, and the guard's is the live incarnation of the handle
    the turn was taken on. *)
Record backed (base : Z -> Z) (d : Z) (n : Node.t World.t) : Prop := {
  backed_ctx : ctx (Node.session n);
  backed_pins : forall id, LocalDomainView.pinCount (getDomain (World.local (Node.session n)) id) = base id + heldFor (Node.entry n d) id;
  backed_others : forall id, 0 <= id < 64 -> 0 < base id -> pinned id (Node.session n);
  backed_turn : forall g, LocalDomain.guard_ (Node.entry n d) = Some g ->
    0 <= g < 64 /\ pinned g (Node.session n) /\ DomainHandle_t.id (LocalDomain.turnHandle (Node.entry n d)) = g /\
    incarnated g (DomainHandle_t.incarnation (LocalDomain.turnHandle (Node.entry n d))) (Node.session n);
}.

Section served_slot.
Context (NE : NodeEnv.t) (base : Z -> Z) (d : Z).
Hypothesis Hbase : forall id, 0 <= base id < 2 ^ 32 - 3.
Hypothesis Hb : config.acquire.Timeout <= budget.
Local Abbreviation backed := (backed base d).

(** An access to the area touches neither the session nor the tables. *)
Lemma backed_area n n' : Node.session n' = Node.session n -> Node.entries n' = Node.entries n -> backed n -> backed n'.
Proof. intros Hs He [H1 H2 H3 H4]. unfold Node.entry in *. split; rewrite ?Hs; unfold Node.entry; rewrite ?He; done. Qed.

Lemma wp_backed_load {A} (f : SharedArea_t.t -> A) (Q : A -> Node.t World.t -> Prop) n :
  backed n -> (forall a n', Node.session n' = Node.session n -> Node.entries n' = Node.entries n -> backed n' -> Q a n') -> wp (load f) NE Q n.
Proof. intros Hn HQ. apply HQ; [done|done|]. by apply (backed_area n). Qed.
Lemma wp_backed_store f (Q : unit -> Node.t World.t -> Prop) n :
  backed n -> (forall n', Node.session n' = Node.session n -> Node.entries n' = Node.entries n -> backed n' -> Q tt n') -> wp (store f) NE Q n.
Proof. intros Hn HQ. apply HQ; [done|done|]. by apply (backed_area n). Qed.

Lemma backed_can_pin n id : backed n -> 0 <= id < 64 -> can_pin (Node.session n) id.
Proof.
  intros Hn Hid. unfold can_pin. rewrite (backed_pins _ _ _ Hn). specialize (Hbase id). unfold heldFor.
  destruct (LocalDomain.guard_ _) as [g|]; [|lia]. destruct (id =? g); lia.
Qed.

Lemma publish_backed next n : backed n -> wp (publish d next) NE (fun _ => backed) n.
Proof.
  intros Hn. unfold publish, storeSlot. apply wp_bind, wp_backed_store; [done|]. intros n1 _ _ Hn1.
  by apply wp_backed_store.
Qed.

Lemma grant_backed n : numDomains (World.local (Node.session n)) <= 64 -> backed n ->
  wp (@DomainManager.grant _ (libcme E) d) NE (fun _ => backed) n.
Proof.
  intros Hnd Hn. unfold DomainManager.grant. apply wp_bind. unfold publish, storeSlot. apply wp_bind, wp_backed_store; [done|]. intros n0 Hs0 He0 Hn0.
  apply wp_backed_store; [done|]. intros n1 Hs1 He1 Hn1. apply wp_bind, wp_ret. do 2 node_step. apply wp_bind.
  assert (forall n, backed n -> wp (publishGrant d ;;; DomainManager.wakeRequester d) NE (fun _ => backed) n) as Hgrant.
  { intros n2 Hn2. unfold publishGrant, storeSlot. do 2 apply wp_bind. apply wp_backed_store; [done|]. intros n3 _ _ Hn3.
    eapply wp_mono; [by apply publish_backed|]. intros ? n4 Hn4. by apply wp_ret. }
  unfold LocalDomain.hasTurn. case_bool_decide as Ht; [by apply wp_ret, Hgrant|].
  assert (LocalDomain.guard_ (Node.entry n1 d) = None) as Hg by (destruct (LocalDomain.guard_ _); [by destruct Ht; eauto|done]).
  assert (forall id, LocalDomainView.pinCount (getDomain (World.local (Node.session n1)) id) = base id) as Hpins.
  { intros id. rewrite (backed_pins _ _ _ Hn1). unfold heldFor. rewrite Hg. lia. }
  eapply wp_mono; [apply acquireTurn_spec; [apply Hn1|intros; by apply backed_can_pin|by rewrite Hs1, Hs0|done]|].
  intros [reason|] n2 H2.
  - destruct H2 as [[Hs Hk] He]. unfold DomainManager.refuse, publishFailure, storeSlot. apply wp_bind.
    assert (backed n2) as Hn2.
    { unfold Node.entry in *. split; [apply Hs| | |]; unfold Node.entry; rewrite ?He.
      - intros id. by rewrite Hk, (backed_pins _ _ _ Hn1).
      - intros id Hid Hpos. apply (safe_pinned _ _ _ _ _ Hs); [done|]. by apply Hn1.
      - intros g. by rewrite Hg. }
    apply wp_bind. apply wp_backed_store; [done|]. intros n3 _ _ Hn3.
    eapply wp_mono; [by apply publish_backed|]. intros ? n4 Hn4. by apply wp_ret.
  - apply Hgrant. destruct H2 as (h & Hgu & Hh & Hid & Hs & Hpin & Hi & Hcount). split; [apply Hs| | |].
    + intros id. rewrite Hcount, Hpins. unfold heldFor. by rewrite Hgu.
    + intros id Hid' Hpos. apply (safe_pinned _ _ _ _ _ Hs); [done|]. by apply Hn1.
    + intros g. rewrite Hgu. intros [= <-]. rewrite Hh. split_and!; [lia|lia|done|done|done].
Qed.

(** The hand-back gives up the guard's pin and no other. *)
Lemma releaseTurn_backed n : backed n ->
  wp (@DomainManager.releaseTurn _ (libcme E) d) NE (fun _ n' => backed n' /\ LocalDomain.guard_ (Node.entry n' d) = None /\
    LocalDomain.turnHandle (Node.entry n' d) = LocalDomain.turnHandle (Node.entry n d)) n.
Proof.
  intros Hn. unfold DomainManager.releaseTurn. do 2 node_step. destruct (LocalDomain.guard_ (Node.entry n d)) as [g|] eqn:Hg; [|by apply wp_ret].
  destruct (backed_turn _ _ _ Hn g Hg) as (Hgd & Hpin & _). apply wp_bind.
  refine (wp_libcme (let! _ := Guard.unlock (Some g) in ret tt) NE _ _ _). unfold Guard.unlock, Peer.release. do 2 apply wp_bind.
  set (w := Node.session n). pose proof (unlock_safe E pc self mine g w HE Hself Hpc Hgd (backed_ctx _ _ _ Hn)) as Hu.
  eapply wp_mono; [apply (wp_wlp E _ _ _ w Hu (HK E g w))|]. intros ? w' [[Hc Hs] Hk]. do 2 apply wp_ret. node_step.
  assert (forall id, LocalDomainView.pinCount (getDomain (World.local (released g w)) id) = base id) as Hcount.
  { intros id. pose proof (backed_pins _ _ _ Hn id) as Hid. unfold heldFor in Hid. rewrite Hg in Hid. fold w in Hid. cbn.
    destruct (Z.eqb_spec id g) as [Heq|Hne].
    - rewrite Heq in *. rewrite getDomain_upd_eq. specialize (Hbase g). destruct (unpin_count (getDomain (World.local w) g)) as [-> _]; lia.
    - rewrite getDomain_upd_ne by done. lia. }
  unfold Node.entry. cbn. rewrite lookup_total_insert_eq. split; [|done]. split; cbn; unfold Node.entry; cbn; rewrite ?lookup_total_insert_eq.
  - done.
  - intros id. rewrite Hk, Hcount. cbn. lia.
  - intros id Hid Hpos. apply Hs; [done|]. destruct (backed_others _ _ _ Hn id Hid Hpos) as [Hh _]. split; [exact Hh|].
    unfold LocalDomainView.hasOwnershipPins, LocalDomainView.TransferringPins. rewrite Hcount. specialize (Hbase id).
    rewrite !(proj2 (Z.eqb_neq _ _)) by lia. done.
  - done.
Qed.

Lemma dropTurn_backed n : backed n -> (exists g, LocalDomain.guard_ (Node.entry n d) = Some g) ->
  wp (@DomainManager.dropTurn _ (libcme E) d) NE (fun _ => backed) n.
Proof.
  intros Hn [g Hg]. destruct (backed_turn _ _ _ Hn g Hg) as (Hgd & _ & Hid & _). unfold DomainManager.dropTurn, revokeTurn, getState, storeSlot, loadSlot.
  apply wp_bind, wp_backed_store; [done|]. intros n1 Hs1 He1 Hn1. apply wp_bind, wp_backed_load; [done|]. intros state n2 Hs2 He2 Hn2.
  case_bool_decide; [by apply wp_ret|]. apply wp_bind. eapply wp_mono; [by apply releaseTurn_backed|]. intros ? n3 (Hn3 & Hg3 & Hh3). do 3 node_step.
  apply wp_when; intros _; [|by apply wp_ret]. do 2 node_step. unfold DomainManager.leaveByHandle. case_if; [by do 2 apply wp_ret|].
  apply wp_bind. assert (DomainHandle_t.id (LocalDomain.turnHandle (Node.entry n3 d)) = g) as Hid3.
  { rewrite Hh3. unfold Node.entry in *. by rewrite He2, He1. }
  refine (wp_libcme (Session.leaveHandle true _) NE _ _ _). cbn [Session.leaveHandle negb]. rewrite Hid3.
  eapply wp_mono; [apply (peer_leave_spec g); [done|apply Hn3|by apply backed_can_pin|by apply backed_can_pin|done]|].
  intros ? w4 [Hs4 Hk4]. do 2 apply wp_ret. split; cbn; unfold Node.entry in *; cbn.
  - apply Hs4.
  - intros id. rewrite Hk4. apply Hn3.
  - intros id Hid' Hpos. apply (safe_pinned _ _ _ _ _ Hs4); [done|]. by apply Hn3.
  - intros g'. by rewrite Hg3.
Qed.

Lemma reclaim_backed n : backed n -> wp (reclaimAbandoned d) NE (fun _ n' => backed n' /\ Node.entries n' = Node.entries n) n.
Proof.
  intros Hn. assert (exists a n', reclaimAbandoned d NE n = Some (a, n') /\ Node.session n' = Node.session n /\ Node.entries n' = Node.entries n)
    as (a & n' & Hrun & Hs & He).
  { unfold reclaimAbandoned, RobustLock_tryLock, RobustLock_unlock, recordAbandonment, publish, storeSlot, when, bind, getThread, atomically, store, ret.
    cbn. destruct (Domain_t.lock _); cbn; eauto. }
  unfold wp. rewrite Hrun. split; [by apply (backed_area n)|done].
Qed.

Lemma hasTurn_guard (n : Node.t World.t) : LocalDomain.hasTurn (Node.entry n d) = true -> exists g, LocalDomain.guard_ (Node.entry n d) = Some g.
Proof. unfold LocalDomain.hasTurn. intros Ht%bool_decide_eq_true. exact Ht. Qed.
End served_slot.

(** C27: a turn the daemon serves is a domain the region gave it.  Over the
    library as its session, for every token policy, with the requesters acting on
    the area and the other peers on the region in between: [serveLock] of a slot
    and the drop of an expired turn return, and keep the daemon and the region in
    step.  Whenever the slot's entry has a guard, the region's record of its
    domain names this peer, is the live incarnation of the handle the turn was
    taken on and is pinned exactly once more for it; when it has none, no pin is
    left behind; and every domain the session pins for other uses stays pinned,
    with the count it had. *)
Theorem turn_backed_by_region NE base d (n : Node.t World.t) :
  (forall id, 0 <= base id < 2 ^ 32 - 3) -> config.acquire.Timeout <= budget ->
  numDomains (World.local (Node.session n)) <= 64 -> backed base d n ->
  wp (@DomainManager.serveLock _ (libcme E) d) NE (fun _ n' => backed base d n') n /\
  wp (@DomainManager.dropExpiredTurn _ (libcme E) d) NE (fun _ n' => backed base d n') n.
Proof.
  intros Hbase Hb Hnd Hn. split.
  - unfold DomainManager.serveLock. case_if; [by apply wp_ret|]. unfold getState, loadSlot.
    apply wp_bind, (wp_backed_load NE base d); [done|]. intros state n1 Hs1 He1 Hn1. destruct state; try by apply wp_ret.
    + unfold DomainManager.dropTurnIfIdle. do 2 node_step. destruct (LocalDomain.hasTurn _) eqn:Ht; cbn [negb]; [|by apply wp_ret].
      unfold hasWaiters, loadSlot. apply wp_bind, (wp_backed_load NE base d); [done|]. intros waiting n2 Hs2 He2 Hn2. apply wp_bind.
      assert (forall n3, Node.entries n3 = Node.entries n1 -> backed base d n3 ->
        wp (let! _ := @DomainManager.dropTurn _ (libcme E) d in ret tt) NE (fun _ n' => backed base d n') n3) as Hdrop.
      { intros n3 He3 Hn3. apply wp_bind. eapply wp_mono; [apply (dropTurn_backed NE base d Hbase Hb n3 Hn3)|intros; by apply wp_ret].
        destruct (hasTurn_guard d n1 Ht) as [g Hg]. exists g. unfold Node.entry in *. by rewrite He3. }
      destruct waiting; [|apply wp_ret; by apply Hdrop].
      unfold DomainManager.runExpired. do 7 node_step. case_if; [by apply wp_ret; eapply backed_area; [..|exact Hn2]|].
      apply Hdrop; [done|]. by eapply backed_area; [..|exact Hn2].
    + apply grant_backed; [done|done|by rewrite Hs1|done].
  - unfold DomainManager.dropExpiredTurn. do 2 node_step. destruct (LocalDomain.hasTurn _) eqn:Ht; cbn [negb]; [|by apply wp_ret].
    unfold DomainManager.runExpired. do 6 node_step. set (n1 := tickClock _).
    assert (backed base d n1) as Hn1 by by apply (backed_area base d n).
    case_if; [by apply wp_ret|]. apply wp_bind.
    eapply wp_mono; [by apply (reclaim_backed NE base d)|].
    intros ? n2 [Hn2 He2]. apply wp_bind. eapply wp_mono; [apply (dropTurn_backed NE base d Hbase Hb n2 Hn2)|intros; by apply wp_ret].
    destruct (hasTurn_guard d n Ht) as [g Hg]. exists g. unfold Node.entry in *. by rewrite He2.
Qed.
End facade.

(** ** Examples *)

(** Peer 0 of the two-peer region holds and participates in domain 1, the
    seventh incarnation of that slot. *)
Module joined.
Definition record : DomainRecord_t.t :=
  DomainRecord_t.setState DomainRecord_t.Active
    (DomainRecord_t.mk DomainRecord_t.Magic 0 7 3 0 (lifecycle.nameField solo.job)).
Definition local : LocalPeerState.t :=
  with_selfMember_ (Member_t.storeParticipatingDomains (Bits.set (Bits.set DomainBitmap_empty 0) 1) Member_t.zero)
    (upd_domain 1 LocalDomainView.becomeHolder (sample.local 0)).
Definition world : World.t := World.mk (Region.setTruth 2 1 record sample.region) local 0 0 0 0 [].
Definition handle_ : handle := DomainHandle_t.mk 1 7.

Lemma ctx_joined : ctx 2 0 (sample.own 0) world.
Proof. split; [done|done|unfold in_u32; cbn; lia|constructor]. Qed.
Lemma can_pin_world id : 0 <= id < 64 -> can_pin world id.
Proof.
  intros Hid. unfold can_pin, getDomain. cbn [World.local world local domains_ with_selfMember_ upd_domain with_domains_].
  rewrite tbl_lookup_insert. case_decide; [by vm_compute|].
  change (domains_ (sample.local 0)) with ({[ 0 := LocalDomainView.becomeHolder LocalDomainView.zero ]} : gmap Z LocalDomainView.t).
  destruct (decide (id = 0)) as [->|]; [by vm_compute|]. rewrite lookup_total_singleton_ne by done. by vm_compute.
Qed.
Lemma respects_world : respects sample.env (tokenR 2 (sample.own 0)).
Proof. apply sample.respects_env. reflexivity. Qed.
End joined.

Lemma lock_by_handle_owns_witness :
  exists guard w', Session.lockHandle (policy := orderPolicy) true joined.handle_ sample.env joined.world = Some (inl guard, w') /\
    guard = Some 1 /\ owned 2 0 (sample.own 0) joined.handle_ joined.world w'.
Proof.
  pose proof (lock_by_handle_owns (P := orderPolicy) sample.env 2 0 (sample.own 0) (timing.Secs 1)
    joined.respects_world (fun d => eq_refl) ltac:(lia) sample.monotone_env sample.advances_env ltac:(by vm_compute)
    joined.handle_ joined.world ltac:(cbn; lia) joined.ctx_joined (joined.can_pin_world 1 ltac:(lia)) ltac:(by vm_compute)) as H.
  apply wp_elim in H as (res & w' & Hrun & HQ).
  assert (answer (Session.lockHandle (policy := orderPolicy) true joined.handle_) sample.env joined.world
          = Some (inl (Some 1))) as Ha by (vm_compute; reflexivity).
  pose proof (answer_run _ _ _ _ _ _ Hrun Ha) as ->. destruct HQ as (? & ? & _). by exists (Some 1), w'.
Defined.

(** The daemon of that peer, its table holding the slot of domain 1. *)
Definition joined_node : Node.t World.t :=
  Node.mk (solo.area LockRequested) joined.world ∅ {[ DomainName.pad solo.job := 1 ]} (timing.Deadline.mk 0) 0 0 0.

(** The session uses nothing else, so it starts with no pin. *)
Lemma joined_backed : backed 2 0 (sample.own 0) (fun _ => 0) 1 joined_node.
Proof.
  assert (forall id, LocalDomainView.pinCount (getDomain joined.local id) = 0) as Hz.
  { intros id. unfold getDomain. cbn [joined.local domains_ with_selfMember_ upd_domain with_domains_]. rewrite tbl_lookup_insert. case_decide; [done|].
    change (domains_ (sample.local 0)) with ({[ 0 := LocalDomainView.becomeHolder LocalDomainView.zero ]} : gmap Z LocalDomainView.t).
    destruct (decide (id = 0)) as [->|]; [done|]. by rewrite lookup_total_singleton_ne. }
  split; [apply joined.ctx_joined|intros id; apply Hz|intros id _ Hpos; lia|intros g Hg; discriminate Hg].
Qed.

Lemma turn_backed_by_region_witness :
  exists n', @DomainManager.serveLock _ (libcme (P := orderPolicy) sample.env) 1 solo.env joined_node = Some (tt, n') /\
    LocalDomain.guard_ (Node.entry n' 1) = Some 1 /\ pinned 2 0 1 (Node.session n') /\
    LocalDomainView.pinCount (getDomain (World.local (Node.session n')) 1) = 1.
Proof.
  pose proof (turn_backed_by_region (P := orderPolicy) sample.env 2 0 (sample.own 0) (timing.Secs 1)
    joined.respects_world (fun d => eq_refl) ltac:(lia) sample.monotone_env sample.advances_env ltac:(by vm_compute)
    solo.env (fun _ => 0) 1 joined_node ltac:(intros; lia) ltac:(by vm_compute) ltac:(cbn; lia) joined_backed) as [H _].
  apply wp_elim in H as ([] & n' & Hrun & HQ).
  assert (LocalDomain.guard_ (Node.entry n' 1) = Some 1) as Hg.
  { assert (option_map (fun r => LocalDomain.guard_ (Node.entry (snd r) 1))
      (@DomainManager.serveLock _ (libcme (P := orderPolicy) sample.env) 1 solo.env joined_node) = Some (Some 1)) as Hv by (vm_compute; reflexivity).
    rewrite Hrun in Hv. by injection Hv. }
  exists n'. split; [exact Hrun|]. split; [exact Hg|]. split; [apply (backed_turn _ _ _ _ _ _ HQ 1 Hg)|].
  rewrite (backed_pins _ _ _ _ _ _ HQ). unfold heldFor. rewrite Hg. reflexivity.
Defined.
