(* ===== verification/Reconcile.v ===== *)
(** * Reconcile: the theorems on the daemon's table of names

    The area's slots, the daemon's index and the region's domains: what a claim
    publishes, what a refresh leaves, and what the two get wrong. *)

From S2P Require Import Prelude Effect Bitmap Types Layout Wire Area Manager Turn.
Import DomainManager.

(** A slot no requester uses. *)
Record idleSlot (s : Domain_t.t) : Prop := {
  idle_state : Domain_t.state s = Idle;
  idle_lock : Domain_t.lock s = Unlocked;
  idle_waiters : Domain_t.waiters s = 0;
}.

Definition allIdle (a : SharedArea_t.t) : Prop := forall d, idleSlot (SharedArea_t.slot a d).

(** The slot's state and name after a claim that had to write it, and after a
    retirement. *)
Definition claimedSlot (name : DomainName.t) (s : Domain_t.t) : Domain_t.t :=
  Domain_t.with_registryState Live (Domain_t.with_name name s).
Definition retiredSlot (s : Domain_t.t) : Domain_t.t :=
  Domain_t.with_name DomainName.clear (Domain_t.with_registryState Free s).

Lemma slot_onSlot d f a d' :
  SharedArea_t.slot (onSlot d f a) d' = if decide (d = d') then f (SharedArea_t.slot a d') else SharedArea_t.slot a d'.
Proof.
  unfold onSlot. case_decide as Hd; [subst; apply slot_setSlot_eq|by apply slot_setSlot_ne].
Qed.

Lemma allIdle_onSlot d f a :
  allIdle a -> idleSlot (f (SharedArea_t.slot a d)) -> allIdle (onSlot d f a).
Proof. intros Ha Hf d'. rewrite slot_onSlot. case_decide as Hd; [by subst|apply Ha]. Qed.

Section quiet_daemon.
Context {S : Type} `{HS : RegionSession S} (E : NodeEnv.t).
Hypothesis Hquiet : forall n a, NodeEnv.interf E n a = a.

(** The area and the index a node stands at, whatever its clocks, with its
    entries and its session as they are. *)
Context (own : gmap Z LocalDomain.t * S).
Definition stands (a : SharedArea_t.t) (i : IdLookup.t) (n : Node.t S) : Prop :=
  Node.shm n = a /\ Node.ids n = i /\ (Node.entries n, Node.session n) = own.

Lemma q_load {A} (f : SharedArea_t.t -> A) a i (Q : A -> Node.t S -> Prop) n :
  stands a i n -> (forall n', stands a i n' -> Q (f a) n') -> wp (load f) E Q n.
Proof.
  intros [Ha Hi] HQ. apply wp_load. change (area (interfere E n)) with (NodeEnv.interf E (Node.accesses n) (Node.shm n)).
  rewrite Hquiet, Ha. apply HQ. split; [|done]. cbn. by rewrite Hquiet.
Qed.

Lemma q_store f a i (Q : unit -> Node.t S -> Prop) n :
  stands a i n -> (forall n', stands (f a) i n' -> Q tt n') -> wp (store f) E Q n.
Proof.
  intros [Ha Hi] HQ. apply wp_store. apply HQ. split; [|done].
  change (f (NodeEnv.interf E (Node.accesses n) (Node.shm n)) = f a). by rewrite Hquiet, Ha.
Qed.

Lemma q_updateIds f a i (Q : unit -> Node.t S -> Prop) n :
  stands a i n -> (forall n', stands a (f i) n' -> Q tt n') -> wp (updateIds f) E Q n.
Proof. intros (Ha & Hi & Hr) HQ. node_step. apply HQ. split_and!; [done|by cbn; rewrite Hi|done]. Qed.

Lemma q_isExpectedState d st a i (Q : bool -> Node.t S -> Prop) n :
  stands a i n -> (forall n', stands a i n' -> Q (bool_decide (Domain_t.registryState (SharedArea_t.slot a d) = st)) n') ->
  wp (isExpectedState d st) E Q n.
Proof. intros Hn HQ. by eapply q_load. Qed.

Definition namedAt (a : SharedArea_t.t) (d : Z) (text : list Z) : bool :=
  bool_decide (Domain_t.registryState (SharedArea_t.slot a d) = Live) &&
  bool_decide (DomainName.read (Domain_t.name (SharedArea_t.slot a d)) = text).

Lemma q_isNamed d text a i (Q : bool -> Node.t S -> Prop) n :
  stands a i n -> (forall n', stands a i n' -> Q (namedAt a d text) n') -> wp (isNamed d text) E Q n.
Proof.
  intros Hn HQ. unfold isNamed, namedAt in *. node_step. eapply q_isExpectedState; [done|]. intros n1 Hn1.
  destruct (bool_decide (_ = Live)); cbn [negb andb] in *; [|by node_step; apply HQ].
  node_step. eapply q_load; [done|]. intros n2 Hn2. node_step. by apply HQ.
Qed.

(** On an idle slot the daemon gets the mutex. *)
Lemma q_tryLockIfIdle d a i (Q : bool -> Node.t S -> Prop) n :
  stands a i n -> idleSlot (SharedArea_t.slot a d) ->
  (forall n', stands (onSlot d (Domain_t.with_lock (LockedBy DaemonThread)) a) i n' -> Q true n') ->
  wp (tryLockIfIdle d) E Q n.
Proof.
  intros Hn [Hst Hlk Hw] HQ. unfold tryLockIfIdle, RobustLock_tryLock. do 3 node_step. apply wp_atomically.
  destruct Hn as [Ha Hi]. change (area (interfere E n)) with (NodeEnv.interf E (Node.accesses n) (Node.shm n)).
  rewrite Hquiet, Ha, Hlk. cbv beta iota. set (n1 := with_area _ _).
  set (a1 := onSlot d (Domain_t.with_lock (LockedBy DaemonThread)) a).
  assert (stands a1 i n1) as Hn1.
  { split; [|done]. unfold n1, a1. cbn [with_area NodeArea Node.with_shm Node.shm]. unfold onSlot. by rewrite Hlk. }
  node_step. apply wp_ret. node_step. eapply (q_load _ a1 i); [done|]. intros n2 Hn2.
  assert (SharedArea_t.slot a1 d = Domain_t.with_lock (LockedBy DaemonThread) (SharedArea_t.slot a d)) as Hs1.
  { unfold a1. by rewrite slot_onSlot, decide_True. }
  rewrite Hs1. cbn [Domain_t.state Domain_t.with_lock]. rewrite Hst, bool_decide_false by tauto. node_step.
  eapply (q_load _ a1 i); [done|]. intros n3 Hn3. rewrite Hs1. cbn [Domain_t.waiters Domain_t.with_lock]. rewrite Hw.
  change (0 <? 0) with false. cbv iota. node_step. by apply HQ.
Qed.

(** ** What a claim publishes *)

Definition claimedArea (name : DomainName.t) (d : Z) (a : SharedArea_t.t) : SharedArea_t.t :=
  if namedAt a d (DomainName.getText name) then a else onSlot d (claimedSlot name) a.

(** Slots in the table compare by what they hold. *)
Definition sameSlots (a b : SharedArea_t.t) : Prop := forall d, SharedArea_t.slot a d = SharedArea_t.slot b d.

Lemma claim_idle name h a i n :
  stands a i n -> 0 <= DomainHandle_t.id h < MaxDomains -> idleSlot (SharedArea_t.slot a (DomainHandle_t.id h)) ->
  wp (claim name h) E (fun answered n' => answered = Served /\
    exists a', stands a' (IdLookup.set name (DomainHandle_t.id h) i) n' /\ sameSlots a' (claimedArea name (DomainHandle_t.id h) a)) n.
Proof.
  intros Hn Hd Hidle. unfold claim, claimedArea. set (d := DomainHandle_t.id h) in *.
  rewrite (proj2 (Z.leb_gt MaxDomains d)) by lia. node_step. eapply q_isNamed; [done|]. intros n1 Hn1.
  destruct (namedAt a d (DomainName.getText name)).
  { node_step. eapply q_updateIds; [done|]. intros n2 Hn2. node_step. split; [done|]. by exists a. }
  node_step. eapply q_isExpectedState; [done|]. intros n2 Hn2.
  set (a1 := if bool_decide (Domain_t.registryState (SharedArea_t.slot a d) = Live) then onSlot d (Domain_t.with_registryState Broken) a else a).
  node_step.
  apply (wp_mono E _ (fun _ n3 => stands a1 i n3)).
  { unfold a1. case_bool_decide; cbn [when]; [|by node_step]. eapply q_store; [done|]. done. }
  intros ? n3 Hn3. node_step. eapply q_isExpectedState; [done|]. intros n4 Hn4. node_step.
  assert (idleSlot (SharedArea_t.slot a1 d)) as Hidle1.
  { unfold a1. case_bool_decide; [|done]. rewrite slot_onSlot, decide_True by done. by destruct Hidle. }
  assert (exists a2, sameSlots (onSlot d (claimedSlot name) a2) (onSlot d (claimedSlot name) a) /\
    forall Q : bool -> Node.t S -> Prop, (forall n5, stands a2 i n5 -> Q true n5) ->
      wp (if bool_decide (Domain_t.registryState (SharedArea_t.slot a1 d) = Broken) then
           let! held := tryLockIfIdle d in
           if held then markState d Free ;;; RobustLock_unlock d ;;; ret true else ret false
         else ret true) E Q n4) as (a2 & Ha2 & Hwp).
  { assert (forall b, sameSlots (onSlot d (claimedSlot name) (onSlot d (Domain_t.with_registryState b) a)) (onSlot d (claimedSlot name) a)) as Hb.
    { intros b d'. rewrite !slot_onSlot. repeat case_decide; done. }
    case_bool_decide as Hbr.
    - exists (onSlot d (Domain_t.with_lock Unlocked) (onSlot d (Domain_t.with_registryState Free) (onSlot d (Domain_t.with_lock (LockedBy DaemonThread)) a1))).
      split.
      + intros d'. rewrite !slot_onSlot. repeat case_decide; try done; unfold a1; case_bool_decide; rewrite ?slot_onSlot;
          repeat case_decide; try done; subst d'; destruct Hidle as [_ Hlk _]; destruct (SharedArea_t.slot a d); cbn in *; by subst.
      + intros Q HQ. node_step. eapply q_tryLockIfIdle; [done|done|]. intros n5 Hn5. node_step. eapply q_store; [done|].
        intros n6 Hn6. node_step. eapply q_store; [done|]. intros n7 Hn7. node_step. by apply HQ.
    - exists a1. split; [unfold a1; case_bool_decide; [apply Hb|done]|]. intros Q HQ. node_step. by apply HQ. }
  apply Hwp. intros n5 Hn5. cbn [negb]. node_step. eapply q_store; [done|]. intros n6 Hn6. node_step. eapply q_store; [done|].
  intros n7 Hn7. node_step. eapply q_updateIds; [done|]. intros n8 Hn8. node_step. split; [done|].
  eexists. split; [exact Hn8|]. intros d'. rewrite <-Ha2, !slot_onSlot. repeat case_decide; done.
Qed.

(** ** What a refresh leaves *)

Definition idOf (e : list Z * handle) : Z := DomainHandle_t.id e.2.

Definition soundAt (a : SharedArea_t.t) (e : list Z * handle) : bool :=
  namedAt a (idOf e) e.1 || bool_decide (Domain_t.registryState (SharedArea_t.slot a (idOf e)) = Broken).

Lemma confirmed_quiet living a i n :
  stands a i n ->
  wp (confirmed living) E (fun sound n' => stands a i n' /\
    forall d, d ∈ sound <-> exists e, e ∈ living /\ idOf e = d /\ idOf e < MaxDomains /\ soundAt a e = true) n.
Proof.
  intros Hn. unfold confirmed. set (P := fun (l : list (list Z * handle)) (sound : gset Z) => forall d, d ∈ sound <->
    exists e, e ∈ l /\ idOf e = d /\ idOf e < MaxDomains /\ soundAt a e = true).
  assert (forall done_ acc n, P done_ acc -> stands a i n ->
    wp (foldM living acc confirmOne) E (fun sound n' => stands a i n' /\ P (done_ ++ living) sound) n) as Hgen.
  { clear n Hn. induction living as [|e rest IH]; intros done_ acc n Hacc Hn; cbn [foldM].
    - node_step. by rewrite app_nil_r.
    - node_step. unfold confirmOne at 1. fold (idOf e).
      assert (forall acc' n', stands a i n' -> P (done_ ++ [e]) acc' -> wp (foldM rest acc' confirmOne) E
        (fun sound n' => stands a i n' /\ P (done_ ++ e :: rest) sound) n') as Hnext.
      { intros acc' n' Hn' Hacc'. specialize (IH (done_ ++ [e]) acc' n' Hacc' Hn'). by rewrite <-app_assoc in IH. }
      case_if; zbool.
      + node_step. apply Hnext; [done|]. intros d. rewrite (Hacc d). setoid_rewrite elem_of_app. setoid_rewrite list_elem_of_singleton.
        split; [intros (e' & ? & ?); exists e'; tauto|]. intros (e' & [?| ->] & ? & ? & ?); [eauto|lia].
      + node_step. eapply q_isNamed; [done|]. intros n1 Hn1. node_step.
        apply (wp_mono E _ (fun sound n2 => sound = soundAt a e /\ stands a i n2)).
        { unfold soundAt. destruct (namedAt a (idOf e) e.1); [by node_step|]. by eapply q_isExpectedState. }
        intros ? n2 [-> Hn2]. node_step. apply Hnext; [done|]. intros d. destruct (soundAt a e) eqn:Hs.
        * rewrite elem_of_union, elem_of_singleton, (Hacc d). setoid_rewrite elem_of_app. setoid_rewrite list_elem_of_singleton.
          split; [intros [->|(e' & ? & ?)]; [by exists e; auto|exists e'; tauto]|].
          intros (e' & [?| ->] & ? & ? & ?); [right; eauto|by left].
        * rewrite (Hacc d). setoid_rewrite elem_of_app. setoid_rewrite list_elem_of_singleton.
          split; [intros (e' & ? & ?); exists e'; tauto|]. intros (e' & [?| ->] & ? & ? & ?); [eauto|congruence]. }
  apply (Hgen [] ∅ n); [|done]. intros d. split; [set_solver|]. intros (e & He & _). by apply not_elem_of_nil in He.
Qed.

Definition takenAt (a : SharedArea_t.t) (d : Z) : bool :=
  bool_decide (Domain_t.registryState (SharedArea_t.slot a d) = Live) ||
  bool_decide (Domain_t.registryState (SharedArea_t.slot a d) = Broken).

Definition retiredArea (sound : gset Z) (a : SharedArea_t.t) (d : Z) : Domain_t.t :=
  if takenAt a d && negb (bool_decide (d ∈ sound)) then retiredSlot (SharedArea_t.slot a d) else SharedArea_t.slot a d.

Lemma retireStale_idle sound d a i n :
  stands a i n -> idleSlot (SharedArea_t.slot a d) ->
  wp (retireStale sound d) E (fun _ n' => exists a' i', stands a' i' n' /\
    SharedArea_t.slot a' d = retiredArea sound a d /\ forall d', d' <> d -> SharedArea_t.slot a' d' = SharedArea_t.slot a d') n.
Proof.
  intros Hn Hidle. unfold retireStale, retiredArea, takenAt. node_step. eapply q_isExpectedState; [done|]. intros n1 Hn1. node_step.
  apply (wp_mono E _ (fun taken n2 => taken = takenAt a d /\ stands a i n2)).
  { unfold takenAt. destruct (bool_decide (_ = Live)); [by node_step|]. by eapply q_isExpectedState. }
  unfold takenAt. intros ? n2 [-> Hn2]. destruct (bool_decide (_ = Live) || _); cbn [negb orb andb]; [|by node_step; eauto].
  destruct (bool_decide (d ∈ sound)); cbn [negb]; [by node_step; eauto|].
  node_step. eapply q_tryLockIfIdle; [done|done|]. intros n3 Hn3. cbn [negb]. node_step. eapply q_load; [done|]. intros n4 Hn4.
  node_step. eapply q_store; [done|]. intros n5 Hn5. node_step. eapply q_store; [done|]. intros n6 Hn6. node_step.
  set (a6 := onSlot d _ _) in Hn6.
  apply (wp_mono E _ (fun _ n7 => exists i', stands a6 i' n7)).
  { destruct (DomainName.make _); [eapply q_updateIds; [done|]; eauto|by node_step; eauto]. }
  intros ? n7 [i' Hn7]. eapply q_store; [done|]. intros n8 Hn8. eexists _, i'. split; [exact Hn8|]. unfold a6.
  split; [|intros d' Hd'; rewrite !slot_onSlot; repeat case_decide; congruence].
  rewrite !slot_onSlot. rewrite !decide_True by done. destruct Hidle as [_ Hlk _].
  destruct (SharedArea_t.slot a d). cbn in *. by subst.
Qed.

Lemma idle_retiredArea sound a d : idleSlot (SharedArea_t.slot a d) -> idleSlot (retiredArea sound a d).
Proof. unfold retiredArea. case_if; [|done]. intros [? ? ?]. by split. Qed.

Lemma retire_all sound k a i n :
  stands a i n -> allIdle a -> 0 <= k ->
  wp (forM (zrange k MaxDomains) (retireStale sound)) E (fun _ n' => exists a' i', stands a' i' n' /\
    forall d, SharedArea_t.slot a' d = if (k <=? d) && (d <? MaxDomains) then retiredArea sound a d else SharedArea_t.slot a d) n.
Proof.
  remember (Z.to_nat (MaxDomains - k)) as m eqn:Hm. revert k a i n Hm. induction m as [|m IH]; intros k a i n Hm Hn Ha Hk.
  - rewrite zrange_nil by lia. apply wp_ret. exists a, i. split; [done|]. intros d.
    destruct (Z.leb_spec k d), (Z.ltb_spec d MaxDomains); try done. lia.
  - rewrite zrange_cons by lia. cbn [forM]. node_step. eapply wp_mono; [apply (retireStale_idle sound k a i); [done|apply Ha]|].
    intros ? n1 (a1 & i1 & Hn1 & Hk1 & Hne1).
    assert (forall d, d <> k -> retiredArea sound a1 d = retiredArea sound a d) as Hret.
    { intros d Hd. unfold retiredArea, takenAt. by rewrite (Hne1 d Hd). }
    eapply wp_mono; [apply (IH (k + 1) a1 i1); [lia|done| |lia]|].
    { intros d. destruct (decide (d = k)) as [->|Hd]; [rewrite Hk1; apply idle_retiredArea, Ha|rewrite Hne1 by done; apply Ha]. }
    intros ? n2 (a2 & i2 & Hn2 & H2). exists a2, i2. split; [done|]. intros d. rewrite H2.
    destruct (decide (d = k)) as [->|Hd].
    + rewrite (proj2 (Z.leb_gt (k + 1) k)), (proj2 (Z.leb_le k k)), (proj2 (Z.ltb_lt k MaxDomains)) by lia. cbn [andb]. done.
    + assert ((k + 1 <=? d) = (k <=? d)) as -> by (destruct (Z.leb_spec (k + 1) d), (Z.leb_spec k d); lia).
      rewrite (Hret d Hd), (Hne1 d Hd). done.
Qed.

Definition goodName (name : list Z) : Prop :=
  DomainName.make name <> None /\ Forall (fun b => b <> 0) name.

Lemma getText_pad name : goodName name -> DomainName.getText (DomainName.pad name) = name.
Proof.
  intros [Hm Hz]. unfold DomainName.make in Hm. destruct (_ || _) eqn:Hb; [done|].
  apply orb_false_iff in Hb as [_ Hl]. zbool. unfold DomainName.getText, DomainName.read, DomainName.pad.
  unfold DomainName.FieldWidth, MaxDomainNameLen in *.
  destruct (Z.to_nat 16 - length name)%nat as [|k] eqn:Hk; [lia|]. by apply DomainRecord_t.until_nul_app.
Qed.

Lemma make_good name : goodName name -> DomainName.make name = Some (DomainName.pad name).
Proof. intros [Hm _]. unfold DomainName.make in *. by destruct (_ || _). Qed.

(** What libcme answers: every live domain at a slot of its own, under a name of
    its own that its record can carry. *)
Record goodEntries (living : list (list Z * handle)) : Prop := {
  entries_ids : NoDup (idOf <$> living);
  entries_names : NoDup living.*1;
  entries_range : Forall (fun e => 0 <= idOf e < MaxDomains) living;
  entries_good : Forall (fun e => goodName e.1) living;
}.

(** Published at its slot and in the index. *)
Definition published (a : SharedArea_t.t) (i : IdLookup.t) (e : list Z * handle) : Prop :=
  namedAt a (idOf e) e.1 = true /\ IdLookup.find (DomainName.pad e.1) i = Some (idOf e).

Lemma namedAt_same a b d text : SharedArea_t.slot a d = SharedArea_t.slot b d -> namedAt a d text = namedAt b d text.
Proof. unfold namedAt. by intros ->. Qed.

Lemma claimed_published e a i a' :
  goodName e.1 -> sameSlots a' (claimedArea (DomainName.pad e.1) (idOf e) a) ->
  published a' (IdLookup.set (DomainName.pad e.1) (idOf e) i) e.
Proof.
  intros Hg Hs. split; [|apply lookup_insert_eq]. rewrite (namedAt_same a' _ _ _ (Hs (idOf e))). unfold claimedArea.
  rewrite getText_pad by done. destruct (namedAt a (idOf e) e.1) eqn:Hn; [done|]. unfold namedAt. rewrite slot_onSlot, decide_True by done.
  apply andb_true_intro. split; apply bool_decide_eq_true; [done|]. by apply getText_pad.
Qed.

Lemma claimed_idle name d a a' : allIdle a -> sameSlots a' (claimedArea name d a) -> allIdle a'.
Proof.
  intros Ha Hs d'. rewrite (Hs d'). unfold claimedArea. case_if; [apply Ha|]. apply allIdle_onSlot; [done|].
  destruct (Ha d). by split.
Qed.

Lemma claimed_elsewhere name d a a' d' :
  d' <> d -> sameSlots a' (claimedArea name d a) -> SharedArea_t.slot a' d' = SharedArea_t.slot a d'.
Proof. intros Hd Hs. rewrite (Hs d'). unfold claimedArea. case_if; [done|]. by rewrite slot_onSlot, decide_False by congruence. Qed.

Lemma claimAll_idle a0 done_ living a i n :
  goodEntries (done_ ++ living) -> stands a i n -> allIdle a -> Forall (published a i) done_ ->
  (forall d, d ∉ idOf <$> done_ -> SharedArea_t.slot a d = SharedArea_t.slot a0 d) ->
  wp (claimAll living) E (fun _ n' => exists a' i', stands a' i' n' /\ allIdle a' /\ Forall (published a' i') (done_ ++ living) /\
    forall d, d ∉ idOf <$> (done_ ++ living) -> SharedArea_t.slot a' d = SharedArea_t.slot a0 d) n.
Proof.
  revert done_ a i n. induction living as [|e rest IH]; intros done_ a i n Hg Hn Ha Hd Hk.
  { rewrite app_nil_r in *. apply wp_ret. by exists a, i. }
  pose proof Hg as [Hids Hnames Hrange Hgood]. rewrite Forall_app, Forall_cons in Hrange, Hgood.
  destruct Hrange as (_ & Hr & _), Hgood as (_ & Hge & _).
  unfold claimAll. cbn [forM]. node_step. rewrite make_good by done. node_step.
  eapply wp_mono; [apply (claim_idle (DomainName.pad e.1) e.2 a i); [done|exact Hr|apply Ha]|].
  intros ? n1 (-> & a1 & Hn1 & Hs1). node_step. fold (idOf e) in *.
  replace (done_ ++ e :: rest) with ((done_ ++ [e]) ++ rest) in * by by rewrite <-app_assoc.
  apply (IH (done_ ++ [e]) a1 _ n1 Hg Hn1).
  - by eapply claimed_idle.
  - rewrite Forall_app, Forall_singleton. split; [|by eapply claimed_published].
    rewrite <-app_assoc in Hids, Hnames. rewrite fmap_app in Hids. rewrite fmap_app in Hnames. apply NoDup_app in Hids as (_ & Hids & _), Hnames as (_ & Hnames & _).
    rewrite Forall_forall in Hd |- *. intros e' He'. destruct (Hd e' He') as [H1 H2].
    assert (idOf e' <> idOf e) as Hne.
    { intros Heq. apply (Hids (idOf e')); [by apply list_elem_of_fmap_2|]. rewrite Heq. left. }
    assert (e'.1 <> e.1) as Hne'.
    { intros Heq. apply (Hnames e'.1); [by apply list_elem_of_fmap_2|]. rewrite Heq. left. }
    split.
    + rewrite <-H1. apply namedAt_same. by eapply claimed_elsewhere.
    + etransitivity; [apply lookup_insert_ne|exact H2]. intros Heq. apply Hne'.
      rewrite <-(getText_pad e'.1), <-(getText_pad e.1) by (done || (destruct Hg as [_ _ _ Hgd]; rewrite !Forall_app in Hgd;
        destruct Hgd as [[Hgd _] _]; rewrite Forall_forall in Hgd; by apply Hgd)). by rewrite Heq.
  - intros d Hd'. rewrite fmap_app, not_elem_of_app in Hd'. destruct Hd' as [Hd1 Hd2].
    rewrite <-(Hk d Hd1). eapply claimed_elsewhere; [|done]. intros ->. apply Hd2. left.
Qed.

End quiet_daemon.

Section refreshing.
Context {S : Type} `{HS : RegionSession S} (E : NodeEnv.t).
Hypothesis Hquiet : forall n a, NodeEnv.interf E n a = a.

(** C30: a refresh reconciles the table with the region.  With no requester using
    a slot, a due refresh leaves every domain the region lists live at the slot
    of its own id, under its own name and found in the index there, whatever the
    slot held before; every other slot is free.  A refresh that is not due, or a
    region that does not answer, leaves the table as it was. *)
Theorem refresh_reconciles n :
  allIdle (Node.shm n) ->
  let due := timing.Deadline.expiredAt (Node.refreshDue n) (NodeEnv.clock E (Node.clockReads n)) in
  (due = true -> session_getDomainEntries (Node.session n) <> None) ->
  (forall living s, session_getDomainEntries (Node.session n) = Some (inl living, s) -> goodEntries living) ->
  wp refresh E (fun _ n' =>
    match due, session_getDomainEntries (Node.session n) with
    | true, Some (inl living, _) =>
        Forall (published (Node.shm n') (Node.ids n')) living /\
        forall d, 0 <= d < MaxDomains -> d ∉ idOf <$> living ->
          Domain_t.registryState (SharedArea_t.slot (Node.shm n') d) = Free
    | _, _ => Node.shm n' = Node.shm n /\ Node.ids n' = Node.ids n
    end) n.
Proof.
  intros Ha due Hret Hgood. unfold refresh. apply wp_bind. unfold wp at 1. do 2 node_step.
  change (timing.Deadline.expiredAt _ _) with due. destruct due; cbn [negb]; [|by node_step].
  do 5 node_step. unfold wp at 1. node_step. unfold onSession, wp at 1. cbn [Node.session Node.with_refreshDue tickClock NodeArea Node.with_clockReads].
  destruct (session_getDomainEntries (Node.session n)) as [[[living|err] s]|]; [|by apply wp_ret|by apply Hret].
  specialize (Hgood living s eq_refl). set (n1 := Node.with_session s _).
  assert (stands (Node.entries n, s) (Node.shm n) (Node.ids n) n1) as Hn1 by done. clearbody n1.
  node_step. eapply wp_mono; [by eapply confirmed_quiet|]. intros sound n2 [Hn2 Hsound]. node_step.
  eapply wp_mono; [eapply (retire_all E Hquiet _ sound 0); [exact Hn2|done|lia]|]. intros ? n3 (a3 & i3 & Hn3 & H3).
  assert (allIdle a3) as Ha3 by (intros d; rewrite H3; case_if; [apply idle_retiredArea|]; apply Ha).
  eapply wp_mono; [apply (claimAll_idle E Hquiet _ a3 [] living a3 i3 _ Hgood Hn3 Ha3); [by constructor|done]|].
  intros ? n4 (a4 & i4 & (<- & <- & _) & _ & Hpub & Hrest). split; [exact Hpub|]. intros d Hd Hnot. rewrite Hrest by done. rewrite H3.
  rewrite (proj2 (Z.leb_le 0 d)), (proj2 (Z.ltb_lt d MaxDomains)) by lia. cbn [andb]. unfold retiredArea.
  rewrite (bool_decide_false (d ∈ sound)).
  2: { rewrite Hsound. intros (e & He & <- & _). apply Hnot. by apply list_elem_of_fmap_2. }
  unfold takenAt. destruct (Domain_t.registryState (SharedArea_t.slot (Node.shm n) d)) eqn:Hst; cbn; done.
Qed.
End refreshing.

(** ** A name whose slot went to another domain *)

Section stale_names.
Context {S : Type} `{HS : RegionSession S} (E : NodeEnv.t).
Hypothesis Hquiet : forall n a, NodeEnv.interf E n a = a.

(** [create] once the region has taken the name. *)
Lemma create_idle name h n s :
  allIdle (Node.shm n) -> 0 <= DomainHandle_t.id h < MaxDomains ->
  session_createDomain (DomainName.getText name) (Node.session n) = Some (inl h, s) ->
  wp (create name) E (fun answered n' => answered = Served /\
    exists a', stands (<[DomainHandle_t.id h := LocalDomain.addJoin (Node.entry n (DomainHandle_t.id h))]> (Node.entries n), s)
        a' (IdLookup.set name (DomainHandle_t.id h) (Node.ids n)) n' /\
      sameSlots a' (claimedArea name (DomainHandle_t.id h) (Node.shm n))) n.
Proof.
  intros Ha Hd Hc. unfold create. node_step. unfold onSession at 1, wp at 1. rewrite Hc. node_step.
  eapply wp_mono; [apply (claim_idle E Hquiet (Node.entries n, s) name h (Node.shm n) (Node.ids n)); [done|done|apply Ha]|].
  intros ? n1 (-> & a1 & (H1 & H2 & H3) & Hs1). injection H3 as H3 H4. do 3 node_step. split; [done|]. exists a1.
  split; [|done]. split_and!; [done|done|]. cbn. unfold Node.entry. by rewrite H3, H4.
Qed.

(** [remove] of a name the region no longer has, on an idle slot without a turn. *)
Lemma remove_gone name d n s a i l sess :
  stands (l, sess) a i n -> IdLookup.find name i = Some d -> idleSlot (SharedArea_t.slot a d) ->
  LocalDomain.keepsParticipation (l !!! d) = true -> LocalDomain.guard_ (l !!! d) = None ->
  session_deleteDomain (DomainName.getText name) sess = Some (inr UnknownDomainError, s) ->
  wp (remove name) E (fun answered n' => answered = Served /\
    Domain_t.registryState (SharedArea_t.slot (Node.shm n') d) = Free /\
    DomainName.read (Domain_t.name (SharedArea_t.slot (Node.shm n') d)) = [] /\
    LocalDomain.joined_ (Node.entry n' d) = 0 /\ Node.ids n' = IdLookup.clear name d i) n.
Proof.
  intros Hn Hid Hidle Hk Hg Hdelete. unfold remove. do 2 node_step. pose proof Hn as (Ha & Hi & Ho). injection Ho as He Hss.
  rewrite Hi, Hid. do 2 node_step. unfold Node.entry. rewrite He, Hk.
  cbn [negb]. node_step. eapply (q_store E Hquiet); [exact Hn|]. intros n2 Hn2. node_step. unfold awaitIdle.
  do 6 node_step. cbn [awaitIdle_turns]. node_step. set (a2 := onSlot d _ a) in Hn2.
  assert (idleSlot (SharedArea_t.slot a2 d)) as Hid2.
  { unfold a2. rewrite slot_onSlot, decide_True by done. destruct Hidle. by split. }
  eapply (q_tryLockIfIdle E Hquiet _ _ a2); [exact Hn2|done|]. intros n3 Hn3. node_step. cbn [negb]. node_step.
  unfold releaseTurn. do 2 node_step. destruct Hn3 as (Ha3 & Hi3 & Ho3). injection Ho3 as He3 Hss3.
  unfold Node.entry. rewrite He3, Hg. do 2 node_step.
  eapply (q_store E Hquiet (Node.entries n3, Node.session n3) _ (Node.shm n3) (Node.ids n3)); [by split_and!|]. intros n4 (Ha4 & Hi4 & Ho4).
  injection Ho4 as He4 Hss4. node_step. unfold onSession at 1, wp at 1. rewrite Hss4, Hss3, Hdelete.
  do 2 node_step. unfold retire. node_step.
  eapply (q_store E Hquiet (Node.entries n4, s) _ (Node.shm n4) (Node.ids n4)); [by split_and!|]. intros n5 Hn5. node_step.
  eapply (q_updateIds E (Node.entries n4, s)); [exact Hn5|]. intros n6 (Ha6 & Hi6 & Ho6). do 3 node_step.
  eapply (q_store E Hquiet (Node.entries (Node.setEntry d (LocalDomain.clearJoins (Node.entry n6 d)) n6), Node.session n6) _
    (Node.shm n6) (Node.ids n6)); [by split_and!|].
  intros n7 (Ha7 & Hi7 & Ho7). injection Ho7 as He7 Hss7. node_step.
  assert (Node.shm n7 = onSlot d (Domain_t.with_lock Unlocked) (onSlot d (Domain_t.with_name DomainName.clear)
    (onSlot d (Domain_t.with_expiresAtNanos 0) (onSlot d (Domain_t.with_lock (LockedBy DaemonThread)) a2)))) as ->
    by by rewrite Ha7, Ha6, Ha4, Ha3.
  unfold a2. rewrite !slot_onSlot, !decide_True by done. split_and!; [done..| |by rewrite Hi7, Hi6, Hi4, Hi3].
  unfold Node.entry. rewrite He7. unfold Node.setEntry. cbn. by rewrite lookup_total_insert_eq.
Qed.

(** A name whose slot another domain took deletes that domain's entry.  Slot
    [d] serves [old]; the region gives the slot to [new], which a local requester
    creates.  The index keeps [old] at [d], so deleting [old], which the region no
    longer knows, is answered as served and takes down the slot, the name and the
    join count of [new], which stays in the region and in the index. *)
Theorem stale_name_deletes_another old new h n s1 s2 :
  let d := DomainHandle_t.id h in
  allIdle (Node.shm n) -> 0 <= d < MaxDomains -> goodName old -> goodName new -> old <> new ->
  namedAt (Node.shm n) d old = true -> IdLookup.find (DomainName.pad old) (Node.ids n) = Some d ->
  LocalDomain.guard_ (Node.entry n d) = None -> 0 <= LocalDomain.joined_ (Node.entry n d) < 2 ^ 32 - 1 ->
  session_createDomain new (Node.session n) = Some (inl h, s1) ->
  session_deleteDomain old s1 = Some (inr UnknownDomainError, s2) ->
  wp (let! _ := create (DomainName.pad new) in remove (DomainName.pad old)) E (fun answered n' =>
    answered = Served /\
    Domain_t.registryState (SharedArea_t.slot (Node.shm n') d) = Free /\
    DomainName.read (Domain_t.name (SharedArea_t.slot (Node.shm n') d)) = [] /\
    LocalDomain.joined_ (Node.entry n' d) = 0 /\
    IdLookup.find (DomainName.pad new) (Node.ids n') = Some d) n.
Proof.
  intros d Ha Hd Hold Hnew Hne Hnamed Hid Hg Hj Hcreate Hdelete. node_step.
  assert (DomainName.pad old <> DomainName.pad new) as Hpad.
  { intros Heq. apply Hne. rewrite <-(getText_pad old Hold), <-(getText_pad new Hnew). by rewrite Heq. }
  assert (forall v, IdLookup.set (DomainName.pad new) v (Node.ids n) !! DomainName.pad old = Some d) as Hstale.
  { intros v. etransitivity; [apply lookup_insert_ne; congruence|exact Hid]. }
  eapply wp_mono; [apply (create_idle (DomainName.pad new) h n s1); [done|done|by rewrite getText_pad]|].
  intros ? n1 (-> & a1 & Hn1 & Hs1). fold d in Hn1, Hs1. pose proof (claimed_idle _ _ _ _ Ha Hs1) as Ha1.
  eapply wp_mono; [apply (remove_gone (DomainName.pad old) d n1 s2 a1 _ _ _ Hn1 (Hstale d) (Ha1 d)); rewrite ?lookup_total_insert_eq|].
  - unfold LocalDomain.keepsParticipation. cbn. rewrite u32_small by (unfold in_u32; lia). by rewrite (proj2 (Z.ltb_lt _ _)) by lia.
  - exact Hg.
  - by rewrite getText_pad.
  - intros ? n2 (-> & H1 & H2 & H3 & Hi). split_and!; [done..|]. rewrite Hi. unfold IdLookup.find, IdLookup.clear.
    rewrite Hstale, Z.eqb_refl. etransitivity; [apply lookup_delete_ne; congruence|]. apply lookup_insert_eq.
Qed.
End stale_names.

(** ** Joins counted twice *)

(** A repeated create is never given back.  The node counts a join per
    answered create or join, while a session and its connection's ledger keep a
    set of names: a requester that creates a domain the region already has joins
    it again, and the one leave its set still owes leaves the count at one, so
    this node stays in the domain with nobody of it asking. *)
Theorem repeated_create_leaks_join {S} `{RegionSession S} (E : NodeEnv.t) name h n s1 s2 :
  let d := DomainHandle_t.id h in
  (forall k a, NodeEnv.interf E k a = a) -> allIdle (Node.shm n) -> 0 <= d < MaxDomains -> goodName name ->
  LocalDomain.joined_ (Node.entry n d) = 0 ->
  session_createDomain name (Node.session n) = Some (inl h, s1) ->
  session_createDomain name s1 = Some (inr DomainExistsError, s2) -> session_joinDomain name s2 = Some (inl h, s2) ->
  wp (let! first := create (DomainName.pad name) in
      let! second := create (DomainName.pad name) in
      let! left_ := leave (DomainName.pad name) in ret (first, second, left_)) E (fun answered n' =>
    answered = (Served, Served, Served) /\
    LocalDomain.joined_ (Node.entry n' d) = 1 /\ LocalDomain.keepsParticipation (Node.entry n' d) = true /\
    Node.session n' = s2) n.
Proof.
  intros d Hq Ha Hd Hg Hj Hc1 Hc2 Hjoin. node_step.
  eapply wp_mono; [apply (create_idle E Hq (DomainName.pad name) h n s1); [done|done|by rewrite getText_pad]|].
  intros ? n1 (-> & a1 & (Hs1 & Hi1 & Ho1) & Hsl1). injection Ho1 as He1 Hss1. fold d in Hs1, Hi1, He1, Hsl1.
  pose proof (claimed_idle _ _ _ _ Ha Hsl1) as Ha1. node_step. unfold create. node_step.
  unfold onSession at 1, wp at 1. rewrite Hss1, getText_pad, Hc2 by done. node_step. unfold onSession at 1, wp at 1.
  cbn [Node.session Node.with_session]. rewrite Hjoin. node_step.
  eapply wp_mono; [apply (claim_idle E Hq (Node.entries n1, s2) (DomainName.pad name) h a1 (Node.ids n1)); [by split_and!|done|apply Ha1]|].
  intros ? n2 (-> & a2 & (Hs2 & Hi2 & Ho2) & _). injection Ho2 as He2 Hss2. fold d in Hi2. do 3 node_step.
  set (n3 := Node.setEntry _ _ n2). node_step. unfold leave. do 2 node_step.
  assert (IdLookup.find (DomainName.pad name) (Node.ids n3) = Some d) as ->.
  { change (Node.ids n3) with (Node.ids n2). rewrite Hi2. apply lookup_insert_eq. }
  assert (LocalDomain.joined_ (Node.entry n3 d) = 2) as Hj3.
  { unfold n3, Node.entry, Node.setEntry. cbn. fold d. rewrite lookup_total_insert_eq. cbn. rewrite He2, He1, lookup_total_insert_eq.
    cbn. by rewrite Hj. }
  do 4 node_step. assert (LocalDomain.dropJoin (Node.entry n3 d) = (true, LocalDomain.with_joined_ 1 (Node.entry n3 d))) as ->.
  { unfold LocalDomain.dropJoin. by rewrite Hj3. }
  cbn [fst snd negb]. do 2 node_step. set (n4 := Node.setEntry _ _ n3).
  assert (Node.entry n4 d = LocalDomain.with_joined_ 1 (Node.entry n3 d)) as Hn4 by apply lookup_total_insert_eq.
  assert (LocalDomain.keepsParticipation (Node.entry n4 d) = true) as Hk by by rewrite Hn4.
  rewrite Hk. cbn [negb when]. do 4 node_step. split_and!; [done|by rewrite Hn4|done|exact Hss2].
Qed.

(** ** Examples *)

Definition run_ : list Z := [114; 117; 110].

Lemma sample_idle : allIdle (Node.shm (solo.node Idle)).
Proof.
  intros d. destruct (decide (1 = d)) as [<-|Hd]; [by split|]. unfold solo.node, solo.area. cbn [Node.shm].
  rewrite slot_setSlot_ne by done. by split.
Qed.

Lemma sample_good name : name = solo.job \/ name = run_ -> goodName name.
Proof. intros [->| ->]; (split; [vm_compute; congruence|repeat constructor; lia]). Qed.

Lemma refresh_reconciles_witness :
  exists n', refresh solo.env (solo.node Idle) = Some (tt, n') /\
    Forall (published (Node.shm n') (Node.ids n')) [(solo.job, DomainHandle_t.mk 1 1)].
Proof.
  assert (session_getDomainEntries (Node.session (solo.node Idle)) = Some (inl [(solo.job, DomainHandle_t.mk 1 1)], Node.session (solo.node Idle))) as He
    by (vm_compute; reflexivity).
  assert (goodEntries [(solo.job, DomainHandle_t.mk 1 1)]) as Hgood.
  { split.
    - apply (NoDup_singleton 1).
    - apply (NoDup_singleton solo.job).
    - apply Forall_singleton. unfold idOf, MaxDomains. cbn. lia.
    - apply Forall_singleton. apply sample_good. by left. }
  pose proof (refresh_reconciles solo.env ltac:(done) (solo.node Idle) sample_idle) as H. cbv zeta in H. rewrite He in H.
  specialize (H ltac:(done) ltac:(intros living s [= <- <-]; exact Hgood)).
  apply wp_elim in H as ([] & n' & Hrun & Hp & _). exists n'. split; [exact Hrun|exact Hp].
Defined.

(** Slot 1 served job; the region's slot 1 goes to a domain created as run. *)
Definition sample_replaced : Node.t solo.t :=
  Node.with_session (solo.mk ∅ 1) (solo.node Idle).

Lemma stale_name_deletes_another_witness :
  exists n', (let! _ := create (DomainName.pad run_) in remove (DomainName.pad solo.job)) solo.env sample_replaced = Some (Served, n') /\
    Domain_t.registryState (SharedArea_t.slot (Node.shm n') 1) = Free.
Proof.
  pose proof (stale_name_deletes_another solo.env ltac:(done) solo.job run_ (DomainHandle_t.mk 1 1) sample_replaced
    (solo.mk {[ run_ := DomainHandle_t.mk 1 1 ]} 2) (solo.mk {[ run_ := DomainHandle_t.mk 1 1 ]} 2)
    sample_idle ltac:(cbn; unfold MaxDomains; lia) (sample_good _ (or_introl eq_refl)) (sample_good _ (or_intror eq_refl)) ltac:(discriminate)
    ltac:(vm_compute; reflexivity) ltac:(vm_compute; reflexivity) ltac:(vm_compute; reflexivity) ltac:(split; vm_compute; congruence)
    ltac:(vm_compute; reflexivity) ltac:(vm_compute; reflexivity)) as H.
  apply wp_elim in H as (? & n' & Hrun & -> & Hf & _). exists n'. split; [exact Hrun|exact Hf].
Defined.

Lemma repeated_create_leaks_join_witness :
  exists n', (let! first := create (DomainName.pad run_) in let! second := create (DomainName.pad run_) in
      let! left_ := leave (DomainName.pad run_) in ret (first, second, left_)) solo.env sample_replaced
      = Some ((Served, Served, Served), n') /\ LocalDomain.keepsParticipation (Node.entry n' 1) = true.
Proof.
  pose proof (repeated_create_leaks_join solo.env run_ (DomainHandle_t.mk 1 1) sample_replaced
    (solo.mk {[ run_ := DomainHandle_t.mk 1 1 ]} 2) (solo.mk {[ run_ := DomainHandle_t.mk 1 1 ]} 2)
    ltac:(done) sample_idle ltac:(cbn; unfold MaxDomains; lia) (sample_good _ (or_intror eq_refl))
    ltac:(vm_compute; reflexivity) ltac:(vm_compute; reflexivity) ltac:(vm_compute; reflexivity) ltac:(vm_compute; reflexivity)) as H.
  apply wp_elim in H as (? & n' & Hrun & -> & _ & Hk & _). exists n'. split; [exact Hrun|exact Hk].
Defined.
