(* ===== verification/Client.v ===== *)
(** * Client: a requester's session with the daemon

    Models [src/daemon/client/session.cpp] and [guard.cpp], and the checks of
    [src/daemon/shared/area.cpp]: resolving a name, the attempt on the area, the
    guard and its release, the control exchanges, and the move to a replacement
    daemon.  The socket is what it answers: whether the peer has gone, the frames sent and
    whether they went out, and the messages received, in order.  A thrown error is the
    right value of the answer. *)

From S2P Require Import Prelude Effect Bitmap Types Wire Area.

Inductive CmedError :=
| CmedBackendError | CmedInvalidArgumentError | CmedAreaInvalidError | CmedAreaNotReadyError
| CmedUnknownDomainError | CmedLockTimeoutError
| CmedControlRefusedError (errno : Z) | CmedLockRefusedError (errno : Z).

Definition EBUSY : Z := 16.
Definition EPROTO : Z := 71.
Definition ETIMEDOUT : Z := 110.

Definition StartSequence : Z := 1.
(** [sizeof(SharedArea_t)]: two header lines and two lines a domain. *)
Definition AreaBytes : Z := 2 * CacheLineBytes + MaxDomains * (2 * CacheLineBytes).

Module CmedClientConfig_t.
Record t := mk { setupTimeout : Z; lockTimeout : Z }.
End CmedClientConfig_t.

(** What a connect to the daemon's socket comes to. *)
Inductive Connected := NotYet | Unreachable | Reached (mapped : SharedArea_t.t).

(** What a receive comes to: the deadline or a closed peer, a message past what
    the protocol asks for, or a message with its descriptors. *)
Inductive Received := Silence | Unfollowable | Heard (message : list Z) (descriptors : Z).

Module ClientEnv.
Record t := mk {
  clock : nat -> Z;
  wall : nat -> Z;
  interf : nat -> SharedArea_t.t -> SharedArea_t.t;   (* the daemon and the other requesters *)
  fuel : nat;
  config : CmedClientConfig_t.t;
  self : Z;
  peerGone : nat -> bool;                              (* by look *)
  sendFails : nat -> option Z;                         (* by send: the errno *)
  received : nat -> Received;                          (* by receive *)
  replacement : nat -> Connected;                      (* by connect *)
}.
End ClientEnv.

Module Client.
Record t := mk {
  shm : SharedArea_t.t;
  holders_ : Z;
  closing_ : bool;
  ids : IdLookup.t;
  sequence : Z;
  joined : gset (list Z);
  accesses : nat;
  clockReads : nat;
  wallReads : nat;
  looks : nat;
  sent : list (list Z);                                (* the frames sent, oldest first *)
  receives : nat;
  connects : nat;
}.

Definition with_shm (v : SharedArea_t.t) (c : t) : t :=
  mk v (holders_ c) (closing_ c) (ids c) (sequence c) (joined c) (accesses c) (clockReads c) (wallReads c) (looks c) (sent c) (receives c) (connects c).
Definition with_holders_ (v : Z) (c : t) : t :=
  mk (shm c) v (closing_ c) (ids c) (sequence c) (joined c) (accesses c) (clockReads c) (wallReads c) (looks c) (sent c) (receives c) (connects c).
Definition with_closing_ (v : bool) (c : t) : t :=
  mk (shm c) (holders_ c) v (ids c) (sequence c) (joined c) (accesses c) (clockReads c) (wallReads c) (looks c) (sent c) (receives c) (connects c).
Definition with_ids (v : IdLookup.t) (c : t) : t :=
  mk (shm c) (holders_ c) (closing_ c) v (sequence c) (joined c) (accesses c) (clockReads c) (wallReads c) (looks c) (sent c) (receives c) (connects c).
Definition with_sequence (v : Z) (c : t) : t :=
  mk (shm c) (holders_ c) (closing_ c) (ids c) v (joined c) (accesses c) (clockReads c) (wallReads c) (looks c) (sent c) (receives c) (connects c).
Definition with_joined (v : gset (list Z)) (c : t) : t :=
  mk (shm c) (holders_ c) (closing_ c) (ids c) (sequence c) v (accesses c) (clockReads c) (wallReads c) (looks c) (sent c) (receives c) (connects c).
Definition with_accesses (v : nat) (c : t) : t :=
  mk (shm c) (holders_ c) (closing_ c) (ids c) (sequence c) (joined c) v (clockReads c) (wallReads c) (looks c) (sent c) (receives c) (connects c).
Definition with_clockReads (v : nat) (c : t) : t :=
  mk (shm c) (holders_ c) (closing_ c) (ids c) (sequence c) (joined c) (accesses c) v (wallReads c) (looks c) (sent c) (receives c) (connects c).
Definition with_wallReads (v : nat) (c : t) : t :=
  mk (shm c) (holders_ c) (closing_ c) (ids c) (sequence c) (joined c) (accesses c) (clockReads c) v (looks c) (sent c) (receives c) (connects c).
Definition with_looks (v : nat) (c : t) : t :=
  mk (shm c) (holders_ c) (closing_ c) (ids c) (sequence c) (joined c) (accesses c) (clockReads c) (wallReads c) v (sent c) (receives c) (connects c).
Definition with_sent (v : list (list Z)) (c : t) : t :=
  mk (shm c) (holders_ c) (closing_ c) (ids c) (sequence c) (joined c) (accesses c) (clockReads c) (wallReads c) (looks c) v (receives c) (connects c).
Definition with_receives (v : nat) (c : t) : t :=
  mk (shm c) (holders_ c) (closing_ c) (ids c) (sequence c) (joined c) (accesses c) (clockReads c) (wallReads c) (looks c) (sent c) v (connects c).
Definition with_connects (v : nat) (c : t) : t :=
  mk (shm c) (holders_ c) (closing_ c) (ids c) (sequence c) (joined c) (accesses c) (clockReads c) (wallReads c) (looks c) (sent c) (receives c) v.
End Client.

(** [CmedGuard]: whether it names an area, the domain, and what its mutex was
    acquired from. *)
Module CmedGuard.
Record t := mk { area_ : bool; domainId_ : Z; abandoned : bool }.
Definition emptied (g : t) : t := mk false (domainId_ g) (abandoned g).
End CmedGuard.

#[export] Instance ClientArea : AreaWorld ClientEnv.t Client.t := {
  area := Client.shm;
  with_area := Client.with_shm;
  interfere E c := Client.with_accesses (S (Client.accesses c)) (Client.with_shm (ClientEnv.interf E (Client.accesses c) (Client.shm c)) c);
  wallOf E c := ClientEnv.wall E (Client.wallReads c);
  tickWall c := Client.with_wallReads (S (Client.wallReads c)) c;
  clockOf E c := ClientEnv.clock E (Client.clockReads c);
  tickClock c := Client.with_clockReads (S (Client.clockReads c)) c;
  waitTurns := ClientEnv.fuel;
  thread := ClientEnv.self;
}.

Module CmedSession.

Definition C (A : Type) : Type := run ClientEnv.t Client.t A.

Definition get {A} (f : Client.t -> A) : C A := fun _ c => Some (f c, c).
Definition modify (f : Client.t -> Client.t) : C unit := fun _ c => Some (tt, f c).
Definition config {A} (f : CmedClientConfig_t.t -> A) : C A := fun E c => Some (f (ClientEnv.config E), c).

Definition isServing : C bool := fun E c =>
  Some (negb (ClientEnv.peerGone E (Client.looks c)), Client.with_looks (S (Client.looks c)) c).
(** The errno of a send that failed; one that went is recorded. *)
Definition send (frame : list Z) : C (option Z) := fun E c =>
  Some (ClientEnv.sendFails E (length (Client.sent c)), Client.with_sent (Client.sent c ++ [frame]) c).
Definition receiveAnswer : C (option (list Z * Z) + CmedError) := fun E c =>
  Some (match ClientEnv.received E (Client.receives c) with
        | Silence => inl None
        | Unfollowable => inr CmedAreaInvalidError
        | Heard message descriptors => inl (Some (message, descriptors))
        end, Client.with_receives (S (Client.receives c)) c).

(** ** The holders of the area *)

(** [OccupancyToken], and a guard's own count. *)
Definition addHolder : C unit := modify (fun c => Client.with_holders_ (u32 (Client.holders_ c + 1)) c).
Definition dropHolder : C unit := modify (fun c => Client.with_holders_ (u32 (Client.holders_ c - 1)) c).

(** [CmedGuard]'s constructor takes the count and does not raise it. *)
Definition makeGuard (d : Z) (abandoned : bool) : C CmedGuard.t := ret (CmedGuard.mk true d abandoned).

Definition release (guard : CmedGuard.t) : C unit :=
  let d := CmedGuard.domainId_ guard in
  publish d Idle ;;;
  let! queued := hasWaiters d in
  RobustLock_unlock d ;;;
  when (negb queued) (ring d).

(** [CmedGuard::unlock]: the release, then the count.  Answers the guard as it
    is left. *)
Definition unlock (guard : CmedGuard.t) : C CmedGuard.t :=
  when (CmedGuard.area_ guard) (release guard ;;; dropHolder) ;;;
  ret (CmedGuard.emptied guard).

(** The move assignment: what the target held goes back first.  Answers the
    target and the guard moved from. *)
Definition assign (target other : CmedGuard.t) : C (CmedGuard.t * CmedGuard.t) :=
  let! _ := unlock target in ret (other, CmedGuard.emptied other).

Definition wasAbandoned (guard : CmedGuard.t) : bool := CmedGuard.area_ guard && CmedGuard.abandoned guard.
Definition readAbandonCount (guard : CmedGuard.t) : C Z :=
  if negb (CmedGuard.area_ guard) then ret 0 else getAbandonCount (CmedGuard.domainId_ guard).
Definition clearAbandonCount (guard : CmedGuard.t) (seen : Z) : C bool :=
  if CmedGuard.area_ guard then Area.clearAbandonCount (CmedGuard.domainId_ guard) seen else ret false.
Definition stillHolds (guard : CmedGuard.t) : C bool :=
  if negb (CmedGuard.area_ guard) then ret false else hasValidTurn (CmedGuard.domainId_ guard).

(** [polling::waitUntil] on the count. *)
Fixpoint waitDrained (turns : nat) (waiting : timing.Deadline.t) : C bool :=
  match turns with
  | O => outOfFuel
  | S turns =>
      let! empty := get (fun c => Client.holders_ c =? 0) in
      if empty then ret true
      else
        let! instant := steadyNow in
        if timing.Deadline.expiredAt waiting instant then ret false else waitDrained turns waiting
  end.

Definition closeAndDrain (within : Z) : C bool :=
  modify (Client.with_closing_ true) ;;;
  let! began := steadyNow in
  let! turns := getTurns in
  let! drained := waitDrained (S turns) (timing.Deadline.make began within) in
  when (negb drained) (modify (Client.with_closing_ false)) ;;;
  ret drained.

Definition reopenArea : C unit := modify (Client.with_closing_ false).

(** ** Resolving *)

Definition resolveId (name : DomainName.t) : C Z :=
  let! cached := get (fun c => IdLookup.find name (Client.ids c)) in
  let! hit :=
    (match cached with
     | Some d => let! named := isNamed d (DomainName.getText name) in ret (if named then Some d else None)
     | None => ret None
     end) in
  match hit with
  | Some d => ret d
  | None =>
      let! scanned := resolve (DomainName.getText name) in
      if isNoDomain scanned then ret NoDomain
      else modify (fun c => Client.with_ids (IdLookup.set name scanned (Client.ids c)) c) ;;; ret scanned
  end.

(** ** One attempt *)

(** The body under the occupancy token: a guard, an empty hand or an error, with
    the mutex given back on every path but the guard's. *)
Definition attempt (name : DomainName.t) (timeout : Z) : C (option CmedGuard.t + CmedError) :=
  let! closing := get Client.closing_ in
  if closing then ret (inl None)
  else
    let! d := resolveId name in
    if isNoDomain d then ret (inr CmedUnknownDomainError)
    else
      let! abandoned := lockForRequest d in
      let! named := isNamed d (DomainName.getText name) in
      if negb named then RobustLock_unlock d ;;; ret (inr CmedUnknownDomainError)
      else
        publish d LockHeld ;;;
        let! valid := hasValidTurn d in
        if valid then let! guard := makeGuard d abandoned in ret (inl (Some guard))
        else
          publish d Idle ;;;
          let! serving := isServing in
          if negb serving then RobustLock_unlock d ;;; ret (inl None)
          else
            request d LockRequested ;;;
            let! guard := makeGuard d abandoned in
            let! outcome := awaitState d timeout isAcquireAnswered in
            match outcome with
            | None => let! _ := unlock guard in ret (inl None)
            | Some Error_ =>
                let! failure := getFailureCode d in
                let! _ := unlock guard in
                ret (inr (CmedLockRefusedError (- failure)))
            | Some _ => ret (inl (Some guard))
            end.

Definition tryLockOnce (name : DomainName.t) (timeout : Z) : C (option CmedGuard.t + CmedError) :=
  addHolder ;;; let! result := attempt name timeout in dropHolder ;;; ret result.

(** ** The control exchanges *)

Definition sendDomainRequest (type : Z) (name : DomainName.t) : C (option Z) :=
  let wanted := DomainRequest_t.mk (DomainName.write name) in
  modify (fun c => Client.with_sequence (u32 (Client.sequence c + 1)) c) ;;;
  let! sequence := get Client.sequence in
  send (DomainRequestMessage.frame type ProtocolLimits.Version sequence wanted).

Definition exchangeDomainRequestLocked (type : Z) (name : DomainName.t) : C (unit + CmedError) :=
  let! failed := sendDomainRequest type name in
  match failed with
  | Some errno => ret (inr (CmedControlRefusedError errno))
  | None =>
      let! answered := receiveAnswer in
      match answered with
      | inr error => ret (inr error)
      | inl None => ret (inr (CmedControlRefusedError ETIMEDOUT))
      | inl (Some (message, _)) =>
          let! sequence := get Client.sequence in
          match TypedMessage.read (P := Answer_t.t) MessageType.Answer message with
          | Some answer =>
              if negb (Message.sequence message =? sequence) then ret (inr (CmedControlRefusedError EPROTO))
              else if negb (Answer_t.result answer =? 0) then ret (inr (CmedControlRefusedError (- Answer_t.result answer)))
              else ret (inl tt)
          | None => ret (inr (CmedControlRefusedError EPROTO))
          end
      end
  end.

(** The Welcome that ends in an area, and the checks before it is mapped and
    after. *)
Definition attach (mapped : SharedArea_t.t) : SharedArea_t.t + CmedError :=
  let version := SharedArea_t.abiVersion mapped in
  if version =? 0 then inr CmedAreaNotReadyError
  else if negb (version =? AbiVersion) then inr CmedAreaInvalidError
  else if negb (SharedArea_t.areaBytes mapped =? AreaBytes) then inr CmedAreaInvalidError
  else inl mapped.

Definition askForArea (mapped : SharedArea_t.t) : C (SharedArea_t.t + CmedError) :=
  let! failed := send (TypedMessage.frame MessageType.Hello ProtocolLimits.Version StartSequence (Hello_t.mk AbiVersion)) in
  match failed with
  | Some _ => ret (inr CmedBackendError)
  | None =>
      let! answered := receiveAnswer in
      match answered with
      | inr error => ret (inr error)
      | inl None => ret (inr CmedAreaNotReadyError)
      | inl (Some (message, descriptors)) =>
          if negb (Message.isReadable (Some MessageType.Welcome) message) ||
             negb (Message.sequence message =? StartSequence)
          then ret (inr CmedAreaInvalidError)
          else
            match TypedMessage.read (P := Welcome_t.t) MessageType.Welcome message with
            | Some welcome =>
                if negb (Welcome_t.abiVersion welcome =? AbiVersion) || negb (Welcome_t.areaBytes welcome =? AreaBytes)
                then ret (inr CmedAreaInvalidError)
                else if negb (descriptors =? 1) then ret (inr CmedAreaInvalidError)
                else ret (attach mapped)
            | None => ret (inr CmedAreaInvalidError)
            end
      end
  end.

Definition connectToDaemon : C (SharedArea_t.t + CmedError) := fun E c =>
  let c' := Client.with_connects (S (Client.connects c)) c in
  match ClientEnv.replacement E (Client.connects c) with
  | NotYet => Some (inr CmedAreaNotReadyError, c')
  | Unreachable => Some (inr CmedBackendError, c')
  | Reached mapped => Some (inl mapped, c')
  end.

(** The names kept, asked of the daemon now serving; a refused one leaves the
    set. *)
Fixpoint rejoin (names refused : list (list Z)) : C (list (list Z) + CmedError) :=
  match names with
  | [] => ret (inl refused)
  | name :: rest =>
      let! answered := exchangeDomainRequestLocked MessageType.JoinDomain name in
      match answered with
      | inl _ => rejoin rest refused
      | inr (CmedControlRefusedError _) => rejoin rest (refused ++ [name])
      | inr error => ret (inr error)
      end
  end.
Definition rejoinLocked : C (option CmedError) :=
  let! names := get (fun c => elements (Client.joined c)) in
  let! refused := rejoin names [] in
  match refused with
  | inr error => ret (Some error)
  | inl refused => modify (fun c => Client.with_joined (Client.joined c ∖ list_to_set refused) c) ;;; ret None
  end.

(** [inl false] is a guard still out; an error leaves the door closed. *)
Definition migrateLocked (within : Z) : C (bool + CmedError) :=
  let! drained := closeAndDrain within in
  if negb drained then ret (inl false)
  else
    let! reached := connectToDaemon in
    match reached with
    | inr error => ret (inr error)
    | inl mapped =>
        let! asked := askForArea mapped in
        match asked with
        | inr error => ret (inr error)
        | inl area =>
            modify (fun c => Client.with_ids ∅ (Client.with_sequence StartSequence (Client.with_shm area c))) ;;;
            let! failed := rejoinLocked in
            match failed with
            | Some error => ret (inr error)
            | None => reopenArea ;;; ret (inl true)
            end
        end
    end.

Definition migrate (within : Z) : C (bool + CmedError) :=
  let! serving := isServing in
  if serving then ret (inl true)
  else
    let! moved := migrateLocked within in
    ret (match moved with inr CmedAreaNotReadyError => inl false | other => other end).

Definition exchangeAcrossMigrationLocked (type : Z) (name : DomainName.t) : C (unit + CmedError) :=
  let! first := exchangeDomainRequestLocked type name in
  match first with
  | inr (CmedControlRefusedError errno) =>
      let! serving := isServing in
      if serving then ret (inr (CmedControlRefusedError errno))
      else
        let! timeout := config CmedClientConfig_t.lockTimeout in
        let! moved := migrateLocked timeout in
        match moved with
        | inr error => ret (inr error)
        | inl false => ret (inr (CmedControlRefusedError EBUSY))
        | inl true => exchangeDomainRequestLocked type name
        end
  | other => ret other
  end.

Definition create (name : DomainName.t) : C (unit + CmedError) :=
  let! answered := exchangeAcrossMigrationLocked MessageType.CreateDomain name in
  match answered with
  | inr error => ret (inr error)
  | inl _ => modify (fun c => Client.with_joined ({[name]} ∪ Client.joined c) c) ;;; ret (inl tt)
  end.

Definition remove (name : DomainName.t) : C (unit + CmedError) :=
  let! answered := exchangeAcrossMigrationLocked MessageType.DeleteDomain name in
  match answered with
  | inr error => ret (inr error)
  | inl _ => modify (fun c => Client.with_joined (Client.joined c ∖ {[name]}) c) ;;; ret (inl tt)
  end.

Definition join (name : DomainName.t) : C (unit + CmedError) :=
  let! already := get (fun c => bool_decide (name ∈ Client.joined c)) in
  if already then ret (inl tt)
  else
    let! answered := exchangeAcrossMigrationLocked MessageType.JoinDomain name in
    match answered with
    | inr error => ret (inr error)
    | inl _ => modify (fun c => Client.with_joined ({[name]} ∪ Client.joined c) c) ;;; ret (inl tt)
    end.

Definition leave (name : DomainName.t) : C (unit + CmedError) :=
  let! held := get (fun c => bool_decide (name ∈ Client.joined c)) in
  modify (fun c => Client.with_joined (Client.joined c ∖ {[name]}) c) ;;;
  if negb held then ret (inl tt) else exchangeAcrossMigrationLocked MessageType.LeaveDomain name.

(** ** The bounded acquire *)

Fixpoint tryLock_turns (turns : nat) (name : DomainName.t) (deadline : timing.Deadline.t) : C (option CmedGuard.t + CmedError) :=
  match turns with
  | O => outOfFuel
  | S turns =>
      let! instant := steadyNow in
      match timing.Deadline.remaining 1 deadline instant with
      | None => ret (inl None)
      | Some left_ =>
          let! once := tryLockOnce name left_ in
          match once with
          | inr error => ret (inr error)
          | inl (Some guard) => ret (inl (Some guard))
          | inl None =>
              let! serving := isServing in
              let! closing := (if serving then get Client.closing_ else ret true) in
              if negb closing then ret (inl None)
              else
                let! moved := migrate left_ in
                match moved with
                | inr error => ret (inr error)
                | inl _ => tryLock_turns turns name deadline
                end
          end
      end
  end.
Definition tryLock (name : list Z) (timeout : Z) : C (option CmedGuard.t + CmedError) :=
  match DomainName.make name with
  | None => ret (inr CmedUnknownDomainError)
  | Some name =>
      let! began := steadyNow in
      let! turns := getTurns in
      tryLock_turns (S turns) name (timing.Deadline.make began timeout)
  end.

Definition lock (name : list Z) : C (CmedGuard.t + CmedError) :=
  let! timeout := config CmedClientConfig_t.lockTimeout in
  let! guard := tryLock name timeout in
  ret (match guard with
       | inr error => inr error
       | inl None => inr CmedLockTimeoutError
       | inl (Some guard) => inl guard
       end).

(** ** Opening, closing and the public names *)

Definition connect (socketPath : list Z) : C (SharedArea_t.t + CmedError) :=
  if Nat.eqb (length socketPath) 0 then ret (inr CmedInvalidArgumentError)
  else
    let! reached := connectToDaemon in
    match reached with inr error => ret (inr error) | inl mapped => askForArea mapped end.

(** [~Impl]: a leave per name kept, its answer not waited for. *)
Definition destroy : C unit :=
  let! names := get (fun c => elements (Client.joined c)) in
  forM names (fun name => let! _ := sendDomainRequest MessageType.LeaveDomain name in ret tt).

Definition createDomain (name : list Z) : C (unit + CmedError) :=
  match DomainName.make name with None => ret (inr CmedInvalidArgumentError) | Some name => create name end.
Definition deleteDomain (name : list Z) : C (unit + CmedError) :=
  match DomainName.make name with None => ret (inr CmedInvalidArgumentError) | Some name => remove name end.
Definition joinDomain (name : list Z) : C (unit + CmedError) :=
  match DomainName.make name with None => ret (inr CmedInvalidArgumentError) | Some name => join name end.
Definition leaveDomain (name : list Z) : C (unit + CmedError) :=
  match DomainName.make name with None => ret (inl tt) | Some name => leave name end.

End CmedSession.
