(* ===== verification/Bringup.v ===== *)
(** * Bringup: the daemon's area, from its file to a requester's mapping

    Models the owners of [src/daemon/shared/posix] ([unique_fd.hpp],
    [mapping.hpp], [mem_file.hpp]), [src/daemon/daemon/startup/served_area.cpp],
    which makes the area a daemon serves, and [src/daemon/shared/area.cpp], which
    maps it in a requester.

    The kernel of a host keeps its files, the descriptors and mappings of one
    process and the sessions with the library.  Each call is granted or refused
    by the next of a stream of [answers], besides the reasons the model has
    itself (a sealed file does not change its size, nothing maps zero bytes), so
    a statement over every kernel covers a failure at every call.  An owner that
    leaves scope is [scoped]: what it owns is given back on the way out of a
    throw. *)

From stdpp Require Import strings.
From S2P Require Import Prelude Types Bitmap Area Client.

(** ** The kernel *)

(** What lies in the file of an area: its words, the liveness mutex and, for the
    mutexes made there, whether they are process-shared and robust. *)
Module Content.
Record t := mk {
  area : SharedArea_t.t;
  liveness : Mutex;
  livenessAttrs : option (bool * bool);
  lockAttrs : gmap Z (bool * bool);
}.
Definition with_area (v : SharedArea_t.t) (c : t) : t := mk v (liveness c) (livenessAttrs c) (lockAttrs c).
Definition with_liveness (v : Mutex) (c : t) : t := mk (area c) v (livenessAttrs c) (lockAttrs c).
End Content.

Module File_t.
Record t := mk { bytes : Z; isSealed : bool; content : Content.t; }.
End File_t.

Module Host_t.
Record t := mk {
  files : gmap Z File_t.t;
  fds : gmap Z Z;               (* a descriptor of this process, and its file *)
  maps : gmap Z (Z * Z);        (* a mapping: its file and its length *)
  sessions : Z;                 (* open sessions with the library *)
  attributes : Z;               (* live [pthread_mutexattr_t] *)
  next : Z;                     (* names nothing has yet *)
  answers : list bool;
}.
Definition with_files (v : gmap Z File_t.t) (s : t) : t := mk v (fds s) (maps s) (sessions s) (attributes s) (next s) (answers s).
Definition with_fds (v : gmap Z Z) (s : t) : t := mk (files s) v (maps s) (sessions s) (attributes s) (next s) (answers s).
Definition with_maps (v : gmap Z (Z * Z)) (s : t) : t := mk (files s) (fds s) v (sessions s) (attributes s) (next s) (answers s).
Definition with_sessions (v : Z) (s : t) : t := mk (files s) (fds s) (maps s) v (attributes s) (next s) (answers s).
Definition with_attributes (v : Z) (s : t) : t := mk (files s) (fds s) (maps s) (sessions s) v (next s) (answers s).
Definition with_next (v : Z) (s : t) : t := mk (files s) (fds s) (maps s) (sessions s) (attributes s) v (answers s).
Definition with_answers (v : list bool) (s : t) : t := mk (files s) (fds s) (maps s) (sessions s) (attributes s) (next s) v.
End Host_t.
Import Host_t.

Module bringup.
Inductive Failure := SystemError | BackendError | AreaNotReadyError | AreaInvalidError | SessionError | WouldBlock.
Definition M (A : Type) : Type := Host_t.t -> (A + Failure) * Host_t.t.
Definition ret {A} (a : A) : M A := fun s => (inl a, s).
Definition throw {A} (f : Failure) : M A := fun s => (inr f, s).
Definition bind {A B} (m : M A) (k : A -> M B) : M B :=
  fun s => match m s with (inl a, s) => k a s | (inr f, s) => (inr f, s) end.
Definition modify (f : Host_t.t -> Host_t.t) : M unit := fun s => (inl tt, f s).
Definition asks {A} (f : Host_t.t -> A) : M A := fun s => (inl (f s), s).
(** The owner of something goes out of scope when [m] throws. *)
Definition scoped {A} (release : Host_t.t -> Host_t.t) (m : M A) : M A :=
  fun s => match m s with (inr f, s) => (inr f, release s) | done => done end.
(** A failure under another name. *)
Definition translated {A} (f : Failure) (m : M A) : M A :=
  fun s => match m s with (inr _, s) => (inr f, s) | done => done end.
Local Notation "'let*' x ':=' m 'in' k" := (bind m (fun x => k)) (at level 10, x pattern, m at level 100, k at level 200).
Local Notation "m ';*' k" := (bind m (fun _ => k)) (at level 60, right associativity).

(** The kernel grants the next call, where it has no reason of its own. *)
Definition granted : M bool :=
  fun s => match answers s with [] => (inl true, s) | g :: rest => (inl g, with_answers rest s) end.
Definition orThrow (f : Failure) (ok : bool) : M unit := if ok then ret tt else throw f.
Definition named : M Z := fun s => (inl (next s), with_next (next s + 1) s).

Definition zeroArea : SharedArea_t.t := SharedArea_t.mk 0 0 0 0 0 (Bits.empty 64) ∅.
Definition zeroContent : Content.t := Content.mk zeroArea Unlocked None ∅.

Definition memfd_create : M Z :=
  let* ok := granted in
  if negb ok then ret (-1)
  else
    let* file := named in
    let* fd := named in
    modify (fun s => with_fds (<[fd := file]> (fds s)) (with_files (<[file := File_t.mk 0 false zeroContent]> (files s)) s)) ;*
    ret fd.

(** The file behind a descriptor or a mapping. *)
Definition fileOf (fd : Z) (s : Host_t.t) : option (Z * File_t.t) :=
  match fds s !! fd with Some file => match files s !! file with Some f => Some (file, f) | None => None end | None => None end.
Definition setFile (file : Z) (f : File_t.t) (s : Host_t.t) : Host_t.t := with_files (<[file := f]> (files s)) s.

Definition ftruncate (fd bytes : Z) : M bool :=
  let* ok := granted in
  let* found := asks (fileOf fd) in
  match found with
  | Some (file, f) =>
      if ok && negb (File_t.isSealed f) then modify (setFile file (File_t.mk bytes false (File_t.content f))) ;* ret true else ret false
  | None => ret false
  end.
(** [F_SEAL_SHRINK], [F_SEAL_GROW] and [F_SEAL_SEAL]. *)
Definition addSeals (fd : Z) : M bool :=
  let* ok := granted in
  let* found := asks (fileOf fd) in
  match found with
  | Some (file, f) =>
      if ok && negb (File_t.isSealed f) then modify (setFile file (File_t.mk (File_t.bytes f) true (File_t.content f))) ;* ret true else ret false
  | None => ret false
  end.
Definition fstat (fd : Z) : M (option Z) :=
  let* ok := granted in
  let* found := asks (fileOf fd) in
  ret (match found with Some (_, f) => if ok then Some (File_t.bytes f) else None | None => None end).

(** ** The owners *)

Module UniqueFd.
Definition none : Z := -1.
Definition isHeld (held : Z) : bool := 0 <=? held.
(** [std::exchange(held_, -1)]: what it gives away, and what is left. *)
Definition release (held : Z) : Z * Z := (held, -1).
Definition reset (held : Z) (s : Host_t.t) : Host_t.t := if 0 <=? held then with_fds (delete held (fds s)) s else s.
Definition assign (held other : Z) (s : Host_t.t) : Z * Z * Host_t.t :=
  let '(taken, left_) := release other in (taken, left_, reset held s).
End UniqueFd.

Module SharedMapping.
(** The address, 0 for none, with its length. *)
Record t := mk { base_ : Z; bytes_ : Z; }.
Definition empty : t := mk 0 0.
Definition mmap (descriptor bytes : Z) : M t :=
  let* ok := granted in
  let* found := asks (fileOf descriptor) in
  match found with
  | Some (file, _) =>
      if ok && (0 <? bytes) then
        let* base := named in
        modify (fun s => with_maps (<[base := (file, bytes)]> (maps s)) s) ;* ret (mk base bytes)
      else throw SystemError
  | None => throw SystemError
  end.
Definition unmap (m : t) (s : Host_t.t) : Host_t.t := if base_ m =? 0 then s else with_maps (delete (base_ m) (maps s)) s.
Definition move (other : t) : t * t := (other, empty).
Definition assign (m other : t) (s : Host_t.t) : t * t * Host_t.t := let '(taken, left_) := move other in (taken, left_, unmap m s).
End SharedMapping.

Module MemFile.
Record t := mk { held_ : Z; mapping_ : SharedMapping.t; }.
Definition destroy (m : t) (s : Host_t.t) : Host_t.t := UniqueFd.reset (held_ m) (SharedMapping.unmap (mapping_ m) s).
Definition bytes (m : t) : Z := SharedMapping.bytes_ (mapping_ m).

Definition adopt (held : Z) : M t := scoped (UniqueFd.reset held) (
  let* found := fstat held in
  match found with
  | None => throw SystemError
  | Some size => let* mapping := SharedMapping.mmap held size in ret (mk held mapping)
  end).

Definition create (size : Z) : M t :=
  let* held := memfd_create in
  if negb (UniqueFd.isHeld held) then throw SystemError
  else
    scoped (UniqueFd.reset held) (
      let* grown := ftruncate held size in
      orThrow SystemError grown ;*
      let* closed := addSeals held in
      orThrow SystemError closed) ;*
    adopt held.
End MemFile.

(** ** The area *)

(** A word of the object a mapping shows. *)
Definition contentOf (m : MemFile.t) (s : Host_t.t) : option (Z * File_t.t) :=
  match maps s !! SharedMapping.base_ (MemFile.mapping_ m) with
  | Some (file, _) => match files s !! file with Some f => Some (file, f) | None => None end
  | None => None
  end.
Definition onContent (m : MemFile.t) (f : Content.t -> Content.t) (s : Host_t.t) : Host_t.t :=
  match contentOf m s with
  | Some (file, x) => setFile file (File_t.mk (File_t.bytes x) (File_t.isSealed x) (f (File_t.content x))) s
  | None => s
  end.

(** The mutex a call of [initSharedMutex] makes. *)
Inductive Place := Liveness | Lock (d : Z).
Definition made (p : Place) (attrs : bool * bool) (c : Content.t) : Content.t :=
  match p with
  | Liveness => Content.mk (Content.area c) Unlocked (Some attrs) (Content.lockAttrs c)
  | Lock d =>
      Content.mk (SharedArea_t.setSlot d (Domain_t.with_lock Unlocked (SharedArea_t.slot (Content.area c) d)) (Content.area c))
        (Content.liveness c) (Content.livenessAttrs c) (<[d := attrs]> (Content.lockAttrs c))
  end.

Definition initSharedMutex (m : MemFile.t) (p : Place) : M unit :=
  let* inited := granted in
  orThrow BackendError inited ;*
  modify (fun s => with_attributes (attributes s + 1) s) ;*
  let* shared := granted in
  let* robust := if shared then granted else ret false in
  let* result := if shared && robust then granted else ret false in
  (if result then modify (onContent m (made p (shared, robust))) else ret tt) ;*
  modify (fun s => with_attributes (attributes s - 1) s) ;*
  orThrow BackendError result.

Fixpoint initLocks (m : MemFile.t) (table : list Z) : M unit :=
  match table with
  | [] => ret tt
  | d :: table => initSharedMutex m (Lock d) ;* initLocks m table
  end.
Definition initMutexes (m : MemFile.t) : M unit := initSharedMutex m Liveness ;* initLocks m (zrange 0 MaxDomains).

(** [CmedArea]: the file and the object in it. *)
Definition formatArea : M MemFile.t :=
  let* file := MemFile.create AreaBytes in
  scoped (MemFile.destroy file) (
    modify (onContent file (fun _ => zeroContent)) ;*
    initMutexes file) ;*
  modify (onContent file (fun c => Content.with_area (SharedArea_t.publishReady (MemFile.bytes file) (Content.area c)) c)) ;*
  ret file.

Definition attach (backing : Z) : M MemFile.t :=
  let* file := translated BackendError (MemFile.adopt backing) in
  scoped (MemFile.destroy file) (
    let* found := asks (contentOf file) in
    match found with
    | None => throw BackendError
    | Some (_, f) =>
        let area := Content.area (File_t.content f) in
        let version := SharedArea_t.abiVersion area in
        if version =? 0 then throw AreaNotReadyError
        else if negb (version =? AbiVersion) then throw AreaInvalidError
        else if negb (SharedArea_t.areaBytes area =? AreaBytes) then throw AreaInvalidError
        else ret tt
    end) ;*
  ret file.

(** ** Becoming the daemon *)

Definition openCmeSession : M unit :=
  let* ok := granted in orThrow SessionError ok ;* modify (fun s => with_sessions (sessions s + 1) s).
Definition closeCmeSession (s : Host_t.t) : Host_t.t := with_sessions (sessions s - 1) s.

(** [RobustLock] over the liveness mutex, by the thread [self]; an owner that died
    leaves a mutex that is made consistent. *)
Definition lockLiveness (self : Z) (m : MemFile.t) : M unit :=
  let* ok := granted in
  orThrow BackendError ok ;*
  let* found := asks (contentOf m) in
  match found with
  | Some (_, f) =>
      match Content.liveness (File_t.content f) with
      | LockedBy _ => throw WouldBlock
      | Unlocked | OwnerDead => modify (onContent m (Content.with_liveness (LockedBy self)))
      end
  | None => throw BackendError
  end.
Definition unlockLiveness (m : MemFile.t) (s : Host_t.t) : Host_t.t := onContent m (Content.with_liveness Unlocked) s.

(** [ServedArea]: its members in the order they are declared. *)
Definition ServedArea (self : Z) : M MemFile.t :=
  openCmeSession ;*
  scoped closeCmeSession (
    let* area := formatArea in
    scoped (MemFile.destroy area) (lockLiveness self area) ;*
    ret area).
Definition destroyServedArea (area : MemFile.t) (s : Host_t.t) : Host_t.t :=
  closeCmeSession (MemFile.destroy area (unlockLiveness area s)).

(** ** Triples *)

(** From [P], a normal end in [Q] or a throw in [X]. *)
Definition triple {A} (P : Host_t.t -> Prop) (m : M A) (Q : A -> Host_t.t -> Prop) (X : Host_t.t -> Prop) : Prop :=
  forall s, P s -> match m s with (inl a, s') => Q a s' | (inr _, s') => X s' end.

Lemma triple_bind {A B} P (m : M A) (k : A -> M B) Q R X :
  triple P m Q X -> (forall a, triple (Q a) (k a) R X) -> triple P (bind m k) R X.
Proof.
  intros Hm Hk s Hs. unfold bind. specialize (Hm s Hs). destruct (m s) as [[a|f] s1]; [|done]. by apply Hk.
Qed.
Lemma triple_scoped {A} P (m : M A) release Q (X : Host_t.t -> Prop) :
  triple P m Q (fun s => X (release s)) -> triple P (scoped release m) Q X.
Proof. intros Hm s Hs. unfold scoped. specialize (Hm s Hs). by destruct (m s) as [[a|f] s1]. Qed.
Lemma triple_translated {A} P (m : M A) f Q X : triple P m Q X -> triple P (translated f m) Q X.
Proof. intros Hm s Hs. unfold translated. specialize (Hm s Hs). by destruct (m s) as [[a|?] s1]. Qed.
Lemma triple_weaken {A} (P P' : Host_t.t -> Prop) (m : M A) (Q Q' : A -> Host_t.t -> Prop) (X X' : Host_t.t -> Prop) :
  triple P' m Q' X' -> (forall s, P s -> P' s) -> (forall a s, Q' a s -> Q a s) -> (forall s, X' s -> X s) -> triple P m Q X.
Proof. intros Hm HP HQ HX s Hs. specialize (Hm s (HP s Hs)). destruct (m s) as [[a|f] s1]; auto. Qed.
Lemma triple_ret {A} (a : A) (P : Host_t.t -> Prop) (Q : A -> Host_t.t -> Prop) X : (forall s, P s -> Q a s) -> triple P (ret a) Q X.
Proof. intros H s Hs. by apply H. Qed.
Lemma triple_throw {A} f (P X : Host_t.t -> Prop) (Q : A -> Host_t.t -> Prop) : (forall s, P s -> X s) -> triple P (throw f) Q X.
Proof. intros H s Hs. by apply H. Qed.
Lemma triple_modify g (P : Host_t.t -> Prop) (Q : unit -> Host_t.t -> Prop) X : (forall s, P s -> Q tt (g s)) -> triple P (modify g) Q X.
Proof. intros H s Hs. by apply H. Qed.
Lemma triple_orThrow f ok (P X : Host_t.t -> Prop) : (forall s, P s -> X s) -> triple P (orThrow f ok) (fun _ s => ok = true /\ P s) X.
Proof. intros H s Hs. destruct ok; cbn; auto. Qed.
(** [P] only looks at what a call's answer does not change. *)
Definition steady (P : Host_t.t -> Prop) : Prop := forall s rest, P s -> P (with_answers rest s).
Lemma triple_granted P X : steady P -> triple P granted (fun _ => P) X.
Proof. intros H s Hs. unfold granted. destruct (answers s); auto. Qed.

(** ** What the process holds *)

Definition fresh (s : Host_t.t) : Prop :=
  0 < next s /\ (forall k, next s <= k -> fds s !! k = None) /\ (forall k, next s <= k -> maps s !! k = None).
Definition holds (F : gmap Z Z) (Mp : gmap Z (Z * Z)) (S At : Z) (s : Host_t.t) : Prop :=
  fds s = F /\ maps s = Mp /\ sessions s = S /\ attributes s = At /\ fresh s.

Lemma holds_steady F Mp S At : steady (holds F Mp S At).
Proof. intros s rest H. exact H. Qed.
#[local] Hint Resolve holds_steady : core.

Section held.
Context (F : gmap Z Z) (Mp : gmap Z (Z * Z)) (S At : Z).

Lemma memfd_create_holds X :
  triple (holds F Mp S At) memfd_create
    (fun fd s => fd = -1 /\ holds F Mp S At s \/ exists file, 0 < fd /\ F !! fd = None /\ holds (<[fd := file]> F) Mp S At s) X.
Proof.
  eapply triple_bind; [by apply triple_granted|]. intros []; cbn; [|apply triple_ret; by left].
  intros s (HF & HM & HS & HA & H0 & Hf & Hm). cbn. right. exists (next s). split_and!; [lia|rewrite <- HF; apply Hf; lia|].
  split_and!; cbn; [by rewrite HF|done..|]. split_and!; cbn; [lia| |intros k Hk; apply Hm; lia].
  intros k Hk. rewrite lookup_insert_ne by lia. apply Hf. lia.
Qed.

(** A call on a file changes nothing the process holds. *)
Lemma asking_holds {A} (m : M A) : (forall s, holds F Mp S At s -> holds F Mp S At (m s).2) -> triple (holds F Mp S At) m (fun _ => holds F Mp S At) (holds F Mp S At).
Proof. intros H s Hs. specialize (H s Hs). by destruct (m s) as [[]]. Qed.

Lemma ftruncate_holds fd n : triple (holds F Mp S At) (ftruncate fd n) (fun _ => holds F Mp S At) (holds F Mp S At).
Proof.
  eapply triple_bind; [by apply triple_granted|]. intros ok. apply asking_holds. intros s Hs. cbn.
  destruct (fileOf fd s) as [[file f]|]; [|done]. by destruct (ok && _).
Qed.
Lemma addSeals_holds fd : triple (holds F Mp S At) (addSeals fd) (fun _ => holds F Mp S At) (holds F Mp S At).
Proof.
  eapply triple_bind; [by apply triple_granted|]. intros ok. apply asking_holds. intros s Hs. cbn.
  destruct (fileOf fd s) as [[file f]|]; [|done]. by destruct (ok && _).
Qed.
Lemma fstat_holds fd : triple (holds F Mp S At) (fstat fd) (fun _ => holds F Mp S At) (holds F Mp S At).
Proof. eapply triple_bind; [by apply triple_granted|]. intros ok. by apply asking_holds. Qed.

Lemma mmap_holds fd file n : F !! fd = Some file ->
  triple (holds F Mp S At) (SharedMapping.mmap fd n)
    (fun m s => SharedMapping.bytes_ m = n /\ 0 < SharedMapping.base_ m /\ Mp !! SharedMapping.base_ m = None /\ holds F (<[SharedMapping.base_ m := (file, n)]> Mp) S At s)
    (holds F Mp S At).
Proof.
  intros Hfd. eapply triple_bind; [by apply triple_granted|]. intros ok s (HF & HM & HS & HA & H0 & Hf & Hm). cbn.
  unfold fileOf. rewrite HF, Hfd. destruct (files s !! file) as [f|]; [|done]. destruct (ok && (0 <? n)); [|done]. cbn.
  split_and!; [done|lia|rewrite <- HM; apply Hm; lia|]. split_and!; cbn; [done|by rewrite HM|done..|].
  split_and!; cbn; [lia|intros k Hk; apply Hf; lia|]. intros k Hk. rewrite lookup_insert_ne by lia. apply Hm. lia.
Qed.

Lemma reset_holds fd s : 0 <= fd -> holds F Mp S At s -> holds (delete fd F) Mp S At (UniqueFd.reset fd s).
Proof.
  intros Hfd (<- & <- & <- & <- & H0 & Hf & Hm). unfold UniqueFd.reset. rewrite (proj2 (Z.leb_le 0 fd)) by done.
  split_and!; [done..|]. split_and!; cbn; [done| |done]. intros k Hk. rewrite lookup_delete_None. right. by apply Hf.
Qed.
Lemma unmap_holds m s : 0 < SharedMapping.base_ m -> holds F Mp S At s -> holds F (delete (SharedMapping.base_ m) Mp) S At (SharedMapping.unmap m s).
Proof.
  intros Hb (<- & <- & <- & <- & H0 & Hf & Hm). unfold SharedMapping.unmap. rewrite (proj2 (Z.eqb_neq _ 0)) by lia.
  split_and!; [done..|]. split_and!; cbn; [done|done|]. intros k Hk. rewrite lookup_delete_None. right. by apply Hm.
Qed.

(** The process has the file [m] besides: one descriptor and one mapping. *)
Definition holdsFile (m : MemFile.t) (s : Host_t.t) : Prop :=
  exists file, 0 < MemFile.held_ m /\ 0 < SharedMapping.base_ (MemFile.mapping_ m) /\
    F !! MemFile.held_ m = None /\ Mp !! SharedMapping.base_ (MemFile.mapping_ m) = None /\
    holds (<[MemFile.held_ m := file]> F) (<[SharedMapping.base_ (MemFile.mapping_ m) := (file, MemFile.bytes m)]> Mp) S At s.
End held.

Lemma holdsFile_steady F Mp S At m : steady (holdsFile F Mp S At m).
Proof. intros s rest H. exact H. Qed.
#[local] Hint Resolve holdsFile_steady : core.

Lemma destroy_holds F Mp S At m s : holdsFile F Mp S At m s -> holds F Mp S At (MemFile.destroy m s).
Proof.
  intros (file & Hf & Hb & HF & HM & Hs). apply unmap_holds with (m := MemFile.mapping_ m) in Hs; [|done].
  rewrite delete_insert_id in Hs by done. apply reset_holds with (fd := MemFile.held_ m) in Hs; [|lia].
  by rewrite delete_insert_id in Hs.
Qed.

Lemma adopt_holds F Mp S At fd file : 0 < fd -> F !! fd = None ->
  triple (holds (<[fd := file]> F) Mp S At) (MemFile.adopt fd) (fun m s => MemFile.held_ m = fd /\ holdsFile F Mp S At m s) (holds F Mp S At).
Proof.
  intros Hfd Hn. assert (forall s, holds (<[fd := file]> F) Mp S At s -> holds F Mp S At (UniqueFd.reset fd s)) as Hreset.
  { intros s Hs. apply reset_holds with (fd := fd) in Hs; [|lia]. by rewrite delete_insert_id in Hs. }
  apply triple_scoped. eapply triple_bind; [eapply triple_weaken; [apply fstat_holds|done..|apply Hreset]|].
  intros [size|]; [|by apply triple_throw].
  eapply triple_bind; [eapply triple_weaken; [apply (mmap_holds (<[fd := file]> F) Mp S At fd file size); by rewrite lookup_insert_eq|done..|apply Hreset]|].
  intros mapping. apply triple_ret. intros s (Hby & Hb & Hmp & Hs). split; [done|]. exists file. split_and!; try done.
  unfold MemFile.bytes. cbn. by rewrite Hby.
Qed.

Lemma create_holds F Mp S At n : triple (holds F Mp S At) (MemFile.create n) (holdsFile F Mp S At) (holds F Mp S At).
Proof.
  eapply triple_bind; [apply memfd_create_holds|]. intros fd s [[Hfd Hs]|(file & Hfd & Hn & Hs)]; [by rewrite Hfd|].
  unfold UniqueFd.isHeld. rewrite (proj2 (Z.leb_le 0 fd)) by lia. cbn [negb].
  set (held := holds (<[fd := file]> F) Mp S At) in *. assert (forall x, held x -> holds F Mp S At (UniqueFd.reset fd x)) as Hreset.
  { intros x Hx. apply reset_holds with (fd := fd) in Hx; [|lia]. by rewrite delete_insert_id in Hx. }
  revert s Hs. apply (triple_bind held _ _ (fun _ => held)); [|intros []; eapply triple_weaken; [by apply (adopt_holds F Mp S At fd file)|done|by intros ?? []|done]].
  apply triple_scoped. eapply triple_bind; [eapply triple_weaken; [apply ftruncate_holds|done..|apply Hreset]|]. intros grown.
  eapply triple_bind; [apply triple_orThrow, Hreset|]. intros [].
  eapply triple_bind; [eapply triple_weaken; [apply addSeals_holds|by intros ? []|done|apply Hreset]|]. intros closed.
  eapply triple_weaken; [apply triple_orThrow, Hreset|done|by intros ?? []|done].
Qed.

(** What a file shows changes nothing the process holds. *)
Lemma onContent_holds F Mp S At m g s : holds F Mp S At s -> holds F Mp S At (onContent m g s).
Proof. unfold onContent. by destruct (contentOf m s) as [[]|]. Qed.

Lemma onContent_holdsFile F Mp S At m f g s : holdsFile F Mp S At f s -> holdsFile F Mp S At f (onContent m g s).
Proof. intros (file & H1 & H2 & H3 & H4 & Hs). exists file. split_and!; try done. by apply onContent_holds. Qed.

Definition still (m : M unit) : Prop :=
  forall F Mp S At, triple (holds F Mp S At) m (fun _ => holds F Mp S At) (holds F Mp S At).

Lemma still_bind m k : still m -> still k -> still (bind m (fun _ => k)).
Proof. intros Hm Hk F Mp S At. eapply triple_bind; [apply Hm|]. intros []. apply Hk. Qed.
Lemma still_file m F Mp S At f : still m -> triple (holdsFile F Mp S At f) m (fun _ => holdsFile F Mp S At f) (holdsFile F Mp S At f).
Proof.
  intros Hm s (file & H1 & H2 & H3 & H4 & Hs). specialize (Hm _ _ _ _ s Hs). destruct (m s) as [[]]; by exists file.
Qed.

Lemma attributes_holds F Mp S At d s : holds F Mp S At s -> holds F Mp S (At + d) (with_attributes (attributes s + d) s).
Proof. by intros (<- & <- & <- & <- & Hf). Qed.

Lemma initSharedMutex_still m p : still (initSharedMutex m p).
Proof.
  intros F Mp S At. eapply triple_bind; [by apply triple_granted|]. intros inited. eapply triple_bind; [by apply triple_orThrow|]. intros [].
  eapply triple_bind; [apply (triple_modify _ _ (fun _ => holds F Mp S (At + 1))); intros s [_ Hs]; by apply attributes_holds|]. intros [].
  eapply triple_bind; [by apply triple_granted|]. intros shared.
  eapply triple_bind; [instantiate (1 := fun _ => holds F Mp S (At + 1)); destruct shared; [by apply triple_granted|by apply triple_ret]|]. intros robust.
  eapply triple_bind; [instantiate (1 := fun _ => holds F Mp S (At + 1)); destruct (shared && robust); [by apply triple_granted|by apply triple_ret]|]. intros result.
  eapply triple_bind; [instantiate (1 := fun _ => holds F Mp S (At + 1)); destruct result; [|by apply triple_ret]|].
  { apply triple_modify. intros s Hs. by apply onContent_holds. }
  intros []. eapply triple_bind; [apply (triple_modify _ _ (fun _ => holds F Mp S At)); intros s Hs|].
  { apply attributes_holds with (d := -1) in Hs. by replace (At + 1 + -1) with At in Hs by lia. }
  intros []. eapply triple_weaken; [by apply triple_orThrow|done|by intros ?? []|done].
Qed.

Lemma initMutexes_still m : still (initMutexes m).
Proof.
  apply still_bind; [apply initSharedMutex_still|]. generalize (zrange 0 MaxDomains) as table.
  induction table as [|d table IH]; [intros F Mp S At; by apply triple_ret|]. apply still_bind; [apply initSharedMutex_still|apply IH].
Qed.

Lemma lockLiveness_still self m : still (lockLiveness self m).
Proof.
  intros F Mp S At. eapply triple_bind; [by apply triple_granted|]. intros ok. eapply triple_bind; [by apply triple_orThrow|]. intros [] s [_ Hs].
  cbn. destruct (contentOf m s) as [[file f]|]; [|done]. destruct (Content.liveness _); try done; by apply onContent_holds.
Qed.

Lemma modify_still g : (forall F Mp S At s, holds F Mp S At s -> holds F Mp S At (g s)) -> still (modify g).
Proof. intros Hg F Mp S At. apply triple_modify, Hg. Qed.

(** An owner over calls that change nothing else. *)
Lemma scoped_file F Mp S At file m : still m ->
  triple (holdsFile F Mp S At file) (scoped (MemFile.destroy file) m) (fun _ => holdsFile F Mp S At file) (holds F Mp S At).
Proof.
  intros Hm. apply triple_scoped. eapply triple_weaken; [by apply still_file|done|done|]. apply destroy_holds.
Qed.

Lemma formatArea_holds F Mp S At : triple (holds F Mp S At) formatArea (holdsFile F Mp S At) (holds F Mp S At).
Proof.
  eapply triple_bind; [apply create_holds|]. intros file. eapply triple_bind; [apply scoped_file|intros []].
  - apply still_bind; [apply modify_still; intros; by apply onContent_holds|apply initMutexes_still].
  - eapply triple_bind; [apply (triple_modify _ _ (fun _ => holdsFile F Mp S At file)); intros s Hs|intros []; by apply triple_ret].
    by apply onContent_holdsFile.
Qed.

Lemma sessions_holds F Mp S At d s : holds F Mp S At s -> holds F Mp (S + d) At (with_sessions (sessions s + d) s).
Proof. by intros (<- & <- & <- & <- & Hf). Qed.

Lemma ServedArea_holds self F Mp S At : triple (holds F Mp S At) (ServedArea self) (holdsFile F Mp (S + 1) At) (holds F Mp S At).
Proof.
  assert (forall s, holds F Mp (S + 1) At s -> holds F Mp S At (closeCmeSession s)) as Hclose.
  { intros s Hs. apply sessions_holds with (d := -1) in Hs. by replace (S + 1 + -1) with S in Hs by lia. }
  eapply triple_bind with (Q := fun _ => holds F Mp (S + 1) At).
  - eapply triple_bind; [by apply triple_granted|]. intros ok. eapply triple_bind; [by apply triple_orThrow|]. intros [].
    apply triple_modify. intros s [_ Hs]. by apply sessions_holds.
  - intros []. apply triple_scoped. eapply triple_bind; [eapply triple_weaken; [apply formatArea_holds|done|done|apply Hclose]|]. intros area.
    apply (triple_bind _ _ _ (fun _ => holdsFile F Mp (S + 1) At area)); [|intros []; by apply triple_ret].
    eapply triple_weaken; [apply scoped_file, (lockLiveness_still self area)|done|done|apply Hclose].
Qed.

Lemma attach_holds F Mp S At fd file : 0 < fd -> F !! fd = None ->
  triple (holds (<[fd := file]> F) Mp S At) (attach fd) (holdsFile F Mp S At) (holds F Mp S At).
Proof.
  intros Hfd Hn. eapply triple_bind; [apply triple_translated; eapply triple_weaken; [by apply (adopt_holds F Mp S At fd file)|done|by intros ?? []|done]|].
  intros m. apply (triple_bind _ _ _ (fun _ => holdsFile F Mp S At m)); [|intros []; by apply triple_ret]. apply scoped_file. intros F' Mp' S' At' s Hs. cbn.
  destruct (contentOf m s) as [[? f]|]; [|done]. repeat (destruct (_ =? _); cbn); done.
Qed.

(** Bring-up leaks nothing.  Whatever the kernel answers to any call: a start
    that throws leaves the process with the descriptors, the mappings, the
    sessions and the mutex attributes it had, one that succeeds adds a session, a
    descriptor and its mapping, which the destructor gives back; and a requester
    whose attach throws has closed the descriptor it was handed. *)
Theorem bringup_balanced self s fd file F :
  fresh s -> 0 < fd < next s -> F !! fd = None -> fds s = <[fd := file]> F ->
  (match ServedArea self s with
   | (inr _, s') => fds s' = fds s /\ maps s' = maps s /\ sessions s' = sessions s /\ attributes s' = attributes s
   | (inl area, s') =>
       fds s !! MemFile.held_ area = None /\ sessions s' = sessions s + 1 /\
       (exists f, fds s' = <[MemFile.held_ area := f]> (fds s) /\ 
                  maps s' = <[SharedMapping.base_ (MemFile.mapping_ area) := (f, MemFile.bytes area)]> (maps s)) /\
       let s'' := destroyServedArea area s' in
       fds s'' = fds s /\ maps s'' = maps s /\ sessions s'' = sessions s /\ attributes s'' = attributes s
   end) /\
  (match attach fd s with
   | (inr _, s') => fds s' = F /\ maps s' = maps s
   | (inl area, s') => let s'' := MemFile.destroy area s' in fds s'' = F /\ maps s'' = maps s
   end).
Proof.
  intros Hf Hfd Hn HF. assert (holds (fds s) (maps s) (sessions s) (attributes s) s) as Hs by done. split.
  - pose proof (ServedArea_holds self (fds s) (maps s) (sessions s) (attributes s) s Hs) as H.
    destruct (ServedArea self s) as [[area|f] s1]; [|by destruct H as (? & ? & ? & ? & _)].
    pose proof H as (g & _ & _ & H3 & _ & H5 & H6 & H7 & _). split_and!; [done|done|by exists g|].
    apply (onContent_holdsFile _ _ _ _ area _ (Content.with_liveness Unlocked)) in H. apply destroy_holds in H.
    apply sessions_holds with (d := -1) in H. replace (sessions s + 1 + -1) with (sessions s) in H by lia. cbn. by destruct H as (? & ? & ? & ? & _).
  - rewrite HF in Hs. pose proof (attach_holds F (maps s) (sessions s) (attributes s) fd file ltac:(lia) Hn s Hs) as H.
    destruct (attach fd s) as [[area|f] s1]; [|by destruct H as (? & ? & _)].
    by apply destroy_holds in H as (H1 & H2 & _).
Qed.

(** ** What the file shows *)

Definition anyway (s : Host_t.t) : Prop := True.
Definition shows (m : MemFile.t) (file : Z) (f : File_t.t) (s : Host_t.t) : Prop := contentOf m s = Some (file, f).
Definition opens (fd file : Z) (f : File_t.t) (s : Host_t.t) : Prop := fileOf fd s = Some (file, f).

Lemma shows_steady m file f : steady (shows m file f).
Proof. intros s rest H. exact H. Qed.
Lemma opens_steady fd file f : steady (opens fd file f).
Proof. intros s rest H. exact H. Qed.
#[local] Hint Resolve shows_steady opens_steady : core.

Lemma onContent_shows m file b sl c g s :
  shows m file (File_t.mk b sl c) s -> shows m file (File_t.mk b sl (g c)) (onContent m g s).
Proof.
  unfold shows, onContent. intros Hs. rewrite Hs. unfold contentOf in *. cbn.
  destruct (maps s !! _) as [[file' n]|]; [|done]. destruct (files s !! file') as [f|]; [|done]. injection Hs as <- ->. cbn.
  by rewrite lookup_insert_eq.
Qed.

Lemma setFile_opens fd file f f' s : opens fd file f s -> opens fd file f' (setFile file f' s).
Proof.
  unfold opens, fileOf. cbn. destruct (fds s !! fd) as [x|]; [|done]. destruct (files s !! x) as [y|]; [|done]. intros [= -> ->].
  by rewrite lookup_insert_eq.
Qed.

Lemma ftruncate_opens fd file b c n :
  triple (opens fd file (File_t.mk b false c)) (ftruncate fd n) (fun ok s => ok = true -> opens fd file (File_t.mk n false c) s) anyway.
Proof.
  eapply triple_bind; [by apply triple_granted|]. intros ok s Hs. cbn. rewrite Hs. cbn. destruct ok; cbn; [|done]. intros _. by eapply setFile_opens.
Qed.
Lemma addSeals_opens fd file b c :
  triple (opens fd file (File_t.mk b false c)) (addSeals fd) (fun ok s => ok = true -> opens fd file (File_t.mk b true c) s) anyway.
Proof.
  eapply triple_bind; [by apply triple_granted|]. intros ok s Hs. cbn. rewrite Hs. cbn. destruct ok; cbn; [|done]. intros _. by eapply setFile_opens.
Qed.

Lemma adopt_shows fd file f :
  triple (opens fd file f) (MemFile.adopt fd) (fun m s => MemFile.held_ m = fd /\ MemFile.bytes m = File_t.bytes f /\ shows m file f s /\ opens fd file f s) anyway.
Proof.
  apply triple_scoped. eapply triple_bind with (Q := fun size s => opens fd file f s /\ (size = None \/ size = Some (File_t.bytes f))).
  - eapply triple_bind; [by apply triple_granted|]. intros ok s Hs. cbn. rewrite Hs. destruct ok; auto.
  - intros size s [Hs Hsize]. destruct size as [size|]; [|done]. destruct Hsize as [|[= ->]]; [done|].
    unfold bind, SharedMapping.mmap, granted, asks, bind, named, modify, ret.
    assert (forall rest, fileOf fd (with_answers rest s) = Some (file, f)) as Hr by (intros rest; exact Hs).
    assert (exists g s1, (match answers s with [] => (inl true, s) | g :: rest => (inl g, with_answers rest s) end) = (@inl bool Failure g, s1) /\ fileOf fd s1 = Some (file, f))
      as (g & s1 & -> & Hs1) by (destruct (answers s); eauto).
    rewrite Hs1. destruct (g && _); [|done]. unfold fileOf in Hs1. split_and!; [done|done|..].
    + unfold shows, contentOf. cbn. rewrite lookup_insert_eq. destruct (fds s1 !! fd) as [x|]; [|done].
      destruct (files s1 !! x) as [y|] eqn:Hy; [|done]. injection Hs1 as -> ->. by rewrite Hy.
    + exact Hs1.
Qed.

(** A file that was made has the size it was asked for and keeps it. *)
Lemma create_shows n : triple anyway (MemFile.create n)
  (fun m s => MemFile.bytes m = n /\ exists file, shows m file (File_t.mk n true zeroContent) s /\ opens (MemFile.held_ m) file (File_t.mk n true zeroContent) s) anyway.
Proof.
  eapply triple_bind with (Q := fun fd s => fd = -1 \/ exists file, opens fd file (File_t.mk 0 false zeroContent) s).
  - eapply triple_bind; [by apply triple_granted|]. intros []; [|apply triple_ret; by left]. intros s _. cbn. right. exists (next s).
    unfold opens, fileOf. cbn. by rewrite !lookup_insert_eq.
  - intros fd s Hs. destruct (UniqueFd.isHeld fd) eqn:Hh; [|done]. destruct Hs as [->|[file Hs]]; [done|]. cbn [negb].
    revert s Hs. eapply triple_bind with (Q := fun _ => opens fd file (File_t.mk n true zeroContent)).
    + apply triple_scoped. eapply triple_bind; [apply ftruncate_opens|]. intros []; [|by apply triple_throw].
      eapply triple_bind with (Q := fun _ => opens fd file (File_t.mk n false zeroContent)); [apply triple_ret; auto|]. intros [].
      eapply triple_bind; [apply addSeals_opens|]. intros []; [apply triple_ret; auto|by apply triple_throw].
    + intros []. eapply triple_weaken; [apply adopt_shows|done| |done]. intros m s (<- & Hb & Hsh & Ho). split; [done|]. eauto.
Qed.

Lemma ftruncate_sealed fd file f n s :
  opens fd file f s -> File_t.isSealed f = true -> exists s', ftruncate fd n s = (inl false, s') /\ files s' = files s.
Proof.
  intros Ho Hsl. unfold ftruncate, bind, granted, asks. destruct (answers s) as [|g rest]; cbn; unfold opens in Ho.
  - rewrite Ho, Hsl. cbn. eauto.
  - change (fileOf fd (with_answers rest s)) with (fileOf fd s). rewrite Ho, Hsl, andb_false_r. eauto.
Qed.

Lemma initSharedMutex_shows m p file b sl c :
  triple (shows m file (File_t.mk b sl c)) (initSharedMutex m p) (fun _ => shows m file (File_t.mk b sl (made p (true, true) c))) anyway.
Proof.
  set (P := shows m file (File_t.mk b sl c)). assert (steady P) as HP by apply shows_steady.
  eapply triple_bind; [by apply triple_granted|]. intros inited. eapply triple_bind; [by apply triple_orThrow|]. intros [].
  eapply triple_bind; [apply (triple_modify _ _ (fun _ => P)); by intros s [_ Hs]|]. intros [].
  eapply triple_bind; [by apply triple_granted|]. intros shared.
  eapply triple_bind with (Q := fun robust s => P s); [destruct shared; [by apply triple_granted|by apply triple_ret]|]. intros robust.
  eapply triple_bind with (Q := fun result s => P s /\ (result = true -> shared = true /\ robust = true)).
  { destruct shared, robust; cbn; try (apply triple_ret; by intros; split). apply (triple_weaken P P _ _ (fun _ => P) anyway anyway); [by apply triple_granted|done|by intros; split|done]. }
  intros result. eapply triple_bind with (Q := fun _ s => result = true -> shows m file (File_t.mk b sl (made p (true, true) c)) s).
  { destruct result; [|by apply triple_ret]. apply triple_modify. intros s [Hs Hr] _. destruct (Hr eq_refl) as [-> ->]. by apply onContent_shows. }
  intros []. eapply triple_bind; [apply (triple_modify _ _ (fun _ s => result = true -> shows m file (File_t.mk b sl (made p (true, true) c)) s)); by intros s Hs|].
  intros []. destruct result; [apply triple_ret; auto|by apply triple_throw].
Qed.

(** The mutexes from [from] on are to be made, and the others are. *)
Definition locksMade (from : Z) (c : Content.t) : Prop :=
  Content.livenessAttrs c = Some (true, true) /\ Content.liveness c = Unlocked /\
  (forall d, SharedArea_t.slot (Content.area c) d = Domain_t.zero) /\
  (forall d, 0 <= d < from -> Content.lockAttrs c !! d = Some (true, true)) /\
  Content.area c = SharedArea_t.with_table (SharedArea_t.table (Content.area c)) zeroArea.

Lemma locksMade_next d c : 0 <= d -> locksMade d c -> locksMade (d + 1) (made (Lock d) (true, true) c).
Proof.
  intros H0 (Ha & Hl & Hs & Hm & Hz). unfold made. split_and!; cbn; [done|done| | |].
  - intros d'. destruct (decide (d' = d)) as [->|Hne]; [by rewrite slot_setSlot_eq, Hs|]. rewrite slot_setSlot_ne by done. apply Hs.
  - intros d' Hd'. destruct (decide (d' = d)) as [->|Hne]; [apply lookup_insert_eq|]. rewrite lookup_insert_ne by done. apply Hm. lia.
  - unfold SharedArea_t.setSlot. rewrite Hz. by destruct (Content.area c).
Qed.

Lemma initLocks_shows m file b sl n lo :
  0 <= lo -> triple (fun s => exists c, locksMade lo c /\ shows m file (File_t.mk b sl c) s) (initLocks m (zrange lo (lo + Z.of_nat n)))
    (fun _ s => exists c, locksMade (lo + Z.of_nat n) c /\ shows m file (File_t.mk b sl c) s) anyway.
Proof.
  revert lo. induction n as [|n IH]; intros lo Hlo.
  - rewrite zrange_nil by lia. apply triple_ret. by rewrite Z.add_0_r.
  - rewrite zrange_cons by lia. cbn [initLocks]. intros s (c & Hc & Hs).
    pose proof (initSharedMutex_shows m (Lock lo) file b sl c s Hs) as H. unfold bind. destruct (initSharedMutex m (Lock lo) s) as [[[]|] s1]; [|done].
    replace (lo + Z.of_nat (S n)) with (lo + 1 + Z.of_nat n) by lia. apply IH; [lia|]. eauto using locksMade_next.
Qed.

(** A freshly formatted area: stamped for this build, every slot free, and every
    mutex in it shared between processes and robust. *)
Definition formatted (c : Content.t) : Prop :=
  SharedArea_t.abiVersion (Content.area c) = AbiVersion /\ SharedArea_t.areaBytes (Content.area c) = AreaBytes /\
  SharedArea_t.maxDomains (Content.area c) = MaxDomains /\ Content.livenessAttrs c = Some (true, true) /\
  forall d, 0 <= d < MaxDomains -> SharedArea_t.slot (Content.area c) d = Domain_t.zero /\ Content.lockAttrs c !! d = Some (true, true).

Lemma formatArea_shows : triple anyway formatArea
  (fun m s => exists file c, formatted c /\ Content.liveness c = Unlocked /\ shows m file (File_t.mk AreaBytes true c) s) anyway.
Proof.
  eapply triple_bind; [apply create_shows|]. intros m.
  eapply triple_bind with (Q := fun _ s => MemFile.bytes m = AreaBytes /\ exists file c, locksMade MaxDomains c /\ shows m file (File_t.mk AreaBytes true c) s).
  - apply triple_scoped. intros s (Hb & file & Hs & _). cbn.
    apply (onContent_shows _ _ _ _ _ (fun _ => zeroContent)) in Hs. unfold initMutexes, bind.
    pose proof (initSharedMutex_shows m Liveness _ _ _ _ _ Hs) as H. destruct (initSharedMutex m Liveness _) as [[[]|] s1]; [|done].
    pose proof (initLocks_shows m file AreaBytes true (Z.to_nat MaxDomains) 0 ltac:(lia) s1) as H2.
    change (0 + Z.of_nat (Z.to_nat MaxDomains)) with MaxDomains in H2.
    assert (locksMade 0 (made Liveness (true, true) zeroContent)) as H0 by (split_and!; cbn; [done..|lia|done]).
    specialize (H2 (ex_intro _ _ (conj H0 H))). destruct (initLocks m _ s1) as [[[]|] s2]; [|done]. eauto.
  - intros []. eapply triple_bind; [apply (triple_modify _ _ (fun _ s => exists file c, formatted c /\ Content.liveness c = Unlocked /\ shows m file (File_t.mk AreaBytes true c) s))|].
    + intros s (Hb & file & c & (Ha & Hl & Hs & Hm & Hz) & Hsh). exists file. eexists. split_and!; [| |by apply onContent_shows].
      * split_and!; [done..|]. cbn. rewrite Hb. intros d Hd. split; [apply Hs|by apply Hm].
      * done.
    + intros []. by apply triple_ret.
Qed.

Lemma ServedArea_shows self : triple anyway (ServedArea self)
  (fun m s => exists file c, formatted c /\ Content.liveness c = LockedBy self /\ shows m file (File_t.mk AreaBytes true c) s) anyway.
Proof.
  eapply triple_bind with (Q := fun _ => anyway); [by intros s _; unfold openCmeSession, bind, granted, orThrow; destruct (answers s) as [|[]]|].
  intros []. apply triple_scoped. eapply triple_bind; [eapply triple_weaken; [apply formatArea_shows|done..]|]. intros m.
  eapply triple_bind with (Q := fun _ s => exists file c, formatted c /\ Content.liveness c = LockedBy self /\ shows m file (File_t.mk AreaBytes true c) s);
    [|intros []; by apply triple_ret].
  apply triple_scoped. intros s (file & c & Hf & Hl & Hs).
  assert (triple (shows m file (File_t.mk AreaBytes true c)) (lockLiveness self m)
    (fun _ => shows m file (File_t.mk AreaBytes true (Content.with_liveness (LockedBy self) c))) anyway) as H.
  { eapply triple_bind; [by apply triple_granted|]. intros ok. eapply triple_bind; [by apply triple_orThrow|]. intros [] x [_ Hx]. cbn.
    rewrite Hx. cbn. rewrite Hl. by apply onContent_shows. }
  specialize (H s Hs). destruct (lockLiveness self m s) as [[[]|] s1]; [|done]. exists file. eexists. by split_and!; [| |exact H].
Qed.

(** The header says what this build reads. *)
Definition stamped (c : Content.t) : Prop :=
  SharedArea_t.abiVersion (Content.area c) = AbiVersion /\ SharedArea_t.areaBytes (Content.area c) = AreaBytes.

Lemma attach_shows fd file f s :
  opens fd file f s -> stamped (File_t.content f) ->
  match attach fd s with
  | (inl m, s') => shows m file f s' /\ MemFile.bytes m = File_t.bytes f
  | (inr failure, _) => failure = BackendError
  end.
Proof.
  intros Ho [Hv Hb]. pose proof (adopt_shows fd file f s Ho) as H. unfold attach, bind, translated, scoped.
  destruct (MemFile.adopt fd s) as [[m|failure] s1]; [|done]. destruct H as (_ & Hby & Hs & _). unfold asks. rewrite Hs.
  rewrite Hv, Hb, !Z.eqb_refl. cbn. done.
Qed.

Lemma attach_granted fd file f s :
  opens fd file f s -> stamped (File_t.content f) -> 0 < File_t.bytes f -> answers s = [] -> exists m s', attach fd s = (inl m, s').
Proof.
  intros Ho Hst Hpos Ha. destruct s as [fs F Mp S At nx an]. cbn in Ha. subst an.
  pose proof (attach_shows fd file f _ Ho Hst) as H. destruct (attach fd _) as [[m|failure] s1] eqn:He; [eauto|]. exfalso. revert He.
  unfold attach, MemFile.adopt, SharedMapping.mmap, fstat, bind, translated, scoped, granted, asks, ret. cbn. unfold opens in Ho.
  rewrite !Ho. cbn. rewrite !Ho. cbn. rewrite (proj2 (Z.ltb_lt 0 _)) by done. cbn. unfold contentOf. cbn. rewrite lookup_insert_eq.
  unfold fileOf in Ho. cbn in Ho. destruct (F !! fd) as [x|]; [|done]. destruct (fs !! x) as [y|] eqn:Hy; [|done]. injection Ho as -> ->.
  rewrite Hy. destruct Hst as [Hv Hb]. rewrite Hv, Hb, !Z.eqb_refl. done.
Qed.

(** C36: what the daemon formats, a requester attaches.  A start that succeeds has
    an area stamped for its build, every slot free, every mutex in it shared and
    robust, and its liveness held.  Whatever is written to that area afterwards
    outside its header, no descriptor of it can change its size, and a requester
    handed one attaches the same words over their whole length, unless its
    kernel refuses a call. *)
Theorem served_area_attaches self s area s' :
  ServedArea self s = (inl area, s') ->
  exists file c, contentOf area s' = Some (file, File_t.mk AreaBytes true c) /\ formatted c /\ Content.liveness c = LockedBy self /\
    forall s1 c1 fd, fileOf fd s1 = Some (file, File_t.mk AreaBytes true c1) -> stamped c1 ->
      (forall n, exists s2, ftruncate fd n s1 = (inl false, s2) /\ files s2 = files s1) /\
      (match attach fd s1 with
       | (inl m, s2) => contentOf m s2 = Some (file, File_t.mk AreaBytes true c1) /\ MemFile.bytes m = AreaBytes
       | (inr failure, _) => failure = BackendError
       end) /\
      (answers s1 = [] -> exists m s2, attach fd s1 = (inl m, s2)).
Proof.
  intros Hs. pose proof (ServedArea_shows self s I) as H. rewrite Hs in H. destruct H as (file & c & Hf & Hl & Hc).
  exists file, c. split_and!; [done..|]. intros s1 c1 fd Ho Hst. split_and!.
  - intros n. by eapply ftruncate_sealed.
  - apply (attach_shows fd file _ s1 Ho Hst).
  - apply (attach_granted fd file _ s1 Ho Hst). done.
Qed.

(** ** Examples *)

Definition host0 : Host_t.t := Host_t.mk ∅ {[ 1 := 1 ]} ∅ 0 0 10 [].

Lemma bringup_balanced_witness :
  fst (ServedArea 7 host0) <> inr SessionError /\
  match attach 1 host0 with (inr _, s') => fds s' = ∅ /\ maps s' = ∅ | _ => True end.
Proof.
  split; [by vm_compute|].
  assert (fresh host0) as Hf.
  { split; [reflexivity|]. split; intros k Hk; [cbn in Hk |- *; apply lookup_singleton_ne; lia|apply lookup_empty]. }
  assert (0 < 1 < next host0) as Hn by (cbn; lia).
  assert ((∅ : gmap Z Z) !! 1 = None) as He by apply lookup_empty.
  assert (fds host0 = <[1 := 1]> ∅) as Hfd by reflexivity.
  pose proof (bringup_balanced 7 host0 1 1 ∅ Hf Hn He Hfd) as [_ H].
  destruct (attach 1 host0) as [[m|f] s']; [exact I|exact H].
Defined.

Lemma served_area_attaches_witness :
  exists area s' file f, ServedArea 7 host0 = (inl area, s') /\ contentOf area s' = Some (file, f) /\ File_t.bytes f = AreaBytes /\ File_t.isSealed f = true.
Proof.
  assert (exists area s', ServedArea 7 host0 = (inl area, s')) as (area & s' & Hs).
  { destruct (ServedArea 7 host0) as [[area|f] s'] eqn:He; [eauto|]. exfalso. by vm_compute in He. }
  destruct (served_area_attaches 7 host0 area s' Hs) as (file & c & Hc & _). exists area, s', file. eauto.
Defined.

(** The check is of the size the header states: a mapping shorter than the area,
    whose header states the whole, is taken. *)
Definition shortFile : File_t.t :=
  File_t.mk 4096 true (Content.with_area (SharedArea_t.publishReady AreaBytes zeroArea) zeroContent).
Theorem short_area_attaches :
  exists m s', attach 1 (with_files {[ 1 := shortFile ]} host0) = (inl m, s') /\ MemFile.bytes m < AreaBytes.
Proof. eexists _, _. split; [vm_compute; reflexivity|vm_compute; reflexivity]. Qed.
End bringup.
