(* ===== verification/Requester.v ===== *)
(** * Requester: the theorems on a requester's session

    The count of a session's holders, which a move to a replacement daemon
    waits on, and the door such a move closes and has to open again. *)

From S2P Require Import Prelude Effect Bitmap Types Layout Wire Area Manager Turn Client.
Import CmedSession.

Section quiet_client.
Context (E : ClientEnv.t).
Hypothesis Hquiet : forall n a, ClientEnv.interf E n a = a.

(** What a client stands at, whatever its clocks and its socket. *)
Definition at_ (a : SharedArea_t.t) (h : Z) (k : bool) (i : IdLookup.t) (c : Client.t) : Prop :=
  Client.shm c = a /\ Client.holders_ c = h /\ Client.closing_ c = k /\ Client.ids c = i.

Lemma c_load {A} (f : SharedArea_t.t -> A) a h k i (Q : A -> Client.t -> Prop) c :
  at_ a h k i c -> (forall c', at_ a h k i c' -> Client.wallReads c' = Client.wallReads c -> Q (f a) c') -> wp (load f) E Q c.
Proof.
  intros (Ha & Hr) HQ. apply wp_load. change (area (interfere E c)) with (ClientEnv.interf E (Client.accesses c) (Client.shm c)).
  rewrite Hquiet, Ha. apply HQ; [|done]. split; [|done]. cbn. by rewrite Hquiet.
Qed.

Lemma c_store f a h k i (Q : unit -> Client.t -> Prop) c :
  at_ a h k i c -> (forall c', at_ (f a) h k i c' -> Client.wallReads c' = Client.wallReads c -> Q tt c') -> wp (store f) E Q c.
Proof.
  intros (Ha & Hr) HQ. apply wp_store. apply HQ; [|done]. split; [|done].
  change (f (ClientEnv.interf E (Client.accesses c) (Client.shm c)) = f a). by rewrite Hquiet, Ha.
Qed.

Lemma c_modify f (Q : unit -> Client.t -> Prop) c : Q tt (f c) -> wp (modify f) E Q c.
Proof. done. Qed.

Lemma c_get {A} (f : Client.t -> A) (Q : A -> Client.t -> Prop) c : Q (f c) c -> wp (get f) E Q c.
Proof. done. Qed.

Lemma c_publish d next a h k i (Q : unit -> Client.t -> Prop) c :
  at_ a h k i c ->
  (forall c', at_ (onSlot d (fun s => Domain_t.with_seq (u32 (Domain_t.seq s + 1)) s) (onSlot d (Domain_t.with_state next) a)) h k i c' ->
    Client.wallReads c' = Client.wallReads c -> Q tt c') -> wp (publish d next) E Q c.
Proof.
  intros Hc HQ. unfold publish. apply wp_bind. eapply c_store; [done|]. intros c1 Hc1 Hw1. eapply c_store; [done|].
  intros c2 Hc2 Hw2. apply HQ; [done|congruence].
Qed.

(** A drain of an empty count ends at its first look; one of a count nobody
    changes ends at its deadline. *)
Lemma drain_empty within c : Client.holders_ c = 0 -> wp (closeAndDrain within) E (fun drained _ => drained = true) c.
Proof.
  intros Hh. unfold closeAndDrain. apply wp_bind, c_modify. do 4 node_step. cbn [waitDrained]. do 2 node_step. cbn.
  rewrite Hh. done.
Qed.

Definition clock_reaches (within : Z) : Prop :=
  forall n, exists m, (m <= ClientEnv.fuel E)%nat /\ ClientEnv.clock E n + within <= ClientEnv.clock E (S n + m).

Lemma drain_stuck turns waiting c :
  Client.holders_ c <> 0 ->
  (exists m, (m < turns)%nat /\ timing.Deadline.expiredAt waiting (ClientEnv.clock E (Client.clockReads c + m)%nat) = true) ->
  wp (waitDrained turns waiting) E (fun drained _ => drained = false) c.
Proof.
  revert c. induction turns as [|turns IH]; intros c Hh (m & Hm & Hexp); [lia|].
  cbn [waitDrained]. apply wp_bind, c_get. rewrite (proj2 (Z.eqb_neq _ _)) by done. do 2 node_step.
  case_if; [by node_step|]. apply IH; [done|]. destruct m as [|m]; [rewrite Nat.add_0_r in Hexp; cbn in *; congruence|].
  exists m. split; [lia|]. cbn. by replace (S (Client.clockReads c + m)) with (Client.clockReads c + S m)%nat by lia.
Qed.

Lemma closeAndDrain_stuck within c :
  Client.holders_ c <> 0 -> clock_reaches within -> wp (closeAndDrain within) E (fun drained _ => drained = false) c.
Proof.
  intros Hh Hclock. unfold closeAndDrain. apply wp_bind, c_modify. do 5 node_step. eapply wp_mono.
  { apply drain_stuck; [done|]. destruct (Hclock (Client.clockReads c)) as (m & Hm & Hend). exists m. split; [cbn; lia|].
    apply Z.leb_le. exact Hend. }
  intros ? c1 ->. cbn [negb when]. apply wp_bind, c_modify. by node_step.
Qed.

(** The fast path: the slot is named, free and its turn valid. *)
Record rideable (name : DomainName.t) (d : Z) (c : Client.t) : Prop := {
  ride_cached : IdLookup.find name (Client.ids c) = Some d;
  ride_live : Domain_t.registryState (SharedArea_t.slot (Client.shm c) d) = Live;
  ride_named : DomainName.read (Domain_t.name (SharedArea_t.slot (Client.shm c) d)) = DomainName.getText name;
  ride_lock : Domain_t.lock (SharedArea_t.slot (Client.shm c) d) = Unlocked;
  ride_turn : is_Some (timing.WallStamp.aheadAt (Domain_t.expiresAtNanos (SharedArea_t.slot (Client.shm c) d))
    (ClientEnv.wall E (Client.wallReads c)));
}.

Lemma c_isNamed name d a h k i (Q : bool -> Client.t -> Prop) c :
  at_ a h k i c -> Domain_t.registryState (SharedArea_t.slot a d) = Live ->
  DomainName.read (Domain_t.name (SharedArea_t.slot a d)) = name ->
  (forall c', at_ a h k i c' -> Client.wallReads c' = Client.wallReads c -> Q true c') -> wp (isNamed d name) E Q c.
Proof.
  intros Hc Hl Hn HQ. unfold isNamed. apply wp_bind. eapply c_load; [done|]. intros c1 Hc1 Hw1. rewrite Hl.
  change (bool_decide (Live = Live)) with true. cbn [negb]. apply wp_bind. eapply c_load; [done|]. intros c2 Hc2 Hw2.
  rewrite Hn, bool_decide_true by done. node_step. apply HQ; [done|congruence].
Qed.

Lemma c_lockForRequest d a h k i (Q : bool -> Client.t -> Prop) c :
  at_ a h k i c -> Domain_t.lock (SharedArea_t.slot a d) = Unlocked ->
  (forall a' c', at_ a' h k i c' -> Client.wallReads c' = Client.wallReads c ->
    (exists v w, SharedArea_t.slot a' d = Domain_t.with_waiters w (Domain_t.with_lock v (SharedArea_t.slot a d))) -> Q false c') ->
  wp (lockForRequest d) E Q c.
Proof.
  intros Hc Hl HQ. unfold lockForRequest. apply wp_bind. eapply c_store; [done|]. intros c1 Hc1 Hw1. apply wp_bind.
  unfold RobustLock_lock. do 2 node_step. cbn [RobustLock_lock_turns]. unfold RobustLock_tryLock. do 3 node_step.
  apply wp_atomically. destruct Hc1 as (Ha1 & Hr1).
  change (area (interfere E c1)) with (ClientEnv.interf E (Client.accesses c1) (Client.shm c1)). rewrite Hquiet, Ha1.
  set (a1 := onSlot d (fun s => Domain_t.with_waiters _ s) a).
  assert (SharedArea_t.slot a1 d = Domain_t.with_waiters (u32 (Domain_t.waiters (SharedArea_t.slot a d) + 1)) (SharedArea_t.slot a d)) as Hs1
    by apply slot_setSlot_eq.
  rewrite Hs1. cbn [Domain_t.lock Domain_t.with_waiters]. rewrite Hl. cbv iota. set (c2 := with_area _ _).
  assert (at_ (onSlot d (fun s => match Domain_t.lock s with LockedBy _ => s | _ => Domain_t.with_lock (LockedBy (ClientEnv.self E)) s end) a1)
    h k i c2) as Hc2 by by split.
  node_step. apply wp_bind, wp_ret. apply wp_bind. eapply c_store; [exact Hc2|]. intros c3 Hc3 Hw3. node_step.
  eapply HQ; [exact Hc3|by rewrite Hw3|]. exists (LockedBy (ClientEnv.self E)). eexists.
  unfold onSlot. rewrite !slot_setSlot_eq, Hs1. cbn [Domain_t.lock Domain_t.with_waiters]. rewrite Hl. reflexivity.
Qed.

Lemma ride_attempt name d timeout h c :
  0 <= d < MaxDomains -> rideable name d c -> Client.closing_ c = false -> Client.holders_ c = h ->
  wp (attempt name timeout) E (fun result c' => result = inl (Some (CmedGuard.mk true d false)) /\ Client.holders_ c' = h) c.
Proof.
  intros Hd [Hc Hl Hn Hlk Ht] Hk Hh. unfold attempt. apply wp_bind, c_get. rewrite Hk. apply wp_bind. unfold resolveId.
  apply wp_bind, c_get. rewrite Hc. apply wp_bind. apply wp_bind.
  eapply (c_isNamed _ _ (Client.shm c) h false (Client.ids c)); [by split_and!|done|done|]. intros c1 Hc1 Hw1. do 2 node_step.
  assert (isNoDomain d = false) as -> by (unfold isNoDomain, NoDomain, MaxDomains in *; apply Z.eqb_neq; lia).
  apply wp_bind. eapply c_lockForRequest; [exact Hc1|done|]. intros a2 c2 Hc2 Hw2 (v & w & Hs2). apply wp_bind.
  eapply c_isNamed; [exact Hc2|by rewrite Hs2|by rewrite Hs2|]. intros c3 Hc3 Hw3. cbn [negb]. apply wp_bind.
  eapply c_publish; [exact Hc3|]. intros c4 Hc4 Hw4. apply wp_bind. unfold hasValidTurn. apply wp_bind.
  eapply c_load; [exact Hc4|]. intros c5 Hc5 Hw5. do 3 node_step.
  unfold onSlot. rewrite !slot_setSlot_eq, Hs2. cbn [Domain_t.expiresAtNanos Domain_t.with_seq Domain_t.with_state Domain_t.with_waiters Domain_t.with_lock].
  change (wallOf E c5) with (ClientEnv.wall E (Client.wallReads c5)). rewrite Hw5, Hw4, Hw3, Hw2, Hw1.
  rewrite bool_decide_true by done. apply wp_bind, wp_ret. node_step. split; [done|]. apply Hc5.
Qed.

Lemma unlock_drops d c :
  0 <= d < MaxDomains -> wp (unlock (CmedGuard.mk true d false)) E (fun _ c' => Client.holders_ c' = u32 (Client.holders_ c - 1)) c.
Proof.
  intros Hd. unfold unlock, release. cbn [CmedGuard.area_ CmedGuard.domainId_ when]. apply wp_bind, wp_bind, wp_bind.
  eapply (c_publish _ _ (Client.shm c) (Client.holders_ c) (Client.closing_ c) (Client.ids c)); [by split_and!|].
  intros c1 Hc1 _. apply wp_bind. eapply c_load; [exact Hc1|]. intros c2 Hc2 _. apply wp_bind. eapply c_store; [exact Hc2|].
  intros c3 Hc3 _.
  assert (forall c', Client.holders_ c' = Client.holders_ c -> wp dropHolder E (fun _ => wp (ret (CmedGuard.emptied (CmedGuard.mk true d false))) E
    (fun _ c' => Client.holders_ c' = u32 (Client.holders_ c - 1))) c') as Hdrop.
  { intros c' Hc'. apply c_modify. apply wp_ret. cbn. by rewrite Hc'. }
  apply wp_when; intros _; [|apply Hdrop, Hc3]. unfold ring. rewrite (proj2 (Z.leb_gt _ _)) by lia. apply wp_bind.
  eapply c_store; [exact Hc3|]. intros c4 Hc4 _. eapply c_store; [exact Hc4|]. intros c5 Hc5 _. apply Hdrop, Hc5.
Qed.
End quiet_client.

(** A guard is never counted among the holders of the area.  A guard takes
    the session's count without raising it and lowers it on its way out.  While
    the first guard of a session is out the count is zero, so a move to a
    replacement daemon does not wait for it and unmaps the area under it; once
    the guard is back the count stands at 2^32 - 1, and every later move waits
    out its whole budget and gives up. *)
Theorem guard_underflows_holders E name d timeout within c :
  (forall n a, ClientEnv.interf E n a = a) -> clock_reaches E within -> 0 <= d < MaxDomains ->
  rideable E name d c -> Client.closing_ c = false -> Client.holders_ c = 0 ->
  wp (tryLockOnce name timeout) E (fun result c1 =>
    result = inl (Some (CmedGuard.mk true d false)) /\ Client.holders_ c1 = 0 /\
    wp (closeAndDrain within) E (fun drained _ => drained = true) c1 /\
    wp (unlock (CmedGuard.mk true d false)) E (fun _ c2 => Client.holders_ c2 = 2 ^ 32 - 1 /\
      wp (closeAndDrain within) E (fun drained _ => drained = false) c2) c1) c.
Proof.
  intros Hq Hclock Hd Hride Hk Hh. unfold tryLockOnce, addHolder, dropHolder. apply wp_bind, c_modify. rewrite Hh. apply wp_bind.
  eapply wp_mono; [apply (ride_attempt E Hq name d timeout 1); [done|by destruct Hride|done|done]|].
  intros ? c1 [-> Hh1]. apply wp_bind, c_modify. node_step. set (c2 := Client.with_holders_ _ c1).
  assert (Client.holders_ c2 = 0) as Hh2 by (unfold c2; cbn; by rewrite Hh1).
  split_and!; [done|done|by apply drain_empty|]. eapply wp_mono; [by apply unlock_drops|]. intros ? c3 Hh3. cbv beta in Hh3.
  rewrite Hh2 in Hh3. change (u32 (0 - 1)) with (2 ^ 32 - 1) in Hh3. split; [done|].
  apply closeAndDrain_stuck; [rewrite Hh3; lia|done].
Qed.

(** A client whose cache and slot 1 carry job, with a second of validity left. *)
Definition sample_client_env : ClientEnv.t :=
  ClientEnv.mk (fun n => Z.of_nat n * 1000000000) (fun n => 1000) (fun _ a => a) 4
    (CmedClientConfig_t.mk (timing.Millis 5000) (timing.Millis 5000)) 7
    (fun _ => false) (fun _ => None) (fun _ => Silence) (fun _ => NotYet).

Definition sample_client : Client.t :=
  Client.mk (onSlot 1 (Domain_t.with_expiresAtNanos 2000) (solo.area Idle)) 0 false {[ DomainName.pad solo.job := 1 ]}
    StartSequence ∅ 0 0 0 0 [] 0 0.

Lemma guard_underflows_holders_witness :
  exists c1, tryLockOnce (DomainName.pad solo.job) 100 sample_client_env sample_client = Some (inl (Some (CmedGuard.mk true 1 false)), c1) /\
    Client.holders_ c1 = 0.
Proof.
  pose proof (guard_underflows_holders sample_client_env (DomainName.pad solo.job) 1 100 (timing.Millis 200) sample_client
    ltac:(done) ltac:(intros n; exists 0%nat; split; [lia|]; rewrite Nat.add_0_r; cbn [ClientEnv.clock sample_client_env]; unfold timing.Millis; lia)
    ltac:(unfold MaxDomains; lia)) as H.
  assert (rideable sample_client_env (DomainName.pad solo.job) 1 sample_client) as Hr.
  { split; try (vm_compute; reflexivity). exists 1000. vm_compute. reflexivity. }
  specialize (H Hr eq_refl eq_refl). apply wp_elim in H as (? & c1 & Hrun & -> & Hh & _). exists c1. split; [exact Hrun|exact Hh].
Defined.

(** ** A move that fails after it connected *)

(** The door is closed and the daemon on the other end is never seen gone. *)
Record wedged (E : ClientEnv.t) (c : Client.t) : Prop := {
  wedged_closed : Client.closing_ c = true;
  wedged_served : forall n, (Client.looks c <= n)%nat -> ClientEnv.peerGone E n = false;
}.

Section wedged_session.
Context (E : ClientEnv.t).

Lemma w_isServing c (Q : bool -> Client.t -> Prop) :
  wedged E c -> (forall c', wedged E c' -> Client.clockReads c' = Client.clockReads c -> Q true c') -> wp isServing E Q c.
Proof.
  intros [Hk Hp] HQ.
  assert (Q (negb (ClientEnv.peerGone E (Client.looks c))) (Client.with_looks (S (Client.looks c)) c)) as HH; [|exact HH].
  rewrite Hp by lia. apply HQ; [|done]. split; [done|]. intros n Hn. apply Hp. cbn in Hn. lia.
Qed.

(** An attempt at a closed door touches nothing. *)
Lemma w_tryLockOnce name timeout c (Q : option CmedGuard.t + CmedError -> Client.t -> Prop) :
  wedged E c -> (forall c', wedged E c' -> Client.clockReads c' = Client.clockReads c -> Q (inl None) c') ->
  wp (tryLockOnce name timeout) E Q c.
Proof.
  intros [Hk Hp] HQ. unfold tryLockOnce, addHolder, dropHolder. apply wp_bind, c_modify. apply wp_bind.
  unfold attempt. apply wp_bind, c_get. cbn [Client.closing_ Client.with_holders_]. rewrite Hk. node_step.
  apply wp_bind, c_modify. node_step. by apply HQ.
Qed.

Lemma w_tryLock_turns turns name deadline c :
  wedged E c ->
  (exists m, (m < turns)%nat /\ timing.Deadline.remaining 1 deadline (ClientEnv.clock E (Client.clockReads c + m)%nat) = None) ->
  wp (tryLock_turns turns name deadline) E (fun r c' => r = inl None /\ wedged E c') c.
Proof.
  revert c. induction turns as [|turns IH]; intros c Hw (m & Hm & Hend); [lia|].
  cbn [tryLock_turns]. do 2 node_step. change (clockOf E c) with (ClientEnv.clock E (Client.clockReads c)).
  set (c1 := tickClock c). assert (wedged E c1) as Hw1 by by destruct Hw.
  assert (Client.clockReads c1 = S (Client.clockReads c)) as Hr1 by done.
  destruct (timing.Deadline.remaining 1 deadline (ClientEnv.clock E (Client.clockReads c))) as [left_|] eqn:Hleft; [|by node_step].
  apply wp_bind, w_tryLockOnce; [done|]. intros c2 Hw2 Hr2. apply wp_bind, w_isServing; [done|]. intros c3 Hw3 Hr3.
  apply wp_bind, c_get. rewrite (wedged_closed _ _ Hw3). cbn [negb]. apply wp_bind. unfold migrate.
  apply wp_bind, w_isServing; [done|]. intros c4 Hw4 Hr4. node_step. apply IH; [done|].
  destruct m as [|m]; [rewrite Nat.add_0_r in Hend; congruence|]. exists m. split; [lia|].
  rewrite Hr4, Hr3, Hr2, Hr1. by replace (S (Client.clockReads c) + m)%nat with (Client.clockReads c + S m)%nat by lia.
Qed.

Lemma w_tryLock text name timeout c :
  DomainName.make text = Some name -> clock_reaches E timeout -> wedged E c ->
  wp (tryLock text timeout) E (fun r c' => r = inl None /\ wedged E c') c.
Proof.
  intros Hn Hclock Hw. unfold tryLock. rewrite Hn. do 4 node_step. apply w_tryLock_turns; [by destruct Hw|].
  destruct (Hclock (Client.clockReads c)) as (m & Hm & Hend). exists m. split; [cbn; lia|].
  unfold timing.Deadline.remaining, timing.Deadline.make. cbn [timing.Deadline.ends_]. rewrite Z.quot_1_r.
  change (clockOf E c) with (ClientEnv.clock E (Client.clockReads c)).
  change (Client.clockReads (tickClock c)) with (S (Client.clockReads c)). by rewrite (proj2 (Z.leb_le _ _)) by lia.
Qed.
End wedged_session.

(** The replacement takes the connection and does not answer in time. *)
Record unanswered (E : ClientEnv.t) (mapped : SharedArea_t.t) (c : Client.t) : Prop := {
  unanswered_reached : ClientEnv.replacement E (Client.connects c) = Reached mapped;
  unanswered_sent : ClientEnv.sendFails E (length (Client.sent c)) = None;
  unanswered_silent : ClientEnv.received E (Client.receives c) = Silence;
}.

(** A move that fails after it connected closes the session for good.  The
    move shuts the door, drains, connects, and only its last line opens the
    door again; when the replacement accepts and does not answer the Hello in
    time, the error leaves past that line with the new connection in place.
    From then on the session reads as served, so no later call moves it again,
    and every [tryLock] on every name runs out its deadline empty-handed, for
    as long as that daemon lives. *)
Theorem failed_move_closes_session E mapped within c :
  Client.holders_ c = 0 -> unanswered E mapped c ->
  (forall n, (Client.looks c <= n)%nat -> ClientEnv.peerGone E n = false) ->
  wp (migrateLocked within) E (fun moved c1 => moved = inr CmedAreaNotReadyError /\ wedged E c1) c /\
  (forall c1, wedged E c1 -> wp (migrate within) E (fun moved c2 => moved = inl true /\ wedged E c2) c1) /\
  (forall text name timeout c1, DomainName.make text = Some name -> clock_reaches E timeout -> wedged E c1 ->
    wp (tryLock text timeout) E (fun guard c2 => guard = inl None /\ wedged E c2) c1).
Proof.
  intros Hh [Hr Hs Hq] Hp. split_and!.
  - unfold migrateLocked, closeAndDrain. apply wp_bind, wp_bind, c_modify. do 4 node_step. cbn [waitDrained].
    do 2 node_step. apply c_get. cbn [Client.holders_ tickClock ClientArea Client.with_clockReads Client.with_closing_]. rewrite Hh.
    change (0 =? 0) with true. cbn [negb when]. apply wp_ret, wp_bind, wp_ret, wp_ret. cbn [negb].
    unfold connectToDaemon, askForArea, send, receiveAnswer, wp, bind, ret. cbn. rewrite Hr. cbn. rewrite Hs. cbn. rewrite Hq. cbn.
    split; [done|]. by split.
  - intros c1 Hw. unfold migrate. apply wp_bind, w_isServing; [done|]. intros c2 Hw2 _. by node_step.
  - intros text name timeout c1. apply w_tryLock.
Qed.

Definition sample_replaced_env : ClientEnv.t :=
  ClientEnv.mk (fun n => Z.of_nat n * 1000000000) (fun n => 1000) (fun _ a => a) 4
    (CmedClientConfig_t.mk (timing.Millis 5000) (timing.Millis 5000)) 7
    (fun _ => false) (fun _ => None) (fun _ => Silence) (fun _ => Reached (solo.area Idle)).

(** A turn stands in the area and the session cannot reach it. *)
Lemma failed_move_closes_session_witness :
  exists c1 c2, migrateLocked 100 sample_replaced_env sample_client = Some (inr CmedAreaNotReadyError, c1) /\
    tryLock solo.job (timing.Millis 200) sample_replaced_env c1 = Some (inl None, c2).
Proof.
  destruct (failed_move_closes_session sample_replaced_env (solo.area Idle) 100 sample_client eq_refl ltac:(by split) ltac:(done))
    as (Hmove & _ & Hlock).
  apply wp_elim in Hmove as (? & c1 & Hrun & -> & Hw).
  specialize (Hlock solo.job (DomainName.pad solo.job) (timing.Millis 200) c1 ltac:(vm_compute; reflexivity)).
  assert (clock_reaches sample_replaced_env (timing.Millis 200)) as Hc.
  { intros n. exists 0%nat. split; [lia|]. rewrite Nat.add_0_r. cbn [ClientEnv.clock sample_replaced_env]. unfold timing.Millis. lia. }
  specialize (Hlock Hc Hw). apply wp_elim in Hlock as (? & c2 & Hrun2 & -> & _). by exists c1, c2.
Defined.
