(* ===== verification/Workers.v ===== *)
(** * Workers: the dispatcher and its pool

    Models [src/daemon/daemon/serve/workers.cpp] and [serve/handler.cpp]: the
    dispatcher's pass over the pending bits, the hand-over of a domain to a
    worker, a worker's turn, and the maintenance pass.

    The threads share words and nothing else, so the model is the machine of
    their accesses: a step of a thread is the code from one shared access to the
    next.  A wait on a word may return at any time, so [waitOnWord] is a step
    that changes nothing, and the wake a hand-over sends, which [parked] decides,
    changes no word either.  [serveLock] is entered in one step, recorded in
    [served], and left in another; what it does is the manager's. *)

From S2P Require Import Prelude Bitmap Types.

Definition MostWorkers : Z := 64.

(** [requireWorkerCount]. *)
Definition requireWorkerCount (count : Z) : option Z :=
  if count =? 0 then None else if MostWorkers <? count then None else Some count.

(** ** What a thread is doing *)

(** A worker: at the top of its loop, before the exchange of its mailbox, before
    its offer, in its wait, inside [serveLock], before the release of the claim,
    and out. *)
Inductive wpc :=
| WTop | WRead | WTake (seen : Z) | WOffer (seen : Z) | WWait (seen : Z)
| WServe (domainId : Z) | WDone (domainId : Z) | WOut.

Module Worker_t.
Record t := mk { domainId : Z; handed : Z; at_ : wpc }.
Definition goes (p : wpc) (w : t) : t := mk (domainId w) (handed w) p.
End Worker_t.

(** What a dispatcher pass carries. *)
Module Pass.
Record t := mk { seen : Z; taking : Bits.t; deferred : bool; handed : bool }.
Definition with_taking (v : Bits.t) (p : t) : t := mk (seen p) v (deferred p) (handed p).
Definition with_deferred (p : t) : t := mk (seen p) (taking p) true (handed p).
Definition with_handed (p : t) : t := mk (seen p) (taking p) (deferred p) true.
End Pass.

(** The dispatcher: before the doorbell, the snapshot of the busy domains, the
    snapshot of the pending ones, the clearing of those it takes; then for each
    the claim, the look at the idle seats, the taking of one, the undoing of the
    claim, the store and the bump of the hand-over, the bit going back up; then
    the end of the pass and its wait. *)
Inductive dpc :=
| DTop | DBell | DBusy (seen : Z) | DPending (seen : Z) (held : Bits.t) | DClear (p : Pass.t)
| DNext (p : Pass.t)
| DClaim (p : Pass.t) (d : Z) | DSeat (p : Pass.t) (d : Z) | DTake (p : Pass.t) (d seat : Z)
| DUndo (p : Pass.t) (d : Z) | DStore (p : Pass.t) (d seat : Z) | DBump (p : Pass.t) (d seat : Z)
| DBack (p : Pass.t) (d : Z)
| DEnd (p : Pass.t) | DSleep (p : Pass.t) | DOut.

Module Pool.
Record t := mk {
  pending : Bits.t;
  doorbell : Z;
  inFlight : Bits.t;
  idle : Bits.t;
  running : bool;  (* the passes *)
  working : bool;  (* the pool *)
  heartbeat : Z;
  lastHeartbeat : Z;
  workers : gmap Z Worker_t.t;
  dispatcher : dpc;
  served : list Z;  (* the domains [serveLock] was entered for, newest first *)
}.

Definition with_pending (v : Bits.t) (s : t) : t :=
  mk v (doorbell s) (inFlight s) (idle s) (running s) (working s) (heartbeat s) (lastHeartbeat s) (workers s) (dispatcher s) (served s).
Definition with_doorbell (v : Z) (s : t) : t :=
  mk (pending s) v (inFlight s) (idle s) (running s) (working s) (heartbeat s) (lastHeartbeat s) (workers s) (dispatcher s) (served s).
Definition with_inFlight (v : Bits.t) (s : t) : t :=
  mk (pending s) (doorbell s) v (idle s) (running s) (working s) (heartbeat s) (lastHeartbeat s) (workers s) (dispatcher s) (served s).
Definition with_idle (v : Bits.t) (s : t) : t :=
  mk (pending s) (doorbell s) (inFlight s) v (running s) (working s) (heartbeat s) (lastHeartbeat s) (workers s) (dispatcher s) (served s).
Definition with_running (v : bool) (s : t) : t :=
  mk (pending s) (doorbell s) (inFlight s) (idle s) v (working s) (heartbeat s) (lastHeartbeat s) (workers s) (dispatcher s) (served s).
Definition with_working (v : bool) (s : t) : t :=
  mk (pending s) (doorbell s) (inFlight s) (idle s) (running s) v (heartbeat s) (lastHeartbeat s) (workers s) (dispatcher s) (served s).
Definition with_heartbeat (v : Z) (s : t) : t :=
  mk (pending s) (doorbell s) (inFlight s) (idle s) (running s) (working s) v (lastHeartbeat s) (workers s) (dispatcher s) (served s).
Definition with_lastHeartbeat (v : Z) (s : t) : t :=
  mk (pending s) (doorbell s) (inFlight s) (idle s) (running s) (working s) (heartbeat s) v (workers s) (dispatcher s) (served s).
Definition with_workers (v : gmap Z Worker_t.t) (s : t) : t :=
  mk (pending s) (doorbell s) (inFlight s) (idle s) (running s) (working s) (heartbeat s) (lastHeartbeat s) v (dispatcher s) (served s).
Definition with_dispatcher (v : dpc) (s : t) : t :=
  mk (pending s) (doorbell s) (inFlight s) (idle s) (running s) (working s) (heartbeat s) (lastHeartbeat s) (workers s) v (served s).
Definition with_served (v : list Z) (s : t) : t :=
  mk (pending s) (doorbell s) (inFlight s) (idle s) (running s) (working s) (heartbeat s) (lastHeartbeat s) (workers s) (dispatcher s) v.
End Pool.

Module DomainWorkers.
Import Pool.

(** ** A worker's turn *)

Definition setWorker (seat : Z) (w : Worker_t.t) (s : t) : t := with_workers (<[seat := w]> (workers s)) s.

(** [handed.add(1)], by a hand-over and by the stop. *)
Definition bump (seat : Z) (s : t) : t :=
  match workers s !! seat with
  | Some w => setWorker seat (Worker_t.mk (Worker_t.domainId w) (u32 (Worker_t.handed w + 1)) (Worker_t.at_ w)) s
  | None => s
  end.

(** [runWorker], from one access to the next. *)
Definition runWorker (seat : Z) (s : t) : option t :=
  match workers s !! seat with
  | None => None
  | Some w =>
      match Worker_t.at_ w with
      | WTop => Some (setWorker seat (Worker_t.goes (if working s then WRead else WOut) w) s)
      | WRead => Some (setWorker seat (Worker_t.goes (WTake (Worker_t.handed w)) w) s)
      | WTake seen =>
          let domainId := Worker_t.domainId w in
          if domainId =? NoDomain then Some (setWorker seat (Worker_t.goes (WOffer seen) w) s)
          else
            Some (with_served (domainId :: served s)
                    (setWorker seat (Worker_t.mk NoDomain (Worker_t.handed w) (WServe domainId)) s))
      | WOffer seen =>
          Some (with_idle (AtomicBits.claim (idle s) seat).2 (setWorker seat (Worker_t.goes (WWait seen) w) s))
      | WWait _ => Some (setWorker seat (Worker_t.goes WTop w) s)
      | WServe domainId => Some (setWorker seat (Worker_t.goes (WDone domainId) w) s)
      | WDone domainId =>
          Some (with_inFlight (AtomicBits.release (inFlight s) domainId).2
                  (setWorker seat (Worker_t.goes WTop w) s))
      | WOut => None
      end
  end.

Definition isBusy (domainId : Z) (s : t) : bool :=
  if MaxDomains <=? domainId then false else Bits.has (inFlight s) domainId.

(** ** A dispatcher pass *)

(** [assign]: the claim, the seat, the hand-over.  [DBack] is its [false], and
    the [true] is in the pass it goes on with. *)
Definition assign (s : t) : option t :=
  let goes p := with_dispatcher p s in
  match dispatcher s with
  | DClaim p d =>
      if MaxDomains <=? d then Some (goes (DNext (Pass.with_handed p)))
      else
        let '(raised, claimed) := AtomicBits.claim (inFlight s) d in
        Some (with_inFlight claimed (goes (if raised then DSeat p d else DBack p d)))
  | DSeat p d =>
      Some (goes (match AtomicBits.lowest (idle s) with Some seat => DTake p d seat | None => DUndo p d end))
  | DTake p d seat =>
      let '(stood, left_) := AtomicBits.release (idle s) seat in
      Some (with_idle left_ (goes (if stood then DStore p d seat else DSeat p d)))
  | DUndo p d => Some (with_inFlight (AtomicBits.release (inFlight s) d).2 (goes (DBack p d)))
  | DStore p d seat =>
      match workers s !! seat with
      | None => None
      | Some w => Some (setWorker seat (Worker_t.mk d (Worker_t.handed w) (Worker_t.at_ w)) (goes (DBump p d seat)))
      end
  | DBump p d seat =>
      match workers s !! seat with
      | None => None
      | Some _ => Some (bump seat (goes (DNext (Pass.with_handed p))))
      end
  | _ => None
  end.

(** [runDispatcher], from one access to the next. *)
Definition runDispatcher (s : t) : option t :=
  let goes p := with_dispatcher p s in
  match dispatcher s with
  | DTop => Some (if running s then with_heartbeat (u64 (heartbeat s + 1)) (goes DBell) else goes DOut)
  | DBell => Some (goes (DBusy (doorbell s)))
  | DBusy seen => Some (goes (DPending seen (AtomicBits.takeSnapshot (inFlight s))))
  | DPending seen held =>
      let waiting := AtomicBits.takeSnapshot (pending s) in
      let p := Pass.mk seen (Bits.dropAll waiting held) (negb (Bits.isEmpty (Bits.inter waiting held))) false in
      Some (goes (if Bits.isEmpty (Pass.taking p) then DEnd p else DClear p))
  | DClear p => Some (with_pending (AtomicBits.dropAll (pending s) (Pass.taking p)) (goes (DNext p)))
  | DNext p =>
      if Bits.isEmpty (Pass.taking p) then Some (goes (DEnd p))
      else
        let '(domainId, rest) := Bits.popLowest (Pass.taking p) in
        Some (goes (DClaim (Pass.with_taking rest p) domainId))
  | DBack p d => Some (with_pending (AtomicBits.claim (pending s) d).2 (goes (DNext (Pass.with_deferred p))))
  | DEnd p => Some (goes (if Pass.handed p then DTop else if running s then DSleep p else DOut))
  | DSleep _ => Some (goes DTop)
  | DOut => None
  | _ => assign s
  end.

(** ** The rest of the serving side *)

(** [takeBeat]: what the maintenance pass tells the watchdog. *)
Definition takeBeat (s : t) : bool * t :=
  if heartbeat s =? lastHeartbeat s then (false, s) else (true, with_lastHeartbeat (heartbeat s) s).

(** A requester's [ring] is the bit and then the knock; [stop] is the flag and
    then the knock. *)
Definition raise (d : Z) (s : t) : t := with_pending (AtomicBits.claim (pending s) d).2 s.
Definition knock (s : t) : t := with_doorbell (u32 (doorbell s + 1)) s.
Definition stop (s : t) : t := with_running false s.

(** [~DomainWorkers]: the flag, then a [bump] of every worker. *)
Definition retire (s : t) : t := with_working false s.

(** A pool of [count] workers nobody has handed anything. *)
Definition start (count : Z) : t :=
  mk (Bits.empty 64) 0 (Bits.empty 64) (Bits.empty 64) true true 0 0
    (list_to_map ((fun seat => (seat, Worker_t.mk NoDomain 0 WTop)) <$> zrange 0 count)) DTop [].

(** The threads and the requesters, one access at a time. *)
Inductive step (s : t) : t -> Prop :=
| step_worker seat s' : runWorker seat s = Some s' -> step s s'
| step_dispatcher s' : runDispatcher s = Some s' -> step s s'
| step_maintainer : step s (takeBeat s).2
| step_raise d : 0 <= d < MaxDomains -> step s (raise d s)
| step_knock : step s (knock s)
| step_stop : step s (stop s)
| step_retire : step s (retire s)
| step_bump seat : step s (bump seat s).

End DomainWorkers.
