(* ===== verification/Dispatch.v ===== *)
(** * Dispatch: the theorems on the dispatcher and its pool

    Who carries a domain between the pending bit and the end of its service:
    never two workers, and never nobody, but for one interleaving of a worker's
    repeated offer with a hand-over. *)

From S2P Require Import Prelude Bitmap Types Workers.
Import Pool DomainWorkers.

(** ** Who carries a domain *)

Inductive place := Mail (seat : Z) | Run (seat : Z) | Hand.
#[global] Instance place_eq_dec : EqDecision place.
Proof. solve_decision. Defined.

(** The domain a hand-over has claimed and not stored yet. *)
Definition hand (p : dpc) : option Z :=
  match p with DSeat _ d | DTake _ d _ | DUndo _ d | DStore _ d _ => Some d | _ => None end.

Definition carries (s : t) (d : Z) (x : place) : Prop :=
  match x with
  | Mail seat => exists w, workers s !! seat = Some w /\ Worker_t.domainId w = d
  | Run seat => exists w, workers s !! seat = Some w /\ (Worker_t.at_ w = WServe d \/ Worker_t.at_ w = WDone d)
  | Hand => hand (dispatcher s) = Some d
  end.

(** The domains a pass still has in its own hands: the ones it took down and has
    not come to, and the one it has come to and not stored. *)
Definition passOf (p : dpc) : option Pass.t :=
  match p with
  | DNext p | DClaim p _ | DSeat p _ | DTake p _ _ | DUndo p _ | DStore p _ _ | DBump p _ _ | DBack p _ => Some p
  | _ => None
  end.
Definition aimed (p : dpc) : option Z :=
  match p with
  | DClaim _ d | DSeat _ d | DTake _ d _ | DUndo _ d | DStore _ d _ | DBack _ d => Some d
  | _ => None
  end.

Definition domain (d : Z) : Prop := 0 <= d < 64.

(** The sets a pass keeps. *)
Definition wf_dpc (p : dpc) : Prop :=
  match p with
  | DPending _ held => Bits.wf 64 held
  | DClear p | DEnd p | DSleep p => Bits.wf 64 (Pass.taking p)
  | _ => (forall q, passOf p = Some q -> Bits.wf 64 (Pass.taking q)) /\ (forall d, aimed p = Some d -> domain d) /\
         (forall q d seat, p = DTake q d seat -> domain seat)
  end.

Record inv (s : t) : Prop := {
  inv_pending : Bits.wf 64 (pending s);
  inv_inFlight : Bits.wf 64 (inFlight s);
  inv_idle : Bits.wf 64 (idle s);
  inv_pass : wf_dpc (dispatcher s);
  inv_seat : forall seat w, workers s !! seat = Some w -> domain seat;
  inv_mail : forall seat w, workers s !! seat = Some w -> Worker_t.domainId w = NoDomain \/ domain (Worker_t.domainId w);
  inv_run : forall seat d, carries s d (Run seat) -> domain d;
  inv_claimed : forall d x, domain d -> carries s d x -> Bits.has (inFlight s) d = true;
  inv_unique : forall d x y, domain d -> carries s d x -> carries s d y -> x = y;
}.

Lemma not_domain_NoDomain : ~ domain NoDomain.
Proof. unfold domain, NoDomain. lia. Qed.

(** What a step does to the carried domains, all of it through one map of the
    places back to where they were carried before: a domain nobody carried
    appears only in the hand of a claim, and a claim goes down only with the
    place that carried it. *)
Record effect (s s' : t) (f : place -> place) : Prop := {
  eff_back : forall d x, domain d -> carries s' d x ->
    carries s d (f x) \/ (x = Hand /\ Bits.has (inFlight s) d = false /\ Bits.has (inFlight s') d = true);
  eff_apart : forall d x y, domain d -> carries s' d x -> carries s' d y -> f x = f y -> x = y;
  eff_claim : forall d, domain d -> Bits.has (inFlight s) d = true ->
    Bits.has (inFlight s') d = true \/ (exists x, carries s d x /\ forall y, carries s' d y -> f y <> x);
}.

Lemma effect_claimed s s' f d x :
  inv s -> effect s s' f -> domain d -> carries s' d x -> Bits.has (inFlight s') d = true.
Proof.
  intros Hs He Hd Hx. destruct (eff_back _ _ _ He d x Hd Hx) as [Hx'|(_ & _ & H)]; [|done].
  destruct (eff_claim _ _ _ He d Hd (inv_claimed _ Hs _ _ Hd Hx')) as [|(y & Hy & Hno)]; [done|].
  exfalso. apply (Hno x Hx). by eapply inv_unique.
Qed.

Lemma effect_unique s s' f d x y :
  inv s -> effect s s' f -> domain d -> carries s' d x -> carries s' d y -> x = y.
Proof.
  intros Hs He Hd Hx Hy.
  destruct (eff_back _ _ _ He d x Hd Hx) as [Hx'|(-> & Hn & _)], (eff_back _ _ _ He d y Hd Hy) as [Hy'|(-> & Hn' & _)].
  - eapply eff_apart; eauto. by eapply inv_unique.
  - rewrite (inv_claimed _ Hs _ _ Hd Hx') in Hn'. done.
  - rewrite (inv_claimed _ Hs _ _ Hd Hy') in Hn. done.
  - done.
Qed.

(** Nobody carries the domain and its claim stands. *)
Definition lost (d : Z) (s : t) : Prop := Bits.has (inFlight s) d = true /\ forall x, ~ carries s d x.

Lemma effect_lost s s' f d : effect s s' f -> domain d -> lost d s -> lost d s'.
Proof.
  intros He Hd [Hin Hno]. split.
  - destruct (eff_claim _ _ _ He d Hd Hin) as [|(x & Hx & _)]; [done|]. by apply Hno in Hx.
  - intros x Hx. destruct (eff_back _ _ _ He d x Hd Hx) as [Hx'|(_ & Hn & _)]; [by apply Hno in Hx'|congruence].
Qed.

(** A step that leaves the claims alone and carries nothing new. *)
Lemma effect_same s s' :
  (forall d x, domain d -> carries s' d x -> carries s d x) -> inFlight s' = inFlight s -> effect s s' id.
Proof. intros Hc Hi. split; [by left; apply Hc|done|]. intros d Hd H. left. by rewrite Hi. Qed.

(** A worker that moves on with what it had, or with less. *)
Lemma carries_setWorker seat w w' s d x :
  workers s !! seat = Some w ->
  (Worker_t.domainId w' = d -> Worker_t.domainId w = d) ->
  (Worker_t.at_ w' = WServe d \/ Worker_t.at_ w' = WDone d -> Worker_t.at_ w = WServe d \/ Worker_t.at_ w = WDone d) ->
  carries (setWorker seat w' s) d x -> carries s d x.
Proof.
  intros Hw Hm Hr. destruct x as [k|k|]; cbn; [| |done]; intros (w1 & Hk & H1);
    (destruct (decide (k = seat)) as [->|Hne]; [rewrite lookup_insert_eq in Hk; injection Hk as <-|rewrite lookup_insert_ne in Hk by done]); eauto.
Qed.

Lemma effect_worker_same seat w p s s' :
  workers s !! seat = Some w ->
  (forall d, p = WServe d \/ p = WDone d -> Worker_t.at_ w = WServe d \/ Worker_t.at_ w = WDone d) ->
  workers s' = <[seat := Worker_t.goes p w]> (workers s) -> dispatcher s' = dispatcher s -> inFlight s' = inFlight s ->
  effect s s' id.
Proof.
  intros Hw Hp Hws Hd Hi. apply effect_same; [|done]. intros d x _ Hx.
  apply (carries_setWorker seat w (Worker_t.goes p w)); [done|done|apply Hp|].
  destruct x; cbn in *; rewrite ?Hws, ?Hd in Hx; done.
Qed.

(** What a lookup past the update of one worker is. *)
Ltac at_seat Hk :=
  match type of Hk with
  | <[?seat := _]> _ !! ?seat = Some _ => rewrite lookup_insert_eq in Hk; injection Hk as <-
  | <[?seat := _]> _ !! ?k = Some _ =>
      destruct (decide (k = seat)) as [->|];
      [rewrite lookup_insert_eq in Hk; injection Hk as <-|rewrite lookup_insert_ne in Hk by done]
  end.

(** The mailbox becomes the service. *)
Lemma effect_take seat w s s' :
  inv s -> workers s !! seat = Some w -> Worker_t.domainId w <> NoDomain ->
  (forall d, Worker_t.at_ w <> WServe d /\ Worker_t.at_ w <> WDone d) ->
  workers s' = <[seat := Worker_t.mk NoDomain (Worker_t.handed w) (WServe (Worker_t.domainId w))]> (workers s) ->
  dispatcher s' = dispatcher s -> inFlight s' = inFlight s ->
  effect s s' (fun x => if decide (x = Run seat) then Mail seat else x).
Proof.
  intros Hs Hw Hne Hp Hws Hd Hi.
  assert (forall d x, domain d -> carries s' d x -> x <> Mail seat) as Hno.
  { intros d x Hdom Hx ->. cbn in Hx. rewrite Hws in Hx. destruct Hx as (w1 & Hk & <-). at_seat Hk.
    by apply not_domain_NoDomain in Hdom. }
  split.
  - intros d x Hdom Hx. left. specialize (Hno d x Hdom Hx).
    case_decide as Hx'; [subst x; cbn in Hx; rewrite Hws in Hx; destruct Hx as (w1 & Hk & H1); at_seat Hk; cbn in *; naive_solver|].
    destruct x as [k|k|]; cbn in Hx |- *; rewrite ?Hws, ?Hd in Hx; [| |done];
      destruct Hx as (w1 & Hk & H1); at_seat Hk; cbn in *; naive_solver.
  - intros d x y Hdom Hx Hy. pose proof (Hno d x Hdom Hx). pose proof (Hno d y Hdom Hy). repeat case_decide; naive_solver.
  - intros d Hdom H. left. by rewrite Hi.
Qed.

(** A claim goes down with the place that carried it. *)
Lemma effect_drop d0 x0 s s' :
  inv s -> domain d0 -> carries s d0 x0 -> (forall d, ~ carries s' d x0) ->
  (forall d x, carries s' d x -> carries s d x) -> inFlight s' = Bits.clear (inFlight s) d0 -> effect s s' id.
Proof.
  intros Hs Hd0 Hx0 Hno Hc Hi. split; [by left; apply Hc|done|]. intros d Hd H. rewrite Hi.
  rewrite AtomicBits.has_clear64 by (done || apply Hs || apply Hd). rewrite H, andb_true_r.
  destruct (Z.eqb_spec d d0) as [->|]; [|by left]. right. exists x0. split; [done|]. intros y Hy Hyx. cbn in Hyx. subst y. by eapply Hno.
Qed.

Lemma runWorker_effect seat s s' : inv s -> runWorker seat s = Some s' -> exists f, effect s s' f.
Proof.
  intros Hs. unfold runWorker. destruct (workers s !! seat) as [w|] eqn:Hw; [|done].
  assert (forall p s', (forall d, p = WServe d \/ p = WDone d -> Worker_t.at_ w = WServe d \/ Worker_t.at_ w = WDone d) ->
    workers s' = <[seat := Worker_t.goes p w]> (workers s) -> dispatcher s' = dispatcher s -> inFlight s' = inFlight s ->
    exists f, effect s s' f) as Hsame.
  { intros p s1 Hp Hws Hd Hi. exists id. by eapply effect_worker_same. }
  destruct (Worker_t.at_ w) as [| |seen|seen|seen|d0|d0|] eqn:Hp; [..|done].
  1,2,4,5,6: intros [= <-]; (eapply Hsame; [|reflexivity|done|done]); repeat case_match; naive_solver.
  - destruct (Z.eqb_spec (Worker_t.domainId w) NoDomain) as [He|Hne].
    + intros [= <-]. eapply Hsame; [|reflexivity|done|done]. naive_solver.
    + intros [= <-]. eexists. eapply effect_take; try done. by rewrite Hp.
  - intros [= <-]. exists id. assert (carries s d0 (Run seat)) as Hc by (exists w; naive_solver).
    eapply (effect_drop d0 (Run seat)); [done|by eapply inv_run|done| | |done].
    + intros d (w1 & Hk & H1). cbn in Hk. at_seat Hk. cbn in H1. naive_solver.
    + intros d x Hx. eapply (carries_setWorker seat w (Worker_t.goes WTop w)); [done|done|naive_solver|]. by destruct x.
Qed.

(** The hand becomes the mailbox; what the mailbox had is carried no more. *)
Lemma effect_store p d0 seat w s :
  dispatcher s = DStore p d0 seat -> workers s !! seat = Some w ->
  effect s (setWorker seat (Worker_t.mk d0 (Worker_t.handed w) (Worker_t.at_ w)) (with_dispatcher (DBump p d0 seat) s))
    (fun x => if decide (x = Mail seat) then Hand else x).
Proof.
  intros Hp Hw. split.
  - intros d x Hdom Hx. left. case_decide as Hx'.
    { subst x. destruct Hx as (w1 & Hk & H1). cbn in Hk. at_seat Hk. cbn in *. rewrite Hp. by subst. }
    destruct x as [k|k|]; [| |done]; destruct Hx as (w1 & Hk & H1); cbn in Hk; at_seat Hk; cbn in *; naive_solver.
  - intros d x y Hdom Hx Hy. repeat case_decide; try naive_solver; intros; subst; done.
  - by left.
Qed.

(** The dispatcher moves on with what it had in hand, or with nothing. *)
Lemma effect_dispatcher_same s s' :
  workers s' = workers s -> inFlight s' = inFlight s ->
  (hand (dispatcher s') = None \/ hand (dispatcher s') = hand (dispatcher s)) -> effect s s' id.
Proof.
  intros Hw Hi Hh. apply effect_same; [|done]. intros d [k|k|] _ Hx; cbn in *; rewrite ?Hw in Hx; [done|done|].
  destruct Hh as [Hh|Hh]; congruence.
Qed.

(** A claim of a domain nobody has. *)
Lemma effect_claim_new p d0 s :
  inv s -> domain d0 -> Bits.has (inFlight s) d0 = false ->
  effect s (with_inFlight (Bits.set (inFlight s) d0) (with_dispatcher (DSeat p d0) s)) id.
Proof.
  intros Hs Hd0 Hn.
  assert (forall d, domain d -> Bits.has (Bits.set (inFlight s) d0) d = (d =? d0) || Bits.has (inFlight s) d) as Hset.
  { intros d Hd. apply AtomicBits.has_set64; [apply Hs|done|apply Hd]. }
  split; [|done|].
  - intros d [k|k|] Hd Hx; [by left..|]. right. injection Hx as <-. split_and!; [done..|]. cbn. by rewrite Hset, Z.eqb_refl.
  - intros d Hd H. left. cbn. by rewrite Hset, H, orb_true_r.
Qed.

Lemma bump_carries seat s d x : carries (bump seat s) d x -> carries s d x.
Proof.
  unfold bump. destruct (workers s !! seat) as [w|] eqn:Hw; [|done]. by apply (carries_setWorker seat w).
Qed.

Lemma bump_fields seat s : inFlight (bump seat s) = inFlight s /\ dispatcher (bump seat s) = dispatcher s.
Proof. unfold bump. by destruct (workers s !! seat). Qed.

Lemma effect_compose_same s s1 s' : effect s s1 id -> (forall d x, carries s' d x -> carries s1 d x) -> inFlight s' = inFlight s1 -> effect s s' id.
Proof.
  intros [Hb Ha Hc] Hback Hi. split; [|done|].
  - intros d x Hd Hx. rewrite Hi. apply Hb; [done|by apply Hback].
  - intros d Hd H. rewrite Hi. destruct (Hc d Hd H) as [|(x & Hx & Hno)]; [by left|]. right. exists x. split; [done|].
    intros y Hy. apply Hno. by apply Hback.
Qed.

Lemma runDispatcher_effect s s' : inv s -> runDispatcher s = Some s' -> exists f, effect s s' f.
Proof.
  intros Hs. pose proof (inv_pass _ Hs) as Hpass. unfold runDispatcher, assign.
  destruct (dispatcher s) as [| | | | |p|p d|p d|p d seat|p d|p d seat|p d seat|p d|p|p|] eqn:Hp; try done.
  all: try (intros [= <-]; exists id; apply effect_dispatcher_same; cbn; rewrite ?Hp; repeat case_match; naive_solver).
  - repeat case_match; intros [= <-]; exists id; apply effect_dispatcher_same; cbn; repeat case_match; naive_solver.
  - destruct Hpass as (_ & Hd & _). specialize (Hd d eq_refl). rewrite (proj2 (Z.leb_gt _ _)) by apply Hd.
    cbn. intros [= <-]. exists id. destruct (Bits.has (inFlight s) d) eqn:Hh; cbn [negb]; [|by apply effect_claim_new].
    eapply effect_same; cbn; [intros ? [k|k|] _ Hx; cbn in *; done|]. apply (Bits.bits_ext 64); [|apply Hs|].
    + apply Bits.wf_set; [apply Bits.fits_64|apply Hs|done].
    + intros i Hi. rewrite AtomicBits.has_set64 by (done || apply Hs). destruct (Z.eqb_spec i d) as [->|]; [by rewrite Hh|done].
  - cbn. intros [= <-]. exists id. destruct Hpass as (_ & Hd & _). eapply (effect_drop d Hand); cbn; [done|by apply Hd|by rewrite Hp|done| |done].
    by intros ? [k|k|].
  - destruct (workers s !! seat) as [w|] eqn:Hw; [|done]. intros [= <-]. eexists. by apply effect_store.
  - destruct (workers s !! seat) as [w|] eqn:Hw; [|done]. intros [= <-]. exists id.
    apply (effect_compose_same _ (with_dispatcher (DNext (Pass.with_handed p)) s)).
    + apply effect_dispatcher_same; cbn; auto.
    + intros d1 x. apply bump_carries.
    + apply bump_fields.
Qed.

Lemma step_effect s s' : inv s -> step s s' -> exists f, effect s s' f.
Proof.
  intros Hs [seat s1|s1| |d| | | |seat].
  - by eapply runWorker_effect.
  - by apply runDispatcher_effect.
  - exists id. apply effect_dispatcher_same; unfold takeBeat; case_match; auto.
  - exists id. apply effect_dispatcher_same; auto.
  - exists id. apply effect_dispatcher_same; auto.
  - exists id. apply effect_dispatcher_same; auto.
  - exists id. apply effect_dispatcher_same; auto.
  - exists id. apply effect_same; [|apply bump_fields]. intros d x _. apply bump_carries.
Qed.

(** ** The invariant *)

(** The parts of the invariant that say only that the data is well formed. *)
Record wf_pool (s : t) : Prop := {
  wf_pending : Bits.wf 64 (pending s);
  wf_inFlight : Bits.wf 64 (inFlight s);
  wf_idle : Bits.wf 64 (idle s);
  wf_pass : wf_dpc (dispatcher s);
  wf_seat : forall seat w, workers s !! seat = Some w -> domain seat;
  wf_mail : forall seat w, workers s !! seat = Some w -> Worker_t.domainId w = NoDomain \/ domain (Worker_t.domainId w);
  wf_run : forall seat d, carries s d (Run seat) -> domain d;
}.

Lemma inv_wf s : inv s -> wf_pool s.
Proof. by intros []. Qed.

Lemma wf_setWorker seat w w' s :
  workers s !! seat = Some w -> wf_pool s -> (Worker_t.domainId w' = NoDomain \/ domain (Worker_t.domainId w')) ->
  (forall d, Worker_t.at_ w' = WServe d \/ Worker_t.at_ w' = WDone d -> domain d) -> wf_pool (setWorker seat w' s).
Proof.
  intros Hw Hs Hm Hr. split; try apply Hs.
  - intros k w1 Hk. cbn in Hk. at_seat Hk; by eapply wf_seat.
  - intros k w1 Hk. cbn in Hk. at_seat Hk; [done|by eapply wf_mail].
  - intros k d (w1 & Hk & H1). cbn in Hk. at_seat Hk; [by apply Hr|]. eapply (wf_run s Hs k). by exists w1.
Qed.

Lemma wf_goes seat w p s :
  workers s !! seat = Some w -> wf_pool s -> (forall d, p = WServe d \/ p = WDone d -> domain d) ->
  wf_pool (setWorker seat (Worker_t.goes p w) s).
Proof. intros Hw Hs Hr. eapply wf_setWorker; [exact Hw|done|exact (wf_mail s Hs seat w Hw)|done]. Qed.

Lemma wf_with_idle v s : wf_pool s -> Bits.wf 64 v -> wf_pool (with_idle v s).
Proof. by intros [] ?; split. Qed.
Lemma wf_with_inFlight v s : wf_pool s -> Bits.wf 64 v -> wf_pool (with_inFlight v s).
Proof. by intros [] ?; split. Qed.
Lemma wf_with_pending v s : wf_pool s -> Bits.wf 64 v -> wf_pool (with_pending v s).
Proof. by intros [] ?; split. Qed.
Lemma wf_with_dispatcher v s : wf_pool s -> wf_dpc v -> wf_pool (with_dispatcher v s).
Proof. by intros [] ?; split. Qed.

Lemma wf_runWorker seat s s' : wf_pool s -> runWorker seat s = Some s' -> wf_pool s'.
Proof.
  intros Hs. unfold runWorker. destruct (workers s !! seat) as [w|] eqn:Hw; [|done].
  assert (forall d, Worker_t.at_ w = WServe d \/ Worker_t.at_ w = WDone d -> domain d) as Hrun.
  { intros d H. apply (wf_run s Hs seat). by exists w. }
  pose proof (wf_seat s Hs seat w Hw) as Hseat.
  destruct (Worker_t.at_ w) as [| |seen|seen|seen|d0|d0|] eqn:Hp; [..|done].
  - intros [= <-]. eapply wf_goes; [exact Hw|done|]. case_match; naive_solver.
  - intros [= <-]. eapply wf_goes; [exact Hw|done|]. naive_solver.
  - destruct (Z.eqb_spec (Worker_t.domainId w) NoDomain) as [He|Hne]; intros [= <-].
    + eapply wf_goes; [exact Hw|done|]. naive_solver.
    + destruct (wf_mail s Hs seat w Hw) as [|Hd]; [done|].
      assert (wf_pool (setWorker seat (Worker_t.mk NoDomain (Worker_t.handed w) (WServe (Worker_t.domainId w))) s)) as [] ; [|by split].
      eapply wf_setWorker; [exact Hw|done|by left|]. cbn. naive_solver.
  - intros [= <-]. apply wf_with_idle; [eapply wf_goes; [exact Hw|done|naive_solver]|]. cbn.
    apply Bits.wf_set; [apply Bits.fits_64|apply Hs|done].
  - intros [= <-]. eapply wf_goes; [exact Hw|done|]. naive_solver.
  - intros [= <-]. eapply wf_goes; [exact Hw|done|]. naive_solver.
  - intros [= <-]. apply wf_with_inFlight; [eapply wf_goes; [exact Hw|done|naive_solver]|]. cbn.
    apply Bits.wf_clear; [apply Bits.fits_64|apply Hs|]. apply Hrun. by right.
Qed.

Lemma wf_bump seat s : wf_pool s -> wf_pool (bump seat s).
Proof.
  intros Hs. unfold bump. destruct (workers s !! seat) as [w|] eqn:Hw; [|done].
  eapply wf_setWorker; [exact Hw|done|exact (wf_mail s Hs seat w Hw)|]. intros d H. apply (wf_run s Hs seat). by exists w.
Qed.

(** What a pass carries, one component at a time. *)
Ltac solve_dpc := cbn in *; split_and?; intros; simplify_eq/=; eauto.

Lemma wf_runDispatcher s s' : wf_pool s -> runDispatcher s = Some s' -> wf_pool s'.
Proof.
  intros Hs. pose proof (wf_pass _ Hs) as Hpass. unfold runDispatcher, assign.
  destruct (dispatcher s) as [| |seen|seen held|p|p|p d|p d|p d seat|p d|p d seat|p d seat|p d|p|p|] eqn:Hp; [..|done]; cbn in Hpass.
  - intros [= <-]. case_match; [|by apply wf_with_dispatcher]. assert (wf_pool (with_dispatcher DBell s)) as [] by by apply wf_with_dispatcher.
    by split.
  - intros [= <-]. by apply wf_with_dispatcher.
  - intros [= <-]. apply wf_with_dispatcher; [done|]. apply Hs.
  - intros [= <-]. apply wf_with_dispatcher; [done|]. assert (Bits.wf 64 (Bits.dropAll (pending s) held)) by (apply Bits.wf_dropAll; [apply Hs|done]).
    by case_match.
  - intros [= <-]. apply wf_with_pending; [|apply Bits.wf_dropAll; [apply Hs|done]]. apply wf_with_dispatcher; [done|]. solve_dpc.
  - destruct Hpass as (Ht & _). specialize (Ht p eq_refl). destruct (Bits.isEmpty (Pass.taking p)) eqn:He.
    { intros [= <-]. by apply wf_with_dispatcher. }
    pose proof (Bits.popLowest_spec 64 _ Bits.fits_64 Ht He) as Hpop. pose proof (Bits.wf_popLowest 64 _ Bits.fits_64 Ht He) as Hrest.
    destruct (Bits.popLowest (Pass.taking p)) as [d rest]. destruct Hpop as (_ & Hd & _). intros [= <-].
    apply wf_with_dispatcher; [done|]. solve_dpc.
  - destruct Hpass as (Ht & Hd & _). specialize (Hd d eq_refl). specialize (Ht p eq_refl).
    rewrite (proj2 (Z.leb_gt _ _)) by apply Hd. cbn. intros [= <-].
    apply wf_with_inFlight; [|apply Bits.wf_set; [apply Bits.fits_64|apply Hs|done]]. apply wf_with_dispatcher; [done|]. destruct (Bits.has _ _); solve_dpc.
  - destruct Hpass as (Ht & Hd & _). intros [= <-]. apply wf_with_dispatcher; [done|].
    destruct (AtomicBits.lowest (idle s)) as [k|] eqn:Hk; cbn; [|solve_dpc].
    apply AtomicBits.lowest_Some in Hk as [_ Hk]; [|apply Hs]. solve_dpc.
  - destruct Hpass as (Ht & Hd & Hk). specialize (Hk _ _ _ eq_refl). cbn. intros [= <-].
    apply wf_with_idle; [|apply Bits.wf_clear; [apply Bits.fits_64|apply Hs|done]]. apply wf_with_dispatcher; [done|]. destruct (Bits.has _ _); solve_dpc.
  - destruct Hpass as (Ht & Hd & _). intros [= <-]. apply wf_with_inFlight; [|apply Bits.wf_clear; [apply Bits.fits_64|apply Hs|by apply Hd]].
    apply wf_with_dispatcher; [done|]. solve_dpc.
  - destruct Hpass as (Ht & Hd & _). destruct (workers s !! seat) as [w|] eqn:Hw; [|done]. intros [= <-].
    eapply wf_setWorker; [exact Hw|apply wf_with_dispatcher; [done|solve_dpc]|right; by apply Hd|].
    intros d1 H. apply (wf_run s Hs seat). by exists w.
  - destruct Hpass as (Ht & _). destruct (workers s !! seat) as [w|] eqn:Hw; [|done]. intros [= <-]. apply wf_bump, wf_with_dispatcher; [done|].
    solve_dpc.
  - destruct Hpass as (Ht & Hd & _). intros [= <-]. apply wf_with_pending; [|apply Bits.wf_set; [apply Bits.fits_64|apply Hs|by apply Hd]].
    apply wf_with_dispatcher; [done|]. solve_dpc.
  - intros [= <-]. apply wf_with_dispatcher; [done|]. repeat case_match; solve_dpc.
  - intros [= <-]. by apply wf_with_dispatcher.
Qed.

Lemma wf_step s s' : wf_pool s -> step s s' -> wf_pool s'.
Proof.
  intros Hs [seat s1|s1| |d Hd| | | |seat].
  - by eapply wf_runWorker.
  - by eapply wf_runDispatcher.
  - unfold takeBeat. case_match; [done|]. destruct Hs. by split.
  - apply wf_with_pending; [done|]. apply Bits.wf_set; [apply Bits.fits_64|apply Hs|done].
  - destruct Hs. by split.
  - destruct Hs. by split.
  - destruct Hs. by split.
  - by apply wf_bump.
Qed.

Lemma pool_inv_step s s' : inv s -> step s s' -> inv s'.
Proof.
  intros Hs Hstep. destruct (step_effect s s' Hs Hstep) as [f He]. destruct (wf_step s s' (inv_wf _ Hs) Hstep). split; try done.
  - intros d x Hd Hx. by eapply effect_claimed.
  - intros d x y Hd Hx Hy. by eapply effect_unique.
Qed.

Lemma pool_inv_reachable s s' : inv s -> rtc step s s' -> inv s'.
Proof. intros Hs H. induction H as [|s1 s2 s3 H12 H23 IH]; [done|]. by eapply IH, pool_inv_step. Qed.

Lemma start_workers count seat w :
  workers (start count) !! seat = Some w -> 0 <= seat < count /\ w = Worker_t.mk NoDomain 0 WTop.
Proof.
  intros H. apply elem_of_list_to_map_2, list_elem_of_fmap in H as (k & [= -> ->] & Hk). split; [|done].
  unfold zrange in Hk. apply elem_of_seqZ in Hk. lia.
Qed.

Lemma pool_inv_start count : count <= MostWorkers -> inv (start count).
Proof.
  intros Hc. unfold MostWorkers in Hc.
  assert (forall d x, domain d -> ~ carries (start count) d x) as Hno.
  { intros d [k|k|] Hd; [| |done].
    - intros (w & Hw%start_workers & <-). destruct Hw as [_ ->]. by apply not_domain_NoDomain in Hd.
    - intros (w & Hw%start_workers & H). destruct Hw as [_ ->]. naive_solver. }
  split; try apply Bits.wf_empty.
  - done.
  - intros k w [Hk _]%start_workers. unfold domain. lia.
  - intros k w [_ ->]%start_workers. by left.
  - intros k d (w & [_ ->]%start_workers & H). naive_solver.
  - intros d x Hd Hx. by apply Hno in Hx.
  - intros d x y Hd Hx. by apply Hno in Hx.
Qed.

(** C28: no domain is ever with two workers.  In every interleaving of the
    dispatcher, up to 64 workers, the maintenance pass and any requesters, two
    workers inside [serveLock] for one domain are the same worker, no mailbox
    holds the domain meanwhile, and the pool reports it busy, which is what
    keeps the maintenance sweep off its turn. *)
Theorem one_worker_per_domain count s d seat w :
  count <= MostWorkers -> rtc step (start count) s -> domain d ->
  workers s !! seat = Some w -> Worker_t.at_ w = WServe d ->
  isBusy d s = true /\
  (forall seat' w', workers s !! seat' = Some w' -> Worker_t.at_ w' = WServe d -> seat' = seat) /\
  (forall seat' w', workers s !! seat' = Some w' -> Worker_t.domainId w' <> d).
Proof.
  intros Hc Hreach Hd Hw Hat. pose proof (pool_inv_reachable _ _ (pool_inv_start count Hc) Hreach) as Hs.
  assert (carries s d (Run seat)) as Hrun by (exists w; auto). split_and!.
  - unfold isBusy. rewrite (proj2 (Z.leb_gt _ _)) by (unfold domain, MaxDomains in *; lia). by eapply inv_claimed.
  - intros seat' w' Hw' Hat'. assert (carries s d (Run seat')) as Hrun' by (exists w'; auto).
    pose proof (inv_unique _ Hs d _ _ Hd Hrun Hrun'). congruence.
  - intros seat' w' Hw' He. assert (carries s d (Mail seat')) as Hmail by by exists w'.
    pose proof (inv_unique _ Hs d _ _ Hd Hrun Hmail). congruence.
Qed.

(** ** What can lose a request *)

(** A request not yet served: its bit is up, the pass has it in hand, or it is
    in a mailbox. *)
Definition inHand (p : dpc) (d : Z) : Prop :=
  (exists q, passOf p = Some q /\ Bits.has (Pass.taking q) d = true) \/ aimed p = Some d.
Definition owed (s : t) (d : Z) : Prop :=
  Bits.has (pending s) d = true \/ inHand (dispatcher s) d \/ (exists seat, carries s d (Mail seat)).

(** A hand-over stored over a mailbox the worker has not emptied. *)
Definition overwrites (s : t) (d : Z) : Prop :=
  exists p d' seat, dispatcher s = DStore p d' seat /\ carries s d (Mail seat).

(** The threads that only add to what is owed. *)
Lemma owed_grows s s' d :
  owed s d -> (forall i, Bits.has (pending s) i = true -> i = d -> Bits.has (pending s') i = true) ->
  dispatcher s' = dispatcher s ->
  (forall seat, carries s d (Mail seat) -> carries s' d (Mail seat)) -> owed s' d.
Proof. unfold owed. intros H Hp Hd Hm. rewrite Hd. naive_solver. Qed.

Lemma mail_setWorker seat w w' s d k :
  workers s !! seat = Some w -> Worker_t.domainId w' = Worker_t.domainId w ->
  carries s d (Mail k) -> carries (setWorker seat w' s) d (Mail k).
Proof.
  intros Hw Hm (w1 & Hk & H1). destruct (decide (k = seat)) as [->|Hne].
  - exists w'. cbn. rewrite lookup_insert_eq. split; [done|]. congruence.
  - exists w1. cbn. by rewrite lookup_insert_ne.
Qed.

Lemma owed_runWorker seat s s' d :
  runWorker seat s = Some s' -> owed s d -> owed s' d \/ served s' = d :: served s.
Proof.
  unfold runWorker. destruct (workers s !! seat) as [w|] eqn:Hw; [|done]. intros H Ho.
  assert (forall p s', workers s' = <[seat := Worker_t.goes p w]> (workers s) -> pending s' = pending s ->
    dispatcher s' = dispatcher s -> owed s' d) as Hsame.
  { intros p s1 Hws Hp Hd. apply (owed_grows s); [done|by rewrite Hp|done|]. intros k Hk.
    apply (mail_setWorker seat w (Worker_t.goes p w)) in Hk; [|done|done]. cbn in *. by rewrite Hws. }
  destruct (Worker_t.at_ w); [..|done]; try (injection H as <-; left; by eapply Hsame).
  destruct (Z.eqb_spec (Worker_t.domainId w) NoDomain) as [He|Hne]; injection H as <-; [left; by eapply Hsame|].
  destruct (decide (Worker_t.domainId w = d)) as [->|Hnd]; [by right|]. left. apply (owed_grows s); [done|done|done|].
  intros k (w1 & Hk & H1). exists w1. cbn. rewrite lookup_insert_ne; [done|]. congruence.
Qed.

(** A dispatcher step that leaves the mailboxes alone. *)
Lemma owed_dispatch s s' d :
  (forall seat, carries s d (Mail seat) -> exists seat', carries s' d (Mail seat')) ->
  (Bits.has (pending s) d = true -> Bits.has (pending s') d = true \/ inHand (dispatcher s') d) ->
  (inHand (dispatcher s) d -> owed s' d) -> owed s d -> owed s' d.
Proof. unfold owed. naive_solver. Qed.

Lemma owed_runDispatcher s s' d :
  inv s -> domain d -> runDispatcher s = Some s' -> owed s d -> owed s' d \/ overwrites s d.
Proof.
  intros Hs Hd. pose proof (inv_pass _ Hs) as Hpass. pose proof (inv_pending _ Hs) as Hpend.
  assert (forall v, (passOf v = passOf (dispatcher s) \/ passOf (dispatcher s) = None) ->
    (aimed v = aimed (dispatcher s) \/ aimed (dispatcher s) = None) -> forall s', workers s' = workers s -> pending s' = pending s ->
    dispatcher s' = v -> owed s d -> owed s' d \/ overwrites s d) as Hsame.
  { intros v Hq Ha s1 Hw Hpd <- Ho. left. apply (owed_dispatch s); [| | |exact Ho].
    - intros k. cbn. rewrite Hw. eauto.
    - rewrite Hpd. by left.
    - intros H. right. left. unfold inHand in *. destruct H as [(q & Hq' & H)|H].
      + left. exists q. split; [|done]. destruct Hq; congruence.
      + right. destruct Ha; congruence. }
  unfold runDispatcher, assign.
  destruct (dispatcher s) as [| |seen|seen held|p|p|p d0|p d0|p d0 seat|p d0|p d0 seat|p d0 seat|p d0|p|p|] eqn:Hp; [..|done]; cbn in Hpass.
  1,2,3,4,14,15: intros [= <-]; (eapply Hsame; cycle -1; [reflexivity|..]; repeat case_match; auto).
  - intros [= <-] Ho. left. apply (owed_dispatch s); [by eauto| | |exact Ho]; [|by rewrite Hp; intros [(q & [=] & _)|[=]]].
    cbn. unfold AtomicBits.dropAll. rewrite AtomicBits.has_dropAll64 by done. intros ->. unfold inHand. cbn.
    destruct (Bits.has (Pass.taking p) d) eqn:Ht; [right; left; by exists p|by left].
  - destruct Hpass as (Ht & _). specialize (Ht p eq_refl). destruct (Bits.isEmpty (Pass.taking p)) eqn:He.
    + intros [= <-] Ho. left. apply (owed_dispatch s); [by eauto|by left| |exact Ho]. rewrite Hp. intros [(q & [= <-] & H)|[=]].
      exfalso. apply Bits.isEmpty_spec in He. rewrite Bits.has_testbit in H. unfold Bits.getWord in H.
      destruct (Bits.words_ (Pass.taking p) !! _) as [word|] eqn:Hk; cbn in H; [|by rewrite Z.bits_0 in H].
      rewrite (Forall_lookup_1 _ _ _ _ He Hk), Z.bits_0 in H. done.
    + pose proof (Bits.popLowest_spec 64 _ Bits.fits_64 Ht He) as Hpop.
      destruct (Bits.popLowest (Pass.taking p)) as [d1 rest]. destruct Hpop as (_ & Hd1 & _ & Hrest).
      intros [= <-] Ho. left.
      apply (owed_dispatch s); [by eauto|by left| |exact Ho]. rewrite Hp. intros [(q & [= <-] & H)|[=]]. right. left. unfold inHand. cbn.
      destruct (decide (d1 = d)) as [->|Hne]; [by right|]. left. eexists. split; [done|]. cbn.
      rewrite Hrest by apply Hd. rewrite H. apply negb_true_iff, Z.eqb_neq. congruence.
  - destruct Hpass as (_ & Hr & _). rewrite (proj2 (Z.leb_gt _ _)) by apply (Hr d0 eq_refl).
    cbn. intros [= <-]. eapply Hsame; cycle -1; [reflexivity|..]; cbn; try done; destruct (Bits.has _ _); auto.
  - intros [= <-]. eapply Hsame; cycle -1; [reflexivity|..]; cbn; try done; destruct (AtomicBits.lowest _); auto.
  - cbn. intros [= <-]. eapply Hsame; cycle -1; [reflexivity|..]; cbn; try done; destruct (Bits.has _ _); auto.
  - intros [= <-]. eapply Hsame; cycle -1; [reflexivity|..]; cbn; auto.
  - destruct (workers s !! seat) as [w|] eqn:Hw; [|done]. intros [= <-] Ho.
    destruct (decide (Worker_t.domainId w = d)) as [He|Hne].
    { right. exists p, d0, seat. split; [done|]. by exists w. }
    left. apply (owed_dispatch s); [|by left| |exact Ho].
    + intros k (w1 & Hk & H1). exists k, w1. cbn. rewrite lookup_insert_ne; [done|]. congruence.
    + rewrite Hp. unfold owed, inHand. cbn. intros [(q & [= <-] & H)|[= ->]]; [right; left; left; by eauto|].
      right. right. exists seat. eexists. rewrite lookup_insert_eq. done.
  - destruct (workers s !! seat) as [w|] eqn:Hw; [|done]. intros [= <-] Ho. left. unfold bump. cbn. rewrite Hw.
    apply (owed_dispatch s); [|by left| |exact Ho].
    + intros k Hk. exists k. apply (mail_setWorker seat w); done.
    + rewrite Hp. intros [(q & [= <-] & H)|[=]]. right. left. left. by eexists.
  - intros [= <-] Ho. destruct Hpass as (_ & Hr & _). specialize (Hr d0 eq_refl).
    assert (forall i, 0 <= i -> Bits.has (Bits.set (pending s) d0) i = (i =? d0) || Bits.has (pending s) i) as Hset.
    { intros i Hi. by apply AtomicBits.has_set64. }
    left. apply (owed_dispatch s); [by eauto| | |exact Ho]; cbn.
    + intros H. left. rewrite Hset, H by apply Hd. by rewrite orb_true_r.
    + rewrite Hp. unfold owed, inHand. cbn. intros [(q & [= <-] & H)|[= ->]]; [right; left; left; by eexists|].
      left. by rewrite Hset, Z.eqb_refl by apply Hd.
Qed.

Lemma owed_step s s' d :
  inv s -> domain d -> step s s' -> owed s d -> owed s' d \/ served s' = d :: served s \/ overwrites s d.
Proof.
  intros Hs Hd Hstep Ho.
  assert (forall s', pending s' = pending s -> dispatcher s' = dispatcher s -> workers s' = workers s -> owed s' d) as Hsame.
  { intros s1 Hp Hq Hw. apply (owed_grows s); [done|by rewrite Hp|done|]. cbn. by rewrite Hw. }
  destruct Hstep as [seat s1 H|s1 H| |d1 Hd1| | | |seat].
  - destruct (owed_runWorker _ _ _ _ H Ho); auto.
  - destruct (owed_runDispatcher _ _ _ Hs Hd H Ho); auto.
  - left. apply Hsame; unfold takeBeat; by case_match.
  - left. apply (owed_grows s); [done| |done|done]. intros i Hi ->. cbn.
    rewrite AtomicBits.has_set64 by (apply Hs || apply Hd1 || apply Hd). by rewrite Hi, orb_true_r.
  - left. by apply Hsame.
  - left. by apply Hsame.
  - left. by apply Hsame.
  - left. unfold bump. destruct (workers s !! seat) as [w|] eqn:Hw; [|done]. apply (owed_grows s); [done|done|done|].
    intros k. by apply (mail_setWorker seat w).
Qed.

(** ** The repeated offer *)

Lemma served_step s s' d :
  inv s -> domain d -> lost d s -> step s s' -> served s' = served s \/ exists d', d' <> d /\ served s' = d' :: served s.
Proof.
  intros Hs Hd [_ Hno] [seat s1 H|s1 H| |d1 Hd1| | | |seat]; try by left.
  - unfold runWorker in H. destruct (workers s !! seat) as [w|] eqn:Hw; [|done].
    destruct (Worker_t.at_ w); [..|done]; try (injection H as <-; by left).
    case_match; injection H as <-; [by left|]. right. eexists. split; [|done]. intros He. apply (Hno (Mail seat)). by exists w.
  - left. unfold runDispatcher, assign in H. destruct (dispatcher s); [..|done];
      repeat case_match; simplify_eq/=; try done; unfold bump; cbn; by case_match.
  - left. unfold takeBeat. by case_match.
  - left. unfold bump. by case_match.
Qed.

(** How often a domain was served. *)
Definition timesServed (d : Z) (s : t) : nat := length (List.filter (Z.eqb d) (served s)).

Lemma lost_forever s s' d :
  inv s -> domain d -> lost d s -> rtc step s s' -> lost d s' /\ timesServed d s' = timesServed d s.
Proof.
  intros Hs Hd Hl H. induction H as [|s1 s2 s3 H12 H23 IH]; [done|].
  destruct (step_effect _ _ Hs H12) as [f He]. destruct IH as [Hl3 Heq]; [by eapply pool_inv_step|by eapply effect_lost|].
  split; [done|]. rewrite Heq. unfold timesServed.
  destruct (served_step _ _ _ Hs Hd Hl H12) as [->|(d' & Hne & ->)]; [done|]. cbn.
  by rewrite (proj2 (Z.eqb_neq d d')) by congruence.
Qed.

(** A schedule, played by the executable steps. *)
Inductive move := W (seat : Z) | D | R (d : Z).
Definition play1 (m : move) (s : t) : option t :=
  match m with W seat => runWorker seat s | D => runDispatcher s | R d => Some (raise d s) end.
Fixpoint play (ms : list move) (s : t) : option t :=
  match ms with [] => Some s | m :: ms => match play1 m s with Some s' => play ms s' | None => None end end.
Definition legal (m : move) : bool := match m with R d => (0 <=? d) && (d <? MaxDomains) | _ => true end.

Lemma play_steps ms s s' : forallb legal ms = true -> play ms s = Some s' -> rtc step s s'.
Proof.
  revert s. induction ms as [|m ms IH]; intros s; cbn; [intros _ [= <-]; done|]. intros [Hm Hms]%andb_prop.
  destruct (play1 m s) as [s1|] eqn:H1; [|done]. intros H. apply rtc_l with s1; [|by apply IH].
  destruct m as [seat| |d]; cbn in *; [by eapply step_worker|by eapply step_dispatcher|]. injection H1 as <-.
  apply andb_prop in Hm as [H0%Z.leb_le H2%Z.ltb_lt]. by apply step_raise.
Qed.

(** [lost], computed. *)
Definition idles (d : Z) (w : Worker_t.t) : bool :=
  negb (Worker_t.domainId w =? d) && match Worker_t.at_ w with WServe d' | WDone d' => negb (d' =? d) | _ => true end.
Definition isLost (d : Z) (s : t) : bool :=
  Bits.has (inFlight s) d && forallb (fun e => idles d e.2) (map_to_list (workers s)) && negb (bool_decide (hand (dispatcher s) = Some d)).

Lemma isLost_lost d s : isLost d s = true -> lost d s.
Proof.
  intros [[Hin Hw]%andb_prop Hh]%andb_prop. split; [done|]. rewrite forallb_forall in Hw.
  assert (forall k w, workers s !! k = Some w -> idles d w = true) as Hidle.
  { intros k w Hk. apply (Hw (k, w)), list_elem_of_In, elem_of_map_to_list. done. }
  apply negb_true_iff, bool_decide_eq_false in Hh.
  intros [k|k|]; [| |done]; intros (w & Hk & H1); apply Hidle, andb_prop in Hk as [Hm Hr].
  - apply negb_true_iff, Z.eqb_neq in Hm. done.
  - destruct H1 as [H1|H1]; rewrite H1 in Hr; by rewrite Z.eqb_refl in Hr.
Qed.

(** The worker's wait times out; it finds its mailbox empty and is about to offer
    its seat again when the dispatcher takes the seat for domain 0.  The offer
    then raises the bit of a worker that is already taken, so the dispatcher
    takes it once more, for domain 1, and stores over domain 0. *)
Definition repeated_offer : list move :=
  replicate 5 (W 0) ++ replicate 3 (W 0) ++ [R 0; R 1] ++
  replicate 9 D ++ [W 0] ++ replicate 9 D ++ replicate 6 (W 0).

Lemma repeated_offer_plays :
  exists s, rtc step (start 1) s /\ lost 0 s /\ timesServed 0 s = 0%nat /\ timesServed 1 s = 1%nat.
Proof.
  assert (match play repeated_offer (start 1) with
          | Some s => isLost 0 s && Nat.eqb (timesServed 0 s) 0 && Nat.eqb (timesServed 1 s) 1
          | None => false
          end = true) as H by (vm_compute; reflexivity).
  destruct (play repeated_offer (start 1)) as [s|] eqn:Hplay; [|discriminate H].
  apply andb_prop in H as [[Hl H0%Nat.eqb_eq]%andb_prop H1%Nat.eqb_eq]. exists s.
  split_and!; [|by apply isLost_lost|exact H0|exact H1]. apply (play_steps repeated_offer); [vm_compute; reflexivity|exact Hplay].
Qed.

(** A request is lost in one way only, and that one is for good.  In every
    interleaving a request owed stays owed until its domain is served, unless a
    hand-over is stored over a mailbox the worker has not emptied.  That store is
    reachable with one worker: a worker whose wait timed out raises its idle bit
    again after the dispatcher took it, and the next hand-over goes to the same
    mailbox.  The domain it overwrote is then claimed by nobody, no later step of
    any thread serves it, and every request for it waits out its deadline. *)
Theorem repeated_offer_loses_domain :
  (forall count s s' d, count <= MostWorkers -> rtc step (start count) s -> domain d -> step s s' -> owed s d ->
    owed s' d \/ served s' = d :: served s \/ overwrites s d) /\
  (exists s, rtc step (start 1) s /\ lost 0 s /\ timesServed 0 s = 0%nat /\ timesServed 1 s = 1%nat) /\
  (forall count s s' d, count <= MostWorkers -> rtc step (start count) s -> domain d -> lost d s -> rtc step s s' ->
    lost d s' /\ timesServed d s' = timesServed d s).
Proof.
  split_and!.
  - intros count s s' d Hc Hr. apply owed_step. eapply pool_inv_reachable; [by apply pool_inv_start|done].
  - apply repeated_offer_plays.
  - intros count s s' d Hc Hr. apply lost_forever. eapply pool_inv_reachable; [by apply pool_inv_start|done].
Qed.

(** Two workers offered, a request for domain 1, and the first worker inside it. *)
Definition one_request : list move :=
  replicate 4 (W 0) ++ replicate 4 (W 1) ++ [R 1] ++ replicate 11 D ++ replicate 4 (W 0).

Lemma one_worker_per_domain_witness : exists s, rtc step (start 2) s /\ isBusy 1 s = true.
Proof.
  destruct (play one_request (start 2)) as [s|] eqn:Hplay; [|exfalso; vm_compute in Hplay; discriminate Hplay].
  assert (match play one_request (start 2) with
          | Some s => match workers s !! 0 with Some w => bool_decide (Worker_t.domainId w = NoDomain) && match Worker_t.at_ w with WServe 1 => true | _ => false end | None => false end
          | None => false
          end = true) as H by (vm_compute; reflexivity).
  rewrite Hplay in H. destruct (workers s !! 0) as [w|] eqn:Hw; [|discriminate H].
  apply andb_prop in H as [_ H]. destruct (Worker_t.at_ w) as [| | | | |d| |] eqn:Hat; try discriminate H.
  assert (d = 1) as -> by (destruct d as [|[]|]; [discriminate H..|reflexivity|discriminate H]).
  assert (rtc step (start 2) s) as Hr by (apply (play_steps one_request); [vm_compute; reflexivity|exact Hplay]).
  exists s. split; [exact Hr|].
  apply (one_worker_per_domain 2 s 1 0 w); [unfold MostWorkers; lia|exact Hr|unfold domain; lia|exact Hw|exact Hat].
Defined.
