(* ===== verification/Control.v ===== *)
(** * Control: the daemon's control loop

    Models [src/daemon/daemon/control/exchange.hpp], [handler.cpp] and
    [listener.cpp]: who is admitted, what a connection has to say and in which
    order, the four domain commands, and what a departed peer gives back.

    A connection's socket is what went out on it: each frame, with whether the
    area's descriptor travelled with it.  What arrives, whether a send goes out
    and who waits at the listener are streams of the environment.  The ready
    entries of one epoll wait are handled in order by [handle]. *)

From S2P Require Import Prelude Effect Bitmap Types Wire Area Manager.

(** ** Who may connect *)

Module AdmitPolicy_t.
Record t := mk { uids : list Z; gids : list Z }.
End AdmitPolicy_t.

Definition admits (policy : AdmitPolicy_t.t) (euid uid gid : Z) : bool :=
  if Nat.eqb (length (AdmitPolicy_t.uids policy)) 0 && Nat.eqb (length (AdmitPolicy_t.gids policy)) 0 then uid =? euid
  else existsb (Z.eqb uid) (AdmitPolicy_t.uids policy) || existsb (Z.eqb gid) (AdmitPolicy_t.gids policy).

(** What an accept comes to: nobody, a peer without credentials, or a peer. *)
Inductive Arrival := Nobody | Nameless | Arrived_ (descriptor uid gid : Z).

Inductive Admission := Accepted (descriptor : Z) | Refused | Again.

(** ** What the loop holds *)

Module Connection_t.
Record t := mk {
  said : list (list Z * bool);       (* the frames sent, newest first, and whether the descriptor went along *)
  greeted : bool;
  claimedVersion : Z;
  joins : gset (list Z);
}.
Definition with_said (v : list (list Z * bool)) (c : t) : t := mk v (greeted c) (claimedVersion c) (joins c).
Definition with_greeted (v : bool) (c : t) : t := mk (said c) v (claimedVersion c) (joins c).
Definition with_claimedVersion (v : Z) (c : t) : t := mk (said c) (greeted c) v (joins c).
Definition with_joins (v : gset (list Z)) (c : t) : t := mk (said c) (greeted c) (claimedVersion c) v.
Definition fresh : t := mk [] false 0 ∅.
End Connection_t.

Inductive Heard_t := PeerClosed | Unfollowed | Message_ (message : list Z).

Module ControlEnv.
Record t := mk {
  node : NodeEnv.t;
  policy : AdmitPolicy_t.t;
  euid : Z;
  maxConnections : Z;
  areaBytes : Z;
  arrivals : nat -> Arrival;         (* by accept *)
  heard : nat -> Heard_t;            (* by receive *)
  sendGoes : nat -> bool;            (* by send *)
}.
End ControlEnv.

Module Desk.
Record t (S : Type) := mk {
  node : Node.t S;
  connected : gmap Z Connection_t.t;
  running : bool;
  accepts : nat;
  receives : nat;
  sends : nat;
}.
Arguments mk {S}.
Arguments node {S}.
Arguments connected {S}.
Arguments running {S}.
Arguments accepts {S}.
Arguments receives {S}.
Arguments sends {S}.

Section updates.
Context {S : Type}.
Definition with_node (v : Node.t S) (k : t S) : t S := mk v (connected k) (running k) (accepts k) (receives k) (sends k).
Definition with_connected (v : gmap Z Connection_t.t) (k : t S) : t S := mk (node k) v (running k) (accepts k) (receives k) (sends k).
Definition with_running (v : bool) (k : t S) : t S := mk (node k) (connected k) v (accepts k) (receives k) (sends k).
Definition with_accepts (v : nat) (k : t S) : t S := mk (node k) (connected k) (running k) v (receives k) (sends k).
Definition with_receives (v : nat) (k : t S) : t S := mk (node k) (connected k) (running k) (accepts k) v (sends k).
Definition with_sends (v : nat) (k : t S) : t S := mk (node k) (connected k) (running k) (accepts k) (receives k) v.
End updates.
End Desk.

(** ** The exchanges *)

Module HelloExchange.
Definition answers (type : Z) : bool := type =? MessageType.Hello.
Definition reply (areaBytes : Z) (message : list Z) : option (list Z) :=
  match TypedMessage.read (P := Hello_t.t) MessageType.Hello message with
  | Some asked =>
      if negb (Hello_t.abiVersion asked =? AbiVersion) then None
      else Some (TypedMessage.frame MessageType.Welcome (Message.version message) (Message.sequence message)
                   (Welcome_t.mk AbiVersion areaBytes))
  | None => None
  end.
End HelloExchange.

Module ControlHandler.
Section with_session.
Context {S : Type} `{RegionSession S}.

Definition K (A : Type) : Type := run ControlEnv.t (Desk.t S) A.

(** A manager operation, on the node the loop serves. *)
Definition served {A} (m : DomainManager.D A) : K A := fun E k =>
  match m (ControlEnv.node E) (Desk.node k) with
  | Some (a, n) => Some (a, Desk.with_node n k)
  | None => None
  end.

Definition find (descriptor : Z) : K (option Connection_t.t) := fun _ k => Some (Desk.connected k !! descriptor, k).
Definition update (descriptor : Z) (f : Connection_t.t -> Connection_t.t) : K unit := fun _ k =>
  Some (tt, Desk.with_connected (alter f descriptor (Desk.connected k)) k).

(** [sendBack]: nothing to send is a refusal. *)
Definition sendBack (descriptor : Z) (answered : option (list Z)) (carried : bool) : K bool := fun E k =>
  match answered with
  | None => Some (false, k)
  | Some frame =>
      let k' := Desk.with_sends (Datatypes.S (Desk.sends k)) k in
      if ControlEnv.sendGoes E (Desk.sends k)
      then Some (true, Desk.with_connected
                         (alter (fun c => Connection_t.with_said ((frame, carried) :: Connection_t.said c) c) descriptor
                            (Desk.connected k')) k')
      else Some (false, k')
  end.

(** [DomainRequestExchange::record]. *)
Definition record (asked : Z) (name : list Z) (joins : gset (list Z)) : gset (list Z) :=
  let held := DomainName.read name in
  if (asked =? MessageType.CreateDomain) || (asked =? MessageType.JoinDomain) then {[held]} ∪ joins else joins ∖ {[held]}.

(** [DomainRequestExchange::reply]. *)
Definition reply (descriptor : Z) (message : list Z) : K (option (list Z)) :=
  let type := Message.type message in
  match DomainRequestMessage.read type message with
  | None => ret None
  | Some asked =>
      let! answered := served (DomainManager.serveCommand type (DomainName.read (DomainRequest_t.name asked))) in
      let result := DomainAnswer_code answered in
      when (result =? 0)
        (update descriptor (fun c => Connection_t.with_joins (record type (DomainRequest_t.name asked) (Connection_t.joins c)) c)) ;;;
      ret (Some (TypedMessage.frame MessageType.Answer (Message.version message) (Message.sequence message)
                   (Answer_t.mk result)))
  end.

(** [DomainRequestExchange::giveBack]. *)
Definition giveBack (joins : gset (list Z)) : K unit :=
  forM (elements joins) (fun name =>
    let! _ := served (DomainManager.serveCommand MessageType.LeaveDomain name) in ret tt).

(** ** Who comes and goes *)

(** [Listener::take]. *)
Definition take : K Admission := fun E k =>
  Some (match ControlEnv.arrivals E (Desk.accepts k) with
        | Nobody => Again
        | Nameless => Refused
        | Arrived_ descriptor uid gid =>
            if admits (ControlEnv.policy E) (ControlEnv.euid E) uid gid then Accepted descriptor else Refused
        end, Desk.with_accepts (Datatypes.S (Desk.accepts k)) k).

(** [emplace]: an entry already there stays. *)
Definition emplace (descriptor : Z) : K unit := fun _ k =>
  Some (tt, match Desk.connected k !! descriptor with
            | Some _ => k
            | None => Desk.with_connected (<[descriptor := Connection_t.fresh]> (Desk.connected k)) k
            end).

Definition crowded : K bool := fun E k =>
  Some (ControlEnv.maxConnections E <=? Z.of_nat (size (Desk.connected k)), k).

Fixpoint admitConnections_turns (turns : nat) : K unit :=
  match turns with
  | O => outOfFuel
  | Datatypes.S turns =>
      let! admitted := take in
      match admitted with
      | Again => ret tt
      | Refused => admitConnections_turns turns
      | Accepted descriptor =>
          let! full := crowded in
          (if full then ret tt else emplace descriptor) ;;;
          admitConnections_turns turns
      end
  end.
Definition admitConnections : K unit := fun E => admitConnections_turns (Datatypes.S (NodeEnv.fuel (ControlEnv.node E))) E.

Definition erase (descriptor : Z) : K unit := fun _ k =>
  Some (tt, Desk.with_connected (delete descriptor (Desk.connected k)) k).

Definition dropConnection (descriptor : Z) : K unit :=
  let! found := find descriptor in
  match found with
  | None => ret tt
  | Some c => giveBack (Connection_t.joins c) ;;; erase descriptor
  end.

(** ** One message *)

Definition receiveOne : K Heard_t := fun E k =>
  Some (ControlEnv.heard E (Desk.receives k), Desk.with_receives (Datatypes.S (Desk.receives k)) k).

(** [answer]: whether the connection lives on. *)
Definition answer (descriptor : Z) (asking : Connection_t.t) (message : list Z) : K bool :=
  if negb (Message.isReadable None message) then ret false
  else
    let version := Message.version message in
    if negb (Connection_t.claimedVersion asking =? 0) && negb (Connection_t.claimedVersion asking =? version) then ret false
    else
      update descriptor (Connection_t.with_claimedVersion version) ;;;
      if HelloExchange.answers (Message.type message) then
        if Connection_t.greeted asking then ret false
        else
          let! areaBytes := (fun E k => Some (ControlEnv.areaBytes E, k)) in
          let! went := sendBack descriptor (HelloExchange.reply areaBytes message) true in
          if negb went then ret false
          else update descriptor (Connection_t.with_greeted true) ;;; ret true
      else if isDomainRequest (Message.type message) then
        if negb (Connection_t.greeted asking) then ret false
        else
          let! answered := reply descriptor message in
          let! went := sendBack descriptor answered false in
          ret went
      else ret true.

Definition readMessage (descriptor : Z) : K unit :=
  let! found := find descriptor in
  match found with
  | None => ret tt
  | Some c =>
      let! heard := receiveOne in
      let! followed := (match heard with Message_ message => answer descriptor c message | _ => ret false end) in
      when (negb followed) (dropConnection descriptor)
  end.

(** ** The loop *)

Inductive Ready := StopSignal | Listening | Connected_ (descriptor : Z) (readable gone : bool).

Definition handle (entry : Ready) : K unit :=
  match entry with
  | StopSignal => fun _ k => Some (tt, Desk.with_running false k)
  | Listening => admitConnections
  | Connected_ descriptor readable gone =>
      when readable (readMessage descriptor) ;;;
      when gone (dropConnection descriptor)
  end.

(** One wait's worth of [run]. *)
Definition pass (ready : list Ready) : K unit := fun E k =>
  if Desk.running k then forM ready handle E k else Some (tt, k).

End with_session.
End ControlHandler.
