(* ===== verification/Handshake.v ===== *)
(** * Handshake: the theorems on the control loop

    What a requester is told and in which order, whatever arrives and in
    whatever order the connections are ready. *)

From S2P Require Import Prelude Effect Bitmap Types Layout Wire Area Manager Turn Control.
Import ControlHandler.

(** A reply that is a result and carries no descriptor. *)
Definition isAnswer (r : list Z * bool) : Prop :=
  r.2 = false /\ exists a, TypedMessage.read (P := Answer_t.t) MessageType.Answer r.1 = Some a.
Definition isWelcome (areaBytes : Z) (r : list Z * bool) : Prop :=
  r.2 = true /\ TypedMessage.read (P := Welcome_t.t) MessageType.Welcome r.1 = Some (Welcome_t.mk AbiVersion areaBytes).

(** A connection in order: nothing said and nothing held before it is greeted;
    from then on one Welcome, first, and only results after it; every frame in
    the one version the peer claimed. *)
Record conn_ok (areaBytes : Z) (c : Connection_t.t) : Prop := {
  ok_silent : Connection_t.greeted c = false -> Connection_t.said c = [] /\ Connection_t.joins c = ∅;
  ok_welcomed : Connection_t.greeted c = true -> exists w later,
    Connection_t.said c = later ++ [w] /\ isWelcome areaBytes w /\ Forall isAnswer later;
  ok_version : Forall (fun r => Message.version r.1 = Connection_t.claimedVersion c) (Connection_t.said c);
  ok_claimed : Connection_t.said c <> [] -> isSupported (Connection_t.claimedVersion c) = true;
}.

Section control.
Context {S : Type} `{HS : RegionSession S} (E : ControlEnv.t).
Hypothesis Hbytes : forall i m, ControlEnv.heard E i = Message_ m -> Forall isByte m.
Hypothesis Harea : in_u32 (ControlEnv.areaBytes E).

Definition desk_ok (k : Desk.t S) : Prop :=
  (forall d c, Desk.connected k !! d = Some c -> conn_ok (ControlEnv.areaBytes E) c) /\
  Z.of_nat (size (Desk.connected k)) <= Z.max 0 (ControlEnv.maxConnections E).

(** A desk in order but for one connection, which stands at [c]. *)
Definition desk_at (d : Z) (c : Connection_t.t) (k : Desk.t S) : Prop :=
  Desk.connected k !! d = Some c /\
  (forall d' c', d' <> d -> Desk.connected k !! d' = Some c' -> conn_ok (ControlEnv.areaBytes E) c') /\
  Z.of_nat (size (Desk.connected k)) <= Z.max 0 (ControlEnv.maxConnections E).

Lemma desk_at_ok d c k : desk_at d c k -> conn_ok (ControlEnv.areaBytes E) c -> desk_ok k.
Proof.
  intros (Hc & Ho & Hs) Hok. split; [|done]. intros d' c' Hc'. destruct (decide (d' = d)) as [->|Hne]; [congruence|by eapply Ho].
Qed.

Lemma desk_ok_at d c k : desk_ok k -> Desk.connected k !! d = Some c -> desk_at d c k.
Proof. intros [Hc Hs] Hd. split_and!; eauto. Qed.

Lemma wlp_served {A} (m : DomainManager.D A) (Q : A -> Desk.t S -> Prop) k :
  (forall a n, Q a (Desk.with_node n k)) -> wlp (served m) E Q k.
Proof. intros HQ. unfold wlp, served. destruct (m _ _) as [[a n]|]; [apply HQ|done]. Qed.

Lemma at_update d c f (Q : unit -> Desk.t S -> Prop) k :
  desk_at d c k -> (forall k', desk_at d (f c) k' -> Q tt k') -> wlp (update d f) E Q k.
Proof.
  intros (Hc & Ho & Hs) HQ. apply HQ. split_and!; cbn.
  - by rewrite lookup_alter_eq, Hc.
  - intros d' c' Hne. rewrite lookup_alter_ne by done. by apply Ho.
  - rewrite <-size_dom, dom_alter_L, size_dom. done.
Qed.

Lemma at_sendBack d c frame carried (Q : bool -> Desk.t S -> Prop) k :
  desk_at d c k -> (forall k', desk_at d c k' -> Q false k') ->
  (forall f k', frame = Some f -> desk_at d (Connection_t.with_said ((f, carried) :: Connection_t.said c) c) k' -> Q true k') ->
  wlp (sendBack d frame carried) E Q k.
Proof.
  intros (Hc & Ho & Hs) Hno Hyes. unfold wlp, sendBack. destruct frame as [f|]; [|apply Hno; by split_and!].
  destruct (ControlEnv.sendGoes E (Desk.sends k)); [|apply Hno; by split_and!].
  apply (Hyes f); [done|]. split_and!; cbn.
  - by rewrite lookup_alter_eq, Hc.
  - intros d' c' Hne. rewrite lookup_alter_ne by done. by apply Ho.
  - rewrite <-size_dom, dom_alter_L, size_dom. done.
Qed.

(** ** What the frames read as *)

Lemma version_range m : Forall isByte m -> in_u32 (Message.version m).
Proof. intros Hb. unfold Message.version, Message.header. destruct (_ <? _)%nat; [unfold in_u32; lia|]. by apply word_at_range. Qed.
Lemma sequence_range m : Forall isByte m -> in_u32 (Message.sequence m).
Proof. intros Hb. unfold Message.sequence, Message.header. destruct (_ <? _)%nat; [unfold in_u32; lia|]. by apply word_at_range. Qed.

Lemma readable_supported m : Message.isReadable None m = true -> isSupported (Message.version m) = true.
Proof.
  unfold Message.isReadable, Message.version. destruct (Message.header m); cbn; [|done]. by intros [? _]%andb_prop.
Qed.

(** A frame of this build, read back under the version it answers. *)
Lemma frame_read {P} `{Payload P} kind m (carried : P) :
  Forall isByte m -> isSupported (Message.version m) = true -> in_u32 kind -> payload_ok carried -> Z.of_nat payload_size < 2 ^ 32 ->
  let frame := TypedMessage.frame kind (Message.version m) (Message.sequence m) carried in
  Message.version frame = Message.version m /\ TypedMessage.read kind frame = Some carried.
Proof.
  intros Hb Hv Hk Hok Hsz. cbv zeta.
  pose proof (frame_reads kind (Message.version m) (Message.sequence m) carried [] Hk (version_range m Hb) (sequence_range m Hb) Hok Hsz) as Hf.
  cbv zeta in Hf. rewrite app_nil_r in Hf. destruct Hf as (Hver & _ & _ & Hread). split; [done|].
  by rewrite Hread, Hv, Z.eqb_refl.
Qed.

Lemma answer_code_ok a : payload_ok (Answer_t.mk (DomainAnswer_code a)).
Proof. destruct a; cbn; lia. Qed.

(** The connection past the claim of its version. *)
Lemma claimed_ok c m :
  conn_ok (ControlEnv.areaBytes E) c -> Message.isReadable None m = true ->
  negb (Connection_t.claimedVersion c =? 0) && negb (Connection_t.claimedVersion c =? Message.version m) = false ->
  conn_ok (ControlEnv.areaBytes E) (Connection_t.with_claimedVersion (Message.version m) c).
Proof.
  intros [H1 H2 H3 H4] Hr%readable_supported Hsame. split; try done. cbn.
  destruct (Connection_t.said c) as [|r rest] eqn:Hsaid; [done|]. specialize (H4 ltac:(done)).
  apply andb_false_iff in Hsame as [Hz%negb_false_iff%Z.eqb_eq|Hz%negb_false_iff%Z.eqb_eq].
  - rewrite Hz in H4. done.
  - by rewrite <-Hz.
Qed.

(** The Welcome goes out on a connection that has said nothing. *)
Lemma welcomed_ok c m frame :
  conn_ok (ControlEnv.areaBytes E) c -> Forall isByte m -> isSupported (Message.version m) = true ->
  Connection_t.claimedVersion c = Message.version m -> Connection_t.greeted c = false ->
  HelloExchange.reply (ControlEnv.areaBytes E) m = Some frame ->
  conn_ok (ControlEnv.areaBytes E) (Connection_t.with_greeted true (Connection_t.with_said ((frame, true) :: Connection_t.said c) c)).
Proof.
  intros Hc Hb Hv Hcl Hg Hreply. destruct (ok_silent _ _ Hc Hg) as [Hs _]. unfold HelloExchange.reply in Hreply.
  destruct (TypedMessage.read _ _) as [asked|]; [|done]. destruct (negb _); [done|]. injection Hreply as <-.
  destruct (frame_read MessageType.Welcome m (Welcome_t.mk AbiVersion (ControlEnv.areaBytes E)) Hb Hv) as [Hver Hread];
    [by vm_compute|by split; [vm_compute|]|by vm_compute|].
  split; cbn; rewrite ?Hs, ?Hcl; [done| |by apply Forall_singleton|done].
  intros _. eexists _, []. by split_and!.
Qed.

(** A result goes out on a greeted connection. *)
Lemma answered_ok c m a :
  conn_ok (ControlEnv.areaBytes E) c -> Forall isByte m -> isSupported (Message.version m) = true ->
  Connection_t.claimedVersion c = Message.version m -> Connection_t.greeted c = true ->
  conn_ok (ControlEnv.areaBytes E) (Connection_t.with_said
    ((TypedMessage.frame MessageType.Answer (Message.version m) (Message.sequence m) (Answer_t.mk (DomainAnswer_code a)), false) :: Connection_t.said c) c).
Proof.
  intros Hc Hb Hv Hcl Hg. destruct (ok_welcomed _ _ Hc Hg) as (w & later & Hs & Hw & Hl).
  destruct (frame_read MessageType.Answer m (Answer_t.mk (DomainAnswer_code a)) Hb Hv) as [Hver Hread];
    [by vm_compute|apply answer_code_ok|by vm_compute|].
  split; cbn; [congruence| | |].
  - intros _. eexists w, (_ :: later). split_and!; [by rewrite Hs|done|]. constructor; [|done]. split; [done|]. by eexists.
  - constructor; [by rewrite Hcl|apply Hc].
  - intros _. by rewrite Hcl.
Qed.

Lemma joins_ok c j : conn_ok (ControlEnv.areaBytes E) c -> Connection_t.greeted c = true ->
  conn_ok (ControlEnv.areaBytes E) (Connection_t.with_joins j c).
Proof. intros [H1 H2 H3 H4] Hg. split; try done. cbn. congruence. Qed.

Lemma answer_keeps d c m k :
  desk_at d c k -> conn_ok (ControlEnv.areaBytes E) c -> Forall isByte m ->
  wlp (answer d c m) E (fun _ k' => desk_ok k') k.
Proof.
  intros Hk Hc Hb. unfold answer. destruct (Message.isReadable None m) eqn:Hr; cbn [negb]; [|by eapply wlp_ret, desk_at_ok].
  pose proof (readable_supported m Hr) as Hv. destruct (_ && _) eqn:Hsame; [by eapply wlp_ret, desk_at_ok|].
  pose proof (claimed_ok c m Hc Hr Hsame) as Hc1. apply wlp_bind. eapply at_update; [exact Hk|]. intros k1 Hk1.
  set (c1 := Connection_t.with_claimedVersion (Message.version m) c) in *.
  destruct (HelloExchange.answers _).
  - destruct (Connection_t.greeted c) eqn:Hg; [by eapply wlp_ret, desk_at_ok|]. apply wlp_bind. unfold wlp at 1. apply wlp_bind.
    eapply at_sendBack; [exact Hk1| |].
    + intros k2 Hk2. by eapply wlp_ret, desk_at_ok.
    + intros f k2 Hf Hk2. cbn [negb]. apply wlp_bind. eapply at_update; [exact Hk2|]. intros k3 Hk3. apply wlp_ret.
      eapply desk_at_ok; [exact Hk3|]. by apply (welcomed_ok c1 m).
  - destruct (isDomainRequest _); [|by eapply wlp_ret, desk_at_ok].
    destruct (Connection_t.greeted c) eqn:Hg; cbn [negb]; [|by eapply wlp_ret, desk_at_ok]. apply wlp_bind. unfold reply.
    destruct (DomainRequestMessage.read _ m) as [asked|].
    2:{ apply wlp_ret. apply wlp_bind. by eapply wlp_ret, wlp_ret, desk_at_ok. }
    apply wlp_bind. apply wlp_served. intros a n. apply wlp_bind.
    assert (desk_at d c1 (Desk.with_node n k1)) as Hk2 by apply Hk1.
    assert (forall c2 k2, conn_ok (ControlEnv.areaBytes E) c2 -> Connection_t.claimedVersion c2 = Message.version m -> Connection_t.greeted c2 = true ->
      desk_at d c2 k2 -> wlp (ret (Some (TypedMessage.frame MessageType.Answer (Message.version m) (Message.sequence m) (Answer_t.mk (DomainAnswer_code a))))) E
        (fun answered => wlp (let! went := sendBack d answered false in ret went) E (fun _ k' => desk_ok k')) k2) as Hsend.
    { intros c2 k2 Hc2 Hcl Hg2 Hat. apply wlp_ret, wlp_bind. eapply at_sendBack; [exact Hat| |].
      - intros k3 Hk3. by eapply wlp_ret, desk_at_ok.
      - intros f k3 [= <-] Hk3. eapply wlp_ret, desk_at_ok; [exact Hk3|]. by apply answered_ok. }
    unfold when. destruct (DomainAnswer_code a =? 0).
    + eapply at_update; [exact Hk2|]. intros k3 Hk3. eapply Hsend; cycle -1; [exact Hk3|by apply joins_ok|done|exact Hg].
    + apply wlp_ret. by apply (Hsend c1).
Qed.

Lemma dropConnection_keeps d k : desk_ok k -> wlp (dropConnection d) E (fun _ => desk_ok) k.
Proof.
  intros Hk. unfold dropConnection. apply wlp_bind. unfold wlp at 1, find. destruct (Desk.connected k !! d) as [c|]; [|done].
  apply wlp_bind. unfold giveBack. eapply wlp_mono.
  { apply (wlp_forM E _ _ desk_ok); [done|]. intros name k1 _ Hk1. apply wlp_bind, wlp_served. intros a n. by apply wlp_ret. }
  intros _ k1 [Hc Hs]. split; cbn.
  - intros d' c' H%lookup_delete_Some. destruct H as [_ H]. by eapply Hc.
  - etransitivity; [|exact Hs]. apply inj_le. rewrite <-!size_dom. apply subseteq_size. set_solver.
Qed.

Lemma readMessage_keeps d k : desk_ok k -> wlp (readMessage d) E (fun _ => desk_ok) k.
Proof.
  intros Hk. unfold readMessage. apply wlp_bind. unfold wlp at 1, find. destruct (Desk.connected k !! d) as [c|] eqn:Hd; [|done].
  apply wlp_bind. unfold wlp at 1, receiveOne. set (k1 := Desk.with_receives _ k). assert (desk_ok k1) as Hk1 by done.
  apply wlp_bind. assert (forall b k2, desk_ok k2 -> wlp (when (negb b) (dropConnection d)) E (fun _ => desk_ok) k2) as Hdrop.
  { intros [] k2 Hk2; [done|]. by apply dropConnection_keeps. }
  destruct (ControlEnv.heard E (Desk.receives k)) as [| |m] eqn:Hm; [by apply wlp_ret, Hdrop..|].
  eapply wlp_mono; [apply answer_keeps; [by apply desk_ok_at|by eapply Hk|by eapply Hbytes]|].
  intros b k2 Hk2. by apply Hdrop.
Qed.

Lemma admitConnections_keeps turns k : desk_ok k -> wlp (admitConnections_turns turns) E (fun _ => desk_ok) k.
Proof.
  revert k. induction turns as [|turns IH]; intros k Hk; [done|]. cbn [admitConnections_turns]. apply wlp_bind. unfold wlp at 1, take.
  set (k1 := Desk.with_accepts _ k). assert (desk_ok k1) as Hk1 by done.
  destruct (match ControlEnv.arrivals E _ with Nobody => _ | _ => _ end) as [d| |]; [|by apply IH|done].
  apply wlp_bind. unfold wlp at 1, crowded. destruct (Z.leb_spec (ControlEnv.maxConnections E) (Z.of_nat (size (Desk.connected k1)))) as [|Hroom].
  { apply wlp_bind, wlp_ret. by apply IH. }
  apply wlp_bind. unfold wlp at 1, emplace. apply IH. destruct (Desk.connected k1 !! d) as [c|] eqn:Hd; [done|].
  destruct Hk1 as [Hc Hs]. split; cbn.
  - intros d' c' H%lookup_insert_Some. destruct H as [[_ <-]|[_ H]]; [by split|]. by eapply Hc.
  - rewrite map_size_insert_None by done. change (Desk.connected k1) with (Desk.connected k) in Hroom. lia.
Qed.

Lemma pass_keeps ready k : desk_ok k -> wlp (pass ready) E (fun _ => desk_ok) k.
Proof.
  intros Hk. unfold pass, wlp. destruct (Desk.running k); [|done]. change (wlp (forM ready handle) E (fun _ => desk_ok) k).
  apply wlp_forM; [done|]. intros [| |d readable gone] k1 _ Hk1.
  - done.
  - by apply admitConnections_keeps.
  - cbn. apply wlp_bind. eapply (wlp_mono _ _ (fun _ => desk_ok)).
    + destruct readable; [by apply readMessage_keeps|done].
    + intros _ k2 Hk2. destruct gone; [by apply dropConnection_keeps|done].
Qed.
End control.

(** C29: a requester is told things in one order.  From an empty table, whatever
    arrives, whoever is admitted, however the sends go and whatever the manager
    answers: a connection that has not been greeted has been sent nothing and
    holds nothing; a greeted one was sent exactly one Welcome, before everything
    else, with the area's descriptor and this build's version and size, and after
    it only results, none with a descriptor; every frame is in the version the
    peer claimed, which this build speaks; and there are never more connections
    than the configuration allows. *)
Theorem handshake_order {S} `{RegionSession S} (E : ControlEnv.t) (k0 k : Desk.t S) (d : Z) (c : Connection_t.t) :
  (forall i m, ControlEnv.heard E i = Message_ m -> Forall isByte m) -> in_u32 (ControlEnv.areaBytes E) ->
  Desk.connected k0 = ∅ ->
  rtc (fun a b => exists ready, pass ready E a = Some (tt, b)) k0 k -> Desk.connected k !! d = Some c ->
  Z.of_nat (size (Desk.connected k)) <= Z.max 0 (ControlEnv.maxConnections E) /\
  conn_ok (ControlEnv.areaBytes E) c.
Proof.
  intros Hb Ha H0 Hreach Hc.
  assert (desk_ok E k0) as Hk0 by (split; rewrite H0; [intros d' c'; by rewrite lookup_empty|rewrite map_size_empty; lia]).
  assert (desk_ok E k) as [Hok Hs]; [|by eauto]. clear H0 Hc.
  induction Hreach as [|k1 k2 k3 [ready Hp] _ IH]; [done|]. apply IH.
  exact (wlp_elim E _ _ _ _ _ (pass_keeps E Hb Ha ready k1 Hk0) Hp).
Qed.

(** One requester of the daemon's own account: a Hello, then a create of run. *)
Definition hello_frame : list Z :=
  TypedMessage.frame MessageType.Hello 1 1 (Hello_t.mk AbiVersion).
Definition create_frame : list Z :=
  DomainRequestMessage.frame MessageType.CreateDomain 1 2 (DomainRequest_t.mk (DomainName.pad [114; 117; 110])).
Definition sample_control_env : ControlEnv.t :=
  ControlEnv.mk solo.env (AdmitPolicy_t.mk [] []) 1000 256 8320
    (fun i => match i with O => Arrived_ 7 1000 1000 | _ => Nobody end)
    (fun i => match i with O => Message_ hello_frame | 1%nat => Message_ create_frame | _ => PeerClosed end)
    (fun _ => true).
Definition sample_desk : Desk.t solo.t := Desk.mk (solo.node Idle) ∅ true 0 0 0.

Lemma handshake_order_witness :
  exists k c, pass [Listening; Connected_ 7 true false; Connected_ 7 true false] sample_control_env sample_desk = Some (tt, k) /\
    Desk.connected k !! 7 = Some c /\ length (Connection_t.said c) = 2%nat /\ conn_ok 8320 c.
Proof.
  destruct (pass [Listening; Connected_ 7 true false; Connected_ 7 true false] sample_control_env sample_desk) as [[[] k]|] eqn:Hrun;
    [|exfalso; vm_compute in Hrun; discriminate Hrun].
  assert (match pass [Listening; Connected_ 7 true false; Connected_ 7 true false] sample_control_env sample_desk with
          | Some (_, k) => match Desk.connected k !! 7 with Some c => Nat.eqb (length (Connection_t.said c)) 2 | None => false end
          | None => false end = true) as Hl by (vm_compute; reflexivity).
  rewrite Hrun in Hl. destruct (Desk.connected k !! 7) as [c|] eqn:Hc; [|discriminate Hl]. apply Nat.eqb_eq in Hl.
  exists k, c. split_and!; [reflexivity|exact Hc|exact Hl|].
  apply (handshake_order sample_control_env sample_desk k 7 c).
  - intros [|[|i]] m; cbn; intros [= <-]; (apply Forall_forall; intros b Hb; repeat (apply elem_of_cons in Hb as [->|Hb]; [unfold isByte; vm_compute; split; congruence|]); by apply elem_of_nil in Hb).
  - unfold in_u32. cbn. lia.
  - reflexivity.
  - eapply rtc_l; [|apply rtc_refl]. eexists. exact Hrun.
  - exact Hc.
Defined.
