(* ===== verification/KvConfig.v ===== *)
(** * KvConfig: the configuration files

    Models [src/common/common/kv_config.hpp]: the YAML subset the daemon, its
    clients and the tools read.  Text is a list of bytes.  An operation that
    throws [ParseError] answers it as a value: which refusal, and the line or the
    key it names. *)

From stdpp Require Import strings.
From S2P Require Import Prelude Types.

(** The bytes of a literal. *)
Definition str (s : string) : list Z := map (fun c => Z.of_nat (Ascii.nat_of_ascii c)) (String.list_ascii_of_string s).
Definition chr (s : string) : Z := hd 0 (str s).

(** ** Views of text *)

(** [find_first_not_of], [find_last_not_of] and [find], as positions. *)
Fixpoint find_from (P : Z -> bool) (text : list Z) (at_ : nat) : option nat :=
  match text with
  | [] => None
  | c :: rest => if P c then Some at_ else find_from P rest (S at_)
  end.
Definition find (P : Z -> bool) (text : list Z) : option nat := find_from P text 0.
Definition find_last (P : Z -> bool) (text : list Z) : option nat :=
  match find P (rev text) with None => None | Some back => Some (length text - 1 - back)%nat end.
Definition substr (pos count : nat) (text : list Z) : list Z := take count (drop pos text).

Inductive ParseError :=
| TabInIndentation (line : Z) | NotKeyValue (line : Z) | EmptyKey (line : Z)
| CannotOpen | CannotBeExamined | WritableByOthers | OwnedByAnother | CannotBeRead
| NotANumber (key : list Z) | MoreThanFit (key : list Z) | DoesNotFit (key : list Z) (bits : Z)
| NotAPermission (key : list Z) | NotABoolean (key : list Z) | NotASequence (key : list Z).

Module KeyValueConfig.

Record t := mk { entries_ : gmap (list Z) (list Z); }.
Definition empty : t := mk ∅.

(** ** Parsing *)

Definition isBlank (c : Z) : bool := (c =? 32) || (c =? 9) || (c =? 13) || (c =? 10).
Definition isQuote (c : Z) : bool := (c =? 34) || (c =? 39).

Definition trim (text : list Z) : list Z :=
  match find (fun c => negb (isBlank c)) text with
  | None => []
  | Some begin_ =>
      let last_ := default 0%nat (find_last (fun c => negb (isBlank c)) text) in
      substr begin_ (last_ - begin_ + 1) text
  end.

Definition unquote (text : list Z) : list Z :=
  match text, last text with
  | front :: _, Some back =>
      if (2 <=? Z.of_nat (length text)) && (front =? back) && isQuote front
      then substr 1 (length text - 2) text else text
  | _, _ => text
  end.

(** The scan of [stripComment]: the quote it is inside, the letter before. *)
Fixpoint stripComment_from (quote before : option Z) (rest : list Z) : list Z :=
  match rest with
  | [] => []
  | letter :: rest =>
      match quote with
      | Some q => letter :: stripComment_from (if letter =? q then None else quote) (Some letter) rest
      | None =>
          if isQuote letter then letter :: stripComment_from (Some letter) (Some letter) rest
          else if (letter =? 35) && (match before with None => true | Some c => (c =? 32) || (c =? 9) end) then []
          else letter :: stripComment_from None (Some letter) rest
      end
  end.
Definition stripComment (line : list Z) : list Z := stripComment_from None None line.

Definition readIndent (line : list Z) (lineNumber : Z) : Z + ParseError :=
  match find (fun c => negb (c =? 32)) line with
  | None => inl 0
  | Some column => if nth column line 0 =? 9 then inr (TabInIndentation lineNumber) else inl (Z.of_nat column)
  end.

(** [std::getline] to the end of the stream: a last line need not be closed. *)
Fixpoint getlines_from (line : list Z) (text : list Z) : list (list Z) :=
  match text with
  | [] => match line with [] => [] | _ => [rev line] end
  | c :: rest => if c =? 10 then rev line :: getlines_from [] rest else getlines_from (c :: line) rest
  end.
Definition getlines (text : list Z) : list (list Z) := getlines_from [] text.

Record Section_t := mkSection { column : Z; prefix : list Z; }.

(** The open maps, the innermost first. *)
Fixpoint closeSections (at_ : Z) (open : list Section_t) : list Section_t :=
  match open with
  | [] => []
  | top :: rest => if at_ <=? column top then closeSections at_ rest else open
  end.

Definition pathOf (open : list Section_t) (name : list Z) : list Z :=
  match open with [] => name | top :: _ => prefix top ++ name end.

(** One turn of the loop of [parse]. *)
Definition parseLine (lineNumber : Z) (line : list Z) (config : t) (open : list Section_t) :
    (t * list Section_t) + ParseError :=
  let body := stripComment line in
  match trim body with
  | [] => inl (config, open)
  | _ =>
      match readIndent body lineNumber with
      | inr refused => inr refused
      | inl at_ =>
          let open := closeSections at_ open in
          match find (fun c => c =? 58) body with
          | None => inr (NotKeyValue lineNumber)
          | Some colon =>
              match trim (substr 0 colon body) with
              | [] => inr (EmptyKey lineNumber)
              | name =>
                  let path := pathOf open name in
                  let value := trim (drop (S colon) body) in
                  let config := mk (<[path := unquote value]> (entries_ config)) in
                  inl (config, match value with [] => mkSection at_ (path ++ [46]) :: open | _ => open end)
              end
          end
      end
  end.

Fixpoint parseLines (lineNumber : Z) (lines : list (list Z)) (config : t) (open : list Section_t) : t + ParseError :=
  match lines with
  | [] => inl config
  | line :: rest =>
      match parseLine lineNumber line config open with
      | inr refused => inr refused
      | inl (config, open) => parseLines (u64 (lineNumber + 1)) rest config open
      end
  end.

Definition parse (text : list Z) : t + ParseError := parseLines 1 (getlines text) empty [].

(** ** Reading a file *)

(** What the operating system says of a path: [None] when it cannot be opened,
    else the mode and owner [fstat] gives, if it does, and the bytes, if they
    can be read. *)
Record Opened_t := mkOpened { stat_ : option (Z * Z); bytes_ : option (list Z); }.

(** [S_IWGRP | S_IWOTH]. *)
Definition OthersMayWrite : Z := 18.

Definition readIfTrusted (euid : Z) (file : option Opened_t) : option (list Z) + ParseError :=
  match file with
  | None => inl None
  | Some opened =>
      match stat_ opened with
      | None => inr CannotBeExamined
      | Some (mode, owner) =>
          if negb (Z.land mode OthersMayWrite =? 0) then inr WritableByOthers
          else if negb (owner =? euid) && negb (owner =? 0) then inr OwnedByAnother
          else match bytes_ opened with None => inr CannotBeRead | Some text => inl (Some text) end
      end
  end.

Definition load (euid : Z) (file : option Opened_t) : t + ParseError :=
  match readIfTrusted euid file with
  | inr refused => inr refused
  | inl None => inr CannotOpen
  | inl (Some text) => parse text
  end.

Definition loadIfPresent (euid : Z) (file : option Opened_t) : t + ParseError :=
  match readIfTrusted euid file with
  | inr refused => inr refused
  | inl None => inl empty
  | inl (Some text) => parse text
  end.

(** ** Typed reads *)

Definition has (config : t) (key : list Z) : bool := bool_decide (is_Some (entries_ config !! key)).
Definition getString (config : t) (key fallback : list Z) : list Z := default fallback (entries_ config !! key).

Definition isDigit (c : Z) : bool := (48 <=? c) && (c <=? 57).
Definition isSpace (c : Z) : bool := (c =? 32) || ((9 <=? c) && (c <=? 13)).

Fixpoint dropSpaces (text : list Z) : list Z :=
  match text with
  | [] => []
  | c :: rest => if isSpace c then dropSpaces rest else text
  end.

(** The digits at the front of [text], as a number, and what follows them. *)
Fixpoint takeDigits (value : Z) (text : list Z) : Z * list Z :=
  match text with
  | [] => (value, [])
  | c :: rest => if isDigit c then takeDigits (value * 10 + (c - 48)) rest else (value, text)
  end.

(** [reader >> value] into an unsigned word of 64 bits, in the classic locale
    and base ten: blanks are skipped, a sign is taken, the digits are read as
    [strtoull] reads them, so a minus negates in the word.  [None] is [fail()];
    the rest is what [eof()] looks at. *)
Definition extractU64 (text : list Z) : option (Z * list Z) :=
  let text := dropSpaces text in
  let '(negative, digits) :=
    match text with
    | c :: rest => if c =? 45 then (true, rest) else if c =? 43 then (false, rest) else (false, text)
    | [] => (false, [])
    end in
  match digits with
  | c :: _ =>
      if negb (isDigit c) then None
      else
        let '(value, rest) := takeDigits 0 digits in
        if 2 ^ 64 <=? value then None else Some (if negative then u64 (- value) else value, rest)
  | [] => None
  end.

Definition readWhole (config : t) (key : list Z) (fallback : Z) : Z + ParseError :=
  match entries_ config !! key with
  | None | Some [] => inl fallback
  | Some raw =>
      match extractU64 raw with
      | Some (value, []) => inl value
      | _ => inr (NotANumber key)
      end
  end.

(** [get] at an unsigned type of [bits] bits, and at a duration whose count is a
    signed word of 64; what is read is cast to the type of the field. *)
Definition getUnsigned (bits : Z) (config : t) (key : list Z) (fallback : Z) : Z + ParseError :=
  match readWhole config key fallback with
  | inr refused => inr refused
  | inl read => if 2 ^ bits - 1 <? read then inr (DoesNotFit key bits) else inl (read mod 2 ^ bits)
  end.
Definition getDuration (config : t) (key : list Z) (fallback : Z) : Z + ParseError :=
  match readWhole config key (u64 fallback) with
  | inr refused => inr refused
  | inl read => if 2 ^ 63 - 1 <? read then inr (MoreThanFit key) else inl (s64 read)
  end.

Fixpoint readOctal_from (parsed : Z) (written : list Z) : option Z :=
  match written with
  | [] => Some parsed
  | digit :: rest =>
      if (digit <? 48) || (55 <? digit) then None
      else
        let parsed := u32 (parsed * 8 + (digit - 48)) in
        if 511 <? parsed then None else readOctal_from parsed rest
  end.
Definition readOctal (written : list Z) : option Z := readOctal_from 0 written.

Definition getMode (config : t) (key : list Z) (fallback : Z) : Z + ParseError :=
  match getString config key [] with
  | [] => inl fallback
  | written => match readOctal written with Some parsed => inl parsed | None => inr (NotAPermission key) end
  end.

Definition readBool (config : t) (key : list Z) (fallback : bool) : bool + ParseError :=
  match entries_ config !! key with
  | None | Some [] => inl fallback
  | Some raw =>
      if bool_decide (raw ∈ [str "true"; str "yes"; str "on"; str "1"]) then inl true
      else if bool_decide (raw ∈ [str "false"; str "no"; str "off"; str "0"]) then inl false
      else inr (NotABoolean key)
  end.

(** The loop of [getList]; each turn that goes on is past a comma. *)
Fixpoint splitItems (turns : nat) (raw : list Z) : option (list (list Z)) :=
  match turns with
  | O => None
  | S turns =>
      match trim raw with
      | [] => Some []
      | _ =>
          match find (fun c => c =? 44) raw with
          | None => Some [unquote (trim raw)]
          | Some comma =>
              match splitItems turns (drop (S comma) raw) with
              | Some items => Some (unquote (trim (substr 0 comma raw)) :: items)
              | None => None
              end
          end
      end
  end.

(** [None] is a loop out of turns. *)
Definition getList (config : t) (key : list Z) : option (list (list Z) + ParseError) :=
  match entries_ config !! key with
  | None | Some [] => Some (inl [])
  | Some ((front :: _) as raw) =>
      if negb (front =? 91) || negb (bool_decide (last raw = Some 93)) then Some (inr (NotASequence key))
      else
        match splitItems (S (length raw)) (substr 1 (length raw - 2) raw) with
        | Some items => Some (inl items)
        | None => None
        end
  end.

End KeyValueConfig.
