(* ===== verification/KvParse.v ===== *)
(** * KvParse: the theorems on the configuration files

    Printing a tree of settings and parsing the text gives the settings back;
    what is written as a number, a mode or a sequence is what the typed reads
    answer, and what does not fit is refused. *)

From stdpp Require Import strings.
From S2P Require Import Prelude Types KvConfig.
Import KeyValueConfig.

(** ** Positions *)

Lemma find_from_skip P a b at_ :
  Forall (fun c => P c = false) a -> find_from P (a ++ b) at_ = find_from P b (at_ + length a).
Proof.
  intros Ha. revert at_. induction Ha as [|c a Hc _ IH]; intros at_; cbn; [by rewrite Nat.add_0_r|].
  rewrite Hc, IH. f_equal. lia.
Qed.

Lemma find_app P a c b : Forall (fun c => P c = false) a -> P c = true -> find P (a ++ c :: b) = Some (length a).
Proof. intros Ha Hc. unfold find. rewrite find_from_skip by done. cbn. by rewrite Hc. Qed.

Lemma find_none P a : Forall (fun c => P c = false) a -> find P a = None.
Proof. intros Ha. unfold find. rewrite <- (app_nil_r a). by rewrite find_from_skip. Qed.

Lemma find_from_spec P text at_ pos :
  find_from P text at_ = Some pos -> (at_ <= pos < at_ + length text)%nat.
Proof.
  revert at_. induction text as [|c text IH]; intros at_; cbn; [done|]. destruct (P c); [intros [= <-]; lia|].
  intros H%IH. lia.
Qed.

Definition blanks (text : list Z) : Prop := Forall (fun c => isBlank c = true) text.

(** A text with something to keep at both ends. *)
Definition trimmed (text : list Z) : bool :=
  match text, last text with
  | front :: _, Some back => negb (isBlank front) && negb (isBlank back)
  | _, _ => false
  end.

Lemma trimmed_ends text : trimmed text = true ->
  (exists front rest, text = front :: rest /\ isBlank front = false) /\
  (exists front back, text = front ++ [back] /\ isBlank back = false).
Proof.
  destruct text as [|front rest]; [done|]. unfold trimmed. destruct (last (front :: rest)) as [back|] eqn:Hl; [|done].
  intros H. zbool. split; [by exists front, rest|]. apply last_Some in Hl as [init Hi]. by exists init, back.
Qed.

Lemma negb_blanks text : blanks text -> Forall (fun c => negb (isBlank c) = false) text.
Proof. intros H. eapply Forall_impl; [exact H|]. by intros c ->. Qed.

Lemma trim_blank text : blanks text -> trim text = [].
Proof. intros H. unfold trim. by rewrite find_none by by apply negb_blanks. Qed.

(** [trim] keeps exactly what stands between the blanks. *)
Lemma trim_app a text b : blanks a -> blanks b -> trimmed text = true -> trim (a ++ text ++ b) = text.
Proof.
  intros Ha Hb Ht. apply trimmed_ends in Ht as [(front & rest & Hf & Hfb) (init & back & Hi & Hbb)].
  unfold trim. rewrite Hf at 1. cbn [app]. rewrite find_app; [|by apply negb_blanks|by rewrite Hfb].
  unfold find_last. replace (rev (a ++ text ++ b)) with (rev b ++ back :: rev init ++ rev a)
    by (rewrite Hi, !rev_app_distr; cbn; by rewrite <- app_assoc).
  rewrite find_app; [|by apply negb_blanks, Forall_rev|by rewrite Hbb]. cbn [default].
  assert (length text = S (length init)) as Hlen by (rewrite Hi, length_app; cbn; lia).
  rewrite !length_app, length_rev. unfold substr. rewrite drop_app_length.
  unfold id. replace (_ - _ - _ - _ + 1)%nat with (length text) by lia. apply take_app_length.
Qed.

(** ** Comments and quotes *)

(** No quote, and no hash that would open a comment. *)
Fixpoint plain (before : option Z) (text : list Z) : bool :=
  match text with
  | [] => true
  | c :: rest =>
      negb (isQuote c) && negb ((c =? 35) && (match before with None => true | Some b => (b =? 32) || (b =? 9) end)) &&
      plain (Some c) rest
  end.

Lemma stripComment_plain before text : plain before text = true -> stripComment_from None before text = text.
Proof.
  revert before. induction text as [|c text IH]; intros before; [done|]. cbn. intros H. apply andb_prop in H as [H Ht].
  apply andb_prop in H as [Hq Hh]. rewrite negb_true_iff in Hq, Hh. rewrite Hq, Hh, IH; done.
Qed.

Definition lastOf (before : option Z) (text : list Z) : option Z :=
  match last text with Some c => Some c | None => before end.

Lemma plain_app before a b : plain before (a ++ b) = plain before a && plain (lastOf before a) b.
Proof.
  revert before. induction a as [|c a IH]; intros before; [done|]. cbn [app plain]. rewrite IH, andb_assoc. f_equal. f_equal.
  unfold lastOf. destruct a as [|c' a]; [done|]. cbn [last]. destruct (last (c' :: a)) eqn:Hl; [done|]. by apply last_None in Hl.
Qed.

Lemma unquote_plain before text : plain before text = true -> unquote text = text.
Proof.
  destruct text as [|c text]; [done|]. cbn. intros H. zbool. unfold unquote.
  destruct (last (c :: text)); [|done]. by rewrite H, andb_false_r.
Qed.

(** ** Lines *)

Lemma getlines_from_line acc line text :
  Forall (fun c => c <> 10) line -> getlines_from acc (line ++ 10 :: text) = (rev acc ++ line) :: getlines_from [] text.
Proof.
  intros Hl. revert acc. induction Hl as [|c line Hc _ IH]; intros acc; cbn; [by rewrite app_nil_r|].
  rewrite (proj2 (Z.eqb_neq c 10)) by done. rewrite IH. cbn. by rewrite <- app_assoc.
Qed.

Definition unlines (lines : list (list Z)) : list Z := concat (map (fun line => line ++ [10]) lines).

Lemma getlines_unlines lines : Forall (Forall (fun c => c <> 10)) lines -> getlines (unlines lines) = lines.
Proof.
  unfold getlines. induction 1 as [|line lines Hl _ IH]; [done|]. cbn. rewrite <- app_assoc. cbn.
  rewrite getlines_from_line by done. cbn. f_equal. exact IH.
Qed.

(** ** The open sections *)

Definition inner (at_ : Z) (open : list Section_t) : Prop := Forall (fun s => column s < at_) open.

Lemma closeSections_inner at_ open : inner at_ open -> closeSections at_ open = open.
Proof. intros H. destruct open as [|top open]; [done|]. inversion H; subst. cbn. by rewrite (proj2 (Z.leb_gt _ _)). Qed.

Lemma closeSections_twice a b open : a <= b -> closeSections a (closeSections b open) = closeSections a open.
Proof.
  intros Hab. induction open as [|top open IH]; [done|]. cbn. destruct (Z.leb_spec b (column top)).
  - rewrite IH. by rewrite (proj2 (Z.leb_le a _)) by lia.
  - done.
Qed.

(** ** Settings as a tree *)

(** What a file says: settings and sections, in order. *)
Inductive forest :=
| Done
| Setting (key value : list Z) (rest : forest)
| Nested (key : list Z) (children rest : forest).

(** The file as one writes it: two columns per level. *)
Definition indent (at_ : nat) : list Z := replicate at_ 32.
Fixpoint render (at_ : nat) (f : forest) : list (list Z) :=
  match f with
  | Done => []
  | Setting key value rest => (indent at_ ++ key ++ [58; 32] ++ value) :: render at_ rest
  | Nested key children rest => (indent at_ ++ key ++ [58]) :: render (at_ + 2) children ++ render at_ rest
  end.

(** What it means: each setting under its path, a later one over an earlier
    one, and a section present with no value. *)
Fixpoint meaning (pre : list Z) (f : forest) (m : gmap (list Z) (list Z)) : gmap (list Z) (list Z) :=
  match f with
  | Done => m
  | Setting key value rest => meaning pre rest (<[pre ++ key := value]> m)
  | Nested key children rest => meaning pre rest (meaning ((pre ++ key) ++ [46]) children (<[pre ++ key := []]> m))
  end.

Definition clean (forbidden text : list Z) : bool := forallb (fun c => bool_decide (c ∉ forbidden)) text.

(** A key has no colon, hash, quote or newline, a value no newline, quote or
    comment, and neither begins or ends with a blank. *)
Definition goodKey (key : list Z) : bool := trimmed key && clean [58; 35; 34; 39; 10] key.
Definition goodValue (value : list Z) : bool := trimmed value && clean [10] value && plain (Some 32) value.
Fixpoint good (f : forest) : bool :=
  match f with
  | Done => true
  | Setting key value rest => goodKey key && goodValue value && good rest
  | Nested key children rest => goodKey key && good children && good rest
  end.

Lemma clean_spec forbidden text : clean forbidden text = true -> Forall (fun c => c ∉ forbidden) text.
Proof.
  unfold clean. rewrite forallb_forall, Forall_forall. intros H c Hc. specialize (H c (proj1 (list_elem_of_In _ _) Hc)).
  by apply bool_decide_eq_true in H.
Qed.

Lemma key_plain before key : clean [58; 35; 34; 39; 10] key = true -> plain before key = true.
Proof.
  intros H%clean_spec. revert before. induction H as [|c key Hc _ IH]; intros before; [done|]. cbn. rewrite IH, andb_true_r.
  unfold isQuote. rewrite !not_elem_of_cons in Hc. destruct Hc as (_ & H35 & H34 & H39 & _).
  by rewrite !(proj2 (Z.eqb_neq _ _)) by done.
Qed.

Lemma indent_plain before at_ : plain before (indent at_) = true.
Proof. revert before. induction at_ as [|n IH]; intros before; [done|]. cbn. apply IH. Qed.

Lemma indent_blanks at_ : blanks (indent at_).
Proof. apply Forall_replicate. done. Qed.

(** A line of a rendered file, up to the colon. *)
Record keyed (at_ : nat) (key value line : list Z) : Prop := {
  keyed_body : stripComment line = indent at_ ++ key ++ 58 :: value;
  keyed_key : trimmed key = true;
  keyed_colon : Forall (fun c => (c =? 58) = false) (indent at_ ++ key);
}.

Lemma keyed_line at_ key value :
  goodKey key = true -> plain (Some 58) value = true -> keyed at_ key value (indent at_ ++ key ++ 58 :: value).
Proof.
  intros Hk Hv. unfold goodKey in Hk. apply andb_prop in Hk as [Ht Hc]. split; [|done|].
  - apply stripComment_plain. rewrite plain_app, indent_plain, plain_app. cbn. by rewrite key_plain, Hv.
  - apply Forall_app. split; [apply Forall_replicate; done|]. apply clean_spec in Hc. eapply Forall_impl; [exact Hc|].
    intros c Hn. apply Z.eqb_neq. intros ->. apply Hn. by left.
Qed.

(** What [parse] does with such a line. *)
Lemma parseLine_keyed n at_ key value line m open frames :
  keyed at_ key value line -> closeSections (Z.of_nat at_) open = frames ->
  parseLine n line (mk m) open =
  inl (mk (<[pathOf frames key := unquote (trim value)]> m),
       match trim value with [] => mkSection (Z.of_nat at_) (pathOf frames key ++ [46]) :: frames | _ => frames end).
Proof.
  intros [Hb Ht Hc] <-. unfold parseLine. rewrite Hb. pose proof (trimmed_ends key Ht) as [(front & rest & Hkey & Hfb) _].
  set (body := indent at_ ++ key ++ 58 :: value).
  assert (trim body <> []) as Hne.
  { unfold body, trim. rewrite Hkey. cbn [app]. rewrite find_app; [|apply negb_blanks, indent_blanks|by rewrite Hfb].
    unfold substr. rewrite drop_app_length. intros H. apply (f_equal length) in H. rewrite length_take in H. cbn in H. lia. }
  destruct (trim body) eqn:Htb; [done|]. clear Hne Htb.
  assert (readIndent body n = inl (Z.of_nat at_)) as ->.
  { unfold readIndent, body. rewrite Hkey. cbn [app]. rewrite find_app.
    - unfold indent. rewrite length_replicate, nth_lookup, lookup_app_r, length_replicate, Nat.sub_diag by (rewrite length_replicate; lia). cbn.
      unfold isBlank in Hfb. zbool. by rewrite (proj2 (Z.eqb_neq _ 9)).
    - apply Forall_replicate. done.
    - unfold isBlank in Hfb. zbool. by rewrite (proj2 (Z.eqb_neq _ 32)). }
  assert (find (fun c => c =? 58) body = Some (length (indent at_ ++ key))) as ->.
  { unfold body. rewrite app_assoc. apply find_app; done. }
  assert (substr 0 (length (indent at_ ++ key)) body = indent at_ ++ key) as ->.
  { unfold substr, body. rewrite drop_0, app_assoc. apply take_app_length. }
  assert (drop (S (length (indent at_ ++ key))) body = value) as ->.
  { unfold body. rewrite app_assoc, drop_app_ge by lia. rewrite Nat.sub_succ_l, Nat.sub_diag by lia. done. }
  assert (trim (indent at_ ++ key) = key) as ->.
  { rewrite <- (app_nil_r key) at 1. apply trim_app; [apply indent_blanks|constructor|done]. }
  destruct key; [done|]. done.
Qed.

(** The lines of a forest, whatever follows them. *)
Lemma parse_forest f :
  good f = true -> forall at_ pre n m open frames rest,
  closeSections (Z.of_nat at_) open = frames -> inner (Z.of_nat at_) frames ->
  (forall name, pathOf frames name = pre ++ name) ->
  exists n' open', closeSections (Z.of_nat at_) open' = frames /\
    parseLines n (render at_ f ++ rest) (mk m) open = parseLines n' rest (mk (meaning pre f m)) open'.
Proof.
  induction f as [|key value rest IH|key children IHc rest IH]; intros Hg at_ pre n m open frames tail Ho Hi Hp.
  - by exists n, open.
  - cbn in Hg. apply andb_prop in Hg as [Hg Hr]. apply andb_prop in Hg as [Hk Hv].
    unfold goodValue in Hv. apply andb_prop in Hv as [Hv Hpl]. apply andb_prop in Hv as [Ht _].
    cbn [render app parseLines meaning].
    rewrite (parseLine_keyed n at_ key (32 :: value) _ m open frames); [|apply keyed_line; [done|by cbn]|done].
    assert (trim (32 :: value) = value) as ->.
    { change (32 :: value) with ([32] ++ value). rewrite <- (app_nil_r value) at 1. apply trim_app; [by repeat constructor|constructor|done]. }
    rewrite (unquote_plain _ value Hpl), Hp.
    destruct value as [|v value]; [done|]. apply (IH Hr at_ pre _ _ frames frames tail); auto using closeSections_inner.
  - cbn in Hg. apply andb_prop in Hg as [Hg Hr]. apply andb_prop in Hg as [Hk Hch].
    cbn [render app parseLines meaning].
    rewrite (parseLine_keyed n at_ key [] _ m open frames); [|by apply keyed_line|done].
    rewrite trim_blank by constructor. rewrite Hp. cbn [unquote].
    set (top := mkSection (Z.of_nat at_) ((pre ++ key) ++ [46])).
    assert (inner (Z.of_nat (at_ + 2)) (top :: frames)) as Hi2.
    { constructor; [cbn; lia|]. eapply Forall_impl; [exact Hi|]. intros s Hs. cbn in Hs |- *. lia. }
    rewrite <- app_assoc.
    destruct (IHc Hch (at_ + 2)%nat ((pre ++ key) ++ [46]) (u64 (n + 1)) (<[pre ++ key := []]> m) (top :: frames) (top :: frames)
      (render at_ rest ++ tail)) as (n1 & open1 & Ho1 & ->); [by apply closeSections_inner|done|done|].
    apply (IH Hr at_ pre n1 _ open1 frames tail); [|done|done].
    rewrite <- (closeSections_twice (Z.of_nat at_) (Z.of_nat (at_ + 2)) open1) by lia. rewrite Ho1. cbn.
    rewrite Z.leb_refl. by apply closeSections_inner.
Qed.

Lemma render_lines f at_ : good f = true -> Forall (Forall (fun c => c <> 10)) (render at_ f).
Proof.
  assert (forall n, Forall (fun c => c <> 10) (indent n)) as Hind by (intros n; by apply Forall_replicate).
  assert (forall forbidden text, 10 ∈ forbidden -> clean forbidden text = true -> Forall (fun c => c <> 10) text) as Hcl.
  { intros forbidden text Hin H%clean_spec. eapply Forall_impl; [exact H|]. by intros c Hc ->. }
  revert at_. induction f as [|key value rest IH|key children IHc rest IH]; intros at_ Hg; [constructor|..]; cbn in Hg |- *.
  - apply andb_prop in Hg as [Hg Hr]. apply andb_prop in Hg as [Hk Hv]. unfold goodKey, goodValue in *. zbool.
    constructor; [|by apply IH]. apply Forall_app; split; [done|]. apply Forall_app; split; [eapply Hcl; [|done]; set_solver|].
    constructor; [done|]. constructor; [done|]. eapply Hcl; [|done]. by left.
  - apply andb_prop in Hg as [Hg Hr]. apply andb_prop in Hg as [Hk Hch]. unfold goodKey in *. zbool.
    constructor; [|apply Forall_app; split; [by apply IHc|by apply IH]]. apply Forall_app; split; [done|].
    apply Forall_app; split; [eapply Hcl; [|done]; set_solver|]. by constructor.
Qed.

(** C39: a configuration file says what it reads.  For every tree of settings
    whose keys and values the format can carry, nested to any depth, parsing
    the text one writes for it answers exactly the settings of the tree, each
    under the path of its sections, a section by itself as an empty setting,
    and of two settings of one path the later. *)
Theorem parse_render f :
  good f = true -> parse (unlines (render 0 f)) = inl (mk (meaning [] f ∅)).
Proof.
  intros Hg. unfold parse. rewrite getlines_unlines by by apply render_lines.
  destruct (parse_forest f Hg 0%nat [] 1 ∅ [] [] []) as (n & open & _ & H); [done|constructor|done|].
  rewrite app_nil_r in H. unfold empty. by rewrite H.
Qed.

(** ** Numbers *)

(** A number in base [base], most significant digit first. *)
Fixpoint digits_from (base : Z) (turns : nat) (value : Z) (acc : list Z) : list Z :=
  match turns with
  | O => acc
  | S turns =>
      let acc := (48 + value mod base) :: acc in
      if value / base =? 0 then acc else digits_from base turns (value / base) acc
  end.
(** As many turns as the number has bits, and one. *)
Definition digits (base value : Z) : list Z := digits_from base (S (Z.to_nat (Z.log2 value))) value [].

(** Reading base-[base] digits after what is read already. *)
Definition readDigits (base : Z) (value : Z) (text : list Z) : Z :=
  foldl (fun value c => value * base + (c - 48)) value text.

Lemma digits_from_spec base turns value acc :
  2 <= base -> 0 <= value < 2 ^ Z.of_nat turns ->
  exists text, digits_from base turns value acc = text ++ acc /\ readDigits base 0 text = value /\
    Forall (fun c => 48 <= c < 48 + base) text /\ ((0 < turns)%nat -> text <> []).
Proof.
  intros Hb. revert value acc. induction turns as [|turns IH]; intros value acc Hv.
  { exists []. cbn in *. split_and!; [done|lia|constructor|lia]. }
  cbn [digits_from]. pose proof (Z.mod_pos_bound value base ltac:(lia)) as Hm.
  pose proof (Z.div_mod value base ltac:(lia)) as Hdm.
  destruct (Z.eqb_spec (value / base) 0) as [Hz|Hz].
  - exists [48 + value mod base]. cbn. split_and!; [done|lia|repeat constructor; lia|done].
  - assert (0 <= value / base < 2 ^ Z.of_nat turns) as Hd.
    { split; [apply Z.div_pos; lia|]. apply Z.div_lt_upper_bound; [lia|].
      rewrite Nat2Z.inj_succ, Z.pow_succ_r in Hv by lia. nia. }
    destruct (IH (value / base) ((48 + value mod base) :: acc) Hd) as (text & Ht & Hr & Hf & _).
    exists (text ++ [48 + value mod base]). split_and!.
    + rewrite Ht. by rewrite <- app_assoc.
    + unfold readDigits in *. rewrite foldl_app, Hr. cbn. lia.
    + apply Forall_app. split; [done|]. repeat constructor; lia.
    + intros _ ?%app_nil. naive_solver.
Qed.

Lemma digits_spec base value :
  2 <= base -> 0 <= value ->
  readDigits base 0 (digits base value) = value /\ Forall (fun c => 48 <= c < 48 + base) (digits base value) /\
  digits base value <> [].
Proof.
  intros Hb Hv. destruct (digits_from_spec base (S (Z.to_nat (Z.log2 value))) value []) as (text & Ht & ? & ? & Hne); [done| |].
  - split; [done|]. rewrite Nat2Z.inj_succ, Z2Nat.id by apply Z.log2_nonneg.
    destruct (decide (value = 0)) as [->|]; [done|]. apply Z.log2_spec. lia.
  - unfold digits. rewrite Ht, app_nil_r. split_and!; [done|done|apply Hne; lia].
Qed.

Lemma takeDigits_all value text :
  Forall (fun c => 48 <= c < 48 + 10) text -> takeDigits value text = (readDigits 10 value text, []).
Proof.
  intros H. revert value. induction H as [|c text Hc _ IH]; intros value; [done|]. cbn [takeDigits]. unfold isDigit.
  rewrite !(proj2 (Z.leb_le _ _)) by lia. cbn. rewrite IH. done.
Qed.

Lemma digit_not c : 48 <= c < 48 + 10 -> isSpace c = false /\ (c =? 45) = false /\ (c =? 43) = false /\ isDigit c = true.
Proof.
  intros H. unfold isSpace, isDigit. rewrite !(proj2 (Z.eqb_neq c _)) by lia.
  destruct (Z.leb_spec c 13); [lia|]. rewrite andb_false_r, !(proj2 (Z.leb_le _ _)) by lia. done.
Qed.

(** A number written in decimal, and one with a sign before it. *)
Lemma extractU64_decimal value :
  0 <= value -> extractU64 (digits 10 value) = if 2 ^ 64 <=? value then None else Some (value, []).
Proof.
  intros Hv. destruct (digits_spec 10 value) as (Hr & Hf & Hne); [lia|done|].
  destruct (digits 10 value) as [|c rest] eqn:Hd; [done|].
  pose proof (takeDigits_all 0 _ Hf) as Ht. apply Forall_cons in Hf as [Hc _]. destruct (digit_not c Hc) as (Hs & H1 & H2 & H3).
  unfold extractU64. cbn [dropSpaces]. rewrite Hs, H1, H2, H3. cbn [negb]. rewrite Ht, Hr. done.
Qed.

Lemma extractU64_negative value :
  0 <= value < 2 ^ 64 -> extractU64 (45 :: digits 10 value) = Some (u64 (- value), []).
Proof.
  intros Hv. destruct (digits_spec 10 value) as (Hr & Hf & Hne); [lia|lia|].
  destruct (digits 10 value) as [|c rest] eqn:Hd; [done|].
  pose proof (takeDigits_all 0 _ Hf) as Ht. apply Forall_cons in Hf as [Hc _]. destruct (digit_not c Hc) as (_ & _ & _ & H3).
  assert (extractU64 (45 :: c :: rest) = if negb (isDigit c) then None
    else let '(v, r) := takeDigits 0 (c :: rest) in if 2 ^ 64 <=? v then None else Some (u64 (- v), r)) as -> by reflexivity.
  rewrite H3. cbn [negb].
  rewrite Ht, Hr. by rewrite (proj2 (Z.leb_gt _ _)) by lia.
Qed.

Lemma readWhole_written key raw fallback m :
  raw <> [] ->
  readWhole (mk (<[key := raw]> m)) key fallback =
  match extractU64 raw with Some (value, []) => inl value | _ => inr (NotANumber key) end.
Proof. intros Hr. unfold readWhole. cbn. rewrite lookup_insert_eq. by destruct raw. Qed.

Lemma cast_unsigned bits value : 0 <= value < 2 ^ bits -> (value mod 2 ^ bits) = value.
Proof. apply Z.mod_small. Qed.
Lemma cast_count value : 0 <= value < 2 ^ 63 -> s64 value = value.
Proof. intros Hv. apply s64_small. lia. Qed.

(** A whole number written in decimal, at a field of [bits] bits. *)
Lemma number_exact bits key value fallback m :
  0 <= bits <= 64 -> 0 <= value ->
  getUnsigned bits (mk (<[key := digits 10 value]> m)) key fallback =
  if value <? 2 ^ bits then inl value
  else if value <? 2 ^ 64 then inr (DoesNotFit key bits) else inr (NotANumber key).
Proof.
  intros Hb Hv. destruct (digits_spec 10 value) as (_ & _ & Hne); [lia|done|].
  unfold getUnsigned. rewrite readWhole_written, extractU64_decimal by done.
  assert (2 ^ bits <= 2 ^ 64) by (apply Z.pow_le_mono_r; lia).
  destruct (Z.leb_spec (2 ^ 64) value).
  - by rewrite !(proj2 (Z.ltb_ge _ _)) by lia.
  - destruct (Z.ltb_spec value (2 ^ bits)).
    + by rewrite (proj2 (Z.ltb_ge _ _)), cast_unsigned by lia.
    + by rewrite (proj2 (Z.ltb_lt _ _)), (proj2 (Z.ltb_lt _ _)) by lia.
Qed.

(** A count of units written in decimal. *)
Lemma duration_exact key value fallback m :
  0 <= value ->
  getDuration (mk (<[key := digits 10 value]> m)) key fallback =
  if value <? 2 ^ 63 then inl value
  else if value <? 2 ^ 64 then inr (MoreThanFit key) else inr (NotANumber key).
Proof.
  intros Hv. destruct (digits_spec 10 value) as (_ & _ & Hne); [lia|done|].
  unfold getDuration. rewrite readWhole_written, extractU64_decimal by done. destruct (Z.leb_spec (2 ^ 64) value).
  - by rewrite !(proj2 (Z.ltb_ge _ _)) by lia.
  - destruct (Z.ltb_spec value (2 ^ 63)).
    + by rewrite (proj2 (Z.ltb_ge _ _)), cast_count by lia.
    + by rewrite (proj2 (Z.ltb_lt _ _)), (proj2 (Z.ltb_lt _ _)) by lia.
Qed.

(** A character no number has: no blank, no sign, no digit. *)
Definition foreign (c : Z) : Prop := isSpace c = false /\ c <> 45 /\ c <> 43 /\ isDigit c = false.

Lemma takeDigits_foreign text value : Exists foreign text -> (takeDigits value text).2 <> [].
Proof.
  intros H. revert value. induction H as [c text (_ & _ & _ & Hd)|c text _ IH]; intros value; cbn.
  - by rewrite Hd.
  - destruct (isDigit c); [apply IH|done].
Qed.

Lemma extractU64_foreign text : Exists foreign text -> match extractU64 text with Some (_, []) => False | _ => True end.
Proof.
  intros H. assert (Exists foreign (dropSpaces text)) as Hd.
  { induction H as [c text Hc|c text Ht IH]; cbn; [|by destruct (isSpace c); [|constructor 2]]. rewrite (proj1 Hc). by constructor. }
  unfold extractU64. destruct (dropSpaces text) as [|c rest]; [done|].
  assert (forall negative digits, Exists foreign digits -> match (match digits with
      | [] => None
      | c :: _ => if negb (isDigit c) then None
        else let '(value, rest) := takeDigits 0 digits in
             if 2 ^ 64 <=? value then None else Some (if negative : bool then u64 (- value) else value, rest)
      end) with Some (_, []) => False | _ => True end) as Hgo.
  { intros negative [|d ds] He; [done|]. destruct (negb (isDigit d)); [done|].
    pose proof (takeDigits_foreign _ 0 He) as Hne. destruct (takeDigits 0 (d :: ds)) as [v [|e es]]; [done|]. by destruct (2 ^ 64 <=? v). }
  destruct (Z.eqb_spec c 45) as [->|]; [|destruct (Z.eqb_spec c 43) as [->|]; [|exact (Hgo false (c :: rest) Hd)]];
    (apply Exists_cons in Hd as [(_ & ? & ? & _)|Hd]; [done|]); [exact (Hgo true rest Hd)|exact (Hgo false rest Hd)].
Qed.

Lemma readWhole_foreign key raw fallback m :
  Exists foreign raw -> readWhole (mk (<[key := raw]> m)) key fallback = inr (NotANumber key).
Proof.
  intros H. rewrite readWhole_written by (intros ->; by apply Exists_nil in H). pose proof (extractU64_foreign raw H) as He.
  destruct (extractU64 raw) as [[v [|c rest]]|]; done.
Qed.

(** A minus sign is taken and negates in the word, so a number the file plainly
    says is below zero is read as a large one, or as a small one. *)
Theorem negative_number_wraps key value fallback m :
  0 <= value < 2 ^ 64 ->
  getUnsigned 64 (mk (<[key := 45 :: digits 10 value]> m)) key fallback = inl (u64 (- value)).
Proof.
  intros Hv. unfold getUnsigned. rewrite readWhole_written, extractU64_negative by done.
  pose proof (u64_range (- value)) as Hr. unfold in_u64 in Hr. by rewrite (proj2 (Z.ltb_ge _ _)), cast_unsigned by lia.
Qed.

(** ** Modes *)

Lemma readOctal_from_spec parsed text :
  0 <= parsed <= 511 -> Forall (fun c => 48 <= c < 48 + 8) text ->
  readOctal_from parsed text = if readDigits 8 parsed text <=? 511 then Some (readDigits 8 parsed text) else None.
Proof.
  intros Hp H. revert parsed Hp. induction H as [|c text Hc Ht IH]; intros parsed Hp.
  { cbn. by rewrite (proj2 (Z.leb_le _ _)) by lia. }
  assert (forall v t, 0 <= v -> Forall (fun c => 48 <= c < 48 + 8) t -> v <= readDigits 8 v t) as Hmono.
  { intros v t Hv Hf. revert v Hv. induction Hf as [|c' t Hc' _ IHt]; intros v Hv; [cbn; lia|]. cbn.
    specialize (IHt (v * 8 + (c' - 48)) ltac:(lia)). unfold readDigits in IHt. lia. }
  cbn [readOctal_from]. rewrite (proj2 (Z.ltb_ge _ _)), (proj2 (Z.ltb_ge 55 _)) by lia. cbn [orb].
  change (readDigits 8 parsed (c :: text)) with (readDigits 8 (parsed * 8 + (c - 48)) text) in *.
  specialize (Hmono (parsed * 8 + (c - 48)) text ltac:(lia) Ht).
  rewrite u32_small by (unfold in_u32; lia). destruct (Z.ltb_spec 511 (parsed * 8 + (c - 48))).
  - by rewrite (proj2 (Z.leb_gt _ _)) by lia.
  - apply IH. lia.
Qed.

(** A mode written in octal. *)
Lemma mode_exact key value fallback m :
  0 <= value ->
  getMode (mk (<[key := digits 8 value]> m)) key fallback = if value <=? 511 then inl value else inr (NotAPermission key).
Proof.
  intros Hv. destruct (digits_spec 8 value) as (Hr & Hf & Hne); [lia|done|]. unfold getMode, getString. cbn [entries_].
  rewrite lookup_insert_eq. cbn [from_option id]. unfold readOctal.
  pose proof (readOctal_from_spec 0 (digits 8 value) ltac:(lia) Hf) as Ho. rewrite Hr in Ho.
  destruct (digits 8 value) as [|c text]; [done|]. rewrite Ho. by destruct (value <=? 511).
Qed.

Lemma readOctal_foreign parsed text : Exists (fun c => c < 48 \/ 55 < c) text -> readOctal_from parsed text = None.
Proof.
  intros H. revert parsed. induction H as [c text Hc|c text _ IH]; intros parsed; cbn.
  - destruct (Z.ltb_spec c 48); [done|]. by rewrite (proj2 (Z.ltb_lt _ _)) by lia.
  - case_if; [done|]. case_if; [done|]. apply IH.
Qed.

Lemma getMode_foreign key raw fallback m : Exists (fun c => c < 48 \/ 55 < c) raw ->
  getMode (mk (<[key := raw]> m)) key fallback = inr (NotAPermission key).
Proof.
  intros H. unfold getMode, getString. cbn [entries_]. rewrite lookup_insert_eq. cbn [from_option id].
  destruct raw as [|c raw]; [by apply Exists_nil in H|]. unfold readOctal. by rewrite readOctal_foreign.
Qed.

Lemma readOctal_bound parsed text value : 0 <= parsed <= 511 -> readOctal_from parsed text = Some value -> 0 <= value <= 511.
Proof.
  revert parsed. induction text as [|c text IH]; intros parsed Hp; cbn; [by intros [= <-]|]. case_if; [done|]. case_if; [done|].
  zbool. apply IH. pose proof (u32_range (parsed * 8 + (c - 48))) as Hr. unfold in_u32 in Hr. lia.
Qed.

(** ** Types *)

Lemma takeDigits_nonneg text value : 0 <= value -> 0 <= (takeDigits value text).1.
Proof.
  revert value. induction text as [|c text IH]; intros value Hv; [done|]. cbn. destruct (isDigit c) eqn:Hdg; [|done].
  apply IH. unfold isDigit in Hdg. zbool. lia.
Qed.

Lemma extractU64_nonneg text value rest : extractU64 text = Some (value, rest) -> 0 <= value.
Proof.
  unfold extractU64. destruct (dropSpaces text) as [|c t]; [done|].
  destruct (if c =? 45 then _ else _) as [negative [|d ds]]; [done|]. destruct (negb (isDigit d)); [done|].
  pose proof (takeDigits_nonneg (d :: ds) 0 ltac:(lia)) as Hn. destruct (takeDigits 0 (d :: ds)) as [v more].
  destruct (2 ^ 64 <=? v); [done|]. intros [= <- <-]. destruct negative; [apply u64_range|done].
Qed.

Lemma readWhole_nonneg config key fallback value :
  0 <= fallback -> readWhole config key fallback = inl value -> 0 <= value.
Proof.
  intros Hf. unfold readWhole. destruct (entries_ config !! key) as [[|c raw]|]; [by intros [= <-]| |by intros [= <-]].
  destruct (extractU64 (c :: raw)) as [[v [|? ?]]|] eqn:He; [|done..]. intros [= <-]. by apply extractU64_nonneg in He.
Qed.

Lemma getUnsigned_fits bits config key fallback value :
  0 <= fallback < 2 ^ bits -> getUnsigned bits config key fallback = inl value -> 0 <= value < 2 ^ bits.
Proof.
  intros Hf. unfold getUnsigned. destruct (readWhole config key fallback) as [r|] eqn:Hr; [|done].
  apply readWhole_nonneg in Hr; [|lia]. case_if; [done|]. intros [= <-]. zbool. rewrite cast_unsigned; lia.
Qed.

Lemma getDuration_fits config key fallback value :
  getDuration config key fallback = inl value -> 0 <= value < 2 ^ 63.
Proof.
  unfold getDuration. destruct (readWhole config key (u64 fallback)) as [r|] eqn:Hr; [|done].
  apply readWhole_nonneg in Hr; [|apply u64_range]. case_if; [done|]. intros [= <-]. zbool. rewrite cast_count; lia.
Qed.

Lemma getMode_fits config key fallback value :
  0 <= fallback <= 511 -> getMode config key fallback = inl value -> 0 <= value <= 511.
Proof.
  intros Hf. unfold getMode. destruct (getString config key []) as [|c raw]; [by intros [= <-]|].
  destruct (readOctal (c :: raw)) as [v|] eqn:Ho; [|done]. intros [= <-]. by apply (readOctal_bound 0 (c :: raw)).
Qed.

(** C40: a typed read answers the number the file says, or refuses it by name.
    A whole number written in decimal, without a sign, is answered exactly when it fits the bits of
    its field, a duration when its count fits a signed word, a mode written in
    octal when it is within the nine permission bits; one past the field is
    refused as not fitting, one past 64 bits as no number, and nothing is
    truncated by the cast.  A text with a character no number has is refused.  A
    setting that is absent or empty answers the fallback. *)
Theorem typed_reads_exact key m fallback :
  (forall bits value, 0 <= bits <= 64 -> 0 <= value ->
    getUnsigned bits (mk (<[key := digits 10 value]> m)) key fallback =
    if value <? 2 ^ bits then inl value
    else if value <? 2 ^ 64 then inr (DoesNotFit key bits) else inr (NotANumber key)) /\
  (forall value, 0 <= value ->
    getDuration (mk (<[key := digits 10 value]> m)) key fallback =
    if value <? 2 ^ 63 then inl value
    else if value <? 2 ^ 64 then inr (MoreThanFit key) else inr (NotANumber key)) /\
  (forall value, 0 <= value ->
    getMode (mk (<[key := digits 8 value]> m)) key fallback = if value <=? 511 then inl value else inr (NotAPermission key)) /\
  (forall raw, Exists foreign raw ->
    (forall bits, getUnsigned bits (mk (<[key := raw]> m)) key fallback = inr (NotANumber key)) /\
    getDuration (mk (<[key := raw]> m)) key fallback = inr (NotANumber key)) /\
  (forall raw, Exists (fun c => c < 48 \/ 55 < c) raw ->
    getMode (mk (<[key := raw]> m)) key fallback = inr (NotAPermission key)) /\
  (m !! key = None \/ m !! key = Some [] ->
    (forall bits, 0 <= fallback < 2 ^ bits -> getUnsigned bits (mk m) key fallback = inl fallback) /\
    (0 <= fallback < 2 ^ 63 -> getDuration (mk m) key fallback = inl fallback) /\
    getMode (mk m) key fallback = inl fallback).
Proof.
  split_and!; [intros; by apply number_exact|intros; by apply duration_exact|intros; by apply mode_exact| |intros; by apply getMode_foreign|].
  - intros raw Hr. unfold getUnsigned, getDuration. split; [intros bits|]; by rewrite readWhole_foreign.
  - intros Hm. assert (forall back, readWhole (mk m) key back = inl back) as Hback.
    { intros back. unfold readWhole. cbn [entries_]. by destruct Hm as [-> | ->]. }
    unfold getUnsigned, getDuration, getMode, getString. rewrite !Hback. cbn [entries_]. split_and!.
    + intros bits Hf. rewrite (proj2 (Z.ltb_ge _ _)), cast_unsigned by lia. done.
    + intros Hf. rewrite u64_small by (unfold in_u64; lia). rewrite (proj2 (Z.ltb_ge _ _)), cast_count by lia. done.
    + by destruct Hm as [-> | ->].
Qed.

(** ** Sequences *)

(** The loop of [getList] ends: each turn leaves less. *)
Lemma splitItems_total turns raw : (length raw < turns)%nat -> is_Some (splitItems turns raw).
Proof.
  revert raw. induction turns as [|turns IH]; intros raw Hl; [lia|]. cbn. destruct (trim raw); [eauto|].
  destruct (find (fun c => c =? 44) raw) as [comma|] eqn:Hf; [|eauto].
  apply find_from_spec in Hf. destruct (IH (drop (S comma) raw)) as [items ->]; [rewrite length_drop; lia|eauto].
Qed.

(** An item with no comma and no quote, as one writes it. *)
Definition goodItem (item : list Z) : bool := trimmed item && clean [44] item && plain (Some 32) item.

(** [a, b, c], without the brackets. *)
Fixpoint joinItems (items : list (list Z)) : list Z :=
  match items with
  | [] => []
  | [item] => item
  | item :: rest => item ++ [44; 32] ++ joinItems rest
  end.

Lemma goodItem_spec item : goodItem item = true ->
  trimmed item = true /\ Forall (fun c => (c =? 44) = false) item /\ unquote item = item.
Proof.
  unfold goodItem. intros H. zbool. split_and!; [done| |by eapply unquote_plain].
  eapply Forall_impl; [by apply clean_spec|]. intros c Hc. apply Z.eqb_neq. intros ->. apply Hc. by left.
Qed.

Lemma trim_nonempty_app a text b : trimmed text = true -> trim (a ++ text ++ b) <> [].
Proof.
  intros Ht. apply trimmed_ends in Ht as [(front & rest & -> & Hfb) _]. unfold trim, find.
  destruct (find_from (fun c => negb (isBlank c)) (a ++ (front :: rest) ++ b) 0) as [pos|] eqn:Hf.
  - apply find_from_spec in Hf. unfold substr. intros H. apply (f_equal length) in H.
    rewrite length_take, length_drop in H. cbn [length] in H. lia.
  - exfalso. clear - Hf Hfb. revert Hf. generalize 0%nat. induction a as [|c a IH]; intros n; cbn; [by rewrite Hfb|].
    destruct (negb (isBlank c)); [done|apply IH].
Qed.

Lemma splitItems_join lead items turns :
  blanks lead -> Forall (fun item => goodItem item = true) items ->
  (length (lead ++ joinItems items) < turns)%nat -> splitItems turns (lead ++ joinItems items) = Some items.
Proof.
  intros Hl Hg. revert lead turns Hl. induction Hg as [|item items Hi Hg IH]; intros lead turns Hl Ht.
  { destruct turns; [lia|]. cbn. by rewrite app_nil_r, trim_blank. }
  destruct (goodItem_spec item Hi) as (Htr & Hc & Hu). destruct turns as [|turns]; [lia|].
  assert (Forall (fun c => (c =? 44) = false) lead) as Hlc.
  { eapply Forall_impl; [exact Hl|]. intros c Hb. apply Z.eqb_neq. by intros ->. }
  destruct items as [|next items].
  - cbn [joinItems splitItems]. assert (trim (lead ++ item) = item) as ->.
    { rewrite <- (app_nil_r item) at 1. apply trim_app; [done|constructor|done]. }
    destruct item as [|c item]; [done|]. rewrite find_none by by apply Forall_app. by rewrite Hu.
  - change (joinItems (item :: next :: items)) with (item ++ 44 :: [32] ++ joinItems (next :: items)) in *.
    cbn [splitItems]. pose proof (trim_nonempty_app lead item (44 :: [32] ++ joinItems (next :: items)) Htr) as Hne.
    destruct (trim (lead ++ item ++ 44 :: [32] ++ joinItems (next :: items))); [done|]. clear Hne.
    rewrite app_assoc. rewrite find_app by first [by apply Forall_app | done].
    unfold substr. rewrite drop_0, take_app_length.
    assert (trim (lead ++ item) = item) as -> by (rewrite <- (app_nil_r item) at 1; apply trim_app; [done|constructor|done]).
    assert (drop (S (length (lead ++ item))) ((lead ++ item) ++ 44 :: [32] ++ joinItems (next :: items))
            = [32] ++ joinItems (next :: items)) as ->.
    { rewrite drop_app_ge by lia. by rewrite Nat.sub_succ_l, Nat.sub_diag by lia. }
    rewrite (IH [32] turns); [by rewrite Hu|by repeat constructor|].
    rewrite 2!length_app in Ht. cbn [length app] in Ht |- *. lia.
Qed.

Lemma getList_total config key : is_Some (getList config key).
Proof.
  unfold getList. destruct (entries_ config !! key) as [[|front raw]|]; [eauto| |eauto]. case_if; [eauto|].
  destruct (splitItems_total (S (length (front :: raw))) (substr 1 (length (front :: raw) - 2) (front :: raw))) as [items' ->]; [|eauto].
  unfold substr. rewrite length_take, length_drop. cbn [length]. lia.
Qed.

(** A sequence is read item by item.  [getList] always returns; on the
    sequence one writes for any list of items without commas, quotes or blanks
    at their ends it answers those items, in order, and on a setting that is
    not bracketed it refuses by name. *)
Theorem list_roundtrip key items m :
  Forall (fun item => goodItem item = true) items ->
  getList (mk (<[key := 91 :: joinItems items ++ [93]]> m)) key = Some (inl items) /\
  (forall config, is_Some (getList config key)).
Proof.
  intros Hg. split.
  - unfold getList. cbn [entries_]. rewrite lookup_insert_eq. rewrite app_comm_cons, last_snoc, bool_decide_true by done. cbn [negb orb Z.eqb].
    assert (substr 1 (length ((91 :: joinItems items) ++ [93]) - 2) ((91 :: joinItems items) ++ [93]) = joinItems items) as ->.
    { unfold substr. change (drop 1 ((91 :: joinItems items) ++ [93])) with (joinItems items ++ [93]).
      rewrite length_app. cbn [length]. rewrite take_app_le by lia. apply take_ge. lia. }
    change (joinItems items) with ([] ++ joinItems items) at 2. rewrite splitItems_join; [done|constructor|done|].
    cbn [app length]. rewrite length_app. lia.
  - intros config. apply getList_total.
Qed.

(** ** Examples *)

(** daemon: { area: { path: /cmed, mode: 0660 }, workers: 4 }, log: { path: /var/log } *)
Definition sampleForest : forest :=
  Nested (str "daemon")
    (Nested (str "area") (Setting (str "path") (str "/cmed") (Setting (str "mode") (str "0660") Done))
      (Setting (str "workers") (str "4") Done))
    (Nested (str "log") (Setting (str "path") (str "/var/log#0") Done) Done).

Lemma parse_render_witness :
  exists config, parse (unlines (render 0 sampleForest)) = inl config /\
    getString config (str "daemon.area.path") [] = str "/cmed" /\ getUnsigned 32 config (str "daemon.workers") 0 = inl 4 /\
    has config (str "path") = false.
Proof. exists (mk (meaning [] sampleForest ∅)). split; [apply parse_render|]; vm_compute; [reflexivity|done]. Defined.

Lemma typed_reads_exact_witness :
  getUnsigned 32 (mk {[ str "n" := digits 10 4294967295 ]}) (str "n") 7 = inl 4294967295 /\
  getUnsigned 32 (mk {[ str "n" := digits 10 4294967296 ]}) (str "n") 7 = inr (DoesNotFit (str "n") 32) /\
  getDuration (mk {[ str "n" := digits 10 (2 ^ 63) ]}) (str "n") 7 = inr (MoreThanFit (str "n")) /\
  getMode (mk {[ str "n" := digits 8 432 ]}) (str "n") 7 = inl 432 /\
  getUnsigned 32 (mk {[ str "n" := str "4k" ]}) (str "n") 7 = inr (NotANumber (str "n")) /\
  getUnsigned 32 (mk ∅) (str "n") 7 = inl 7.
Proof.
  destruct (typed_reads_exact (str "n") ∅ 7) as (Hn & Hd & Hm & Hf & _ & Hb).
  split; [exact (Hn 32 4294967295 ltac:(lia) ltac:(lia))|]. split; [exact (Hn 32 4294967296 ltac:(lia) ltac:(lia))|].
  split; [exact (Hd (2 ^ 63) ltac:(lia))|]. split; [exact (Hm 432 ltac:(lia))|]. split.
  - apply (proj1 (Hf (str "4k") ltac:(right; left; repeat split; vm_compute; first [reflexivity|discriminate]))).
  - exact (proj1 (Hb (or_introl eq_refl)) 32 ltac:(lia)).
Defined.

Lemma list_roundtrip_witness :
  getList (mk {[ str "uris" := str "[shm:/a, dax:/dev/dax0.0]" ]}) (str "uris") = Some (inl [str "shm:/a"; str "dax:/dev/dax0.0"]).
Proof.
  destruct (list_roundtrip (str "uris") [str "shm:/a"; str "dax:/dev/dax0.0"] ∅) as [H _]; [by repeat constructor|].
  exact H.
Defined.

(** A line indented under a setting that has a value is not refused: it is read
    as a setting of the section around. *)
Example indented_under_setting :
  parse (unlines [str "workers: 4"; str "    spin: 9"]) = inl (mk {[ str "workers" := str "4"; str "spin" := str "9" ]}).
Proof. vm_compute. reflexivity. Qed.
