(* ===== verification/Settings.v ===== *)
(** * Settings: what a process is told to be

    Models [src/daemon/daemon/startup/config.cpp], [src/daemon/client/config.cpp],
    the accounts a file names ([src/daemon/shared/posix/account.hpp]), the path
    both ends meet on ([src/daemon/shared/protocol/socket_path.hpp]) and the
    command line of the tools ([src/common/common/args.hpp]).

    The password and group databases are parameters.  A load answers [None] only
    if a loop ran out of turns, which no load does. *)

From stdpp Require Import strings.
From S2P Require Import Prelude Effect Types Control KvConfig KvParse.
Import KeyValueConfig.

(** ** The command line *)

Module cliargs.

(** [takeArgs]: the arguments, less the program's own name. *)
Definition takeArgs (argv : list (list Z)) : list (list Z) := tail argv.

(** The word after the flag; empty when the flag is absent or ends the list. *)
Fixpoint readArg (args : list (list Z)) (flag : list Z) : list Z :=
  match args with
  | arg :: (next :: _) as rest => if bool_decide (arg = flag) then next else readArg rest flag
  | _ => []
  end.

(** [std::strtoull] in base ten: blanks, a sign, the digits, saturating. *)
Definition strtoull (raw : list Z) : Z :=
  let text := dropSpaces raw in
  let '(negative, digits) :=
    match text with
    | c :: rest => if c =? 45 then (true, rest) else if c =? 43 then (false, rest) else (false, text)
    | [] => (false, [])
    end in
  let value := (takeDigits 0 digits).1 in
  if 2 ^ 64 <=? value then 2 ^ 64 - 1 else if negative then u64 (- value) else value.

(** [get] at a string, and at an unsigned type of [bits] bits. *)
Definition getWord (args : list (list Z)) (flag fallback : list Z) : list Z :=
  match readArg args flag with [] => fallback | raw => raw end.
Definition getNumber (bits : Z) (args : list (list Z)) (flag : list Z) (fallback : Z) : Z :=
  match readArg args flag with
  | [] => fallback
  | raw => let parsed := strtoull raw in if 0 <? parsed then parsed mod 2 ^ bits else fallback
  end.

Definition argFlag (args : list (list Z)) (flag : list Z) : bool := existsb (fun arg => bool_decide (arg = flag)) args.

End cliargs.

(** ** Refusals *)

Inductive Unusable :=
| AreaNameEmpty | RegionUriEmpty | SocketDirEmpty | NoWorkers | NoConnections
| IntervalSpins (key : list Z) | IntervalTooLong (key : list Z)
| HoldNotUnderValidity | SocketWorldWritable | NoRendezvous
| NoSuchId (named written : list Z) | NoSuchAccount (named written : list Z).

(** [kvconfig::ParseError] and [CmedInvalidArgumentError]. *)
Inductive ConfigError := Malformed (what : ParseError) | Unfit (what : Unusable).

(** A computation that may be refused. *)
Definition Load (A : Type) : Type := option (A + ConfigError).
Definition done {A} (a : A) : Load A := Some (inl a).
Definition refuse {A} (what : Unusable) : Load A := Some (inr (Unfit what)).
Definition parsed {A} (read : A + ParseError) : Load A :=
  Some (match read with inl a => inl a | inr what => inr (Malformed what) end).
Definition and_then {A B} (m : Load A) (k : A -> Load B) : Load B :=
  match m with Some (inl a) => k a | Some (inr what) => Some (inr what) | None => None end.
Notation "'let?' x ':=' m 'in' k" := (and_then m (fun x => k))
  (at level 10, x pattern, m at level 100, k at level 200) : cme_scope.

Definition require (holds : bool) (what : Unusable) : Load unit := if holds then done tt else refuse what.

(** [m] returns, and what it answers when it is not refused satisfies [Q]. *)
Definition loads {A} (m : Load A) (Q : A -> Prop) : Prop :=
  match m with Some (inl a) => Q a | Some (inr _) => True | None => False end.

Lemma loads_bind {A B} (m : Load A) (k : A -> Load B) (P : A -> Prop) Q :
  loads m P -> (forall a, P a -> loads (k a) Q) -> loads (let? x := m in k x) Q.
Proof. destruct m as [[a|]|]; cbn; auto. Qed.
Lemma loads_parsed {A} (read : A + ParseError) (P : A -> Prop) :
  (forall a, read = inl a -> P a) -> loads (parsed read) P.
Proof. destruct read; cbn; auto. Qed.
Lemma loads_require {A} holds what (k : Load A) Q :
  (holds = true -> loads k Q) -> loads (let? _ := require holds what in k) Q.
Proof. destruct holds; cbn; auto. Qed.

(** ** Accounts *)

Module account.
Section host.
Context (getpwnam getgrnam : list Z -> option Z).

(** What [c_str] shows a C function of a text. *)
Fixpoint c_str (text : list Z) : list Z :=
  match text with
  | [] => []
  | c :: rest => if c =? 0 then [] else c :: c_str rest
  end.

Definition isNumeric (written : list Z) : bool :=
  match written with [] => false | _ => forallb isDigit written end.

(** [std::from_chars] into an unsigned id of 32 bits: the digits at the front,
    out of range past the width, and refused unless it read to the end. *)
Definition readNumericId (written named : list Z) : Load Z :=
  match written with
  | [] => refuse (NoSuchId named written)
  | c :: _ =>
      let '(value, rest) := takeDigits 0 written in
      if negb (isDigit c) || (2 ^ 32 <=? value) || negb (bool_decide (rest = [])) then refuse (NoSuchId named written)
      else done value
  end.

Definition getUid (written named : list Z) : Load Z :=
  if isNumeric written then readNumericId written named
  else match getpwnam (c_str written) with None => refuse (NoSuchAccount named written) | Some uid => done uid end.
Definition getGid (written named : list Z) : Load Z :=
  if isNumeric written then readNumericId written named
  else match getgrnam (c_str written) with None => refuse (NoSuchAccount named written) | Some gid => done gid end.

End host.
End account.

(** ** The meeting place *)

Definition buildSocketPath (directory areaName : list Z) : list Z := directory ++ str "/" ++ areaName ++ str ".sock".

(** ** The daemon *)

(** Each field is named by the path its key has in the file; a duration is its
    count, in the unit the name of its key ends in. *)
Module DaemonSettings_t.
Record t := mk {
  area_name : list Z;
  socket_dir : list Z;
  socket_mode : Z;
  admitted : AdmitPolicy_t.t;
  region_uri : list Z;
  region_formatTimeout : Z;
  cohort_hold : Z;
  cohort_grantValidity : Z;
  workers_count : Z;
  serve_idleInterval : Z;
  control_idleInterval : Z;
  control_maxConnections : Z;
  workers_spin : Z;
  maintenance_interval : Z;
  serve_spin : Z;
  registry_refreshInterval : Z;
  registry_deleteWaitTimeout : Z;
}.

(** [0660] is 432. *)
Definition default : t :=
  mk (str "cmed") (str "/run/cmed") 432 (AdmitPolicy_t.mk [] []) (str "shm:/cme-region") 5000 150 400 4 200 200 256 10 20 200 1000 100.

Definition socketPath (config : t) : list Z := buildSocketPath (socket_dir config) (area_name config).
Definition lockPath (config : t) : list Z := socket_dir config ++ str "/" ++ area_name config ++ str ".lock".
Definition statusLine (config : t) : list Z := str "area " ++ area_name config ++ str ", region " ++ region_uri config.
End DaemonSettings_t.
Import DaemonSettings_t.

Definition LongestIdleInterval : Z := 60000.
Definition S_IWOTH : Z := 2.

Definition isEmpty (text : list Z) : bool := match text with [] => true | _ => false end.

(** One turn of the loop over the two idle intervals. *)
Definition refuseIdleInterval (key : list Z) (interval : Z) : Load unit :=
  let? _ := require (negb (interval =? 0)) (IntervalSpins key) in
  require (negb (LongestIdleInterval <? interval)) (IntervalTooLong key).

Definition refuseUnusableConfig (config : DaemonSettings_t.t) : Load unit :=
  let? _ := require (negb (isEmpty (area_name config))) AreaNameEmpty in
  let? _ := require (negb (isEmpty (region_uri config))) RegionUriEmpty in
  let? _ := require (negb (isEmpty (socket_dir config))) SocketDirEmpty in
  let? _ := require (negb (workers_count config =? 0)) NoWorkers in
  let? _ := require (negb (control_maxConnections config =? 0)) NoConnections in
  let? _ := refuseIdleInterval (str "serve.idle_interval_ms") (serve_idleInterval config) in
  let? _ := refuseIdleInterval (str "control.idle_interval_ms") (control_idleInterval config) in
  let? _ := require (cohort_hold config <? cohort_grantValidity config) HoldNotUnderValidity in
  require (Z.land (socket_mode config) S_IWOTH =? 0) SocketWorldWritable.

(** [readIds] at a resolver. *)
Fixpoint resolveAll (resolve : list Z -> list Z -> Load Z) (key : list Z) (written : list (list Z)) : Load (list Z) :=
  match written with
  | [] => done []
  | one :: rest => let? id := resolve one key in let? ids := resolveAll resolve key rest in done (id :: ids)
  end.
Definition readIds (values : KeyValueConfig.t) (key : list Z) (resolve : list Z -> list Z -> Load Z) : Load (list Z) :=
  let? written := match getList values key with None => None | Some read => parsed read end in
  resolveAll resolve key written.

Section host.
Context (getpwnam getgrnam : list Z -> option Z).

Definition loadDaemonConfig (euid : Z) (file : option Opened_t) : Load DaemonSettings_t.t :=
  let? values := parsed (loadIfPresent euid file) in
  let d := DaemonSettings_t.default in
  let name := getString values (str "area.name") (area_name d) in
  let dir := getString values (str "socket.dir") (socket_dir d) in
  let? mode := parsed (getMode values (str "socket.mode") (socket_mode d)) in
  let? uids := readIds values (str "admit.uids") (account.getUid getpwnam) in
  let? gids := readIds values (str "admit.gids") (account.getGid getgrnam) in
  let uri := getString values (str "region.uri") (region_uri d) in
  let? formatTimeout := parsed (getDuration values (str "region.format_timeout_ms") (region_formatTimeout d)) in
  let? hold := parsed (getDuration values (str "cohort.hold_ms") (cohort_hold d)) in
  let? grantValidity := parsed (getDuration values (str "cohort.grant_validity_ms") (cohort_grantValidity d)) in
  let? count := parsed (getUnsigned 32 values (str "workers.count") (workers_count d)) in
  let? serveIdle := parsed (getDuration values (str "serve.idle_interval_ms") (serve_idleInterval d)) in
  let? controlIdle := parsed (getDuration values (str "control.idle_interval_ms") (control_idleInterval d)) in
  let? maxConnections := parsed (getUnsigned 32 values (str "control.max_connections") (control_maxConnections d)) in
  let? workersSpin := parsed (getDuration values (str "workers.spin_us") (workers_spin d)) in
  let? interval := parsed (getDuration values (str "maintenance.interval_ms") (maintenance_interval d)) in
  let? serveSpin := parsed (getDuration values (str "serve.spin_us") (serve_spin d)) in
  let? refresh := parsed (getDuration values (str "registry.refresh_interval_ms") (registry_refreshInterval d)) in
  let? deleteWait := parsed (getDuration values (str "registry.delete_wait_timeout_ms") (registry_deleteWaitTimeout d)) in
  let config := mk name dir (u32 mode) (AdmitPolicy_t.mk uids gids) uri formatTimeout hold grantValidity count serveIdle
    controlIdle maxConnections workersSpin interval serveSpin refresh deleteWait in
  let? _ := refuseUnusableConfig config in
  done config.

End host.

(** ** The requester *)

Module ClientSettings_t.
Record t := mk { socketPath : list Z; setupTimeout : Z; lockTimeout : Z; spin : Z; }.
Definition default : t := mk [] 5000 5000 10.
End ClientSettings_t.

(** [path] is this application's file and [daemonPath] the daemon's. *)
Definition loadClientConfig (euid : Z) (path daemonPath : option Opened_t) : Load ClientSettings_t.t :=
  let? values := parsed (loadIfPresent euid path) in
  let? published := parsed (loadIfPresent euid daemonPath) in
  let d := ClientSettings_t.default in
  let directory := getString published (str "socket.dir") [] in
  let areaName := getString published (str "area.name") [] in
  let meeting := if negb (isEmpty directory) && negb (isEmpty areaName) then buildSocketPath directory areaName
                 else ClientSettings_t.socketPath d in
  let? setup := parsed (getDuration values (str "client.setup_timeout_ms") (ClientSettings_t.setupTimeout d)) in
  let? wait := parsed (getDuration values (str "client.lock_timeout_ms") (ClientSettings_t.lockTimeout d)) in
  let? _ := require (negb (isEmpty meeting)) NoRendezvous in
  done (ClientSettings_t.mk meeting setup wait (ClientSettings_t.spin d)).

(** ** What a load promises *)

Record usable (c : DaemonSettings_t.t) : Prop := {
  usable_names : area_name c <> [] /\ region_uri c <> [] /\ socket_dir c <> [];
  usable_mode : 0 <= socket_mode c <= 511 /\ Z.testbit (socket_mode c) 1 = false;
  usable_admit : Forall in_u32 (AdmitPolicy_t.uids (admitted c)) /\ Forall in_u32 (AdmitPolicy_t.gids (admitted c));
  usable_turn : 0 <= cohort_hold c < cohort_grantValidity c /\ cohort_grantValidity c < 2 ^ 63;
  usable_counts : 0 < workers_count c < 2 ^ 32 /\ 0 < control_maxConnections c < 2 ^ 32;
  usable_idle : 0 < serve_idleInterval c <= 60000 /\ 0 < control_idleInterval c <= 60000;
  usable_waits : Forall (fun count => 0 <= count < 2 ^ 63)
    [region_formatTimeout c; workers_spin c; maintenance_interval c; serve_spin c; registry_refreshInterval c;
     registry_deleteWaitTimeout c];
}.

Lemma isEmpty_false text : negb (isEmpty text) = true -> text <> [].
Proof. by destruct text. Qed.

Lemma loads_idle {A} key interval (k : Load A) Q :
  (interval <> 0 -> interval <= 60000 -> loads k Q) -> loads (let? _ := refuseIdleInterval key interval in k) Q.
Proof.
  unfold refuseIdleInterval, LongestIdleInterval. intros H.
  unfold require. repeat (case_if; cbn; [|done]). zbool. apply H; lia.
Qed.

Lemma refuseUnusableConfig_spec c :
  loads (refuseUnusableConfig c) (fun _ =>
    area_name c <> [] /\ region_uri c <> [] /\ socket_dir c <> [] /\ workers_count c <> 0 /\
    control_maxConnections c <> 0 /\
    (serve_idleInterval c <> 0 /\ serve_idleInterval c <= 60000) /\
    (control_idleInterval c <> 0 /\ control_idleInterval c <= 60000) /\
    cohort_hold c < cohort_grantValidity c /\ Z.land (socket_mode c) S_IWOTH = 0).
Proof.
  unfold refuseUnusableConfig.
  repeat first [apply loads_require; intros ? | apply loads_idle; intros ? ?].
  unfold require. case_if; cbn; [|done]. repeat split; try (by apply isEmpty_false); zbool; lia.
Qed.

Lemma getId_range database written named id :
  (forall name id, database name = Some id -> in_u32 id) ->
  account.getUid database written named = Some (inl id) -> in_u32 id.
Proof.
  intros Hdb. unfold account.getUid, account.readNumericId. case_if.
  - destruct written as [|c written]; [done|].
    pose proof (takeDigits_nonneg (c :: written) 0 ltac:(lia)) as Hn. destruct (takeDigits 0 (c :: written)) as [value rest].
    case_if; [done|]. intros [= <-]. zbool. unfold in_u32. cbn in Hn. lia.
  - destruct (database (account.c_str written)) as [uid|] eqn:Hd; [|done]. intros [= <-]. by eapply Hdb.
Qed.

Lemma getId_returns database written named : is_Some (account.getUid database written named).
Proof.
  unfold account.getUid, account.readNumericId. case_if; [|destruct (database _); eauto].
  destruct written as [|c written]; [eauto|]. destruct (takeDigits 0 (c :: written)). case_if; eauto.
Qed.

Lemma readIds_range database values key :
  (forall name id, database name = Some id -> in_u32 id) ->
  loads (readIds values key (account.getUid database)) (Forall in_u32).
Proof.
  intros Hdb. unfold readIds. destruct (getList_total values key) as [read ->].
  eapply (loads_bind _ _ (fun _ => True)); [by apply loads_parsed|]. intros written _.
  induction written as [|one written IH]; [by constructor|]. cbn [resolveAll].
  eapply (loads_bind _ _ in_u32).
  { destruct (getId_returns database one key) as [[id|what] Hid]; rewrite Hid; cbn; [|done]. by eapply getId_range. }
  intros id Hid. eapply loads_bind; [exact IH|]. intros ids Hids. by constructor.
Qed.

(** The group reader is the account reader over the other database. *)
Lemma getGid_getUid database : account.getGid database = account.getUid database.
Proof. done. Qed.

(** The daemon never runs on settings it cannot honour.  Whatever file it is
    given, the load returns, and settings it does not refuse name an area, a
    region and a directory, let no other account write the socket, admit only
    ids the kernel has, end a turn before the grants issued under it, and pace
    both loops between one tick and a minute; every number is inside the type of
    its field. *)
Theorem loadDaemonConfig_usable getpwnam getgrnam euid file :
  (forall name id, getpwnam name = Some id -> in_u32 id) ->
  (forall name id, getgrnam name = Some id -> in_u32 id) ->
  loads (loadDaemonConfig getpwnam getgrnam euid file) usable.
Proof.
  intros Hpw Hgr. unfold loadDaemonConfig.
  eapply (loads_bind _ _ (fun _ => True)); [by apply loads_parsed|]. intros values _. cbv zeta.
  eapply loads_bind; [apply loads_parsed; intros ?; apply getMode_fits; done|]. intros mode Hmode.
  eapply loads_bind; [by apply readIds_range|]. intros us Hus.
  eapply loads_bind; [rewrite getGid_getUid; by apply readIds_range|]. intros gs Hgs.
  repeat (eapply loads_bind; [apply loads_parsed; intros ?; first [apply getDuration_fits | apply getUnsigned_fits; done]|]; intros ? ?).
  eapply loads_bind; [apply refuseUnusableConfig_spec|]. cbn [area_name region_uri socket_dir workers_count control_maxConnections serve_idleInterval control_idleInterval cohort_hold cohort_grantValidity socket_mode]. cbv beta in *.
  intros _ (? & ? & ? & ? & ? & [] & [] & ? & Hw).
  rewrite u32_small in Hw |- * by (unfold in_u32; lia).
  split; cbn -[str Z.pow]; [done| |done|lia|lia|lia|by rewrite !Forall_cons, Forall_nil]. split; [done|].
  pose proof (Z.land_spec mode S_IWOTH 1) as Hb. rewrite Hw, Z.bits_0 in Hb. by rewrite andb_true_r in Hb.
Qed.

(** ** Where the two ends meet *)

(** A file both processes may trust reads the same to both. *)
Lemma loadIfPresent_agree euid euid' file values values' :
  loadIfPresent euid file = inl values -> loadIfPresent euid' file = inl values' -> values = values'.
Proof.
  unfold loadIfPresent, readIfTrusted. destruct file as [[[[mode owner]|] bytes]|]; cbn; [|done|congruence].
  destruct (negb (Z.land mode _ =? 0)); [done|]. destruct (negb (owner =? euid) && _); [done|].
  destruct (negb (owner =? euid') && _); [by destruct bytes|]. destruct bytes as [text|]; [|done]. intros -> [= ->]. done.
Qed.

Lemma loads_inv {A B} (m : Load A) (k : A -> Load B) b :
  (let? x := m in k x) = Some (inl b) -> exists a, m = Some (inl a) /\ k a = Some (inl b).
Proof. destruct m as [[a|]|]; [|done..]. eauto. Qed.
Lemma parsed_inv {A} (read : A + ParseError) a : parsed read = Some (inl a) -> read = inl a.
Proof. unfold parsed. destruct read; congruence. Qed.
Lemma require_inv holds what u : require holds what = Some (inl u) -> holds = true.
Proof. by destruct holds. Qed.

Ltac load_inv :=
  repeat match goal with
  | H : and_then _ _ = Some (inl _) |- _ => apply loads_inv in H as (? & ? & H)
  | H : parsed _ = Some (inl _) |- _ => apply parsed_inv in H
  | H : require _ _ = Some (inl _) |- _ => apply require_inv in H
  | H : done _ = Some (inl _) |- _ => injection H as <-
  end.

(** What a key reads as, when it is present at all, does not depend on the fallback. *)
Lemma getString_present config key fallback : getString config key [] <> [] ->
  getString config key fallback = getString config key [].
Proof. unfold getString. by destruct (entries_ config !! key). Qed.

Lemma loadDaemonConfig_path getpwnam getgrnam euid file config :
  loadDaemonConfig getpwnam getgrnam euid file = Some (inl config) ->
  exists values, loadIfPresent euid file = inl values /\
    socketPath config = buildSocketPath (getString values (str "socket.dir") (socket_dir default))
                                        (getString values (str "area.name") (area_name default)).
Proof. unfold loadDaemonConfig. intros H. load_inv. eauto. Qed.

(** Both ends of a deployment meet.  When a requester and a daemon, whatever
    accounts they run as, load one daemon file, the path the requester connects
    to is the path the daemon binds; and where the file leaves out the directory
    or the name, which the daemon would default, the requester refuses rather
    than guess. *)
Theorem rendezvous getpwnam getgrnam euid euid' path file config :
  loadDaemonConfig getpwnam getgrnam euid file = Some (inl config) ->
  loads (loadClientConfig euid' path file) (fun client =>
    ClientSettings_t.socketPath client = socketPath config /\
    exists values, loadIfPresent euid' file = inl values /\
      getString values (str "socket.dir") [] <> [] /\ getString values (str "area.name") [] <> []).
Proof.
  intros (values & Hv & ->)%loadDaemonConfig_path. unfold loadClientConfig.
  eapply (loads_bind _ _ (fun _ => True)); [by apply loads_parsed|]. intros own _.
  eapply loads_bind; [apply loads_parsed; intros ? H; exact H|]. cbv beta zeta. intros published Hp.
  pose proof (loadIfPresent_agree _ _ _ _ _ Hp Hv) as ->.
  do 2 (eapply (loads_bind _ _ (fun _ => True)); [by apply loads_parsed|]; intros ? _).
  apply loads_require. case_if; [|done]. apply andb_true_iff in E as [Hd%isEmpty_false Hn%isEmpty_false]. intros _.
  cbn [loads done ClientSettings_t.socketPath]. rewrite (getString_present values (str "socket.dir") (socket_dir default)), (getString_present values (str "area.name") (area_name default)) by done. eauto.
Qed.

(** ** Accounts and counts *)

Lemma isNumeric_digits value : 0 <= value -> account.isNumeric (digits 10 value) = true.
Proof.
  intros Hv. destruct (digits_spec 10 value ltac:(lia) Hv) as (_ & Hf & Hne). unfold account.isNumeric.
  destruct (digits 10 value) as [|c text]; [done|]. apply forallb_forall. intros d Hd%list_elem_of_In.
  rewrite Forall_forall in Hf. by apply digit_not, Hf.
Qed.

(** An account written as a number is that account or is refused.  A number
    the id has no room for never wraps to another account, root least of all,
    and an entry that is not a number answers only what the database names. *)
Theorem account_exact database named :
  (forall value, 0 <= value ->
    account.getUid database (digits 10 value) named =
      if value <? 2 ^ 32 then done value else refuse (NoSuchId named (digits 10 value))) /\
  (forall written, account.isNumeric written = false ->
    account.getUid database written named =
      match database (account.c_str written) with Some uid => done uid | None => refuse (NoSuchAccount named written) end).
Proof.
  split; [|intros written Hn; unfold account.getUid; rewrite Hn; by destruct (database _)].
  intros value Hv. unfold account.getUid. rewrite isNumeric_digits by done.
  destruct (digits_spec 10 value ltac:(lia) Hv) as (Hr & Hf & Hne). unfold account.readNumericId.
  destruct (digits 10 value) as [|c text] eqn:Hd; [done|]. rewrite takeDigits_all, Hr by done.
  rewrite Forall_cons in Hf. destruct Hf as [Hc _]. apply digit_not in Hc as (_ & _ & _ & ->). cbn [negb orb].
  rewrite bool_decide_true by done. rewrite orb_false_r. destruct (Z.ltb_spec value (2 ^ 32)), (Z.leb_spec (2 ^ 32) value); try lia; done.
Qed.

(** On the command line a number past the width of its field is narrowed, not
    refused, so a count of 2^32 + 2 is taken for 2. *)
Theorem flag_narrows args flag fallback value :
  cliargs.readArg args flag = digits 10 value -> 0 < value < 2 ^ 64 ->
  cliargs.getNumber 32 args flag fallback = value mod 2 ^ 32.
Proof.
  intros Hr Hv. unfold cliargs.getNumber. rewrite Hr.
  destruct (digits_spec 10 value ltac:(lia) ltac:(lia)) as (Hd & Hf & Hne).
  assert (cliargs.strtoull (digits 10 value) = value) as Hs.
  { unfold cliargs.strtoull. destruct (digits 10 value) as [|c text] eqn:He; [done|]. cbn [dropSpaces].
    pose proof Hf as Hf'. rewrite Forall_cons in Hf'. destruct Hf' as [Hc _]. apply digit_not in Hc as (-> & -> & -> & _).
    rewrite takeDigits_all, Hd by done. cbn [fst]. rewrite (proj2 (Z.leb_gt _ _)) by lia. done. }
  destruct (digits 10 value); [done|]. rewrite Hs. by rewrite (proj2 (Z.ltb_lt 0 value)) by lia.
Qed.

(** ** Examples *)

Definition deployed : option Opened_t := Some (mkOpened (Some (420, 0)) (Some (
  str "area:" ++ [10] ++ str "  name: rack7" ++ [10] ++
  str "socket:" ++ [10] ++ str "  dir: /run/cme" ++ [10] ++ str "  mode: 0600" ++ [10] ++
  str "admit:" ++ [10] ++ str "  uids: [1000, cme]" ++ [10] ++
  str "workers:" ++ [10] ++ str "  count: 8" ++ [10]))).
Definition passwd (name : list Z) : option Z := if bool_decide (name = str "cme") then Some 990 else None.

Example deployed_daemon :
  loadDaemonConfig passwd (fun _ => None) 990 deployed = Some (inl
    (mk (str "rack7") (str "/run/cme") 384 (AdmitPolicy_t.mk [1000; 990] []) (str "shm:/cme-region") 5000 150 400 8 200 200 256 10 20 200 1000 100)).
Proof. vm_compute. reflexivity. Qed.

Lemma passwd_range name id : passwd name = Some id -> in_u32 id.
Proof. unfold passwd. case_if; [|done]. by intros [= <-]. Qed.

Lemma loadDaemonConfig_usable_witness :
  loads (loadDaemonConfig passwd (fun _ => None) 990 deployed) usable.
Proof. apply (loadDaemonConfig_usable passwd (fun _ => None)); [exact passwd_range|discriminate]. Defined.

Lemma rendezvous_witness : exists client,
  loadClientConfig 1000 None deployed = Some (inl client) /\ ClientSettings_t.socketPath client = str "/run/cme/rack7.sock".
Proof.
  destruct (loadDaemonConfig passwd (fun _ => None) 990 deployed) as [[c|]|] eqn:H; [|vm_compute in H; discriminate..].
  pose proof (rendezvous passwd (fun _ => None) 990 1000 None deployed c H) as Hr.
  vm_compute in H. injection H as <-. unfold loads in Hr.
  destruct (loadClientConfig 1000 None deployed) as [[client|]|] eqn:Hc; [|vm_compute in Hc; discriminate..].
  exists client. split; [reflexivity|]. rewrite (proj1 Hr). vm_compute. reflexivity.
Defined.

Lemma account_exact_witness :
  account.getUid passwd (digits 10 4294967296) (str "admit.uids") = refuse (NoSuchId (str "admit.uids") (str "4294967296")) /\
  account.getUid passwd [] (str "admit.uids") = refuse (NoSuchAccount (str "admit.uids") []).
Proof.
  destruct (account_exact passwd (str "admit.uids")) as [Hn Ht].
  split; [rewrite Hn by lia; vm_compute; reflexivity|rewrite Ht by reflexivity; vm_compute; reflexivity].
Defined.
