(* ===== verification/Memory.v ===== *)
(** * Memory: where a region's bytes come from

    Models [src/src/memory/memory.cpp], [dax.cpp], [shm.cpp] and [file.cpp]: the
    uri of a region and the three backends that map it, as creator and as
    joiner.

    The operating system and the filesystem's own library are a parameter: what
    each call answers, given every call before it.  The state is the calls made
    so far with their answers, so what a backend leaves behind on every path,
    the failing ones too, can be read off it. *)

From stdpp Require Import strings.
From S2P Require Import Prelude Effect Types Layout KvConfig KvParse.
Import KeyValueConfig.

Definition PmdAlign : Z := 2 * 1024 * 1024.

(** [roundUp] of [src/src/util/util.hpp], at 64 bits. *)
Definition roundUp (value align : Z) : Z :=
  if value =? 0 then align else Z.land (u64 (value + align - 1)) (u64 (Z.lnot (align - 1))).

(** ** The operating system *)

Inductive Call :=
| Open (path : list Z) (create writable : bool)
| ShmOpen (name : list Z) (create writable : bool)
| Fstat (file : Z)
| Ftruncate (file size : Z)
| Mmap (file size : Z) (writable : bool) (offset : Z)
| Close (file : Z)
| Munmap (base size : Z)
| SetDefaultPermission (file : Z)
| AskPermission (file : Z) (writable : bool)
| SetRegionAttr (file : Z) (uncached : bool)
| ReadRegionAttr (file : Z).

(** What the call returned, and what it wrote: the size [fstat] read, or whether
    the region's pool is the uncached one. *)
Record Answer_t := mkAnswer { result : Z; written : Z; }.

(** [roof] is whether the filesystem's library is there and serves the version
    this build knows. *)
Record Os := mkOs { roof : bool; answers : list (Call * Answer_t) -> Call -> Answer_t; }.

(** The calls made so far, the last one first. *)
Definition History := list (Call * Answer_t).
Definition M (A : Type) : Type := run Os History A.

Definition call (c : Call) : M Answer_t :=
  fun os history => let answer := answers os history c in Some (answer, (c, answer) :: history).
Definition hasRoof : M bool := fun os history => Some (roof os, history).

(** A throw leaves the function. *)
Definition throw {A} (error : Error) : M (A + Error) := ret (inr error).
Definition try_ {A B} (m : M (A + Error)) (k : A -> M (B + Error)) : M (B + Error) :=
  let! outcome := m in match outcome with inl a => k a | inr error => ret (inr error) end.
Notation "'let+' x ':=' m 'in' k" := (try_ m (fun x => k))
  (at level 10, x pattern, m at level 100, k at level 200) : cme_scope.

Definition MAP_FAILED : Z := -1.
Definition ENOTTY : Z := 25.
Definition EINVAL : Z := 22.
Definition EACCES : Z := 13.

(** ** The uri *)

Module Uri.

Record UriParts_t := mk { scheme : list Z; path : list Z; offset : Z; }.

(** The digits of a base at the front of [text], the letters of either case
    standing for ten and up, and what follows them. *)
Definition digitOf (c : Z) : Z :=
  if isDigit c then c - 48
  else if (97 <=? c) && (c <=? 122) then c - 87
  else if (65 <=? c) && (c <=? 90) then c - 55 else 36.
Fixpoint takeBase (base value : Z) (text : list Z) : Z * list Z :=
  match text with
  | [] => (value, [])
  | c :: rest => if digitOf c <? base then takeBase base (value * base + digitOf c) rest else (value, text)
  end.

(** The base [strtoull] takes when it is told zero: a prefix [0x] with a digit
    behind it is sixteen, another leading zero is eight. *)
Definition detectBase (text : list Z) : Z * list Z :=
  match text with
  | 48 :: 120 :: c :: _ | 48 :: 88 :: c :: _ =>
      if digitOf c <? 16 then (16, tl (tl text)) else (8, text)
  | 48 :: _ => (8, text)
  | _ => (10, text)
  end.

(** [std::stoull(text, &consumed, 0)]: the value and what it did not consume;
    [None] is a throw. *)
Definition stoull (text : list Z) : option (Z * list Z) :=
  let text := dropSpaces text in
  let '(negative, text) :=
    match text with
    | c :: rest => if c =? 45 then (true, rest) else if c =? 43 then (false, rest) else (false, text)
    | [] => (false, [])
    end in
  let '(base, digits) := detectBase text in
  match digits with
  | [] => None
  | c :: _ =>
      if base <=? digitOf c then None
      else
        let '(value, rest) := takeBase base 0 digits in
        if 2 ^ 64 <=? value then None else Some (if negative then u64 (- value) else value, rest)
  end.

Definition parseUri (uri : list Z) : UriParts_t + Error :=
  match find (fun c => c =? 58) uri with
  | None => inr InvalidArgumentError
  | Some pos =>
      if bool_decide (pos = 0%nat) || bool_decide (length uri <= pos + 1)%nat then inr InvalidArgumentError
      else
        let parts := mk (substr 0 pos uri) (drop (pos + 1) uri) 0 in
        if negb (bool_decide (scheme parts = str "dax")) then inl parts
        else
          match find_last (fun c => c =? 64) (path parts) with
          | None => inl parts
          | Some atSign =>
              if bool_decide (length (path parts) <= atSign + 1)%nat then inl parts
              else
                match stoull (drop (atSign + 1) (path parts)) with
                | Some (value, []) => inl (mk (scheme parts) (take atSign (path parts)) value)
                | _ => inr InvalidArgumentError
                end
          end
  end.

End Uri.

(** ** A mapping *)

(** [pool] is the mode the mapping calls for, where it says one. *)
Module Mapping_t.
Record t := mk { base : Z; size : Z; pool : option CoherencyMode; }.
End Mapping_t.

Module Dax.

Definition openMmap (path : list Z) (mapSize offset : Z) (writable : bool) : M (Z + Error) :=
  if negb (offset mod PmdAlign =? 0) then throw InvalidArgumentError
  else
    let! opened := call (Open path false writable) in
    let file := result opened in
    if file <? 0 then throw BackendError
    else
      let! mapped := call (Mmap file mapSize writable (s64 offset)) in
      let! _ := call (Close file) in
      if result mapped =? MAP_FAILED then throw BackendError else ret (inl (result mapped)).

Definition join (path : list Z) (offset : Z) (writable : bool) : M (Mapping_t.t + Error) :=
  let+ base := openMmap path PmdAlign offset writable in
  ret (inl (Mapping_t.mk base PmdAlign (Some Flush))).
Definition create (path : list Z) (areaSize offset : Z) : M (Mapping_t.t + Error) :=
  let mapSize := roundUp areaSize PmdAlign in
  let+ base := openMmap path mapSize offset true in
  ret (inl (Mapping_t.mk base mapSize (Some Flush))).

End Dax.

Module Shm.

Definition MaxShmNameLen : Z := 255.

Definition normaliseShmName (name : list Z) : list Z + Error :=
  match name with
  | [] => inr InvalidArgumentError
  | front :: _ =>
      let normalised := if front =? 47 then name else 47 :: name in
      if MaxShmNameLen <? Z.of_nat (length normalised) then inr InvalidArgumentError else inl normalised
  end.

Definition openCreator (normalised : list Z) (areaSize : Z) : M (Mapping_t.t + Error) :=
  let! opened := call (ShmOpen normalised true true) in
  let file := result opened in
  if file <? 0 then throw BackendError
  else
    let! sized := call (Ftruncate file (s64 areaSize)) in
    if result sized <? 0 then call (Close file) ;;; throw BackendError
    else
      let! mapped := call (Mmap file areaSize true 0) in
      let! _ := call (Close file) in
      if result mapped =? MAP_FAILED then throw BackendError
      else ret (inl (Mapping_t.mk (result mapped) areaSize (Some CacheCoherent))).

Definition openJoiner (normalised : list Z) (writable : bool) : M (Mapping_t.t + Error) :=
  let! opened := call (ShmOpen normalised false writable) in
  let file := result opened in
  if file <? 0 then throw BackendError
  else
    let! stat := call (Fstat file) in
    if result stat <? 0 then call (Close file) ;;; throw BackendError
    else if written stat <=? 0 then call (Close file) ;;; throw BackendError
    else
      let mapSize := u64 (written stat) in
      let! mapped := call (Mmap file mapSize writable 0) in
      let! _ := call (Close file) in
      if result mapped =? MAP_FAILED then throw BackendError
      else ret (inl (Mapping_t.mk (result mapped) mapSize (Some CacheCoherent))).

Definition join (name : list Z) (writable : bool) : M (Mapping_t.t + Error) :=
  match normaliseShmName name with
  | inr error => throw error
  | inl normalised => openJoiner normalised writable
  end.
Definition create (name : list Z) (areaSize : Z) : M (Mapping_t.t + Error) :=
  if areaSize =? 0 then throw InvalidArgumentError
  else match normaliseShmName name with
  | inr error => throw error
  | inl normalised => openCreator normalised areaSize
  end.

End Shm.

Module File.

Definition openFile (path : list Z) (create writable : bool) : M (Z + Error) :=
  let! opened := call (Open path create writable) in
  if result opened <? 0 then throw BackendError else ret (inl (result opened)).

(** A verb of the filesystem's library, or what a filesystem without it says. *)
Definition verb (c : Call) : M Z :=
  let! table := hasRoof in
  if table then let! answer := call c in ret (result answer) else ret (- ENOTTY).
Definition setRoofDefaultPermission (file : Z) : M Z := verb (SetDefaultPermission file).
Definition askRoofPermission (file : Z) (writable : bool) : M Z := verb (AskPermission file writable).
Definition setRoofCache (file : Z) (coherency : CoherencyMode) : M Z :=
  verb (SetRegionAttr file (bool_decide (coherency = Uncached))).
Definition readRoofCache (file : Z) : M (option CoherencyMode) :=
  let! table := hasRoof in
  if negb table then ret None
  else
    let! answer := call (ReadRegionAttr file) in
    ret (if negb (result answer =? 0) then None else if written answer =? 0 then Some Flush else Some Uncached).

Definition requireResult (file res : Z) (tolerated : list Z) : M (unit + Error) :=
  if (res =? 0) || existsb (fun code => res =? - code) tolerated then ret (inl tt)
  else call (Close file) ;;; throw BackendError.

Definition grantDefaultPerms (file : Z) : M (unit + Error) :=
  let! res := setRoofDefaultPermission file in requireResult file res [ENOTTY; EINVAL; EACCES].
Definition setCachePolicy (file : Z) (coherency : CoherencyMode) : M (unit + Error) :=
  let! res := setRoofCache file coherency in requireResult file res [ENOTTY; EINVAL].

Definition mapFd (file mapSize : Z) (writable : bool) : M (Z + Error) :=
  let! res := askRoofPermission file writable in
  let+ _ := requireResult file res [ENOTTY] in
  let! mapped := call (Mmap file mapSize writable 0) in
  let! _ := call (Close file) in
  if result mapped =? MAP_FAILED then throw BackendError else ret (inl (result mapped)).

(** The growth of a file too small for the region. *)
Definition grow (file mapSize : Z) (coherency : CoherencyMode) : M (unit + Error) :=
  let+ _ := setCachePolicy file coherency in
  let! sized := call (Ftruncate file (s64 mapSize)) in
  if negb (result sized =? 0) then call (Close file) ;;; throw BackendError else ret (inl tt).

Definition openCreator (path : list Z) (areaSize : Z) (coherency : CoherencyMode) : M (Mapping_t.t + Error) :=
  let mapSize := roundUp areaSize PmdAlign in
  let+ file := openFile path true true in
  let! stat := call (Fstat file) in
  let needGrow := negb (result stat =? 0) || (u64 (written stat) <? mapSize) in
  let+ _ := if needGrow then grow file mapSize coherency else ret (inl tt) in
  let+ _ := grantDefaultPerms file in
  let! placed := readRoofCache file in
  let+ base := mapFd file mapSize true in
  ret (inl (Mapping_t.mk base mapSize placed)).

Definition openJoiner (path : list Z) (writable : bool) : M (Mapping_t.t + Error) :=
  let+ file := openFile path false writable in
  let! stat := call (Fstat file) in
  if negb (result stat =? 0) then call (Close file) ;;; throw BackendError
  else if written stat <=? 0 then call (Close file) ;;; throw BackendError
  else
    let mapSize := roundUp (u64 (written stat)) PmdAlign in
    let! placed := readRoofCache file in
    let+ base := mapFd file mapSize writable in
    ret (inl (Mapping_t.mk base mapSize placed)).

Definition readPoolCoherency (path : list Z) : M (option CoherencyMode) :=
  let! opened := call (Open path false false) in
  if result opened <? 0 then ret None
  else
    let! placed := readRoofCache (result opened) in
    let! _ := call (Close (result opened)) in
    ret placed.

End File.

Module Memory.
Import Uri.

Definition join (writable : bool) (uri : list Z) : M (Mapping_t.t + Error) :=
  match parseUri uri with
  | inr error => throw error
  | inl parts =>
      if bool_decide (scheme parts = str "dax") then Dax.join (path parts) (offset parts) writable
      else if bool_decide (scheme parts = str "shm") then Shm.join (path parts) writable
      else if bool_decide (scheme parts = str "file") then File.openJoiner (path parts) writable
      else throw InvalidArgumentError
  end.
Definition open_ (uri : list Z) : M (Mapping_t.t + Error) := join true uri.
Definition openReadOnly (uri : list Z) : M (Mapping_t.t + Error) := join false uri.

Definition create (uri : list Z) (areaSize : Z) (coherency : CoherencyMode) : M (Mapping_t.t + Error) :=
  match parseUri uri with
  | inr error => throw error
  | inl parts =>
      if bool_decide (scheme parts = str "dax") then Dax.create (path parts) areaSize (offset parts)
      else if bool_decide (scheme parts = str "shm") then Shm.create (path parts) areaSize
      else if bool_decide (scheme parts = str "file") then File.openCreator (path parts) areaSize coherency
      else throw InvalidArgumentError
  end.

(** The destructor; a null base is zero. *)
Definition destroy (mapping : Mapping_t.t) : M unit :=
  if negb (Mapping_t.base mapping =? 0) && (0 <? Mapping_t.size mapping)
  then call (Munmap (Mapping_t.base mapping) (Mapping_t.size mapping)) ;;; ret tt else ret tt.

End Memory.

(** ** What a backend leaves behind *)

(** The descriptors open and the ranges mapped after a history; [None] once a
    call used a descriptor or a range that was not there to use. *)
Fixpoint dropFirst {A} `{EqDecision A} (x : A) (l : list A) : option (list A) :=
  match l with
  | [] => None
  | y :: rest => if bool_decide (x = y) then Some rest else option_map (cons y) (dropFirst x rest)
  end.

Definition holding : Type := list Z * list (Z * Z).
Definition uses (file : Z) (h : holding) : option holding := if bool_decide (file ∈ h.1) then Some h else None.
Definition replayCall (c : Call) (a : Answer_t) (h : holding) : option holding :=
  match c with
  | Open _ _ _ | ShmOpen _ _ _ => Some (if result a <? 0 then h else (result a :: h.1, h.2))
  | Fstat file | Ftruncate file _ | SetDefaultPermission file | AskPermission file _ | SetRegionAttr file _
  | ReadRegionAttr file => uses file h
  | Mmap file size _ _ => if result a =? MAP_FAILED then uses file h
                          else uses file h ≫= fun h => Some (h.1, (result a, size) :: h.2)
  | Close file => option_map (fun fds => (fds, h.2)) (dropFirst file h.1)
  | Munmap base size => option_map (fun maps => (h.1, maps)) (dropFirst (base, size) h.2)
  end.
Fixpoint replay (history : History) : option holding :=
  match history with
  | [] => Some ([], [])
  | (c, a) :: before => replay before ≫= replayCall c a
  end.

Section leaves.
Context (os : Os).

Lemma wp_call c (Q : Answer_t -> History -> Prop) s : (forall a, Q a ((c, a) :: s)) -> wp (call c) os Q s.
Proof. intros H. apply H. Qed.
Lemma wp_hasRoof (Q : bool -> History -> Prop) s : (forall b, Q b s) -> wp hasRoof os Q s.
Proof. intros H. apply H. Qed.
Lemma wp_throw {A} error (Q : A + Error -> History -> Prop) s : Q (inr error) s -> wp (throw error) os Q s.
Proof. done. Qed.
Lemma wp_try {A B} (m : M (A + Error)) (k : A -> M (B + Error)) Q s :
  wp m os (fun r s' => match r with inl a => wp (k a) os Q s' | inr error => Q (inr error) s' end) s ->
  wp (try_ m k) os Q s.
Proof.
  intros H. apply wp_bind. eapply wp_mono; [exact H|]. by intros [a|error] s'.
Qed.

(** Either it threw, and what is held is [h], or it answered [a] and it is [h' a]. *)
Definition threwOr {A} (h : holding) (h' : A -> holding) (r : A + Error) (s : History) : Prop :=
  replay s = Some (match r with inl a => h' a | inr _ => h end).

End leaves.

Ltac replayed H :=
  cbn [replay]; rewrite ?H; cbn -[bool_decide Z.ltb Z.eqb];
  repeat match goal with
  | E : (_ <? 0) = _ |- _ => rewrite E
  | E : (_ =? MAP_FAILED) = _ |- _ => rewrite E
  | |- context [uses ?file ?h] => unfold uses
  | |- context [bool_decide ?P] => rewrite (bool_decide_true P) by (first [reflexivity | set_solver])
  | _ => progress cbn -[bool_decide Z.ltb Z.eqb]
  end; try reflexivity.

Ltac mem_step :=
  match goal with
  | |- wp (bind _ _) _ _ _ => apply wp_bind
  | |- wp (try_ _ _) _ _ _ => apply wp_try
  | |- wp (call _) _ _ _ => apply wp_call; intros ?
  | |- wp hasRoof _ _ _ => apply wp_hasRoof; intros ?
  | |- wp (ret _) _ _ _ => apply wp_ret
  | |- wp (throw _) _ _ _ => apply wp_throw
  | |- wp (if ?b then _ else _) _ _ _ => destruct b eqn:?
  end; cbv beta.
Ltac mem_run := repeat mem_step.

Section factories.
Context (os : Os).

Section backends.
Context (fds : list Z) (maps : list (Z * Z)).

(** What every factory leaves: the mapping it answers, or nothing. *)
Definition mapsOnly : (Mapping_t.t + Error) -> History -> Prop :=
  threwOr (fds, maps) (fun m => (fds, (Mapping_t.base m, Mapping_t.size m) :: maps)).

Lemma dax_openMmap path mapSize offset writable s : replay s = Some (fds, maps) ->
  wp (Dax.openMmap path mapSize offset writable) os (threwOr (fds, maps) (fun base => (fds, (base, mapSize) :: maps))) s.
Proof. intros H. unfold Dax.openMmap. mem_run; unfold threwOr; replayed H. Qed.

Lemma dax_join path offset writable s : replay s = Some (fds, maps) -> wp (Dax.join path offset writable) os mapsOnly s.
Proof. intros H. unfold Dax.join. mem_run. eapply wp_mono; [by apply dax_openMmap|]. by intros [base|error] s'. Qed.
Lemma dax_create path areaSize offset s : replay s = Some (fds, maps) -> wp (Dax.create path areaSize offset) os mapsOnly s.
Proof. intros H. unfold Dax.create. mem_run. eapply wp_mono; [by apply dax_openMmap|]. by intros [base|error] s'. Qed.

Lemma shm_join name writable s : replay s = Some (fds, maps) -> wp (Shm.join name writable) os mapsOnly s.
Proof.
  intros H. unfold Shm.join. destruct (Shm.normaliseShmName name); [|done].
  unfold Shm.openJoiner. mem_run; unfold mapsOnly, threwOr; replayed H.
Qed.
Lemma shm_create name areaSize s : replay s = Some (fds, maps) -> wp (Shm.create name areaSize) os mapsOnly s.
Proof.
  intros H. unfold Shm.create. mem_run; [done|]. destruct (Shm.normaliseShmName name); [|done].
  unfold Shm.openCreator. mem_run; unfold mapsOnly, threwOr; replayed H.
Qed.

Lemma file_openFile path create writable s : replay s = Some (fds, maps) ->
  wp (File.openFile path create writable) os (threwOr (fds, maps) (fun file => (file :: fds, maps))) s.
Proof. intros H. unfold File.openFile. mem_run; unfold threwOr; replayed H. Qed.

Section file.
Context (file : Z).

(** A verb keeps the descriptor; a refusal closes it. *)
Lemma file_verb c s : replay s = Some (file :: fds, maps) ->
  (forall a h, replayCall c a h = uses file h) ->
  wp (File.verb c) os (fun _ s' => replay s' = Some (file :: fds, maps)) s.
Proof. intros H Hc. unfold File.verb. mem_run; [|done]. cbn [replay]. rewrite H. cbn [mbind option_bind]. rewrite Hc. replayed H. Qed.

Lemma file_requireResult res tolerated s : replay s = Some (file :: fds, maps) ->
  wp (File.requireResult file res tolerated) os (threwOr (fds, maps) (fun _ => (file :: fds, maps))) s.
Proof. intros H. unfold File.requireResult. mem_run; unfold threwOr; replayed H. Qed.

Lemma file_verb_required c tolerated s : replay s = Some (file :: fds, maps) ->
  (forall a h, replayCall c a h = uses file h) ->
  wp (let! res := File.verb c in File.requireResult file res tolerated) os
    (threwOr (fds, maps) (fun _ => (file :: fds, maps))) s.
Proof.
  intros H Hc. apply wp_bind. eapply wp_mono; [by apply file_verb|]. intros res s' H'. by apply file_requireResult.
Qed.

Lemma file_readRoofCache s : replay s = Some (file :: fds, maps) ->
  wp (File.readRoofCache file) os (fun _ s' => replay s' = Some (file :: fds, maps)) s.
Proof. intros H. unfold File.readRoofCache. mem_run; [done|]. replayed H. Qed.

Lemma file_grow mapSize coherency s : replay s = Some (file :: fds, maps) ->
  wp (File.grow file mapSize coherency) os (threwOr (fds, maps) (fun _ => (file :: fds, maps))) s.
Proof.
  intros H. unfold File.grow. mem_run. eapply wp_mono; [by apply file_verb_required|]. intros [[]|error] s'; [|done]. intros H'.
  unfold threwOr in H'. mem_run; unfold threwOr; replayed H'.
Qed.

Lemma file_mapFd mapSize writable s : replay s = Some (file :: fds, maps) ->
  wp (File.mapFd file mapSize writable) os (threwOr (fds, maps) (fun base => (fds, (base, mapSize) :: maps))) s.
Proof.
  intros H. unfold File.mapFd. apply wp_bind. eapply wp_mono; [by apply file_verb|]. cbv beta. intros res s' H'.
  apply wp_try. eapply wp_mono; [by apply file_requireResult|]. intros [[]|error] s''; [|done]. intros H''.
  unfold threwOr in H''. mem_run; unfold threwOr; replayed H''.
Qed.
End file.

Lemma file_openJoiner path writable s : replay s = Some (fds, maps) -> wp (File.openJoiner path writable) os mapsOnly s.
Proof.
  intros H. unfold File.openJoiner. mem_run. eapply wp_mono; [by apply file_openFile|]. intros [file|error] s'; [|done].
  intros H'. unfold threwOr in H'. mem_run; [unfold mapsOnly, threwOr; replayed H'..|].
  eapply wp_mono; [apply (file_readRoofCache file); replayed H'|]. cbv beta. intros placed s'' H''.
  mem_run. eapply wp_mono; [by apply file_mapFd|]. by intros [base|error] s3.
Qed.

Lemma file_openCreator path areaSize coherency s : replay s = Some (fds, maps) ->
  wp (File.openCreator path areaSize coherency) os mapsOnly s.
Proof.
  intros H. unfold File.openCreator. mem_run. eapply wp_mono; [by apply file_openFile|]. intros [file|error] s'; [|done].
  intros H'. unfold threwOr in H'. apply wp_bind, wp_call. intros stat. apply wp_try.
  apply (wp_mono os _ (threwOr (fds, maps) (fun _ => (file :: fds, maps)))).
  { mem_run; [apply file_grow; replayed H'|unfold threwOr; replayed H']. }
  intros [[]|error] s''; [|done]. intros H''. apply wp_try. eapply wp_mono; [by apply (file_verb_required file)|].
  intros [[]|error] s3; [|done]. intros H3. apply wp_bind. eapply wp_mono; [by apply (file_readRoofCache file)|].
  cbv beta. intros placed s4 H4. mem_run. eapply wp_mono; [by apply file_mapFd|]. by intros [base|error] s5.
Qed.
End backends.

(** C35: opening a region leaks nothing and closes nothing twice.  Whatever the
    operating system answers to any call, each factory returns; every descriptor
    it opened it has closed, exactly once, on the paths that throw too; it uses
    no descriptor it does not hold; and it leaves one mapping, the one it
    answers, or none when it throws, which the destructor then unmaps. *)
Theorem factories_balanced uri areaSize coherency writable s fds maps :
  replay s = Some (fds, maps) ->
  wp (Memory.create uri areaSize coherency) os (mapsOnly fds maps) s /\
  wp (Memory.join writable uri) os (mapsOnly fds maps) s /\
  (forall m s, replay s = Some (fds, (Mapping_t.base m, Mapping_t.size m) :: maps) ->
    Mapping_t.base m <> 0 -> 0 < Mapping_t.size m ->
    wp (Memory.destroy m) os (fun _ s' => replay s' = Some (fds, maps)) s).
Proof.
  intros H. split_and!.
  - unfold Memory.create. destruct (Uri.parseUri uri); [|done].
    mem_run; [by apply dax_create|by apply shm_create|by apply file_openCreator|done].
  - unfold Memory.join. destruct (Uri.parseUri uri); [|done].
    mem_run; [by apply dax_join|by apply shm_join|by apply file_openJoiner|done].
  - intros m s' H' Hb Hs. unfold Memory.destroy. rewrite (proj2 (Z.eqb_neq _ _) Hb), (proj2 (Z.ltb_lt _ _) Hs).
    cbn [negb andb]. mem_run. replayed H'.
Qed.

End factories.

(** ** Sizes *)

Lemma land_mask value : in_u64 value -> Z.land value (2 ^ 64 - 2 ^ 21) = value / 2 ^ 21 * 2 ^ 21.
Proof.
  intros Hv. rewrite <- Z.shiftr_div_pow2, <- Z.shiftl_mul_pow2 by lia. apply Z.bits_inj'. intros n Hn.
  replace (2 ^ 64 - 2 ^ 21) with (Z.shiftl (Z.ones 43) 21) by done.
  rewrite Z.land_spec, !Z.shiftl_spec by done. destruct (Z.ltb_spec n 21).
  { rewrite !(Z.testbit_neg_r _ (n - 21)) by lia. apply andb_false_r. }
  rewrite Z.shiftr_spec by lia. replace (n - 21 + 21) with n by lia.
  destruct (Z.ltb_spec n 64).
  - rewrite Z.ones_spec_low by lia. apply andb_true_r.
  - rewrite Z.ones_spec_high, andb_false_r by lia. symmetry. destruct (decide (value = 0)) as [->|]; [apply Z.bits_0|].
    unfold in_u64 in Hv. apply Z.bits_above_log2; [lia|]. pose proof (proj1 (Z.log2_lt_pow2 value 64 ltac:(lia)) ltac:(lia)). lia.
Qed.

Lemma roundUp_spec value : 0 <= value <= 2 ^ 63 ->
  roundUp value PmdAlign mod PmdAlign = 0 /\ value <= roundUp value PmdAlign < Z.max 1 value + PmdAlign /\ 0 < roundUp value PmdAlign.
Proof.
  intros Hv. unfold roundUp. change (PmdAlign) with (2 ^ 21). change (u64 (Z.lnot (2 ^ 21 - 1))) with (2 ^ 64 - 2 ^ 21).
  destruct (Z.eqb_spec value 0) as [->|]; [done|]. rewrite u64_small by (unfold in_u64; lia).
  rewrite land_mask by (unfold in_u64; lia). rewrite Z.mod_mul by done.
  pose proof (Z.div_mod (value + 2 ^ 21 - 1) (2 ^ 21) ltac:(lia)). pose proof (Z.mod_pos_bound (value + 2 ^ 21 - 1) (2 ^ 21) ltac:(lia)). lia.
Qed.

Lemma roundUp_one value : 0 <= value <= PmdAlign -> roundUp value PmdAlign = PmdAlign.
Proof.
  intros Hv. unfold PmdAlign in Hv. destruct (roundUp_spec value ltac:(lia)) as (Hm & Hr & Hp). unfold PmdAlign in *.
  apply Z.mod_divide in Hm as [k Hk]; lia.
Qed.

(** ** The uri *)

Lemma digits_from_lead base turns value acc : 2 <= base -> 0 < value < 2 ^ Z.of_nat turns ->
  match digits_from base turns value acc with c :: _ => c <> 48 | [] => False end.
Proof.
  intros Hb. revert value acc. induction turns as [|turns IH]; intros value acc Hv; [cbn in Hv; lia|].
  cbn [digits_from]. destruct (Z.eqb_spec (value / base) 0) as [Hz|Hz].
  - pose proof (Z.div_mod value base ltac:(lia)). lia.
  - apply IH. pose proof (Z.div_pos value base ltac:(lia) ltac:(lia)). split; [lia|]. apply Z.div_lt_upper_bound; [lia|].
    rewrite Nat2Z.inj_succ, Z.pow_succ_r in Hv by lia. nia.
Qed.

Lemma digits_lead value : 0 < value -> match digits 10 value with c :: _ => c <> 48 | [] => False end.
Proof.
  intros Hv. apply digits_from_lead; [lia|]. split; [done|]. rewrite Nat2Z.inj_succ, Z2Nat.id by apply Z.log2_nonneg.
  apply Z.log2_spec. lia.
Qed.

Lemma digitOf_decimal c : 48 <= c < 48 + 10 -> Uri.digitOf c = c - 48.
Proof. intros Hc%digit_not. unfold Uri.digitOf. by destruct Hc as (_ & _ & _ & ->). Qed.

Lemma takeBase_all value text :
  Forall (fun c => 48 <= c < 48 + 10) text -> Uri.takeBase 10 value text = (readDigits 10 value text, []).
Proof.
  intros H. revert value. induction H as [|c text Hc _ IH]; intros value; [done|]. cbn [Uri.takeBase].
  rewrite digitOf_decimal by done. rewrite (proj2 (Z.ltb_lt _ _)) by lia. rewrite IH. done.
Qed.

Lemma detectBase_lead c text : c <> 48 -> Uri.detectBase (c :: text) = (10, c :: text).
Proof. intros Hc. unfold Uri.detectBase. destruct c as [|c|c]; try done. do 6 (destruct c; try done). Qed.

Lemma stoull_decimal value : in_u64 value -> Uri.stoull (digits 10 value) = Some (value, []).
Proof.
  intros Hv. unfold in_u64 in Hv. destruct (decide (value = 0)) as [->|]; [done|].
  pose proof (digits_lead value ltac:(lia)) as Hl. destruct (digits_spec 10 value ltac:(lia) ltac:(lia)) as (Hr & Hf & _).
  unfold Uri.stoull. destruct (digits 10 value) as [|c text]; [done|]. pose proof (Forall_inv Hf) as Hc. cbv beta in Hc.
  pose proof (digit_not c Hc) as (Hsp & Hm & Hpl & _). cbn [dropSpaces]. rewrite Hsp, Hm, Hpl, detectBase_lead by done.
  rewrite digitOf_decimal, (proj2 (Z.leb_gt 10 (c - 48))) by (done || lia).
  rewrite takeBase_all, Hr by done. rewrite (proj2 (Z.leb_gt (2 ^ 64) value)) by lia. done.
Qed.

(** A uri means what it was written to mean.  An offset written after a
    device path comes back as that path and that offset, whatever the path
    holds, an at sign included; any other scheme keeps its whole path, and what
    names no scheme or no path is refused. *)
Theorem uri_roundtrip :
  (forall path offset, in_u64 offset ->
    Uri.parseUri (str "dax:" ++ path ++ [64] ++ digits 10 offset) = inl (Uri.mk (str "dax") path offset)) /\
  (forall scheme path, 58 ∉ scheme -> scheme <> [] -> path <> [] -> scheme <> str "dax" ->
    Uri.parseUri (scheme ++ [58] ++ path) = inl (Uri.mk scheme path 0)) /\
  (forall scheme path, 58 ∉ scheme -> scheme = [] \/ path = [] -> Uri.parseUri (scheme ++ [58] ++ path) = inr InvalidArgumentError) /\
  (forall uri, 58 ∉ uri -> Uri.parseUri uri = inr InvalidArgumentError).
Proof.
  assert (forall scheme path, 58 ∉ scheme -> find (fun c => c =? 58) (scheme ++ [58] ++ path) = Some (length scheme)) as Hfind.
  { intros scheme path Hs. apply find_app; [|done]. apply Forall_forall. intros c Hc. apply Z.eqb_neq. by intros ->. }
  assert (forall scheme path : list Z, substr 0 (length scheme) (scheme ++ [58] ++ path) = scheme) as Hscheme.
  { intros. unfold substr. rewrite drop_0. by rewrite take_app_length. }
  assert (forall scheme path : list Z, drop (length scheme + 1) (scheme ++ [58] ++ path) = path) as Hpath.
  { intros. rewrite app_assoc. apply drop_app_length'. rewrite length_app. done. }
  split_and!.
  - intros path offset Ho. change (str "dax:" ++ path ++ [64] ++ digits 10 offset) with (str "dax" ++ [58] ++ (path ++ [64] ++ digits 10 offset)).
    unfold Uri.parseUri. rewrite Hfind by (by vm_compute; set_solver). rewrite Hscheme, Hpath.
    rewrite bool_decide_false by done. rewrite bool_decide_false by (rewrite !length_app; cbn; lia). cbn [orb Uri.scheme Uri.path].
    rewrite bool_decide_true by done. cbn [negb].
    destruct (digits_spec 10 offset ltac:(lia) (proj1 Ho)) as (_ & Hf & Hne).
    assert (find_last (fun c => c =? 64) (path ++ [64] ++ digits 10 offset) = Some (length path)) as ->.
    { unfold find_last. rewrite !rev_app_distr. cbn [rev app]. rewrite <- app_assoc. cbn [app]. rewrite find_app; [|apply Forall_rev|done].
      - rewrite length_rev, !length_app. cbn [length]. f_equal. lia.
      - apply (Forall_impl _ _ _ Hf). intros c Hc. apply Z.eqb_neq. lia. }
    rewrite bool_decide_false by (rewrite !length_app; destruct (digits 10 offset); cbn; [done|lia]).
    rewrite app_assoc, drop_app_length' by (rewrite length_app; done). rewrite stoull_decimal by done.
    by rewrite <- app_assoc, take_app_length.
  - intros scheme path Hs Hne Hp Hd. unfold Uri.parseUri. rewrite Hfind, Hscheme, Hpath by done.
    rewrite bool_decide_false by (destruct scheme; done). rewrite bool_decide_false by (rewrite !length_app; destruct path; cbn; [done|lia]).
    cbn [orb Uri.scheme]. rewrite bool_decide_false by done. done.
  - intros scheme path Hs Hor. unfold Uri.parseUri. rewrite Hfind by done.
    destruct Hor as [->| ->]; [done|]. rewrite app_nil_r, (bool_decide_true (length _ <= _)%nat) by (rewrite length_app; cbn; lia).
    by rewrite orb_true_r.
  - intros uri Hu. unfold Uri.parseUri. rewrite find_none; [done|]. apply Forall_forall. intros c Hc. apply Z.eqb_neq. by intros ->.
Qed.

(** ** Examples *)

(** An operating system that maps the device and refuses the truncation. *)
Definition stingy : Os := mkOs false (fun _ c => match c with
  | Open _ _ _ | ShmOpen _ _ _ => mkAnswer 3 0
  | Ftruncate _ _ => mkAnswer (-1) 0
  | Mmap _ _ _ _ => mkAnswer 65536 0
  | _ => mkAnswer 0 0
  end).

Lemma factories_balanced_witness :
  (exists h, Memory.create (str "shm:/cme") 4096 Uncached stingy [] = Some (inr BackendError, h) /\ replay h = Some ([], [])) /\
  (exists m h, Memory.join true (str "dax:/dev/dax0.0") stingy [] = Some (inl m, h) /\ replay h = Some ([], [(65536, PmdAlign)])).
Proof.
  split.
  - destruct (factories_balanced stingy (str "shm:/cme") 4096 Uncached true [] [] []) as (H & _); [reflexivity|].
    eexists. split; [vm_compute; reflexivity|]. exact H.
  - destruct (factories_balanced stingy (str "dax:/dev/dax0.0") 4096 Uncached true [] [] []) as (_ & H & _); [reflexivity|].
    eexists _, _. split; [vm_compute; reflexivity|]. exact H.
Defined.

Lemma uri_roundtrip_witness :
  Uri.parseUri (str "dax:/dev/dax0.0@4194304") = inl (Uri.mk (str "dax") (str "/dev/dax0.0") 4194304) /\
  Uri.parseUri (str "shm:/a@b") = inl (Uri.mk (str "shm") (str "/a@b") 0).
Proof.
  destruct uri_roundtrip as (Hd & Hs & _).
  split; [exact (Hd (str "/dev/dax0.0") 4194304 ltac:(unfold in_u64; lia))|].
  apply (Hs (str "shm") (str "/a@b")); [vm_compute; set_solver|discriminate..].
Defined.

(** The sign [stoull] takes reaches the mapping: an offset of -2 MiB is accepted,
    passes the alignment test and is what [mmap] is asked for. *)
Example negative_offset_accepted :
  Uri.parseUri (str "dax:/dev/dax0.0@-2097152") = inl (Uri.mk (str "dax") (str "/dev/dax0.0") (2 ^ 64 - 2097152)) /\
  (exists m h, Memory.open_ (str "dax:/dev/dax0.0@-2097152") stingy [] = Some (inl m, h) /\
     (Mmap 3 PmdAlign true (-2097152), mkAnswer 65536 0) ∈ h).
Proof. split; [vm_compute; reflexivity|]. eexists _, _. split; [vm_compute; reflexivity|]. right. left. Qed.
