(* ===== verification/Inspector.v ===== *)
(** * Inspector: reading a region from outside

    Models [src/src/observe/inspector.cpp] and the profile lines of
    [src/src/core/layout/geometry_profile.cpp]: an observer maps a region for
    reading, re-validates the header before each sample and answers nothing over
    a window it cannot trust. *)

From S2P Require Import Prelude Bitmap Types Layout Region.

(** ** The profile lines *)

Module ProfileTimes_t.
Record t := mk { poll : Z; worker : Z; wait : Z; spin : Z; }.
Definition zero : t := mk 0 0 0 0.
End ProfileTimes_t.

Module MemberProfile_t.
Definition Magic : Z := 0x434D4550.
Record t := mk { magic : Z; time : ProfileTimes_t.t; }.
Definition isValidMagic (p : t) : bool := magic p =? Magic.
End MemberProfile_t.

(** The slot is the line it points at, [None] a null pointer.  [threadCpu] is
    the CPU time of the calling thread. *)
Definition publishProfile (ProfileEnabled : bool) (threadCpu : Z) (slot : option MemberProfile_t.t) (spinTime waitTime : Z) :
    option MemberProfile_t.t :=
  if negb ProfileEnabled then slot
  else match slot with
  | None => None
  | Some profile =>
      if negb (MemberProfile_t.isValidMagic profile) then slot
      else Some (MemberProfile_t.mk (MemberProfile_t.magic profile) (ProfileTimes_t.mk (u64 threadCpu) spinTime waitTime spinTime))
  end.

Definition readProfile (ProfileEnabled : bool) (slot : option MemberProfile_t.t) : ProfileTimes_t.t :=
  if negb ProfileEnabled then ProfileTimes_t.zero
  else match slot with
  | None => ProfileTimes_t.zero
  | Some profile => if MemberProfile_t.isValidMagic profile then MemberProfile_t.time profile else ProfileTimes_t.zero
  end.

(** ** The observer *)

Module Inspector.

Record HeaderSnapshot_t := mkHeader {
  strategy : Z;
  numDomains : Z;
  maxPeers : Z;
  formatGeneration : Z;
  totalSize : Z;
}.
Record OwnershipSnapshot_t := mkOwnership { holder : Z; epoch : Z; name : list Z; }.
Record PeerSnapshot_t := mkPeer {
  active : bool;
  selfId : Z;
  lastSeenNanos : Z;
  pendingDomains : Bits.t;
  participatingDomains : Bits.t;
  time : ProfileTimes_t.t;
}.

Definition isValidDomainId (geometry : Geometry.t) (domainId : Z) : bool := domainId <? Geometry.domainCount_ geometry.
Definition isValidPeerId (geometry : Geometry.t) (peerId : Z) : bool := peerId <? Geometry.peerCount_ geometry.

Section observer.
Context (ProfileEnabled : bool).

(** The region is what every read of one sample finds; the geometry is the
    observer's own and is re-validated first. *)
Definition readHeader (geometry : Geometry.t) (r : Region.t) : option HeaderSnapshot_t * Geometry.t :=
  let header := Region.header r in
  let '(ready, geometry) := Geometry.rebind ProfileEnabled geometry header header in
  (if negb ready then None
   else Some (mkHeader (Header_t.getStrategy header) (Geometry.domainCount_ geometry) (Geometry.peerCount_ geometry)
                (Header_t.formatGeneration header) (u64 (Header_t.totalSize header))), geometry).

Definition readOwnership (geometry : Geometry.t) (r : Region.t) (domainId : Z) : option OwnershipSnapshot_t * Geometry.t :=
  let header := Region.header r in
  let '(ready, geometry) := Geometry.rebind ProfileEnabled geometry header header in
  (if negb ready || negb (isValidDomainId geometry domainId) then None
   else
     let domainRecord := Region.truth (Geometry.peerCount_ geometry) r domainId in
     if negb (DomainRecord_t.isValidMagic domainRecord) then None
     else Some (mkOwnership (DomainRecord_t.holder domainRecord) (DomainRecord_t.epoch domainRecord)
                  (DomainRecord_t.until_nul (take (Z.to_nat DomainRecord_t.MaxNameLen) (DomainRecord_t.name domainRecord)))),
   geometry).

(** [profile] is the line at an address, if the address is in the mapping's
    profile section. *)
Definition readPeer (profile : Z -> option MemberProfile_t.t) (geometry : Geometry.t) (r : Region.t) (peerId : Z) :
    option PeerSnapshot_t * Geometry.t :=
  let header := Region.header r in
  let '(ready, geometry) := Geometry.rebind ProfileEnabled geometry header header in
  (if negb ready || negb (isValidPeerId geometry peerId) then None
   else
     let memberSlot := Region.member r peerId in
     if negb (Member_t.isValidMagic memberSlot) then None
     else
       let strategy := Geometry.strategy_ geometry in
       let pending :=
         if (strategy =? Strategy_to_u32 Request) || (strategy =? Strategy_to_u32 RequestAgg)
         then match Geometry.successorAreaBase_ geometry with
              | None => DomainBitmap_empty
              | Some _ => DemandLine_t.load (Region.demand r !!! peerId)
              end
         else DomainBitmap_empty in
       Some (mkPeer (Member_t.hasStatus memberSlot Member_t.Active) peerId (Member_t.lastSeenNanos memberSlot) pending
               (Member_t.loadParticipatingDomains memberSlot)
               (readProfile ProfileEnabled (Geometry.getProfileSlot geometry peerId ≫= profile))),
   geometry).

End observer.
End Inspector.
Import Inspector.

(** ** What an observer sees *)

Section observed.
Context (ProfileEnabled : bool).

(** The mapping an observer holds: based on a line, and as long as the region. *)
Record covers (geometry : Geometry.t) (base : Z) (r : Region.t) (dc pc strategy ag : Z) : Prop := {
  cov_base : Geometry.memoryBase geometry = Some base;
  cov_aligned : base mod 64 = 0;
  cov_size : computeAreaSize ProfileEnabled dc pc strategy ag <= Geometry.mappedSize geometry;
  cov_dims : valid_dims dc pc ag;
  cov_header : wf_region dc pc r;
  cov_strategy : Header_t.getStrategy (Region.header r) = strategy;
  cov_groups : Header_t.getAggregatorGroups (Region.header r) = ag;
  (* bound before, it was to the shape the header has now *)
  cov_bound : Geometry.bound_ geometry = true ->
    geometry = built ProfileEnabled base (Geometry.mappedSize geometry) dc pc strategy ag;
}.

(** [rebind] on a header that reads as formatted, over a mapping that holds the
    region, binds the layout the header describes. *)
Lemma rebind_ready geometry base header strategy ag :
  Geometry.memoryBase geometry = Some base -> base mod 64 = 0 ->
  Header_t.isFormatted header = true -> Header_t.getStrategy header = strategy -> Header_t.getAggregatorGroups header = ag ->
  let dc := Header_t.numDomains header in let pc := Header_t.maxPeers header in
  valid_dims dc pc ag -> computeAreaSize ProfileEnabled dc pc strategy ag <= Geometry.mappedSize geometry ->
  (Geometry.bound_ geometry = true -> geometry = built ProfileEnabled base (Geometry.mappedSize geometry) dc pc strategy ag) ->
  Geometry.rebind ProfileEnabled geometry header header =
  (true, built ProfileEnabled base (Geometry.mappedSize geometry) dc pc strategy ag).
Proof.
  intros Hb Ha Hf Hst Hg dc pc Hd Hs Hbound. unfold Geometry.rebind, Geometry.isHeaderReady.
  rewrite Hb, Hf, Hst, Hg. fold dc pc. cbn [negb].
  pose proof Hd as [-> -> Hag]. cbn [negb orb]. rewrite (proj2 (Z.ltb_ge pc ag)), (proj2 (Z.ltb_ge _ _) Hs) by lia.
  assert ((if negb (Geometry.bound_ geometry) || negb (Geometry.domainCount_ geometry =? dc) ||
     negb (Geometry.peerCount_ geometry =? pc) || negb (Geometry.strategy_ geometry =? strategy)
    then Geometry.buildLayout ProfileEnabled geometry dc pc strategy ag else geometry) =
    built ProfileEnabled base (Geometry.mappedSize geometry) dc pc strategy ag) as ->; [|by rewrite buildLayout_aligned].
  assert (Geometry.buildLayout ProfileEnabled geometry dc pc strategy ag =
    built ProfileEnabled base (Geometry.mappedSize geometry) dc pc strategy ag) as ->.
  { unfold built, Geometry.buildLayout, Geometry.unbound. cbn [Geometry.memoryBase Geometry.mappedSize]. by rewrite Hb. }
  destruct (Geometry.bound_ geometry) eqn:He; [|done]. cbn [negb orb]. rewrite <- Hbound by done. by destruct (_ || _).
Qed.

Lemma rebind_covers geometry base r dc pc strategy ag : covers geometry base r dc pc strategy ag ->
  Geometry.rebind ProfileEnabled geometry (Region.header r) (Region.header r) =
  (true, built ProfileEnabled base (Geometry.mappedSize geometry) dc pc strategy ag).
Proof.
  intros [Hb Ha Hs Hd Hw Hst Hg Hbound]. rewrite <- (wfr_dc _ _ _ Hw), <- (wfr_pc _ _ _ Hw).
  apply rebind_ready; rewrite ?(wfr_dc _ _ _ Hw), ?(wfr_pc _ _ _ Hw); try done. by destruct Hw.
Qed.

(** An observer reports the region as it is.  Over a formatted region its
    mapping covers, the header reads as the shape it was formatted with, a
    domain inside the table reads as its truth record's holder, epoch and name,
    a peer inside the table as its member slot, and an id past either table
    reads as nothing. *)
Lemma observer_reads profile geometry base r dc pc strategy ag : covers geometry base r dc pc strategy ag ->
  (exists generation size, (readHeader ProfileEnabled geometry r).1 = Some (mkHeader strategy dc pc generation size)) /\
  (forall d, (readOwnership ProfileEnabled geometry r d).1 =
     if d <? dc then
       if DomainRecord_t.isValidMagic (Region.truth pc r d) then
         Some (mkOwnership (DomainRecord_t.holder (Region.truth pc r d)) (DomainRecord_t.epoch (Region.truth pc r d))
                 (DomainRecord_t.until_nul (take (Z.to_nat MaxDomainNameLen) (DomainRecord_t.name (Region.truth pc r d)))))
       else None
     else None) /\
  (forall p, 0 <= p < pc -> exists snapshot, (readPeer ProfileEnabled profile geometry r p).1 = Some snapshot /\
     active snapshot = Member_t.hasStatus (Region.member r p) Member_t.Active /\
     lastSeenNanos snapshot = Member_t.lastSeenNanos (Region.member r p) /\
     participatingDomains snapshot = Member_t.loadParticipatingDomains (Region.member r p)) /\
  (forall p, pc <= p -> (readPeer ProfileEnabled profile geometry r p).1 = None).
Proof.
  intros Hc. pose proof (rebind_covers _ _ _ _ _ _ _ Hc) as Hr. pose proof (cov_header _ _ _ _ _ _ _ Hc) as Hw.
  pose proof (cov_strategy _ _ _ _ _ _ _ Hc) as Hst.
  pose proof (buildLayout_eq ProfileEnabled base (Geometry.mappedSize geometry) dc pc strategy ag (cov_dims _ _ _ _ _ _ _ Hc)) as Hg.
  set (g := built _ _ _ _ _ _ _) in *.
  assert (Geometry.domainCount_ g = dc /\ Geometry.peerCount_ g = pc) as [Hdc Hpc] by (rewrite Hg; done).
  clear Hg. clearbody g. split_and!.
  - unfold readHeader. rewrite Hr. cbn. rewrite Hst, Hdc, Hpc. eauto.
  - intros d. unfold readOwnership, isValidDomainId. rewrite Hr. cbn. rewrite Hdc, Hpc.
    destruct (d <? dc); [|done]. cbn. by destruct (DomainRecord_t.isValidMagic _).
  - intros p Hp. unfold readPeer, isValidPeerId. rewrite Hr. cbn -[Geometry.getProfileSlot]. rewrite Hpc, (proj2 (Z.ltb_lt p pc)) by lia.
    rewrite (wfr_member _ _ _ Hw) by done. cbn -[Geometry.getProfileSlot]. eexists. split; [done|]. done.
  - intros p Hp. unfold readPeer, isValidPeerId. rewrite Hr. cbn -[Geometry.getProfileSlot]. by rewrite Hpc, (proj2 (Z.ltb_ge p pc)) by lia.
Qed.

(** A sample leaves the observer bound to the shape of the region, which covers
    it as before. *)
Lemma covers_built geometry base r dc pc strategy ag :
  covers geometry base r dc pc strategy ag ->
  covers (built ProfileEnabled base (Geometry.mappedSize geometry) dc pc strategy ag) base r dc pc strategy ag.
Proof. intros [Hb Ha Hs Hd Hw Hst Hg Hbound]. split; try done. Qed.

Lemma sample_rebinds profile geometry base r dc pc strategy ag : covers geometry base r dc pc strategy ag ->
  let bound := built ProfileEnabled base (Geometry.mappedSize geometry) dc pc strategy ag in
  snd (readHeader ProfileEnabled geometry r) = bound /\
  (forall d, snd (readOwnership ProfileEnabled geometry r d) = bound) /\
  (forall p, snd (readPeer ProfileEnabled profile geometry r p) = bound).
Proof.
  intros Hc bound. pose proof (rebind_covers _ _ _ _ _ _ _ Hc) as Hr. fold bound in Hr.
  unfold readHeader, readOwnership, readPeer. split_and!; intros; by rewrite Hr.
Qed.

End observed.

(** A region formatted again with another number of aggregator groups moves its
    profile section, and an observer that was bound to the old shape keeps the
    old section base: [rebind] compares the counts and the strategy only. *)
Theorem rebind_misses_groups :
  exists before header, (Geometry.rebind true before header header).1 = true /\
    Geometry.profileBase_ (Geometry.rebind true before header header).2 <>
    Geometry.profileBase_ (Geometry.buildLayout true before (Header_t.numDomains header) (Header_t.maxPeers header)
      (Header_t.getStrategy header) (Header_t.getAggregatorGroups header)).
Proof.
  exists (built true 4096 2097152 8 8 2 0), (Header_t.mk Header_t.Magic Header_t.Version 2 8 8 8 1 0 [1]).
  split; [vm_compute; reflexivity|vm_compute; discriminate].
Qed.

(** A counter published is the counter read back. *)
Theorem profile_roundtrip threadCpu slot spinTime waitTime :
  MemberProfile_t.isValidMagic slot = true ->
  readProfile true (publishProfile true threadCpu (Some slot) spinTime waitTime) =
  ProfileTimes_t.mk (u64 threadCpu) spinTime waitTime spinTime.
Proof. intros H. unfold publishProfile, readProfile. cbn. rewrite H. cbn. unfold MemberProfile_t.isValidMagic in *. cbn. by rewrite H. Qed.

(** ** Examples *)

Definition observed_region : Region.t :=
  match format.format (built false 4096 2097152 3 2 1 0) Request 0 77 with inl r => r | inr _ => Region.zeroed end.

Lemma observed_covers : covers false (Geometry.unbound (Some 4096) 2097152) 4096 observed_region 3 2 1 0.
Proof.
  split; try reflexivity; [discriminate|split; [reflexivity..|lia]| |discriminate].
  split; try reflexivity; [split; reflexivity|..].
  + intros d Hd. assert (d = 0 \/ d = 1 \/ d = 2) as [->|[->| ->]] by lia; reflexivity.
  + intros d p Hd Hp. assert (d = 0 \/ d = 1 \/ d = 2) as [->|[->| ->]] by lia; assert (p = 0 \/ p = 1) as [->| ->] by lia; reflexivity.
  + intros p Hp. assert (p = 0 \/ p = 1) as [->| ->] by lia; reflexivity.
  + intros p Hp. assert (p = 0 \/ p = 1) as [->| ->] by lia; reflexivity.
Qed.

Example observed_records :
  (readOwnership false (Geometry.unbound (Some 4096) 2097152) observed_region 0).1 = Some (mkOwnership 0 0 []) /\
  (readPeer false (fun _ => None) (Geometry.unbound (Some 4096) 2097152) observed_region 2).1 = None.
Proof. vm_compute. split; reflexivity. Qed.
