(* ===== verification/Monitor.v ===== *)
(** * Monitor: the operator's view of a region

    Models [src/tools/cme_top.cpp]: one frame sampled through the observer, the
    deltas kept from the frame before, the roles it gives peers, its command
    line and its loop.

    A frame is the list of its lines; the escape sequences that place them on
    the screen and the widths of the columns are left out.  A share of the frame
    is the exact fraction and an age its nanoseconds, before [printf] rounds
    them. *)

From Stdlib Require Import QArith.
From stdpp Require Import strings.
From S2P Require Import Prelude Bitmap Types Layout Region Effect World Runtime Recovery Failover KvConfig KvParse Settings Inspector.
Import KeyValueConfig Inspector.
Open Scope Z_scope.

Module cme_top.

Definition MaxPeers : Z := 64.
Definition MaxDomains : Z := 64.
Definition DefaultIntervalMs : Z := 500.
Definition MinIntervalMs : Z := 50.
Definition StopCheckMs : Z := 50.
Definition ParticipantsListed : Z := 3.
Definition PercentScale : Z := 100.
Definition MaxReportedPercent : Z := 999.
Definition IntervalFlag : list Z := str "--interval=".

Definition getStrategyName (strategy : Z) : list Z :=
  match makeSuccessorPolicy strategy with
  | Some Order => str "ORDER"
  | Some Request => str "REQUEST"
  | Some RequestAgg => str "REQ-AGG"
  | Some Peterson => str "PETERSON"
  | None => str "?"
  end.

Inductive Role := RoleNone | Stale | Holding | Waiting | Idle.
Definition getRoleName (role : Role) : list Z :=
  match role with
  | RoleNone => str "NONE" | Stale => str "STALE" | Holding => str "HOLDING" | Waiting => str "WAITING" | Idle => str "IDLE"
  end.

(** ** The cells *)

(** The ids a mask carries, each with its separator. *)
Fixpoint formatMask_from (mask : Bits.t) (ids : list Z) (isFirst : bool) : list Z :=
  match ids with
  | [] => []
  | domainId :: ids =>
      if negb (Bits.has mask domainId) then formatMask_from mask ids isFirst
      else (if isFirst then [] else str ",") ++ str "d" ++ digits 10 domainId ++ formatMask_from mask ids false
  end.
Definition formatMask (mask : Bits.t) : list Z :=
  if Bits.isEmpty mask then str "-" else str "{" ++ formatMask_from mask (zrange 0 64) true ++ str "}".

(** A share in percent, [None] for the dash. *)
Definition Qcap (cap : Z) (share : Q) : Q := if Qle_bool (inject_Z cap) share then inject_Z cap else share.
Definition formatCpuShare (current previous frameNs : Z) : option Q :=
  if (frameNs =? 0) || (current =? 0) || (current <? previous) then None
  else Some (Qcap MaxReportedPercent (((current - previous) * PercentScale) # Z.to_pos frameNs)).
Definition formatSpinShare (waitNs prevWaitNs spinNs prevSpinNs : Z) : option Q :=
  if (waitNs <=? prevWaitNs) || (spinNs <? prevSpinNs) then None
  else Some (Qcap PercentScale (((spinNs - prevSpinNs) * PercentScale) # Z.to_pos (waitNs - prevWaitNs))).

Definition isHeartbeatStale (lastSeen nowNs : Z) : bool :=
  if timing.WallStamp.isUnset lastSeen then false
  else match timing.WallStamp.ageAt lastSeen nowNs with
  | Some age => config.liveness.DeadWindowEffective <? age
  | None => false
  end.

Inductive Age := AgeUnset | AgeSkew | AgeZero | AgeNanos (age : Z).
Definition formatHeartbeatAge (lastSeen nowNs : Z) : Age :=
  if timing.WallStamp.isUnset lastSeen then AgeUnset
  else match timing.WallStamp.aheadAt lastSeen nowNs with
  | Some ahead => if config.liveness.ClockSkewBound <? ahead then AgeSkew else AgeZero
  | None => match timing.WallStamp.ageAt lastSeen nowNs with None => AgeZero | Some age => AgeNanos age end
  end.

Definition formatHolder (current previous : Z) (hasPrevious : bool) : list Z :=
  (if current =? NoPeer then str "-" else digits 10 current) ++
  (if hasPrevious && negb (previous =? current) && negb (previous =? NoPeer) then str "<-" ++ digits 10 previous else []).

Definition formatDomainName (domainId : Z) (stored : list Z) : list Z :=
  match stored with
  | [] => if isControlDomain domainId then str "control" else str "-"
  | _ => stored
  end.

Definition PeerList : Type := list (option PeerSnapshot_t).
Definition OwnershipList : Type := list (option OwnershipSnapshot_t).

(** The loop over the peers: the ids listed and the count. *)
Fixpoint formatParticipants_from (peerId : Z) (peers : PeerList) (domainId : Z) (listed : list Z) (counted : Z) : list Z * Z :=
  match peers with
  | [] => (listed, counted)
  | peer :: peers =>
      if match peer with Some peer => Bits.has (participatingDomains peer) domainId | None => false end then
        let counted := u32 (counted + 1) in
        let listed :=
          if counted <=? ParticipantsListed
          then listed ++ (if counted =? 1 then str "p" else str ",p") ++ digits 10 peerId else listed in
        formatParticipants_from (peerId + 1) peers domainId listed counted
      else formatParticipants_from (peerId + 1) peers domainId listed counted
  end.
Definition formatParticipants (peers : PeerList) (domainId : Z) : list Z :=
  let '(listed, counted) := formatParticipants_from 0 peers domainId [] 0 in
  if counted =? 0 then str "-"
  else
    let listed :=
      if ParticipantsListed <? counted then listed ++ str ",+" ++ digits 10 (counted - ParticipantsListed) else listed in
    digits 10 counted ++ str " {" ++ listed ++ str "}".

(** ** What is kept from one frame to the next *)

Module Opts_t.
Record t := mk { path : list Z; intervalMs : Z; once : bool; noClear : bool; }.
Definition initial : t := mk [] DefaultIntervalMs false false.
End Opts_t.

Module FrameState_t.
Record t := mk {
  isFirstFrame : bool;
  steadyNs : Z;
  prevTimes : gmap Z ProfileTimes_t.t;   (* [prevPollNs], [prevWorkerNs], [prevWaitNs], [prevSpinNs] *)
  prevHolder : gmap Z Z;
}.
Definition initial : t := mk true 0 ∅ ∅.
Definition timesOf (s : t) (peerId : Z) : ProfileTimes_t.t := default ProfileTimes_t.zero (prevTimes s !! peerId).
Definition holderOf (s : t) (domainId : Z) : Z := default NoPeer (prevHolder s !! domainId).
Definition keepHolder (domainId holder : Z) (s : t) : t :=
  mk (isFirstFrame s) (steadyNs s) (prevTimes s) (<[domainId := holder]> (prevHolder s)).
Definition keepTimes (peerId : Z) (time : ProfileTimes_t.t) (s : t) : t :=
  mk (isFirstFrame s) (steadyNs s) (<[peerId := time]> (prevTimes s)) (prevHolder s).
Definition rendered (steady : Z) (s : t) : t := mk false steady (prevTimes s) (prevHolder s).
Definition interrupted (s : t) : t := mk true (steadyNs s) (prevTimes s) (prevHolder s).
End FrameState_t.

(** ** The lines of a frame *)

Record DomainRow_t := mkDomainRow {
  row_domain : Z; row_name : list Z; row_holder : list Z; row_generation : Z; row_participants : list Z; }.
Record PeerRow_t := mkPeerRow {
  row_peer : Z; row_active : bool; row_role : Role;
  row_poll : option Q; row_worker : option Q; row_wait : option Q; row_spin : option Q;
  row_age : Age; row_pending : list Z; row_joined : list Z; }.

Inductive Line :=
| SummaryLine (path strategy : list Z) (domains peers total generation : Z)
| DomainLine (row : DomainRow_t)
| DomainBad (domainId : Z)
| PeerLine (row : PeerRow_t)
| PeerBad (peerId : Z)
| Unformatted (path : list Z)
| RefreshLine (intervalMs : Z).

Definition domainLine (peers : PeerList) (state : FrameState_t.t) (domainId : Z) (entry : option OwnershipSnapshot_t) : Line :=
  match entry with
  | None => DomainBad domainId
  | Some entry =>
      DomainLine (mkDomainRow domainId (formatDomainName domainId (name entry))
        (formatHolder (holder entry) (FrameState_t.holderOf state domainId) (negb (FrameState_t.isFirstFrame state)))
        (epoch entry) (formatParticipants peers domainId))
  end.

(** [holdsAnyDomain], as the set of the ids that read true. *)
Fixpoint renderDomains (domainId : Z) (ownership : OwnershipList) (peers : PeerList) (state : FrameState_t.t) (holds : gset Z) :
    list Line * gset Z * FrameState_t.t :=
  match ownership with
  | [] => ([], holds, state)
  | entry :: ownership =>
      let line := domainLine peers state domainId entry in
      let '(holds, state) :=
        match entry with
        | None => (holds, state)
        | Some entry =>
            (if negb (holder entry =? NoPeer) && (holder entry <? MaxPeers) then {[ holder entry ]} ∪ holds else holds,
             FrameState_t.keepHolder domainId (holder entry) state)
        end in
      let '(lines, holds, state) := renderDomains (domainId + 1) ownership peers state holds in
      (line :: lines, holds, state)
  end.

Definition classifyPeer (peer : PeerSnapshot_t) (isStale holdsAnyDomain : bool) : Role :=
  if negb (active peer) then RoleNone
  else if isStale then Stale
  else if holdsAnyDomain then Holding
  else if negb (Bits.isEmpty (pendingDomains peer)) then Waiting
  else Idle.

Definition peerLine (holds : gset Z) (state : FrameState_t.t) (frameNs realtimeNs peerId : Z) (peer : option PeerSnapshot_t) : Line :=
  match peer with
  | None => PeerBad peerId
  | Some peer =>
      let isStale := isHeartbeatStale (lastSeenNanos peer) realtimeNs in
      let role := classifyPeer peer isStale (bool_decide (peerId ∈ holds)) in
      let width := if FrameState_t.isFirstFrame state then 0 else frameNs in
      let before := FrameState_t.timesOf state peerId in
      let after := time peer in
      PeerLine (mkPeerRow peerId (active peer) role
        (formatCpuShare (ProfileTimes_t.poll after) (ProfileTimes_t.poll before) width)
        (formatCpuShare (ProfileTimes_t.worker after) (ProfileTimes_t.worker before) width)
        (formatCpuShare (ProfileTimes_t.wait after) (ProfileTimes_t.wait before) width)
        (if FrameState_t.isFirstFrame state then None
         else formatSpinShare (ProfileTimes_t.wait after) (ProfileTimes_t.wait before)
                (ProfileTimes_t.spin after) (ProfileTimes_t.spin before))
        (formatHeartbeatAge (lastSeenNanos peer) realtimeNs)
        (formatMask (pendingDomains peer)) (formatMask (participatingDomains peer)))
  end.

Fixpoint renderPeers (peerId : Z) (peers : PeerList) (holds : gset Z) (state : FrameState_t.t) (frameNs realtimeNs : Z) :
    list Line * FrameState_t.t :=
  match peers with
  | [] => ([], state)
  | peer :: peers =>
      let line := peerLine holds state frameNs realtimeNs peerId peer in
      let state := match peer with Some peer => FrameState_t.keepTimes peerId (time peer) state | None => state end in
      let '(lines, state) := renderPeers (peerId + 1) peers holds state frameNs realtimeNs in
      (line :: lines, state)
  end.

(** ** One frame *)

Section frame.
Context (ProfileEnabled : bool) (profile : Z -> option MemberProfile_t.t).
(** What the n-th sample of the frame finds in the region. *)
Context (region : nat -> Region.t).

Fixpoint sampleOwnership (ids : list Z) (sample : nat) (geometry : Geometry.t) : OwnershipList * Geometry.t :=
  match ids with
  | [] => ([], geometry)
  | domainId :: ids =>
      let '(entry, geometry) := readOwnership ProfileEnabled geometry (region sample) domainId in
      let '(entries, geometry) := sampleOwnership ids (S sample) geometry in
      (entry :: entries, geometry)
  end.
Fixpoint samplePeers (ids : list Z) (sample : nat) (geometry : Geometry.t) : PeerList * Geometry.t :=
  match ids with
  | [] => ([], geometry)
  | peerId :: ids =>
      let '(entry, geometry) := readPeer ProfileEnabled profile geometry (region sample) peerId in
      let '(entries, geometry) := samplePeers ids (S sample) geometry in
      (entry :: entries, geometry)
  end.

Definition renderUnformatted (options : Opts_t.t) (state : FrameState_t.t) : list Line * FrameState_t.t :=
  (Unformatted (Opts_t.path options) :: (if Opts_t.once options then [] else [RefreshLine (Opts_t.intervalMs options)]),
   FrameState_t.interrupted state).

Definition renderSummary (info : HeaderSnapshot_t) (options : Opts_t.t) : Line :=
  SummaryLine (Opts_t.path options) (getStrategyName (strategy info)) (numDomains info) (maxPeers info) (totalSize info)
    (formatGeneration info).

(** [steadyNs] and [realtimeNs] are the two clocks as the frame reads them. *)
Definition render (steadyNs realtimeNs : Z) (options : Opts_t.t) (state : FrameState_t.t) (geometry : Geometry.t) :
    list Line * FrameState_t.t * Geometry.t :=
  let '(info, geometry) := readHeader ProfileEnabled geometry (region 0) in
  match info with
  | None => (renderUnformatted options state, geometry)
  | Some info =>
      let frameNs := if FrameState_t.isFirstFrame state then 0 else u64 (steadyNs - FrameState_t.steadyNs state) in
      let domainCount := Z.min (numDomains info) MaxDomains in
      let peerCount := Z.min (maxPeers info) MaxPeers in
      let '(ownership, geometry) := sampleOwnership (zrange 0 domainCount) 1 geometry in
      let '(peers, geometry) := samplePeers (zrange 0 peerCount) (S (Z.to_nat domainCount)) geometry in
      let '(domainLines, holdsAnyDomain, state) := renderDomains 0 ownership peers state ∅ in
      let '(peerLines, state) := renderPeers 0 peers holdsAnyDomain state frameNs realtimeNs in
      (renderSummary info options :: domainLines ++ peerLines ++
         (if Opts_t.once options then [] else [RefreshLine (Opts_t.intervalMs options)]),
       FrameState_t.rendered steadyNs state, geometry)
  end.
End frame.

(** ** The command line *)

Inductive IntervalError := IntervalNotNumber | IntervalOutOfRange.

(** [std::strtoull] in base ten with its end: [None] when it converted nothing,
    which is the end at the front. *)
Definition strtoullEnd (raw : list Z) : option (Z * list Z) :=
  let text := dropSpaces raw in
  let '(negative, body) :=
    match text with
    | c :: rest => if c =? 45 then (true, rest) else if c =? 43 then (false, rest) else (false, text)
    | [] => (false, [])
    end in
  match body with
  | c :: _ =>
      if negb (isDigit c) then None
      else
        let '(value, rest) := takeDigits 0 body in
        Some (if 2 ^ 64 <=? value then 2 ^ 64 - 1 else if negative then u64 (- value) else value, rest)
  | [] => None
  end.

Definition parseIntervalMs (text : list Z) : Z + IntervalError :=
  match strtoullEnd text with
  | Some (parsed, []) => if 2 ^ 32 - 1 <? parsed then inr IntervalOutOfRange else inl (Z.max (u32 parsed) MinIntervalMs)
  | _ => inr IntervalNotNumber
  end.

(** [arg.rfind(IntervalFlag, 0) == 0], and the rest of the word. *)
Fixpoint afterPrefix (prefix word : list Z) : option (list Z) :=
  match prefix, word with
  | [], _ => Some word
  | c :: prefix, c' :: word => if c =? c' then afterPrefix prefix word else None
  | _ :: _, [] => None
  end.

(** [None] is an exit with code 2, by [parseArgs] answering false or by
    [parseIntervalMs] itself. *)
Fixpoint parseWords (args : list (list Z)) (options : Opts_t.t) : option Opts_t.t :=
  match args with
  | [] => Some options
  | arg :: args =>
      if bool_decide (arg = str "--once") then
        parseWords args (Opts_t.mk (Opts_t.path options) (Opts_t.intervalMs options) true (Opts_t.noClear options))
      else if bool_decide (arg = str "--no-clear") then
        parseWords args (Opts_t.mk (Opts_t.path options) (Opts_t.intervalMs options) (Opts_t.once options) true)
      else match afterPrefix IntervalFlag arg with
      | Some text =>
          match parseIntervalMs text with
          | inl interval => parseWords args (Opts_t.mk (Opts_t.path options) interval (Opts_t.once options) (Opts_t.noClear options))
          | inr _ => None
          end
      | None =>
          match arg with
          | c :: _ =>
              if negb (c =? 45) then
                parseWords args (Opts_t.mk arg (Opts_t.intervalMs options) (Opts_t.once options) (Opts_t.noClear options))
              else None
          | [] => None
          end
      end
  end.

(** [daxDevice] is the site's device, empty when it names none. *)
Definition parseArgs (daxDevice : list Z) (argv : list (list Z)) (options : Opts_t.t) : option Opts_t.t :=
  let options :=
    match daxDevice with
    | [] => options
    | _ => Opts_t.mk daxDevice (Opts_t.intervalMs options) (Opts_t.once options) (Opts_t.noClear options)
    end in
  match parseWords (tail argv) options with
  | Some options => match Opts_t.path options with [] => None | _ => Some options end
  | None => None
  end.

(** ** The loop *)

(** Looks at the flag are counted over the whole run: [stop n] is what the n-th
    finds.  [clock look] is the clock around a wait that starts at that look.
    The answer is the number of frames drawn; [None] is fuel exhausted. *)
Fixpoint frames (fuel : nat) (stop : nat -> bool) (clock : nat -> nat -> Z) (interval : Z) (look drawn : nat) : option nat :=
  match fuel with
  | O => None
  | S fuel' =>
      if stop look then Some drawn
      else
        match waitUntil fuel (fun n => stop (S look + n)%nat) (clock look)
                (timing.Deadline.make (clock look 0%nat) (timing.Millis interval)) 0 with
        | None => None
        | Some (_, looks) => frames fuel' stop clock interval (S look + looks) (S drawn)
        end
  end.

Definition run (fuel : nat) (stop : nat -> bool) (clock : nat -> nat -> Z) (options : Opts_t.t) : option nat :=
  if Opts_t.once options then Some 1%nat else frames fuel stop clock (Opts_t.intervalMs options) 0 0.

End cme_top.

(** ** A frame over a region that stands still *)

(** A slot's stamp; the observer's snapshot has a field of the same name. *)
Local Abbreviation lastSeenNanos_ := Member_t.lastSeenNanos.

Lemma lookup_zrange n i : 0 <= i < n -> zrange 0 n !! Z.to_nat i = Some i.
Proof. intros H. unfold zrange. apply lookup_seqZ. lia. Qed.

Section walks.
Import cme_top.

(** The walk over the domains is a map with the state of the frame before, and
    it marks exactly the peers a record names. *)
Lemma renderDomains_map k ownership peers state0 state holds :
  FrameState_t.isFirstFrame state = FrameState_t.isFirstFrame state0 ->
  (forall d, k <= d -> FrameState_t.holderOf state d = FrameState_t.holderOf state0 d) ->
  exists holds' state', renderDomains k ownership peers state holds =
    (zip_with (domainLine peers state0) (zrange k (k + Z.of_nat (length ownership))) ownership, holds', state') /\
  FrameState_t.isFirstFrame state' = FrameState_t.isFirstFrame state0 /\
  FrameState_t.prevTimes state' = FrameState_t.prevTimes state /\
  (forall p, p ∈ holds' <-> p ∈ holds \/ p <> NoPeer /\ p < MaxPeers /\ exists entry, Some entry ∈ ownership /\ holder entry = p).
Proof.
  revert k state holds. induction ownership as [|entry ownership IH]; intros k state holds Hf Hh.
  - exists holds, state. split_and!; [by rewrite zrange_nil by (cbn; lia)|done|done|]. intros p. split; [by left|].
    intros [?|(_ & _ & entry & Hin & _)]; [done|]. by apply elem_of_nil in Hin.
  - cbn [renderDomains length]. rewrite zrange_cons by lia. cbn [zip_with].
    assert (domainLine peers state k entry = domainLine peers state0 k entry) as ->
      by (destruct entry; cbn; [rewrite Hf, Hh by lia; done|done]).
    replace (k + Z.of_nat (S (length ownership))) with (k + 1 + Z.of_nat (length ownership)) by lia.
    destruct entry as [entry|].
    + set (state1 := FrameState_t.keepHolder k (holder entry) state).
      set (holds1 := if negb (holder entry =? NoPeer) && (holder entry <? MaxPeers) then {[ holder entry ]} ∪ holds else holds).
      destruct (IH (k + 1) state1 holds1) as (holds' & state' & Hr & Hf' & Ht' & Hin'); [done| |].
      { intros d Hd. unfold FrameState_t.holderOf, state1. cbn. rewrite lookup_insert_ne by lia. apply Hh. lia. }
      exists holds', state'. rewrite Hr. split_and!; [done|done|done|]. intros p. rewrite Hin'. unfold holds1.
      setoid_rewrite elem_of_cons.
      destruct (Z.eqb_spec (holder entry) NoPeer), (Z.ltb_spec (holder entry) MaxPeers); cbn [negb andb];
        rewrite ?elem_of_union, ?elem_of_singleton; naive_solver lia.
    + destruct (IH (k + 1) state holds) as (holds' & state' & Hr & Hf' & Ht' & Hin'); [done|intros d Hd; apply Hh; lia|].
      exists holds', state'. rewrite Hr. split_and!; [done|done|done|]. intros p. rewrite Hin'. setoid_rewrite elem_of_cons. naive_solver.
Qed.

Lemma renderPeers_map k peers holds state0 state frameNs realtimeNs :
  FrameState_t.isFirstFrame state = FrameState_t.isFirstFrame state0 ->
  (forall p, k <= p -> FrameState_t.timesOf state p = FrameState_t.timesOf state0 p) ->
  (renderPeers k peers holds state frameNs realtimeNs).1 =
    zip_with (peerLine holds state0 frameNs realtimeNs) (zrange k (k + Z.of_nat (length peers))) peers.
Proof.
  revert k state. induction peers as [|peer peers IH]; intros k state Hf Hh.
  - by rewrite zrange_nil by (cbn; lia).
  - cbn [renderPeers length]. rewrite zrange_cons by lia. cbn [zip_with].
    replace (k + Z.of_nat (S (length peers))) with (k + 1 + Z.of_nat (length peers)) by lia.
    set (state1 := match peer with Some peer => _ | None => _ end).
    specialize (IH (k + 1) state1). destruct (renderPeers (k + 1) peers holds state1 frameNs realtimeNs) as [lines state'].
    cbn [fst] in *. rewrite IH.
    + f_equal. destruct peer; cbn; [rewrite Hf, Hh by lia; done|done].
    + by destruct peer.
    + intros p Hp. unfold state1. destruct peer; [|apply Hh; lia]. unfold FrameState_t.timesOf. cbn.
      rewrite lookup_insert_ne by lia. apply Hh. lia.
Qed.
End walks.

Section still.
Import cme_top.
Context (ProfileEnabled : bool) (profile : Z -> option MemberProfile_t.t).
Context (geometry : Geometry.t) (base : Z) (r : Region.t) (dc pc strat ag : Z).
Hypothesis Hcov : covers ProfileEnabled geometry base r dc pc strat ag.

Local Abbreviation bound := (built ProfileEnabled base (Geometry.mappedSize geometry) dc pc strat ag).
Local Abbreviation still := (fun _ : nat => r).

(** What the samples of one frame find. *)
Definition ownershipSeen (d : Z) : option OwnershipSnapshot_t := (readOwnership ProfileEnabled bound r d).1.
Definition peerSeen (p : Z) : option PeerSnapshot_t := (readPeer ProfileEnabled profile bound r p).1.

Lemma covers_bound : covers ProfileEnabled bound base r dc pc strat ag.
Proof. by apply covers_built. Qed.

Lemma sampleOwnership_still ids k : (sampleOwnership ProfileEnabled still ids k bound) = (map ownershipSeen ids, bound).
Proof.
  revert k. induction ids as [|d ids IH]; intros k; [done|]. cbn [sampleOwnership map].
  destruct (sample_rebinds ProfileEnabled profile _ _ _ _ _ _ _ covers_bound) as (_ & Ho & _). specialize (Ho d).
  unfold ownershipSeen at 1. destruct (readOwnership ProfileEnabled bound r d) as [entry g]. cbn [fst snd] in *.
  rewrite Ho. change (Geometry.mappedSize bound) with (Geometry.mappedSize geometry). by rewrite IH.
Qed.

Lemma samplePeers_still ids k : (samplePeers ProfileEnabled profile still ids k bound) = (map peerSeen ids, bound).
Proof.
  revert k. induction ids as [|p ids IH]; intros k; [done|]. cbn [samplePeers map].
  destruct (sample_rebinds ProfileEnabled profile _ _ _ _ _ _ _ covers_bound) as (_ & _ & Ho). specialize (Ho p).
  unfold peerSeen at 1. destruct (readPeer ProfileEnabled profile bound r p) as [entry g]. cbn [fst snd] in *.
  rewrite Ho. change (Geometry.mappedSize bound) with (Geometry.mappedSize geometry). by rewrite IH.
Qed.

(** The frame, its walks gone. *)
Lemma render_still steadyNs realtimeNs options state :
  exists generation size holds frameNs,
    (render ProfileEnabled profile still steadyNs realtimeNs options state geometry).1.1 =
      SummaryLine (Opts_t.path options) (getStrategyName strat) dc pc size generation ::
      map (fun d => domainLine (map peerSeen (zrange 0 pc)) state d (ownershipSeen d)) (zrange 0 dc) ++
      map (fun p => peerLine holds state frameNs realtimeNs p (peerSeen p)) (zrange 0 pc) ++
      (if Opts_t.once options then [] else [RefreshLine (Opts_t.intervalMs options)]) /\
    (forall p, p ∈ holds <-> p <> NoPeer /\ p < MaxPeers /\
       exists d entry, 0 <= d < dc /\ ownershipSeen d = Some entry /\ holder entry = p).
Proof.
  destruct (observer_reads ProfileEnabled profile _ _ _ _ _ _ _ Hcov) as ((generation & size & Hh) & _).
  destruct (sample_rebinds ProfileEnabled profile _ _ _ _ _ _ _ Hcov) as (Hg & _).
  pose proof (valid_dims_range _ _ _ (cov_dims _ _ _ _ _ _ _ _ Hcov)) as (Hdc & Hpc & _).
  unfold render. destruct (readHeader ProfileEnabled geometry r) as [info g]. cbn [fst snd] in *. subst info g.
  cbn [numDomains maxPeers]. unfold MaxDomains, MaxPeers. rewrite !Z.min_l by lia.
  rewrite sampleOwnership_still, samplePeers_still.
  set (peers := map peerSeen (zrange 0 pc)). set (ownership := map ownershipSeen (zrange 0 dc)).
  destruct (renderDomains_map 0 ownership peers state state ∅ eq_refl (fun _ _ => eq_refl)) as (holds & state' & -> & Hf & Ht & Hin).
  set (frameNs := if FrameState_t.isFirstFrame state then 0 else _).
  pose proof (renderPeers_map 0 peers holds state state' frameNs realtimeNs Hf) as Hp.
  destruct (renderPeers 0 peers holds state' frameNs realtimeNs) as [lines state'']. cbn [fst snd] in *.
  rewrite Hp by (intros p _; unfold FrameState_t.timesOf; by rewrite Ht).
  exists generation, size, holds, frameNs. split.
  - unfold renderSummary. cbn. f_equal.
    assert (forall {A} (f : Z -> A) n, 0 <= n -> zrange 0 (0 + Z.of_nat (length (map f (zrange 0 n)))) = zrange 0 n) as Hlen.
    { intros A f n Hn. f_equal. rewrite length_map. unfold zrange. rewrite length_seqZ. lia. }
    unfold ownership, peers. rewrite !Hlen by lia. rewrite !zip_with_fmap_r, !zip_with_diag. done.
  - intros p. rewrite Hin. unfold ownership. split.
    + intros [?|(Hn & Hlt & entry & He & Hp')]; [set_solver|]. split_and!; [done|done|].
      apply list_elem_of_fmap in He as (d & Hd & Hr). apply elem_of_zrange in Hr. by exists d, entry.
    + intros (Hn & Hlt & d & entry & Hd & Ho & Hp'). right. split_and!; [done|done|]. exists entry. split; [|done].
      apply list_elem_of_fmap. exists d. split; [done|]. by apply elem_of_zrange.
Qed.

(** The role is decided by the slot, the failure detector and the records. *)
Lemma role_exact holds frameNs realtimeNs state p :
  0 <= p < pc -> (p ∈ holds <-> exists d entry, 0 <= d < dc /\ ownershipSeen d = Some entry /\ holder entry = p) ->
  exists row, peerLine holds state frameNs realtimeNs p (peerSeen p) = PeerLine row /\ row_peer row = p /\
    let member := Region.member r p in
    let dead := lastSeenNanos_ member <> 0 /\ liveness.isPastDeadWindow (lastSeenNanos_ member) realtimeNs = true in
    (row_role row = RoleNone <-> Member_t.hasStatus member Member_t.Active = false) /\
    (row_role row = Stale <-> Member_t.hasStatus member Member_t.Active = true /\ dead) /\
    (row_role row = Holding <-> Member_t.hasStatus member Member_t.Active = true /\ ~ dead /\
       exists d, 0 <= d < dc /\ DomainRecord_t.isValidMagic (Region.truth pc r d) = true /\
         DomainRecord_t.holder (Region.truth pc r d) = p).
Proof.
  intros Hp Hin. destruct (observer_reads ProfileEnabled profile _ _ _ _ _ _ _ covers_bound) as (_ & Ho & Hpe & _).
  change (Geometry.mappedSize bound) with (Geometry.mappedSize geometry) in *.
  destruct (Hpe p Hp) as (snapshot & Hs & Ha & Hl & _). unfold peerSeen. rewrite Hs. cbn [peerLine].
  eexists. split; [reflexivity|]. split; [done|]. cbn zeta. cbn [row_role]. unfold classifyPeer. rewrite Ha, Hl.
  assert (isHeartbeatStale (Member_t.lastSeenNanos (Region.member r p)) realtimeNs = true <->
    lastSeenNanos_ (Region.member r p) <> 0 /\ liveness.isPastDeadWindow (lastSeenNanos_ (Region.member r p)) realtimeNs = true) as Hd.
  { unfold isHeartbeatStale, timing.WallStamp.isUnset, liveness.isPastDeadWindow.
    destruct (Z.eqb_spec (Member_t.lastSeenNanos (Region.member r p)) 0) as [Hz|]; [split; [done|by intros [? _]]|].
    split; [intros H; by split|by intros [_ ?]]. }
  assert (bool_decide (p ∈ holds) = true <-> exists d, 0 <= d < dc /\ DomainRecord_t.isValidMagic (Region.truth pc r d) = true /\
         DomainRecord_t.holder (Region.truth pc r d) = p) as Hh.
  { rewrite bool_decide_eq_true, Hin. unfold ownershipSeen. split.
    - intros (d & entry & Hd' & He & Heq). rewrite Ho, (proj2 (Z.ltb_lt d dc)) in He by lia.
      destruct (DomainRecord_t.isValidMagic _) eqn:Hm; [|done]. injection He as <-. by exists d.
    - intros (d & Hd' & Hm & Heq). exists d. rewrite Ho, (proj2 (Z.ltb_lt d dc)) by lia. rewrite Hm. eauto. }
  rewrite <- Hd, <- Hh.
  generalize (isHeartbeatStale (Member_t.lastSeenNanos (Region.member r p)) realtimeNs) (bool_decide (p ∈ holds))
    (Bits.isEmpty (pendingDomains snapshot)). clear. intros stale held idle.
  destruct (Member_t.hasStatus _ _), stale, held, idle; cbn [negb]; split_and!; split; intuition congruence.
Qed.

(** A frame shows the region.  Over a region that stands still and that the
    observer's mapping covers, a frame has one line per domain and one per
    peer, in order.  A domain's line carries its record's epoch and holder, or
    says the record is bad; a peer reads as absent exactly when its slot is not
    active, as stale exactly when it has stamped and the other peers' failure
    detector would call it dead at the frame's instant, and as holding exactly
    when it is neither and some record names it. *)
Theorem frame_faithful steadyNs realtimeNs options state :
  exists domainRows peerRows footer size generation,
    (render ProfileEnabled profile still steadyNs realtimeNs options state geometry).1.1 =
      SummaryLine (Opts_t.path options) (getStrategyName strat) dc pc size generation :: domainRows ++ peerRows ++ footer /\
    length domainRows = Z.to_nat dc /\ length peerRows = Z.to_nat pc /\
    (forall d, 0 <= d < dc ->
       let record := Region.truth pc r d in
       if DomainRecord_t.isValidMagic record then
         exists row, domainRows !! Z.to_nat d = Some (DomainLine row) /\ row_domain row = d /\
           row_generation row = DomainRecord_t.epoch record /\
           row_holder row = formatHolder (DomainRecord_t.holder record) (FrameState_t.holderOf state d) (negb (FrameState_t.isFirstFrame state))
       else domainRows !! Z.to_nat d = Some (DomainBad d)) /\
    (forall p, 0 <= p < pc -> exists row, peerRows !! Z.to_nat p = Some (PeerLine row) /\ row_peer row = p /\
       let member := Region.member r p in
       let dead := lastSeenNanos_ member <> 0 /\ liveness.isPastDeadWindow (lastSeenNanos_ member) realtimeNs = true in
       (row_role row = RoleNone <-> Member_t.hasStatus member Member_t.Active = false) /\
       (row_role row = Stale <-> Member_t.hasStatus member Member_t.Active = true /\ dead) /\
       (row_role row = Holding <-> Member_t.hasStatus member Member_t.Active = true /\ ~ dead /\
          exists d, 0 <= d < dc /\ DomainRecord_t.isValidMagic (Region.truth pc r d) = true /\
            DomainRecord_t.holder (Region.truth pc r d) = p)).
Proof.
  destruct (render_still steadyNs realtimeNs options state) as (generation & size & holds & frameNs & -> & Hin).
  pose proof (valid_dims_range _ _ _ (cov_dims _ _ _ _ _ _ _ _ Hcov)) as (Hdc & Hpc & _).
  eexists _, _, _, size, generation. split; [reflexivity|]. rewrite !length_map. unfold zrange at 1 2. rewrite !length_seqZ.
  split_and!; [lia|lia|..].
  - intros d Hd. cbn zeta. rewrite list_lookup_fmap, lookup_zrange by lia. cbn [fmap option_map option_fmap].
    destruct (observer_reads ProfileEnabled profile _ _ _ _ _ _ _ covers_bound) as (_ & Ho & _).
    change (Geometry.mappedSize bound) with (Geometry.mappedSize geometry) in *.
    unfold ownershipSeen. rewrite Ho, (proj2 (Z.ltb_lt d dc)) by lia.
    destruct (DomainRecord_t.isValidMagic _); [|done]. eexists. split; [reflexivity|done].
  - intros p Hp. rewrite list_lookup_fmap, lookup_zrange by lia. cbn [fmap option_map option_fmap].
    destruct (role_exact holds frameNs realtimeNs state p Hp) as (row & Hrow & H).
    { rewrite Hin. unfold NoPeer, MaxPeers. split; [tauto|]. intros H. split_and!; [lia|lia|done]. }
    exists row. by rewrite Hrow.
Qed.
End still.

(** ** Deltas *)

Section deltas.
Import cme_top.

Lemma Qcap_range cap share : (0 <= cap)%Z -> (0 <= share)%Q -> (0 <= Qcap cap share <= inject_Z cap)%Q.
Proof.
  intros Hc Hs. unfold Qcap. destruct (Qle_bool _ _) eqn:He.
  - split; [|apply Qle_refl]. unfold Qle. cbn. lia.
  - split; [done|]. apply Qnot_lt_le. intros Hlt. apply Qlt_le_weak, Qle_bool_iff in Hlt. congruence.
Qed.

(** A share that is shown lies between nothing and its cap, and a counter that
    went back, or a frame with no width, shows none. *)
Theorem shares_in_range current previous frameNs waitNs prevWaitNs spinNs prevSpinNs :
  0 <= frameNs ->
  match formatCpuShare current previous frameNs with
  | Some share => previous <= current /\ 0 < frameNs /\ (0 <= share <= inject_Z MaxReportedPercent)%Q
  | None => frameNs = 0 \/ current = 0 \/ current < previous
  end /\
  match formatSpinShare waitNs prevWaitNs spinNs prevSpinNs with
  | Some share => prevWaitNs < waitNs /\ prevSpinNs <= spinNs /\ (0 <= share <= inject_Z PercentScale)%Q
  | None => waitNs <= prevWaitNs \/ spinNs < prevSpinNs
  end.
Proof.
  intros Hf. assert (forall num den, 0 <= num -> (0 <= num * PercentScale # den)%Q) as Hq.
  { intros num den Hn. unfold Qle, PercentScale. cbn. lia. }
  unfold formatCpuShare, formatSpinShare. split.
  - destruct (Z.eqb_spec frameNs 0), (Z.eqb_spec current 0), (Z.ltb_spec current previous); cbn [orb]; auto.
    split_and!; [lia|lia|apply Qcap_range; [done|apply Hq; lia]..].
  - destruct (Z.leb_spec waitNs prevWaitNs), (Z.ltb_spec spinNs prevSpinNs); cbn [orb]; auto.
    split_and!; [lia|lia|apply Qcap_range; [done|apply Hq; lia]..].
Qed.

(** A frame that found no region is followed by one that compares with nothing:
    no share and no hand-over is shown against a sample taken before the gap,
    whatever the region does during the frame. *)
Theorem gap_shows_no_delta ProfileEnabled profile region steadyNs realtimeNs options state geometry line :
  line ∈ (render ProfileEnabled profile region steadyNs realtimeNs options
            (renderUnformatted options state).2 geometry).1.1 ->
  match line with
  | PeerLine row => row_poll row = None /\ row_worker row = None /\ row_wait row = None /\ row_spin row = None
  | DomainLine row => exists current, row_holder row = formatHolder current NoPeer false
  | _ => True
  end.
Proof.
  set (gap := (renderUnformatted options state).2). assert (FrameState_t.isFirstFrame gap = true) as Hg by done. clearbody gap.
  unfold render. destruct (readHeader _ _ _) as [[info|] g]; cbn [fst snd].
  2:{ intros Hin. unfold renderUnformatted in Hin. cbn in Hin. destruct (Opts_t.once options); set_solver. }
  destruct (sampleOwnership _ _ _ _ _) as [ownership g1], (samplePeers _ _ _ _ _ _) as [peers g2].
  destruct (renderDomains_map 0 ownership peers gap gap ∅ eq_refl (fun _ _ => eq_refl)) as (holds & state' & -> & Hf & Ht & _).
  rewrite Hg. pose proof (renderPeers_map 0 peers holds gap state' 0 realtimeNs Hf) as Hp.
  destruct (renderPeers 0 peers holds state' 0 realtimeNs) as [lines state'']. cbn [fst snd] in *.
  rewrite Hp by (intros p _; unfold FrameState_t.timesOf; by rewrite Ht).
  rewrite elem_of_cons, !elem_of_app. intros [->|[Hin|[Hin|Hin]]]; [done|..].
  - apply elem_of_lookup_zip_with in Hin as (i & d & entry & -> & _ & _). destruct entry as [entry|]; [|done]. cbn. rewrite Hg.
    exists (holder entry). done.
  - apply elem_of_lookup_zip_with in Hin as (i & p & peer & -> & _ & _). destruct peer as [peer|]; [|done]. cbn. by rewrite Hg.
  - destruct (Opts_t.once options); set_solver.
Qed.
End deltas.

(** ** The participants column *)

Section participants.
Import cme_top.

Definition participates (d : Z) (peer : option PeerSnapshot_t) : bool :=
  match peer with Some peer => Bits.has (participatingDomains peer) d | None => false end.

Lemma formatParticipants_count k peers d listed n :
  0 <= n -> n + Z.of_nat (length peers) <= 64 ->
  (formatParticipants_from k peers d listed n).2 = n + Z.of_nat (length (List.filter (participates d) peers)).
Proof.
  revert k listed n. induction peers as [|peer peers IH]; intros k listed n Hn Hl; cbn [formatParticipants_from List.filter]; [cbn; lia|].
  cbn [length] in Hl. fold (participates d peer). destruct (participates d peer); [|apply IH; lia].
  rewrite u32_small by (unfold in_u32; lia). rewrite IH by lia. cbn [length]. lia.
Qed.

(** The count leads the column, and it is exact: the number of peers whose slot
    carries the bit, which is what a delete is refused for. *)
Theorem participants_counted peers d :
  (length peers <= 64)%nat ->
  let n := Z.of_nat (length (List.filter (participates d) peers)) in
  if n =? 0 then formatParticipants peers d = str "-"
  else exists listed, formatParticipants peers d = digits 10 n ++ str " {" ++ listed ++ str "}".
Proof.
  intros Hl n. pose proof (formatParticipants_count 0 peers d [] 0 ltac:(lia) ltac:(lia)) as Hc. unfold formatParticipants.
  destruct (formatParticipants_from 0 peers d [] 0) as [listed counted]. cbn [snd] in Hc. rewrite Z.add_0_l in Hc. fold n in Hc. rewrite Hc.
  clearbody n. destruct (n =? 0); [done|]. eauto.
Qed.
End participants.

(** ** The command line and the loop *)

Section loop.
Import cme_top.

Lemma strtoullEnd_extract text r : extractU64 text = Some r -> strtoullEnd text = Some r.
Proof.
  unfold extractU64, strtoullEnd. destruct (match dropSpaces text with [] => _ | _ => _ end) as [negative body].
  destruct body as [|c body]; [done|]. destruct (negb (isDigit c)); [done|]. destruct (takeDigits 0 (c :: body)) as [value rest].
  by destruct (2 ^ 64 <=? value).
Qed.

Lemma strtoullEnd_decimal value : 0 <= value -> strtoullEnd (digits 10 value) = Some (Z.min value (2 ^ 64 - 1), []).
Proof.
  intros Hv. destruct (digits_spec 10 value) as (Hr & Hf & Hne); [lia|done|].
  destruct (digits 10 value) as [|c rest] eqn:Hd; [done|].
  pose proof (takeDigits_all 0 _ Hf) as Ht. apply Forall_cons in Hf as [Hc _]. destruct (digit_not c Hc) as (Hs & H1 & H2 & H3).
  unfold strtoullEnd. cbn [dropSpaces]. rewrite Hs, H1, H2, H3. cbn [negb]. rewrite Ht, Hr.
  destruct (Z.leb_spec (2 ^ 64) value); by rewrite ?Z.min_r, ?Z.min_l by lia.
Qed.

(** A period written in decimal is honoured, raised to the floor, when it fits
    the field, and refused as out of range when it does not: no value wraps. *)
Theorem interval_never_wraps value :
  0 <= value ->
  parseIntervalMs (digits 10 value) = if value <? 2 ^ 32 then inl (Z.max value MinIntervalMs) else inr IntervalOutOfRange.
Proof.
  intros Hv. unfold parseIntervalMs. rewrite strtoullEnd_decimal by done.
  destruct (Z.ltb_spec value (2 ^ 32)), (Z.ltb_spec (2 ^ 32 - 1) (Z.min value (2 ^ 64 - 1))); try lia; [|done].
  rewrite Z.min_l by lia. by rewrite u32_small by (unfold in_u32; lia).
Qed.

(** A sign is taken, though: a negative number close to minus 2^64 reads as a
    small period. *)
Theorem negative_interval_accepted value :
  0 < value < 2 ^ 32 -> parseIntervalMs (45 :: digits 10 (2 ^ 64 - value)) = inl (Z.max value MinIntervalMs).
Proof.
  intros Hv. unfold parseIntervalMs. erewrite strtoullEnd_extract by (apply extractU64_negative; lia).
  assert (u64 (- (2 ^ 64 - value)) = value) as ->.
  { unfold u64. replace (- (2 ^ 64 - value)) with (value + (-1) * 2 ^ 64) by lia. rewrite Z.mod_add by lia. apply Z.mod_small. lia. }
  rewrite (proj2 (Z.ltb_ge _ _)) by lia. by rewrite u32_small by (unfold in_u32; lia).
Qed.

Lemma waitUntil_stops fuel stop clock deadline look n :
  (forall k, n <= k -> stop k = true)%nat -> (n < look + fuel)%nat -> (0 < fuel)%nat ->
  exists answer looks, waitUntil fuel stop clock deadline look = Some (answer, looks) /\ (look < looks)%nat.
Proof.
  intros Hs. revert look. induction fuel as [|fuel IH]; intros look Hl Hp; [lia|]. cbn [waitUntil].
  destruct (stop look) eqn:Hst; [eauto with lia|]. destruct (timing.Deadline.expiredAt _ _); [eauto with lia|].
  destruct (decide (n <= look)%nat) as [Hle|]; [rewrite Hs in Hst by done; done|].
  destruct (IH (S look)) as (answer & looks & -> & Hlt); [lia|lia|]. eauto with lia.
Qed.

(** The loop ends.  Once the flag stays set from its [n]-th look on, whatever
    the clock does, the loop returns, having drawn at most a frame for every two
    looks. *)
Theorem monitor_stops fuel stop clock options n :
  (forall k, n <= k -> stop k = true)%nat -> (n < fuel)%nat ->
  exists drawn, run fuel stop clock options = Some drawn /\ (2 * drawn <= S n + 1)%nat.
Proof.
  intros Hs Hf. unfold run. destruct (Opts_t.once options); [exists 1%nat; split; [done|lia]|].
  assert (forall fuel look drawn, (n < look + fuel)%nat -> (0 < fuel)%nat -> (2 * drawn <= look)%nat -> (look <= n \/ 2 * drawn <= n + 2)%nat ->
    exists drawn', frames fuel stop clock (Opts_t.intervalMs options) look drawn = Some drawn' /\ (2 * drawn' <= n + 2)%nat) as Hgen.
  { clear fuel Hf. induction fuel as [|fuel IH]; intros look drawn Hl Hp Hd Ho; [lia|]. cbn [frames].
    destruct (stop look) eqn:Hst; [exists drawn; split; [done|lia]|].
    destruct (decide (n <= look)%nat) as [Hle|]; [rewrite Hs in Hst by done; done|].
    destruct (waitUntil_stops (S fuel) (fun k => stop (S look + k)%nat) (clock look)
      (timing.Deadline.make (clock look 0%nat) (timing.Millis (Opts_t.intervalMs options))) 0 (n - S look)%nat) as (answer & looks & -> & Hlt).
    - intros k Hk. apply Hs. lia.
    - lia.
    - lia.
    - apply IH; lia. }
  destruct (Hgen fuel 0%nat 0%nat) as (drawn & Hr & Hb); [lia..|]. exists drawn. split; [done|lia].
Qed.
End loop.

(** ** Examples *)

Lemma frame_faithful_witness :
  exists row, (cme_top.render false (fun _ => None) (fun _ => observed_region) 0 0 cme_top.Opts_t.initial
      cme_top.FrameState_t.initial (Geometry.unbound (Some 4096) 2097152)).1.1 !! 4%nat = Some (cme_top.PeerLine row) /\
    cme_top.row_role row = cme_top.RoleNone.
Proof.
  destruct (frame_faithful false (fun _ => None) (Geometry.unbound (Some 4096) 2097152) 4096 observed_region 3 2 1 0 observed_covers
    0 0 cme_top.Opts_t.initial cme_top.FrameState_t.initial) as (domainRows & peerRows & footer & size & generation & -> & Hd & Hp & _ & Hrole).
  destruct (Hrole 0 ltac:(lia)) as (row & Hl & _ & Hnone & _). exists row. split; [|apply Hnone; vm_compute; reflexivity].
  replace 4%nat with (S (length domainRows)) by (rewrite Hd; reflexivity). rewrite lookup_cons_ne_0 by done. cbn [pred].
  rewrite lookup_app_r, Nat.sub_diag by done. rewrite lookup_app_l by (rewrite Hp; cbn; lia). exact Hl.
Defined.

Example participants_column :
  let peer := Some (mkPeer true 0 0 DomainBitmap_empty (Bits.set DomainBitmap_empty 2) ProfileTimes_t.zero) in
  cme_top.formatParticipants [peer; None; peer; peer; peer; peer] 2 = str "5 {p0,p2,p3,+2}".
Proof. vm_compute. reflexivity. Qed.

Example mask_column : cme_top.formatMask (Bits.set (Bits.set DomainBitmap_empty 12) 3) = str "{d3,d12}".
Proof. vm_compute. reflexivity. Qed.

Example command_line :
  cme_top.parseArgs (str "dax:/dev/dax0.0") [str "cme-top"; str "--interval=7"; str "--once"; str "shm:/job"] cme_top.Opts_t.initial =
    Some (cme_top.Opts_t.mk (str "shm:/job") 50 true false) /\
  cme_top.parseArgs [] [str "cme-top"; str "--interval="; str "shm:/job"] cme_top.Opts_t.initial = None /\
  cme_top.parseArgs [] [str "cme-top"] cme_top.Opts_t.initial = None.
Proof. vm_compute. split_and!; reflexivity. Qed.
