(* ===== verification/Holds.v ===== *)
(** * Holds: the named boundaries of a test build

    Models [src/src/observe/failpoint.cpp] and its header as a build with
    [CME_FAILPOINT] compiles them: a boundary is armed to kill the process, or
    held so that the thread that reaches it stops until it is released.

    The side that arms, holds and releases is one thread, and each of its calls
    is one step; a thread that reaches a boundary is the access it takes next,
    and its accesses fall between those calls in any order. *)

From stdpp Require Import strings.
From S2P Require Import Prelude Types KvConfig.

Module boundaries.

(** [Boundary], in the order of its enumerators. *)
Inductive Boundary :=
| NoBoundary
| FormatBeforeHeader
| AdmissionBeforeStake
| AdmissionBeforeWithdraw
| AdmissionReleaseAfterCheck
| AdmissionBeforeCommit
| AdmissionAfterCommit
| JoinBeforeBaseline
| CreateBeforeActivate
| DeleteBeforeFree
| DeleteBeforeDeactivate
| ReclaimMidLoop
| TransferBeforePublish
| TransferBeforeTruth
| ReconcileBeforeLose
| ScanBeforeRefresh
| LeaveInDrain
| LeaveBeforeHandoff
| LeaveBeforeNone
| RecoveryBeforeStake
| RecoveryAfterClaim
| TakeoverMidLoop
| RecoveryBeforeScrub
| RecoveryBeforeFinish
| PetersonUnlockBeforePins
| PetersonLockRefused.
#[global] Instance Boundary_eq_dec : EqDecision Boundary.
Proof. solve_decision. Defined.

Definition readName (boundary : Boundary) : list Z :=
  match boundary with
  | NoBoundary => str "none"
  | FormatBeforeHeader => str "format.before_header"
  | AdmissionBeforeStake => str "admission.before_stake"
  | AdmissionBeforeWithdraw => str "admission.before_withdraw"
  | AdmissionReleaseAfterCheck => str "admission.release_after_check"
  | AdmissionBeforeCommit => str "admission.before_commit"
  | AdmissionAfterCommit => str "admission.after_commit"
  | JoinBeforeBaseline => str "join.before_baseline"
  | CreateBeforeActivate => str "create.before_activate"
  | DeleteBeforeFree => str "delete.before_free"
  | DeleteBeforeDeactivate => str "delete.before_deactivate"
  | ReclaimMidLoop => str "reclaim.mid_loop"
  | TransferBeforePublish => str "transfer.before_publish"
  | TransferBeforeTruth => str "transfer.before_truth"
  | ReconcileBeforeLose => str "reconcile.before_lose"
  | ScanBeforeRefresh => str "scan.before_refresh"
  | LeaveInDrain => str "leave.in_drain"
  | LeaveBeforeHandoff => str "leave.before_handoff"
  | LeaveBeforeNone => str "leave.before_none"
  | RecoveryBeforeStake => str "recovery.before_stake"
  | RecoveryAfterClaim => str "recovery.after_claim"
  | TakeoverMidLoop => str "takeover.mid_loop"
  | RecoveryBeforeScrub => str "recovery.before_scrub"
  | RecoveryBeforeFinish => str "recovery.before_finish"
  | PetersonUnlockBeforePins => str "peterson.unlock_before_pins"
  | PetersonLockRefused => str "peterson.lock_refused"
  end.

(** ** The words *)

Module HoldSlot_t.
Record t := mk { boundary : Boundary; reached : bool; letGo : bool; }.
Definition initial : t := mk NoBoundary false false.
End HoldSlot_t.

Definition HoldSlots : nat := 4.
Definition NoSlot : nat := HoldSlots.

(** What a thread at a boundary does next. *)
Inductive rpc :=
| ROut                            (* at no boundary *)
| RArmed (boundary : Boundary)    (* the look at [g_armedBoundary] *)
| RFind (boundary : Boundary)     (* [findHold] *)
| RMark (slot : nat)              (* [reached.store(true)] *)
| RWait (slot : nat).             (* the looks at [letGo] *)
#[global] Instance rpc_eq_dec : EqDecision rpc.
Proof. solve_decision. Defined.

Record t := mk {
  armedBoundary : Boundary;
  holds : list HoldSlot_t.t;
  lastHeld : nat;
  threads : gmap Z rpc;
  alive : bool;                   (* no thread died at an armed boundary *)
}.
Definition initial : t := mk NoBoundary (replicate HoldSlots HoldSlot_t.initial) NoSlot ∅ true.
Definition with_holds (v : list HoldSlot_t.t) (s : t) : t := mk (armedBoundary s) v (lastHeld s) (threads s) (alive s).
Definition goes (thread : Z) (p : rpc) (s : t) : t :=
  mk (armedBoundary s) (holds s) (lastHeld s) (<[thread := p]> (threads s)) (alive s).
Definition pcOf (s : t) (thread : Z) : rpc := default ROut (threads s !! thread).

(** [std::find_if] and [std::distance]: the number of slots when none matches. *)
Fixpoint findHold (boundary : Boundary) (slots : list HoldSlot_t.t) : nat :=
  match slots with
  | [] => 0
  | held :: slots => if bool_decide (HoldSlot_t.boundary held = boundary) then 0 else S (findHold boundary slots)
  end.

(** ** The side that holds *)

Definition arm (boundary : Boundary) (s : t) : t := mk boundary (holds s) (lastHeld s) (threads s) (alive s).

(** The first loop: a released hold of another boundary frees its slot. *)
Definition freeReleased (boundary : Boundary) (held : HoldSlot_t.t) : HoldSlot_t.t :=
  if negb (bool_decide (HoldSlot_t.boundary held = boundary)) && HoldSlot_t.letGo held
  then HoldSlot_t.mk NoBoundary (HoldSlot_t.reached held) (HoldSlot_t.letGo held) else held.

(** [None] is [std::abort]. *)
Definition hold (boundary : Boundary) (s : t) : option t :=
  let slots := map (freeReleased boundary) (holds s) in
  let existing := findHold boundary slots in
  let slot := if negb (existing =? NoSlot)%nat then existing else findHold NoBoundary slots in
  if (slot =? NoSlot)%nat then None
  else Some (mk (armedBoundary s) (<[slot := HoldSlot_t.mk boundary false false]> slots) slot (threads s) (alive s)).

Definition releaseSlot (slot : nat) (s : t) : t :=
  if (slot =? NoSlot)%nat then s
  else with_holds (alter (fun held => HoldSlot_t.mk (HoldSlot_t.boundary held) (HoldSlot_t.reached held) true) slot (holds s)) s.
Definition release (boundary : Boundary) (s : t) : t := releaseSlot (findHold boundary (holds s)) s.
Definition releaseLast (s : t) : t := releaseSlot (lastHeld s) s.

(** One look of [awaitSlot]; the wait is [waitUntil] over such looks. *)
Definition hasReached (slot : nat) (s : t) : bool :=
  match holds s !! slot with Some held => HoldSlot_t.reached held | None => false end.
Definition awaitSlot (fuel : nat) (slot : nat) (looks : nat -> t) (clock : nat -> Z) (within : Z) : option bool :=
  if (slot =? NoSlot)%nat then Some false
  else option_map fst (waitUntil fuel (fun n => hasReached slot (looks n)) clock (timing.Deadline.make (clock 0%nat) within) 0).

(** ** The side that reaches *)

Definition reach (thread : Z) (boundary : Boundary) (s : t) : t := goes thread (RArmed boundary) s.

(** The next access of a thread.  [capped] is whether its wait ran to the cap
    at this look. *)
Definition step (thread : Z) (capped : bool) (s : t) : option t :=
  match pcOf s thread with
  | ROut => None
  | RArmed boundary =>
      if bool_decide (armedBoundary s = boundary) then Some (mk (armedBoundary s) (holds s) (lastHeld s) (threads s) false)
      else Some (goes thread (RFind boundary) s)
  | RFind boundary =>
      let slot := findHold boundary (holds s) in
      Some (goes thread (if (slot =? NoSlot)%nat then ROut else RMark slot) s)
  | RMark slot =>
      Some (goes thread (RWait slot)
        (with_holds (alter (fun held => HoldSlot_t.mk (HoldSlot_t.boundary held) true (HoldSlot_t.letGo held)) slot (holds s)) s))
  | RWait slot =>
      match holds s !! slot with
      | Some held => if HoldSlot_t.letGo held || capped then Some (goes thread ROut s) else Some s
      | None => Some s
      end
  end.

(** ** Names *)

(** A boundary is told by its name: a line that reports one names no other. *)
Theorem readName_inj b b' : readName b = readName b' -> b = b'.
Proof. destruct b, b'; done. Qed.

(** ** The slots *)

(** No boundary is held in two slots. *)
Definition distinct (slots : list HoldSlot_t.t) : Prop :=
  forall i j held held', slots !! i = Some held -> slots !! j = Some held' ->
    HoldSlot_t.boundary held = HoldSlot_t.boundary held' -> HoldSlot_t.boundary held <> NoBoundary -> i = j.
Record wf (s : t) : Prop := { wf_slots : length (holds s) = HoldSlots; wf_distinct : distinct (holds s); }.

Lemma findHold_le b slots : (findHold b slots <= length slots)%nat.
Proof. induction slots as [|held slots IH]; cbn; [done|]. case_bool_decide; lia. Qed.

Lemma findHold_found b slots : (findHold b slots < length slots)%nat ->
  exists held, slots !! findHold b slots = Some held /\ HoldSlot_t.boundary held = b.
Proof.
  induction slots as [|held slots IH]; cbn; [lia|]. case_bool_decide; [eauto|]. intros Hlt. apply IH. lia.
Qed.

Lemma findHold_none b slots : findHold b slots = length slots -> forall i held, slots !! i = Some held -> HoldSlot_t.boundary held <> b.
Proof.
  induction slots as [|held slots IH]; cbn; [done|]. case_bool_decide as Hb; [done|]. intros [= Hs] [|i] held'; cbn; [by intros [= <-]|by apply IH].
Qed.

Lemma wf_initial : wf initial.
Proof.
  split; [done|]. intros i j held held' Hi Hj _ Hne. apply lookup_replicate in Hi as [-> _]. done.
Qed.

(** Writes to the halves of the handshake keep the boundaries where they are. *)
Lemma distinct_keep slots slots' :
  (forall i, HoldSlot_t.boundary <$> slots' !! i = HoldSlot_t.boundary <$> slots !! i) -> distinct slots -> distinct slots'.
Proof.
  intros Hk Hd i j held held' Hi Hj He Hne. pose proof (Hk i) as Hki. pose proof (Hk j) as Hkj. rewrite Hi in Hki. rewrite Hj in Hkj.
  destruct (slots !! i) as [h|] eqn:Hh; [|done]. destruct (slots !! j) as [h'|] eqn:Hh'; [|done]. cbn in *.
  injection Hki as Hki. injection Hkj as Hkj. apply (Hd i j h h'); congruence.
Qed.

Lemma wf_alter s f slot : (forall held, HoldSlot_t.boundary (f held) = HoldSlot_t.boundary held) ->
  wf s -> wf (with_holds (alter f slot (holds s)) s).
Proof.
  intros Hf [Hl Hd]. split; cbn; [by rewrite length_alter|]. eapply distinct_keep; [|exact Hd]. intros i.
  rewrite list_lookup_alter. destruct (decide (slot = i)) as [->|]; [|done].
  destruct (holds s !! i) as [held|]; cbn; [by rewrite Hf|done].
Qed.

Lemma freeReleased_cases b held : freeReleased b held = held \/ HoldSlot_t.boundary (freeReleased b held) = NoBoundary.
Proof. unfold freeReleased. destruct (_ && _); auto. Qed.
Lemma distinct_free b slots : distinct slots -> distinct (map (freeReleased b) slots).
Proof.
  intros Hd i j held held' Hi Hj He Hne. apply list_lookup_fmap_Some in Hi as (h & -> & Hi). apply list_lookup_fmap_Some in Hj as (h' & -> & Hj).
  destruct (freeReleased_cases b h) as [Hc|], (freeReleased_cases b h') as [Hc'|]; try congruence.
  rewrite Hc, Hc' in He. rewrite Hc in Hne. by apply (Hd i j h h').
Qed.

Lemma distinct_insert slots slot held :
  distinct slots -> (forall i h, slots !! i = Some h -> HoldSlot_t.boundary h = HoldSlot_t.boundary held -> i = slot) ->
  distinct (<[slot := held]> slots).
Proof.
  intros Hd Hn i j h h' Hi Hj He Hne.
  destruct (decide (slot = i)) as [<-|Hsi], (decide (slot = j)) as [<-|Hsj]; [done|..].
  - apply list_lookup_insert_Some in Hi as [(_ & -> & _)|[? _]]; [|done]. rewrite list_lookup_insert_ne in Hj by done.
    symmetry. by apply (Hn j h').
  - apply list_lookup_insert_Some in Hj as [(_ & -> & _)|[? _]]; [|done]. rewrite list_lookup_insert_ne in Hi by done.
    by apply (Hn i h).
  - rewrite list_lookup_insert_ne in Hi, Hj by done. by apply (Hd i j h h').
Qed.

(** Where a hold goes: its own slot, or the first free one. *)
Lemma hold_slot b slots slot :
  distinct slots -> b <> NoBoundary -> length slots = HoldSlots ->
  slot = (if negb (findHold b slots =? NoSlot)%nat then findHold b slots else findHold NoBoundary slots) -> slot <> NoSlot ->
  (slot < length slots)%nat /\ (exists h, slots !! slot = Some h /\ (HoldSlot_t.boundary h = b \/ HoldSlot_t.boundary h = NoBoundary)) /\
  forall i h, slots !! i = Some h -> HoldSlot_t.boundary h = b -> i = slot.
Proof.
  intros Hd Hb Hl -> Hne. pose proof (findHold_le b slots) as Hle. pose proof (findHold_le NoBoundary slots) as Hle'.
  unfold NoSlot in *. rewrite <- Hl in *. destruct (Nat.eqb_spec (findHold b slots) (length slots)) as [He|He]; cbn [negb] in *.
  - destruct (findHold_found NoBoundary slots ltac:(lia)) as (h & Hh & Hbh). split_and!; [lia|by eauto|].
    intros i h' Hi Hb'. by destruct (findHold_none _ _ He i h' Hi).
  - destruct (findHold_found b slots ltac:(lia)) as (h & Hh & Hbh). split_and!; [lia|by eauto|].
    intros i h' Hi Hb'. apply (Hd i _ h' h Hi Hh); congruence.
Qed.

(** What a [hold] does: it takes a slot for the boundary, fresh, and touches no
    other hold that was not released; it gives up exactly when four others are
    held and none of them was released. *)
Theorem hold_takes_slot b s :
  wf s -> b <> NoBoundary ->
  match hold b s with
  | None => forall i held, holds s !! i = Some held ->
      HoldSlot_t.boundary held <> b /\ HoldSlot_t.boundary held <> NoBoundary /\ HoldSlot_t.letGo held = false
  | Some s' => wf s' /\ findHold b (holds s') = lastHeld s' /\
      holds s' !! lastHeld s' = Some (HoldSlot_t.mk b false false) /\
      forall i held, holds s !! i = Some held -> HoldSlot_t.boundary held <> b -> HoldSlot_t.boundary held <> NoBoundary ->
        HoldSlot_t.letGo held = false -> holds s' !! i = Some held
  end.
Proof.
  intros [Hl Hd] Hb. unfold hold. set (slots := map (freeReleased b) (holds s)).
  assert (length slots = HoldSlots) as Hls by (unfold slots; by rewrite length_map).
  assert (distinct slots) as Hds by by apply distinct_free. set (slot := if negb _ then _ else _).
  destruct (Nat.eqb_spec slot NoSlot) as [He|Hne].
  - intros i held Hi. assert (slots !! i = Some (freeReleased b held)) as Hs by (unfold slots; by rewrite list_lookup_fmap, Hi).
    unfold slot, NoSlot in He. rewrite <- Hls in He.
    destruct (Nat.eqb_spec (findHold b slots) (length slots)) as [Hb1|]; cbn [negb] in He; [|done].
    pose proof (findHold_none _ _ Hb1 _ _ Hs) as H1. pose proof (findHold_none _ _ He _ _ Hs) as H2.
    destruct (freeReleased_cases b held) as [Hc|]; [|done]. rewrite Hc in H1, H2. split_and!; [done|done|].
    unfold freeReleased in Hc. rewrite bool_decide_false in Hc by done. destruct (HoldSlot_t.letGo held) eqn:Hg; [|done].
    cbn in Hc. rewrite <- Hc in H2. done.
  - destruct (hold_slot b slots slot Hds Hb Hls eq_refl Hne) as (Hlt & (h & Hh & Hhb) & Huniq).
    assert (wf (mk (armedBoundary s) (<[slot := HoldSlot_t.mk b false false]> slots) slot (threads s) (alive s))) as Hwf.
    { split; cbn; [by rewrite length_insert|]. by apply distinct_insert. }
    split_and!; [done| | |].
    + cbn [holds lastHeld]. pose proof (list_lookup_insert_eq slots slot (HoldSlot_t.mk b false false) Hlt) as Hat.
      destruct (decide (findHold b (<[slot := HoldSlot_t.mk b false false]> slots) = length (<[slot := HoldSlot_t.mk b false false]> slots))) as [Hno|Hyes].
      { by destruct (findHold_none _ _ Hno _ _ Hat). }
      pose proof (findHold_le b (<[slot := HoldSlot_t.mk b false false]> slots)).
      destruct (findHold_found b (<[slot := HoldSlot_t.mk b false false]> slots) ltac:(lia)) as (h' & Hh' & Hb').
      apply (wf_distinct _ Hwf _ _ h' (HoldSlot_t.mk b false false)); cbn; [done|done|done|congruence].
    + cbn. by apply list_lookup_insert_eq.
    + intros i held Hi Hnb Hnn Hg. cbn. assert (slots !! i = Some held) as Hs.
      { unfold slots. rewrite list_lookup_fmap, Hi. cbn. unfold freeReleased. by rewrite Hg, andb_false_r. }
      rewrite list_lookup_insert_ne; [done|]. intros <-. rewrite Hs in Hh. injection Hh as <-. destruct Hhb; done.
Qed.

(** ** A thread at a held boundary *)

(** Everything that can happen but the release of one slot, and but the cap of
    one thread. *)
Inductive without (slot : nat) (thread : Z) (s : t) : t -> Prop :=
| w_arm b : without slot thread s (arm b s)
| w_hold b s' : b <> NoBoundary -> hold b s = Some s' -> without slot thread s s'
| w_release b : findHold b (holds s) <> slot -> without slot thread s (release b s)
| w_releaseLast : lastHeld s <> slot -> without slot thread s (releaseLast s)
| w_reach other b : pcOf s other = ROut -> without slot thread s (reach other b s)
| w_step other capped s' : (other = thread -> capped = false) -> step other capped s = Some s' -> without slot thread s s'.

(** The thread waits at the slot, which holds a boundary and was not released. *)
Definition parked (slot : nat) (thread : Z) (s : t) : Prop :=
  wf s /\ pcOf s thread = RWait slot /\
  exists held, holds s !! slot = Some held /\ HoldSlot_t.boundary held <> NoBoundary /\ HoldSlot_t.letGo held = false.

Lemma hold_Some b s s' : hold b s = Some s' -> exists slot,
  s' = mk (armedBoundary s) (<[slot := HoldSlot_t.mk b false false]> (map (freeReleased b) (holds s))) slot (threads s) (alive s).
Proof. unfold hold. intros H. eexists. by destruct (_ =? NoSlot)%nat; [|injection H as <-]. Qed.

(** A boundary held and not released is held still after a hold of any other,
    and in the same slot after a hold of its own. *)
Lemma hold_keeps b s s' i held :
  holds s !! i = Some held -> HoldSlot_t.boundary held = b -> HoldSlot_t.letGo held = false -> hold b s = Some s' ->
  exists h, holds s' !! i = Some h /\ HoldSlot_t.boundary h = b.
Proof.
  intros Hi Hb Hl Hhold. apply hold_Some in Hhold as (slot & ->). cbn [holds].
  assert (map (freeReleased b) (holds s) !! i = Some held) as Hm.
  { rewrite list_lookup_fmap, Hi. cbn. unfold freeReleased. by rewrite Hl, andb_false_r. }
  destruct (decide (slot = i)) as [->|]; [rewrite list_lookup_insert_eq by (by eapply lookup_lt_Some)|rewrite list_lookup_insert_ne by done]; eauto.
Qed.

Lemma reader_goes thread other p s : pcOf (goes thread p s) other = if decide (thread = other) then p else pcOf s other.
Proof. unfold pcOf, goes. cbn. case_decide as Hd; [subst; by rewrite lookup_insert_eq|by rewrite lookup_insert_ne]. Qed.

Lemma parked_goes slot thread other p s : other <> thread -> parked slot thread s -> parked slot thread (goes other p s).
Proof. intros Hn ([? ?] & Hp & Hh). split_and!; [done|by rewrite reader_goes, decide_False|done]. Qed.

Lemma parked_alter slot thread k f s :
  (forall held, HoldSlot_t.boundary (f held) = HoldSlot_t.boundary held) ->
  (k = slot -> forall held, HoldSlot_t.letGo (f held) = HoldSlot_t.letGo held) ->
  parked slot thread s -> parked slot thread (with_holds (alter f k (holds s)) s).
Proof.
  intros Hf Hg (Hw & Hp & held & Hh & Hb & Hl). split_and!; [by apply wf_alter|done|]. cbn.
  rewrite list_lookup_alter. destruct (decide (k = slot)) as [->|]; [|by eauto]. rewrite Hh. cbn.
  exists (f held). by rewrite Hf, Hg.
Qed.

Lemma parked_releaseSlot slot thread k s : k <> slot -> parked slot thread s -> parked slot thread (releaseSlot k s).
Proof. intros Hk Hp. unfold releaseSlot. destruct (k =? NoSlot)%nat; [done|]. by apply parked_alter. Qed.

Lemma parked_step slot thread other capped s s' :
  (other = thread -> capped = false) -> parked slot thread s -> step other capped s = Some s' -> parked slot thread s'.
Proof.
  intros Hcap Hp Hs. unfold step in Hs. pose proof Hp as (Hw & Hpc & held & Hh & Hb & Hl). destruct (decide (other = thread)) as [->|Hne].
  - rewrite Hpc, Hh, Hl, Hcap in Hs by done. cbn in Hs. by injection Hs as <-.
  - destruct (pcOf s other) as [|b|b|k|k]; [done|..].
    + case_bool_decide; injection Hs as <-; [|by apply parked_goes]. split_and!; [by destruct Hw|done|by eauto].
    + injection Hs as <-. by apply parked_goes.
    + injection Hs as <-. apply parked_goes; [done|]. by apply parked_alter.
    + destruct (holds s !! k) as [h|]; [|by injection Hs as <-]. destruct (_ || _); injection Hs as <-; [by apply parked_goes|done].
Qed.

Lemma parked_without slot thread s s' : parked slot thread s -> without slot thread s s' -> parked slot thread s'.
Proof.
  intros Hp Hm. pose proof Hp as (Hw & Hpc & held & Hh & Hb & Hl).
  destruct Hm as [b|b s' Hne Hhold|b Hk|Hk|other b Ho|other capped s' Hcap Hs].
  - split_and!; [by destruct Hw|done|by eauto].
  - pose proof (hold_takes_slot b s Hw Hne) as H. rewrite Hhold in H. destruct H as (Hw' & Hf & Hat & Hkeep). split_and!; [done| |].
    + by apply hold_Some in Hhold as (k & ->).
    + destruct (decide (HoldSlot_t.boundary held = b)) as [Heq|]; [|exists held; split; [by apply Hkeep|done]].
      exists (HoldSlot_t.mk b false false). split; [|done]. enough (slot = lastHeld s') as -> by done.
      destruct (hold_keeps _ _ _ _ _ Hh Heq Hl Hhold) as (h & Hs & Hhb).
      eapply (wf_distinct _ Hw'); eauto; cbn; congruence.
  - by apply parked_releaseSlot.
  - by apply parked_releaseSlot.
  - apply parked_goes; [|done]. intros ->. congruence.
  - by eapply parked_step.
Qed.

(** A held thread stays.  From the moment a thread waits at a boundary that is
    held, and for as long as that slot is not released and its wait does not run
    to the cap, it waits there, whatever else is armed, held, released or
    reached in between; its slot goes to no other boundary. *)
Theorem held_thread_stays slot thread s s' :
  parked slot thread s -> rtc (without slot thread) s s' -> pcOf s' thread = RWait slot.
Proof.
  intros Hp Hr. enough (parked slot thread s') as (_ & ? & _) by done.
  induction Hr as [|s s1 s2 Hm _ IH]; [done|]. apply IH. by eapply parked_without.
Qed.

(** ** A released slot that is taken again *)

(** Thread 1 waits at one boundary; it is released, and another boundary is held
    before the thread looks again. *)
Definition first : Boundary := TransferBeforePublish.
Definition second : Boundary := LeaveInDrain.
Definition then_ {A B} (m : option A) (f : A -> option B) : option B := match m with Some a => f a | None => None end.
Definition waiting : option t :=
  then_ (hold first initial) (fun s => then_ (step 1 false (reach 1 first s)) (fun s => then_ (step 1 false s) (step 1 false))).
Definition retaken : option t := then_ waiting (fun s => hold second (release first s)).

(** The hold that follows a release takes the slot of a thread that has not yet
    seen the release, and clears it: the thread is parked again, at a boundary
    it never reached, until that one is released or the cap runs out. *)
Theorem hold_recaptures_released :
  exists s s', waiting = Some s /\ pcOf s 1 = RWait 0 /\ hold second (release first s) = Some s' /\
    parked 0 1 s' /\ (HoldSlot_t.boundary <$> holds s' !! 0%nat) = Some second /\ findHold first (holds s') = NoSlot.
Proof.
  exists (default initial waiting), (default initial retaken).
  split_and!; [vm_compute; reflexivity|vm_compute; reflexivity|vm_compute; reflexivity| |vm_compute; reflexivity|vm_compute; reflexivity].
  split_and!; [|vm_compute; reflexivity|].
  - assert (holds (default initial retaken) = HoldSlot_t.mk second false false :: replicate 3 HoldSlot_t.initial) as Hh by (vm_compute; reflexivity).
    split; rewrite Hh; [done|]. intros [|i] [|j] held held'; cbn; [done|..].
    + intros [= <-] Hj He Hne. apply (lookup_replicate 3) in Hj as [-> _]. done.
    + intros Hi [= <-] He Hne. apply (lookup_replicate 3) in Hi as [-> _]. done.
    + intros Hi _ _ Hne. apply (lookup_replicate 3) in Hi as [-> _]. done.
  - eexists. split_and!; [vm_compute; reflexivity|done|done].
Qed.

(** ** Examples *)

Lemma held_thread_stays_example : exists s, waiting = Some s /\ pcOf s 1 = RWait 0 /\ hasReached 0 s = true.
Proof. exists (default initial waiting). by vm_compute. Qed.

End boundaries.
