(* ===== verification/Provision.v ===== *)
(** * Provision: a region made, opened and laid out once

    Composes the memory backends, the layout and the format: what [Session::format]
    made through one mapping, [Session::open] binds through another.  Then models
    [src/tools/cme_format.cpp], the tool that formats a region before anything
    opens it. *)

From stdpp Require Import strings.
From S2P Require Import Prelude Effect Types Layout Region World Exclusion Policies Session KvConfig KvParse Settings Memory Inspector.
Import KeyValueConfig.

(** What [Memory::create] answers a format of [uri], from a history. *)
Definition createdBy (os : Os) (s : History) (uri : list Z) (areaSize : Z) (coherency : CoherencyMode) :
    (option Z * Z) + Error :=
  match Memory.create uri areaSize coherency os s with
  | Some (inl mapping, _) => inl (Some (Mapping_t.base mapping), Mapping_t.size mapping)
  | Some (inr error, _) => inr error
  | None => inr BackendError
  end.

Definition areaOf (ProfileEnabled : bool) (opts : FormatOpts_t.t) : Z :=
  computeAreaSize ProfileEnabled (FormatOpts_t.maxDomains opts) (FormatOpts_t.maxPeers opts)
    (Strategy_to_u32 (FormatOpts_t.strategy opts)) (FormatOpts_t.aggregatorGroups opts).

(** ** What a format leaves *)

Section formatted.
Context (ProfileEnabled : bool) (opts : FormatOpts_t.t).
Hypothesis Hag : 0 <= FormatOpts_t.aggregatorGroups opts.

Lemma format_dims memory generation r : Session.format ProfileEnabled memory opts generation = inl r ->
  valid_dims (FormatOpts_t.maxDomains opts) (FormatOpts_t.maxPeers opts) (FormatOpts_t.aggregatorGroups opts).
Proof.
  unfold Session.format, makeInternalFormatOpts. do 2 (case_if; [done|]). unfold Geometry_create. cbv beta iota.
  destruct (negb (isValidDomainCount _) || _) eqn:Hv; [done|]. destruct (FormatOpts_t.maxPeers opts <? _) eqn:Hg; [done|]. intros _.
  apply orb_false_iff in Hv as [?%negb_false_iff ?%negb_false_iff]. zbool. split; [done..|lia].
Qed.

(** The mapping it was made through holds it, and starts on a line. *)
Lemma format_mapping memory generation r : Session.format ProfileEnabled memory opts generation = inl r ->
  exists base size, memory (areaOf ProfileEnabled opts) (FormatOpts_t.coherency opts) = inl (Some base, size) /\
    areaOf ProfileEnabled opts <= size /\ base mod 64 = 0.
Proof.
  unfold Session.format, makeInternalFormatOpts, areaOf. do 2 (case_if; [done|]). unfold Geometry_create. cbv beta iota.
  do 2 (case_if; [done|]). destruct (memory _ _) as [[base size]|]; [|done]. case_if; [done|].
  unfold Geometry.construct. do 2 (case_if; [done|]). destruct (negb (Geometry.isLayoutAligned _)) eqn:Hal; [done|].
  apply negb_false_iff in Hal. destruct base as [base|]; [|unfold format.format, format.formatWrites; repeat (case_if; [done|]); done]. intros _. zbool. exists base, size. split_and!; [done|lia|].
  unfold Geometry.isLayoutAligned in Hal. apply andb_true_iff in Hal as [[Hb _]%andb_true_iff _].
  cbn [Geometry.memoryBase default Geometry.buildLayout Geometry.unbound from_option id] in Hb. rewrite aligned_spec in Hb. by apply Z.eqb_eq.
Qed.

(** The header carries the options. *)
Lemma format_header memory generation r : Session.format ProfileEnabled memory opts generation = inl r ->
  Header_t.isFormatted (Region.header r) = true /\
  Header_t.numDomains (Region.header r) = FormatOpts_t.maxDomains opts /\
  Header_t.maxPeers (Region.header r) = FormatOpts_t.maxPeers opts /\
  Header_t.getStrategy (Region.header r) = Strategy_to_u32 (FormatOpts_t.strategy opts) /\
  Header_t.getAggregatorGroups (Region.header r) = FormatOpts_t.aggregatorGroups opts.
Proof.
  unfold Session.format, makeInternalFormatOpts. repeat (case_if; [done|]). unfold Geometry_create.
  repeat (case_if; [done|]). destruct (memory _ _) as [[base size]|]; [|done]. case_if; [done|].
  unfold Geometry.construct. repeat (case_if; [done|]). unfold format.format, format.formatWrites.
  repeat (case_if; [done|]). destruct (Geometry.memoryBase _) as [b|]; [|done]. intros [= <-].
  rewrite runWrites_app. cbn [format.runWrites foldl format.land Region.header Region.with_header]. split_and!; try done. by destruct (FormatOpts_t.strategy opts).
Qed.

End formatted.

(** ** What a joiner maps *)

(** The files of a host, read off the calls made on it: what each descriptor was
    opened on, a path or the name of a shared memory object, and the size of each
    object somebody set or asked for. *)
Definition Place : Type := list Z + list Z.
Record Files := mkFiles { descriptors : gmap Z Place; sizes : gmap Place Z; }.

(** The sizes an [off_t] can say. *)
Definition off_t (size : Z) : bool := (0 <=? size) && (size <? 2 ^ 63).

Definition opens (place : Place) (a : Answer_t) (f : Files) : Files :=
  if result a <? 0 then f else mkFiles (<[result a := place]> (descriptors f)) (sizes f).
Definition observe (c : Call) (a : Answer_t) (f : Files) : Files :=
  match c with
  | Open path _ _ => opens (inl path) a f
  | ShmOpen name _ _ => opens (inr name) a f
  | Close file => mkFiles (delete file (descriptors f)) (sizes f)
  | Ftruncate file size =>
      match descriptors f !! file with
      | Some place => if (0 <=? result a) && off_t size then mkFiles (descriptors f) (<[place := size]> (sizes f)) else f
      | None => f
      end
  | Fstat file =>
      match descriptors f !! file with
      | Some place =>
          match sizes f !! place with
          | None => if (0 <=? result a) && off_t (written a) then mkFiles (descriptors f) (<[place := written a]> (sizes f)) else f
          | Some _ => f
          end
      | None => f
      end
  | _ => f
  end.
Fixpoint files (history : History) : Files :=
  match history with
  | [] => mkFiles ∅ ∅
  | (c, a) :: before => observe c a (files before)
  end.
Definition sizeOf (history : History) (place : Place) : option Z := sizes (files history) !! place.

(** What POSIX says of an answer: a successful [fstat] reads a size, the one the
    object was last given or last seen with; a mapping starts on a page. *)
Definition documented (history : History) (c : Call) (a : Answer_t) : Prop :=
  match c with
  | Fstat file => 0 <= result a -> off_t (written a) = true /\
      forall place size, descriptors (files history) !! file = Some place -> sizeOf history place = Some size -> written a = size
  | Mmap _ _ _ _ => result a = MAP_FAILED \/ result a mod 4096 = 0
  | _ => True
  end.
Definition answersPosix (os : Os) : Prop := forall history c, documented history c (answers os history c).

(** The answers that say no. *)
Definition refused (c : Call) (a : Answer_t) : Prop :=
  match c with
  | Open _ _ _ | ShmOpen _ _ _ => result a < 0
  | Fstat _ | Ftruncate _ _ => result a <> 0
  | Mmap _ _ _ _ => result a = MAP_FAILED
  | AskPermission _ _ => result a <> 0 /\ result a <> - ENOTTY
  | _ => False
  end.

(** A call was refused after [start]. *)
Inductive refusedSince (start : History) : History -> Prop :=
| refused_now c a s : suffix start s -> refused c a -> refusedSince start ((c, a) :: s)
| refused_before e s : refusedSince start s -> refusedSince start (e :: s).

(** The object a uri names, when it is one with a size: a device has none. *)
Definition placeOf (uri : list Z) : option Place :=
  match Uri.parseUri uri with
  | inr _ => None
  | inl parts =>
      if bool_decide (Uri.scheme parts = str "shm") then
        match Shm.normaliseShmName (Uri.path parts) with inl name => Some (inr name) | inr _ => None end
      else if bool_decide (Uri.scheme parts = str "file") then Some (inl (Uri.path parts)) else None
  end.
(** Between two histories nobody gave the object of the uri another size. *)
Definition sameSize (uri : list Z) (s s' : History) : Prop :=
  forall place, placeOf uri = Some place -> sizeOf s' place = sizeOf s place.

Section joiner.
Context (os : Os) (area : Z).
Hypothesis Hposix : answersPosix os.
Hypothesis Harea : 0 < area <= PmdAlign.

(** What a create of the uri leaves: a uri that parses and an object as long as
    the region, or a device offset a mapping can start at. *)
Definition longEnough (place : Place) (s : History) : Prop :=
  exists size, sizeOf s place = Some size /\ area <= size < 2 ^ 63.
Definition laid (uri : list Z) (s : History) : Prop :=
  exists parts, Uri.parseUri uri = inl parts /\
  ((Uri.scheme parts = str "dax" /\ Uri.offset parts mod PmdAlign = 0) \/
   ((Uri.scheme parts = str "shm" \/ Uri.scheme parts = str "file") /\ exists place, placeOf uri = Some place /\ longEnough place s)).
(** A joiner's answer: a mapping that covers the region and starts on a line, or
    a throw for a call that was refused. *)
Definition covered (start : History) (r : Mapping_t.t + Error) (s : History) : Prop :=
  match r with
  | inl m => area <= Mapping_t.size m /\ Mapping_t.base m mod 64 = 0
  | inr _ => refusedSince start s
  end.

Lemma wp_posix c (Q : Answer_t -> History -> Prop) s :
  (forall a, documented s c a -> Q a ((c, a) :: s)) -> wp (call c) os Q s.
Proof. intros H. apply H, Hposix. Qed.

Lemma page_on_line base : base mod 4096 = 0 -> base mod 64 = 0.
Proof.
  intros Hm. apply Z.mod_divide in Hm as [k ->]; [|done]. replace (k * 4096) with (k * 64 * 64) by lia. by apply Z.mod_mul.
Qed.
Lemma roundUp_covers value : area <= value < 2 ^ 63 -> area <= roundUp (u64 value) PmdAlign.
Proof. intros Hv. rewrite u64_small by (unfold in_u64; lia). destruct (roundUp_spec value ltac:(lia)) as (_ & ? & _). lia. Qed.

Lemma descriptor_opened place a f : (result a <? 0) = false -> descriptors (opens place a f) !! result a = Some place.
Proof. unfold opens. intros ->. apply lookup_insert_eq. Qed.
Lemma sizes_opened place a f : sizes (opens place a f) = sizes f.
Proof. unfold opens. by case_if. Qed.

Lemma sizes_seen s c a place size : sizeOf s place = Some size ->
  match c with Ftruncate _ _ => False | _ => True end -> sizeOf ((c, a) :: s) place = Some size.
Proof.
  unfold sizeOf. intros Hs Hc. cbn [files]. destruct c; cbn [observe]; try done; rewrite ?sizes_opened; try done.
  destruct (descriptors (files s) !! _) as [place'|]; [|done]. destruct (sizes (files s) !! place') eqn:Hp; [done|].
  case_if; [|done]. cbn [sizes]. rewrite lookup_insert_ne; [done|]. congruence.
Qed.

Lemma longEnough_seen c a place s : longEnough place s ->
  match c with Ftruncate _ _ => False | _ => True end -> longEnough place ((c, a) :: s).
Proof. intros (size & Hs & Hl) Hc. exists size. by rewrite (sizes_seen s c a place size). Qed.

Lemma descriptors_seen c a s :
  match c with Open _ _ _ | ShmOpen _ _ _ | Close _ => False | _ => True end ->
  descriptors (files ((c, a) :: s)) = descriptors (files s).
Proof. destruct c; cbn; try done; intros _; repeat case_match; done. Qed.

Lemma truncated_long file size a place s : descriptors (files s) !! file = Some place -> 0 <= result a -> area <= size -> size < 2 ^ 63 ->
  longEnough place ((Ftruncate file size, a) :: s).
Proof.
  intros Hf Ha Hs Hb. exists size. split; [|lia]. unfold sizeOf. cbn [files observe]. rewrite Hf. unfold off_t.
  rewrite (proj2 (Z.leb_le 0 (result _))), (proj2 (Z.leb_le 0 _)), (proj2 (Z.ltb_lt _ _)) by lia. apply lookup_insert_eq.
Qed.

(** The size a successful [fstat] reads of an object just opened. *)
Lemma fstat_opened c place opened stat s :
  observe c opened (files s) = opens place opened (files s) -> (result opened <? 0) = false -> 0 <= result stat ->
  longEnough place s -> documented ((c, opened) :: s) (Fstat (result opened)) stat -> area <= written stat < 2 ^ 63.
Proof.
  intros Ho Hr Hs (size & Hsize & Hlong) Hd. destruct (Hd Hs) as [_ Hw]. rewrite (Hw place size); [done| |].
  - cbn [files]. rewrite Ho. by apply descriptor_opened.
  - unfold sizeOf. cbn [files]. by rewrite Ho, sizes_opened.
Qed.

End joiner.

Ltac posix_step :=
  match goal with
  | |- wp (call _) _ _ _ => apply wp_posix; [assumption|intros ? ?]
  | _ => mem_step
  end; cbv beta zeta.
Ltac posix_run := repeat posix_step.
(** The call that was refused is one of those above the start. *)
Ltac find_refused :=
  zbool; first [apply refused_now; [repeat first [reflexivity | apply suffix_cons_r]|cbn; lia] | apply refused_before; find_refused].

(** What the [fstat] of the object just opened read. *)
Ltac opened_long :=
  match goal with
  | Hl : longEnough ?area ?place ?s, Hd : documented ((?c, ?opened) :: ?s) (Fstat _) ?stat |- _ =>
      pose proof (fstat_opened area c place opened stat s eq_refl ltac:(assumption) ltac:(zbool; lia) Hl Hd)
  end.

Section joins.
Context (os : Os) (area : Z).
Hypothesis Hposix : answersPosix os.
Hypothesis Harea : 0 < area <= PmdAlign.

Lemma dax_join_covers path offset writable s : offset mod PmdAlign = 0 ->
  wp (Dax.join path offset writable) os (covered area s) s.
Proof.
  intros Ho. unfold Dax.join, Dax.openMmap. rewrite Ho. cbn [Z.eqb negb].
  posix_run; cbn [covered Mapping_t.size Mapping_t.base]; [find_refused..|].
  split; [lia|]. apply page_on_line. zbool. naive_solver.
Qed.

Lemma shm_join_covers name writable s : longEnough area (inr name) s ->
  wp (Shm.openJoiner name writable) os (covered area s) s.
Proof.
  intros Hl. unfold Shm.openJoiner. posix_run; cbn [covered Mapping_t.size Mapping_t.base]; try solve [find_refused].
  all: opened_long.
  - zbool. lia.
  - split; [rewrite u64_small by (unfold in_u64; lia); lia|]. apply page_on_line. zbool. naive_solver.
Qed.

Lemma file_join_covers path writable s : longEnough area (inl path) s ->
  wp (File.openJoiner path writable) os (covered area s) s.
Proof.
  intros Hl. unfold File.openJoiner, File.openFile, File.mapFd, File.readRoofCache, File.askRoofPermission, File.verb, File.requireResult.
  posix_run; cbn [covered Mapping_t.size Mapping_t.base existsb] in *; try solve [find_refused].
  all: opened_long; zbool; try done; try lia; (split; [by apply roundUp_covers|apply page_on_line; naive_solver]).
Qed.

Lemma join_covers writable uri s : laid area uri s -> wp (Memory.join writable uri) os (covered area s) s.
Proof.
  intros (parts & Hp & Hl). unfold Memory.join. unfold placeOf in Hl. rewrite Hp in Hl |- *.
  destruct Hl as [[Hs Ho]|[[Hs|Hs] (place & Hplace & Hl)]]; rewrite Hs in *; cbn [bool_decide] in *.
  - by apply dax_join_covers.
  - cbn in Hplace. unfold Shm.join. destruct (Shm.normaliseShmName _) as [name|]; [|done]. injection Hplace as <-. by apply shm_join_covers.
  - injection Hplace as <-. by apply file_join_covers.
Qed.

(** A create that answers has made the object as long as the region. *)
Lemma shm_create_lays name s :
  wp (Shm.openCreator name area) os (fun r s' => match r with inl _ => longEnough area (inr name) s' | inr _ => True end) s.
Proof.
  unfold Shm.openCreator. posix_run; try done. eapply longEnough_seen; [|done]. eapply longEnough_seen; [|done].
  unfold PmdAlign in Harea. apply (truncated_long area Harea); [by apply descriptor_opened|zbool; lia| |]; rewrite s64_small by lia; lia.
Qed.

Lemma file_create_lays path coherency s :
  wp (File.openCreator path area coherency) os (fun r s' => match r with inl _ => longEnough area (inl path) s' | inr _ => True end) s.
Proof.
  unfold PmdAlign in Harea. assert (area <= roundUp area PmdAlign < 2 ^ 63) as Hr.
  { destruct (roundUp_spec area ltac:(lia)) as (_ & ? & _). unfold PmdAlign in *. lia. }
  unfold File.openCreator, File.openFile. apply wp_try, wp_bind, wp_posix; [done|]. intros opened _. cbv beta. case_if; [done|].
  apply wp_ret, wp_bind, wp_posix; [done|]. intros stat Hstat. cbv beta zeta.
  assert (forall s', longEnough area (inl path) s' -> wp (let+ _ := File.grantDefaultPerms (result opened) in
      let! placed := File.readRoofCache (result opened) in
      let+ base := File.mapFd (result opened) (roundUp area PmdAlign) true in
      ret (inl (Mapping_t.mk base (roundUp area PmdAlign) placed))) os
    (fun r s' => match r with inl _ => longEnough area (inl path) s' | inr _ => True end) s') as Hrest.
  { intros s' Hl. unfold File.grantDefaultPerms, File.setRoofDefaultPermission, File.readRoofCache, File.mapFd, File.askRoofPermission, File.verb,
      File.requireResult. posix_run; try done; by repeat (eapply longEnough_seen; [|done]). }
  apply wp_try, (wp_mono os _ (fun r s' => match r with inl _ => longEnough area (inl path) s' | inr _ => True end));
    [|by intros [[]|] s' Hl; [apply Hrest|]]. destruct (_ || _) eqn:Hgrow.
  - unfold File.grow, File.setCachePolicy, File.setRoofCache, File.verb, File.requireResult. posix_run; try done;
      apply (truncated_long area Harea); rewrite ?s64_small by lia; try lia; try (zbool; lia);
      repeat (rewrite descriptors_seen by done); by apply descriptor_opened.
  - apply wp_ret. zbool. destruct (Hstat ltac:(lia)) as [Hoff Hsame]. unfold off_t in Hoff. zbool.
    rewrite u64_small in * by (unfold in_u64; lia). exists (written stat). split; [|lia].
    unfold sizeOf in Hsame |- *. cbn [files observe] in Hsame |- *. rewrite descriptor_opened in Hsame |- * by (by apply Z.ltb_ge). rewrite sizes_opened in *.
    case_match eqn:Hknown; [by rewrite sizes_opened, (Hsame _ _ eq_refl Hknown)|].
    unfold off_t. rewrite (proj2 (Z.leb_le 0 (result _))), (proj2 (Z.leb_le 0 _)), (proj2 (Z.ltb_lt _ _)) by lia. apply lookup_insert_eq.
Qed.

Lemma create_lays uri coherency s : wp (Memory.create uri area coherency) os (fun r s' => match r with
  | inl _ => laid area uri s' | inr _ => True end) s.
Proof.
  unfold Memory.create, laid, placeOf. destruct (Uri.parseUri uri) as [parts|] eqn:Hp; [|done].
  destruct (bool_decide (Uri.scheme parts = str "dax")) eqn:Hd; [|destruct (bool_decide (Uri.scheme parts = str "shm")) eqn:Hs;
    [|destruct (bool_decide (Uri.scheme parts = str "file")) eqn:Hf; [|done]]].
  - apply bool_decide_eq_true in Hd. unfold Dax.create, Dax.openMmap. posix_run; try done. exists parts. split; [done|left]. zbool. done.
  - apply bool_decide_eq_true in Hs. unfold Shm.create. case_if; [done|]. destruct (Shm.normaliseShmName _) as [name|]; [|done].
    eapply wp_mono; [apply shm_create_lays|]. intros [m|] s' Hl; [|done]. exists parts. eauto 10.
  - apply bool_decide_eq_true in Hf. eapply wp_mono; [apply file_create_lays|]. intros [m|] s' Hl; [|done]. exists parts. eauto 10.
Qed.

Lemma laid_same uri s s' : sameSize uri s s' -> laid area uri s -> laid area uri s'.
Proof.
  intros Hsame (parts & Hp & Hl). exists parts. split; [done|]. destruct Hl as [|[Hs (place & Hplace & size & Hl)]]; [by left|right].
  split; [done|]. exists place. split; [done|]. exists size. by rewrite (Hsame place Hplace).
Qed.
End joins.

(** A bind that finds the header formatted takes the layout it describes. *)
Lemma bindBlocking_ready ProfileEnabled fuel base size looks clock timeout header strategy ag :
  base mod 64 = 0 -> (forall n, looks n = header) -> Header_t.isFormatted header = true ->
  Header_t.getStrategy header = strategy -> Header_t.getAggregatorGroups header = ag ->
  let dc := Header_t.numDomains header in let pc := Header_t.maxPeers header in
  valid_dims dc pc ag -> computeAreaSize ProfileEnabled dc pc strategy ag <= size ->
  Geometry.bindBlocking ProfileEnabled (S fuel) (Geometry.unbound (Some base) size) looks clock timeout =
  Some (inl (built ProfileEnabled base size dc pc strategy ag)).
Proof.
  intros Hb Hl Hf Hst Hg dc pc Hd Hs. unfold Geometry.bindBlocking. cbn [Geometry.bound_ Geometry.memoryBase Geometry.unbound waitUntil].
  unfold Geometry.isHeaderReady. cbn [Geometry.memoryBase]. rewrite !Hl, Hf. change (Geometry.memoryBase (Geometry.unbound (Some base) size)) with (Some base).
  cbv beta iota zeta. rewrite !Hl, Hst, Hg. fold dc pc.
  pose proof Hd as [-> -> Hag]. change (Geometry.mappedSize (Geometry.unbound (Some base) size)) with size. cbn [negb orb]. rewrite (proj2 (Z.ltb_ge pc ag)), (proj2 (Z.ltb_ge _ _) Hs) by lia.
  fold (built ProfileEnabled base size dc pc strategy ag). by rewrite buildLayout_aligned.
Qed.

(** C34: a region that was made can be opened.  On an operating system that
    answers as documented, when a format of [uri] succeeded, the create it went
    through left a history from which every later join of the same uri, joiner or
    observer, whatever was called since while nobody gave the object another
    size, either answers a mapping long enough for the region, on which the
    joiner's bind and the observer's probe both answer exactly the layout the
    options asked for; or throws because a call it made was refused.  So no
    joiner is turned away for a mapping too short, the single PMD of a dax device
    included. *)
Theorem created_region_opens ProfileEnabled uri opts generation r os s :
  answersPosix os -> 0 <= FormatOpts_t.aggregatorGroups opts ->
  Session.format ProfileEnabled (createdBy os s uri) opts generation = inl r ->
  exists made s1, Memory.create uri (areaOf ProfileEnabled opts) (FormatOpts_t.coherency opts) os s = Some (inl made, s1) /\
  forall s2 writable, sameSize uri s1 s2 ->
  wp (Memory.join writable uri) os (fun joined s3 => match joined with
    | inr _ => refusedSince s2 s3
    | inl m =>
        let g := built ProfileEnabled (Mapping_t.base m) (Mapping_t.size m) (FormatOpts_t.maxDomains opts)
          (FormatOpts_t.maxPeers opts) (Strategy_to_u32 (FormatOpts_t.strategy opts)) (FormatOpts_t.aggregatorGroups opts) in
        let mapped := Geometry.unbound (Some (Mapping_t.base m)) (Mapping_t.size m) in
        areaOf ProfileEnabled opts <= Mapping_t.size m /\
        (forall fuel looks clock timeout, (forall n, looks n = Region.header r) ->
          Geometry.bindBlocking ProfileEnabled (S fuel) mapped looks clock timeout = Some (inl g)) /\
        (exists snapshot, Inspector.readHeader ProfileEnabled mapped r = (Some snapshot, g))
    end) s2.
Proof.
  intros Hos Hag Hfmt. pose proof (format_dims ProfileEnabled opts Hag _ _ _ Hfmt) as Hd.
  pose proof (format_header ProfileEnabled opts _ _ _ Hfmt) as (Hf & Hdc & Hpc & Hst & Hg).
  pose proof (computeAreaSize_eq ProfileEnabled _ _ (Strategy_to_u32 (FormatOpts_t.strategy opts)) _ Hd) as [_ Ha].
  assert (0 < areaOf ProfileEnabled opts <= PmdAlign) as Harea by (unfold areaOf, PmdAlign; lia).
  destruct (format_mapping ProfileEnabled opts _ _ _ Hfmt) as (base & size & Hmade & _). unfold createdBy in Hmade.
  pose proof (create_lays os _ Hos Harea uri (FormatOpts_t.coherency opts) s) as Hlays. unfold wp in Hlays.
  destruct (Memory.create uri _ _ os s) as [[[made|] s1]|]; [|done..]. exists made, s1. split; [done|]. intros s2 writable Hsame.
  eapply wp_mono; [apply (join_covers os _ Hos Harea); by eapply laid_same|]. intros [m|] s3 Hm; [|done].
  destruct Hm as [Hs Hb]. unfold areaOf in Hs |- *. rewrite <- Hdc, <- Hpc in Hs, Hd |- *. split; [done|split].
  - intros fuel looks clock timeout Hl. by apply bindBlocking_ready.
  - unfold Inspector.readHeader.
    rewrite (rebind_ready ProfileEnabled (Geometry.unbound (Some (Mapping_t.base m)) (Mapping_t.size m)) (Mapping_t.base m) _ _ _
      eq_refl Hb Hf Hst Hg Hd Hs) by done. cbn [negb]. eauto.
Qed.

(** ** The format tool *)

Module cme_format.

Definition strategyFromName (name : list Z) : Strategy + Error :=
  if bool_decide (name = str "order") then inl Order
  else if bool_decide (name = str "request") then inl Request
  else if bool_decide (name = str "request_agg") then inl RequestAgg
  else if bool_decide (name = str "peterson") then inl Peterson
  else inr InvalidArgumentError.

Definition coherencyFromName (name : list Z) : CoherencyMode + Error :=
  if bool_decide (name = str "cache_coherent") then inl CacheCoherent
  else if bool_decide (name = str "uncached") then inl Uncached
  else if bool_decide (name = str "flush") then inl Flush
  else inr InvalidArgumentError.

(** The loop of [splitOnCommas]: the name being read, and what is left. *)
Fixpoint splitOnCommas_from (name listed : list Z) : list (list Z) :=
  let named := match name with [] => [] | _ => [rev name] end in
  match listed with
  | [] => named
  | c :: rest => if c =? 44 then named ++ splitOnCommas_from [] rest else splitOnCommas_from (c :: name) rest
  end.
Definition splitOnCommas (listed : list Z) : list (list Z) := splitOnCommas_from [] listed.

(** What the tool asks of the library: [Inspector::open] and its [readHeader],
    [Session::format], [Session::open] and [createDomain]. *)
Class Libcme (E W : Type) := {
  inspect : list Z -> run E W (option Inspector.HeaderSnapshot_t + Error);
  formatRegion : list Z -> FormatOpts_t.t -> run E W (unit + Error);
  openSession : list Z -> run E W (unit + Error);
  createDomain : list Z -> run E W (unit + Error);
}.

(** A look changes nothing, and a region that was formatted answers the look. *)
Class LibcmeLaws (E W : Type) `{Libcme E W} := {
  inspect_looks : forall uri e w, exists answer, inspect uri e w = Some (answer, w);
  format_answers : forall uri opts e w w', 0 <= FormatOpts_t.aggregatorGroups opts -> formatRegion uri opts e w = Some (inl tt, w') ->
    exists snapshot, inspect uri e w' = Some (inl (Some snapshot), w');
}.

Section tool.
Context {E W : Type} `{Libcme E W}.
(** The files of the host and the account the tool runs as. *)
Context (files : list Z -> option Opened_t) (euid : Z).

Definition alreadyLive (uri : list Z) : run E W (bool + Error) :=
  let! probed := inspect uri in
  ret (match probed with
       | inl header => inl (match header with Some _ => true | None => false end)
       | inr BackendError => inl false
       | inr error => inr error
       end).

(** Each name in turn; the first failure ends the loop. *)
Fixpoint createAll (names : list (list Z)) : run E W (unit + Error) :=
  match names with
  | [] => ret (inl tt)
  | name :: rest =>
      let! created := createDomain name in
      match created with inr error => ret (inr error) | inl _ => createAll rest end
  end.

(** The options, once the region may be formatted. *)
Definition readOpts (args : list (list Z)) (deployed : KeyValueConfig.t) : FormatOpts_t.t + unit :=
  let d := FormatOpts_t.default in
  match getUnsigned 32 deployed (str "region.max_domains") (FormatOpts_t.maxDomains d),
        getUnsigned 32 deployed (str "region.max_peers") (FormatOpts_t.maxPeers d) with
  | inl domains, inl peers =>
      match strategyFromName (cliargs.getWord args (str "--strategy") (getString deployed (str "region.strategy") (str "peterson"))),
            coherencyFromName (cliargs.getWord args (str "--coherency") (str "uncached")) with
      | inl strategy, inl coherency =>
          inl (FormatOpts_t.mk (cliargs.getNumber 32 args (str "--max-domains") domains)
                 (cliargs.getNumber 32 args (str "--max-peers") peers) strategy (FormatOpts_t.aggregatorGroups d) coherency)
      | _, _ => inr tt
      end
  | _, _ => inr tt
  end.

(** From the format to the domains; the exit code. *)
Definition layOut (args : list (list Z)) (deployed : KeyValueConfig.t) (uri : list Z) : run E W Z :=
  match readOpts args deployed with
  | inr _ => ret 1
  | inl opts =>
      let! formatted := formatRegion uri opts in
      match formatted with
      | inr _ => ret 1
      | inl _ =>
          let listed := cliargs.getWord args (str "--domains") [] in
          match (match listed with [] => getList deployed (str "region.domains") | _ => Some (inl (splitOnCommas listed)) end) with
          | None => outOfFuel
          | Some (inr _) => ret 1
          | Some (inl []) => ret 0
          | Some (inl domains) =>
              let! opened := openSession uri in
              match opened with
              | inr _ => ret 1
              | inl _ => let! created := createAll domains in ret (match created with inr _ => 1 | inl _ => 0 end)
              end
          end
      end
  end.

Definition main (argv : list (list Z)) : run E W Z :=
  let args := cliargs.takeArgs argv in
  match loadIfPresent euid (files (cliargs.getWord args (str "--config") [])) with
  | inr _ => ret 1
  | inl deployed =>
      let uri := cliargs.getWord args (str "--uri") (getString deployed (str "region.uri") []) in
      if isEmpty uri then ret 2
      else if negb (cliargs.argFlag args (str "--force")) then
        let! live := alreadyLive uri in
        match live with
        | inr _ => ret 1
        | inl true => ret 3
        | inl false => layOut args deployed uri
        end
      else layOut args deployed uri
  end.
End tool.

End cme_format.
Import cme_format.

(** ** The tool over the library *)

(** One host: the world of its sessions, what [Memory::create] answers, the wall
    clock a format stamps, and the state a process starts a session in. *)
Record Host := mkHost {
  host_env : Env.t;
  host_memory : list Z -> Z -> CoherencyMode -> (option Z * Z) + Error;
  host_generation : Z;
  host_fresh : Region.t -> World.t;
  host_clock : nat -> Z;
}.
(** The objects under their uris, each with the range it is mapped at, and the
    session the tool has open. *)
Record Objects := mkObjects { objects : gmap (list Z) (Z * Z * Region.t); session : option (list Z * World.t); }.

Section library.
Context (ProfileEnabled : bool) {policy : SuccessorPolicy}.

(** Run a call of the session on [uri] and keep what it left in the region. *)
Definition inSession {A} (uri : list Z) (world : World.t) (m : run Env.t World.t (A + Error)) : run Host Objects (unit + Error) := fun host w =>
  match m (host_env host) world with
  | None => None
  | Some (outcome, world) =>
      Some (match outcome with inl _ => inl tt | inr error => inr error end,
            mkObjects (alter (fun o => (o.1, World.region world)) uri (objects w)) (Some (uri, world)))
  end.

#[export] Instance toolLibrary : Libcme Host Objects := {
  inspect uri := fun _ w =>
    match Uri.parseUri uri, objects w !! uri with
    | inr error, _ => Some (inr error, w)
    | inl _, None => Some (inr BackendError, w)
    | inl _, Some (base, size, r) =>
        Some (inl (Inspector.readHeader ProfileEnabled (Geometry.unbound (Some base) size) r).1, w)
    end;
  formatRegion uri opts := fun host w =>
    match Uri.parseUri uri with
    | inr error => Some (inr error, w)
    | inl _ =>
        match Session.format ProfileEnabled (host_memory host uri) opts (host_generation host),
              host_memory host uri (areaOf ProfileEnabled opts) (FormatOpts_t.coherency opts) with
        | inl r, inl (Some base, size) => Some (inl tt, mkObjects (<[uri := (base, size, r)]> (objects w)) (session w))
        | inl _, _ => Some (inr BackendError, w)
        | inr error, _ => Some (inr error, w)
        end
    end;
  openSession uri := fun host w =>
    match objects w !! uri with
    | None => Some (inr BackendError, w)
    | Some (base, size, r) =>
        inSession uri (host_fresh host r)
          (Session.open_ ProfileEnabled (inl (Geometry.unbound (Some base) size)) (fun _ => Region.header r) (host_clock host)
             (timing.Millis 5000)) host w
    end;
  createDomain name := fun host w =>
    match session w with
    | None => Some (inr JoinError, w)
    | Some (uri, world) => inSession uri world (Session.createDomain true name) host w
    end;
}.

#[export] Instance toolLibrary_laws : LibcmeLaws Host Objects.
Proof.
  split.
  - intros uri e w. cbn. destruct (Uri.parseUri uri); [|eauto]. destruct (objects w !! uri) as [[[base size] r]|]; eauto.
  - intros uri opts e w w' Hag. cbn. destruct (Uri.parseUri uri); [|done].
    destruct (Session.format _ _ _ _) as [r|] eqn:Hf; [|done].
    destruct (format_mapping _ _ _ _ _ Hf) as (base & size & -> & Hs & Hb). intros [= <-]. cbn. rewrite lookup_insert_eq.
    pose proof (format_dims _ _ Hag _ _ _ Hf) as Hd. pose proof (format_header _ _ _ _ _ Hf) as (Hfm & Hdc & Hpc & Hst & Hg).
    unfold areaOf in Hs. rewrite <- Hdc, <- Hpc in Hs, Hd. unfold Inspector.readHeader.
    rewrite (rebind_ready ProfileEnabled (Geometry.unbound (Some base) size) base _ _ _ eq_refl Hb Hfm Hst Hg Hd Hs) by done.
    cbn. eauto.
Qed.
End library.

(** ** A region is formatted once *)

Section once.
Context {E W : Type} `{LibcmeLaws E W}.
Context (files : list Z -> option Opened_t) (euid : Z).

(** The deployment file of a command line and the region it names. *)
Definition target (argv : list (list Z)) : option (KeyValueConfig.t * list Z) :=
  let args := cliargs.takeArgs argv in
  match loadIfPresent euid (files (cliargs.getWord args (str "--config") [])) with
  | inr _ => None
  | inl deployed => Some (deployed, cliargs.getWord args (str "--uri") (getString deployed (str "region.uri") []))
  end.

Lemma main_live argv deployed uri e w snapshot :
  target argv = Some (deployed, uri) -> uri <> [] -> cliargs.argFlag (cliargs.takeArgs argv) (str "--force") = false ->
  inspect uri e w = Some (inl (Some snapshot), w) -> main files euid argv e w = Some (3, w).
Proof.
  unfold target, main. intros Ht Hu Hf Hi. destruct (loadIfPresent _ _) as [values|]; [|done]. injection Ht as <- Huri.
  rewrite Huri, Hf. destruct (isEmpty uri) eqn:He; [by destruct uri|]. cbn [negb]. unfold bind, alreadyLive, bind. by rewrite Hi.
Qed.

Lemma layOut_formats args deployed uri e w w' :
  layOut args deployed uri e w = Some (0, w') -> cliargs.getWord args (str "--domains") [] = [] ->
  getList deployed (str "region.domains") = Some (inl []) ->
  exists opts, 0 <= FormatOpts_t.aggregatorGroups opts /\ formatRegion uri opts e w = Some (inl tt, w').
Proof.
  unfold layOut. intros Hl Hd Hn. destruct (readOpts args deployed) as [opts|] eqn:Ho; [|done].
  exists opts. split.
  { unfold readOpts in Ho. destruct (getUnsigned _ _ _ _); [|done]. destruct (getUnsigned _ _ _ _); [|done].
    destruct (strategyFromName _); [|done]. destruct (coherencyFromName _); [|done]. by injection Ho as <-. }
  unfold bind in Hl. destruct (formatRegion uri opts e w) as [[[[]|error] w1]|]; [|done..]. rewrite Hd, Hn in Hl.
  unfold ret in Hl. by injection Hl as <-.
Qed.

Lemma main_formats argv deployed uri e w w' :
  target argv = Some (deployed, uri) -> main files euid argv e w = Some (0, w') ->
  cliargs.getWord (cliargs.takeArgs argv) (str "--domains") [] = [] -> getList deployed (str "region.domains") = Some (inl []) ->
  uri <> [] /\ exists snapshot, inspect uri e w' = Some (inl (Some snapshot), w').
Proof.
  unfold target, main. destruct (loadIfPresent _ _) as [values|]; [|done]. intros [= <- <-] Hm Hd Hn.
  set (uri := cliargs.getWord _ (str "--uri") _) in *. destruct (isEmpty uri) eqn:He; [done|].
  split; [intros Hu; by rewrite Hu in He|].
  assert (layOut (cliargs.takeArgs argv) values uri e w = Some (0, w')) as Hl.
  { destruct (negb _); [|done]. unfold bind, alreadyLive, bind in Hm. destruct (inspect_looks uri e w) as [answer Hi]. rewrite Hi in Hm.
    cbn in Hm. destruct answer as [[snapshot|]|[]]; try done. }
  apply layOut_formats in Hl as (opts & Hag & Hl); [|done..]. by eapply format_answers.
Qed.

(** The format tool takes no region from whoever is on it.  Run without
    [--force] on a region that answers, it leaves the host as it found it and
    says so with its exit code; and a region it has laid out answers, so a
    second run on the same uri is refused, whatever either command line asked
    for. *)
Theorem formats_once argv argv' deployed deployed' uri e w :
  target argv = Some (deployed, uri) -> target argv' = Some (deployed', uri) -> uri <> [] ->
  cliargs.argFlag (cliargs.takeArgs argv') (str "--force") = false ->
  (forall snapshot, inspect uri e w = Some (inl (Some snapshot), w) -> main files euid argv' e w = Some (3, w)) /\
  (forall w', main files euid argv e w = Some (0, w') ->
    cliargs.getWord (cliargs.takeArgs argv) (str "--domains") [] = [] -> getList deployed (str "region.domains") = Some (inl []) ->
    main files euid argv' e w' = Some (3, w')).
Proof.
  intros Ht Ht' Hu Hf. split; [intros snapshot Hi; by eapply main_live|]. intros w' Hm Hd Hn.
  destruct (main_formats _ _ _ _ _ _ Ht Hm Hd Hn) as (_ & snapshot & Hi). by eapply main_live.
Qed.
End once.

(** ** Examples *)

Module provisioned.
Definition env : Env.t := Env.mk (fun n => Z.of_nat n) (fun n => Z.of_nat n) (fun n => Z.of_nat n) (fun _ r => r) 10.
Definition world (r : Region.t) : World.t := World.mk r (sample.local 0) 0 0 0 0 [].
(** An operating system whose descriptors and mappings come out as asked. *)
Definition os : Os := mkOs false (fun _ c => match c with
  | Open _ _ _ | ShmOpen _ _ _ => mkAnswer 3 0
  | Fstat _ => mkAnswer 0 2097152
  | Mmap _ _ _ _ => mkAnswer 65536 0
  | _ => mkAnswer 0 0
  end).
Definition host : Host := mkHost env (createdBy os []) 77 world (fun n => Z.of_nat n).
Definition uri : list Z := str "dax:/dev/dax0.0@2097152".
Definition command : list (list Z) := [str "cme-format"; str "--uri"; uri; str "--max-domains"; str "4"; str "--strategy"; str "request"].
Definition nofiles : list Z -> option Opened_t := fun _ => None.
Definition opts : FormatOpts_t.t := FormatOpts_t.mk 4 8 Request 0 Uncached.
End provisioned.

(** A host whose files are what the calls made them. *)
Definition posixHost : Os := mkOs false (fun history c => match c with
  | Open _ _ _ | ShmOpen _ _ _ => mkAnswer 3 0
  | Fstat file => mkAnswer 0 (match descriptors (files history) !! file with
      | Some place => match sizeOf history place with Some size => if off_t size then size else 0 | None => 0 end
      | None => 0
      end)
  | Mmap _ _ _ _ => mkAnswer 65536 0
  | _ => mkAnswer 0 0
  end).

Lemma sizes_off_t history place size : sizeOf history place = Some size -> off_t size = true.
Proof.
  unfold sizeOf. revert place size. induction history as [|[c a] history IH]; intros place size; [done|]. cbn [files].
  destruct c; cbn [observe]; rewrite ?sizes_opened; try apply IH; repeat case_match; try apply IH; cbn [sizes];
    (destruct (decide (place = p)) as [->|]; [rewrite lookup_insert_eq; intros [= <-]; by destruct (off_t _) in *; zbool|
      rewrite lookup_insert_ne by done; apply IH]).
Qed.

Lemma posixHost_documented : answersPosix posixHost.
Proof.
  intros history c. destruct c; cbn [documented posixHost answers result written]; try done; [|by right].
  intros _. split; [repeat case_match; done|]. intros place size Hf Hs. rewrite Hf, Hs. by rewrite (sizes_off_t _ _ _ Hs).
Qed.

Definition shared : list Z := str "shm:/cme".

Lemma created_region_opens_witness : exists r made s1 m,
  Session.format false (createdBy posixHost [] shared) provisioned.opts 77 = inl r /\
  Memory.create shared (areaOf false provisioned.opts) Uncached posixHost [] = Some (inl made, s1) /\
  answer (Memory.join true shared) posixHost s1 = Some (inl m) /\
  areaOf false provisioned.opts <= Mapping_t.size m.
Proof.
  destruct (Session.format false (createdBy posixHost [] shared) provisioned.opts 77) as [r|error] eqn:Hf;
    [|vm_compute in Hf; discriminate].
  destruct (created_region_opens false shared provisioned.opts 77 r posixHost [] posixHost_documented ltac:(cbn; lia) Hf)
    as (made & s1 & Hc & Hj).
  pose proof (Hj s1 true ltac:(intros place _; reflexivity)) as H. clear Hj.
  exists r, made, s1. vm_compute in Hc. injection Hc as <- <-.
  eexists. split; [reflexivity|]. split; [vm_compute; reflexivity|]. split; [vm_compute; reflexivity|].
  exact (proj1 H).
Defined.

Lemma formats_once_witness : exists w',
  main (H := toolLibrary (policy := orderPolicy) false) provisioned.nofiles 0 provisioned.command provisioned.host (mkObjects ∅ None) = Some (0, w') /\
  main (H := toolLibrary (policy := orderPolicy) false) provisioned.nofiles 0 provisioned.command provisioned.host w' = Some (3, w').
Proof.
  destruct (main (H := toolLibrary (policy := orderPolicy) false) provisioned.nofiles 0 provisioned.command provisioned.host (mkObjects ∅ None)) as [[code w']|] eqn:Hm;
    [|vm_compute in Hm; discriminate].
  assert (code = 0) as -> by (apply (f_equal (fun o => match o with Some (c, _) => c | None => 0 end)) in Hm; vm_compute in Hm; exact (eq_sym Hm)).
  exists w'. split; [reflexivity|].
  destruct (formats_once (H0 := toolLibrary_laws (policy := orderPolicy) false) provisioned.nofiles 0 provisioned.command provisioned.command KeyValueConfig.empty
    KeyValueConfig.empty provisioned.uri provisioned.host (mkObjects ∅ None)) as [_ Ho]; [reflexivity|reflexivity|discriminate|reflexivity|].
  apply (Ho w' Hm); reflexivity.
Defined.
