(* ===== verification/Startup.v ===== *)
(** * Startup: one daemon per area, and how it is told to stop

    Models [src/daemon/daemon/main.cpp] with the lock file it takes
    ([src/daemon/shared/posix/lock_file.hpp]) and the boundaries a test build can
    arm ([src/daemon/daemon/observe/failpoint.cpp]): what a start does up to the
    run, the processes of a host contending for one area, and the stop a signal
    handler hands to the control loop. *)

From stdpp Require Import strings.
From S2P Require Import Prelude Effect Types KvConfig Settings.
Import KeyValueConfig.

(** ** The command line *)

Definition DefaultConfigPath : list Z := str "/etc/cme/cmed.yaml".

Fixpoint readConfigPath_from (arguments : list (list Z)) : list Z :=
  match arguments with
  | arg :: (next :: _) as rest => if bool_decide (arg = str "--config") then next else readConfigPath_from rest
  | _ => DefaultConfigPath
  end.
Definition readConfigPath (arguments : list (list Z)) : list Z := readConfigPath_from (tail arguments).

Module failpoint.

Inductive Boundary :=
| None_ | AcquireBeforeRecord | GrantBeforePublish | GrantBeforeWake | DropBeforeRelease | DepartBeforeGiveBack
| WelcomeBeforeAnswer.
#[export] Instance Boundary_eq_dec : EqDecision Boundary.
Proof. solve_decision. Defined.

Definition readName (boundary : Boundary) : list Z :=
  match boundary with
  | AcquireBeforeRecord => str "acquire.before_record"
  | GrantBeforePublish => str "grant.before_publish"
  | GrantBeforeWake => str "grant.before_wake"
  | DropBeforeRelease => str "drop.before_release"
  | DepartBeforeGiveBack => str "depart.before_give_back"
  | WelcomeBeforeAnswer => str "welcome.before_answer"
  | None_ => str "none"
  end.

Definition Every : list Boundary :=
  [AcquireBeforeRecord; GrantBeforePublish; GrantBeforeWake; DropBeforeRelease; DepartBeforeGiveBack; WelcomeBeforeAnswer].
Definition readBoundary (name : list Z) : Boundary :=
  default None_ (find_first (fun boundary => bool_decide (name = readName boundary)) Every).

(** The process's own words; [Compiled] is the build axis. *)
Record t := mk { armedBoundary : Boundary; holdRather : bool; reachedHold : bool; letGo : bool; }.
Definition initial : t := mk None_ false false false.

(** [arm] over the arguments past the program's name. *)
Fixpoint arm_from (Compiled : bool) (arguments : list (list Z)) (s : t) : bool * t :=
  match arguments with
  | arg :: (next :: _) as rest =>
      if negb (bool_decide (arg = str "--arm")) then arm_from Compiled rest s
      else if negb Compiled then (false, s)
      else if bool_decide (readBoundary next = None_) then (false, s)
      else (true, mk (readBoundary next) false (reachedHold s) (letGo s))
  | _ => (true, s)
  end.
Definition arm (Compiled : bool) (arguments : list (list Z)) (s : t) : bool * t := arm_from Compiled (tail arguments) s.

Definition hold (boundary : Boundary) (s : t) : t := mk boundary true false false.
Definition release (s : t) : t := mk (armedBoundary s) (holdRather s) (reachedHold s) true.

(** What a thread does at a boundary: passes, dies, or waits for the release. *)
Inductive Reached := Passes | Dies | Waits.
Definition reach (boundary : Boundary) (s : t) : Reached * t :=
  if negb (bool_decide (armedBoundary s = boundary)) then (Passes, s)
  else if negb (holdRather s) then (Dies, s)
  else (Waits, mk (armedBoundary s) (holdRather s) true (letGo s)).

(** A boundary's name arms that boundary and no other. *)
Lemma readBoundary_readName boundary : readBoundary (readName boundary) = boundary.
Proof. by destruct boundary; vm_compute. Qed.

End failpoint.

(** ** The lock of an area *)

Module cmed.

(** [LockFile::take]: what [open] answered, and what [flock] did. *)
Inductive Flocked := Locked | WouldBlock | FlockFailed.
Definition LockFile_take (opened : bool) (flocked : Flocked) : option bool :=
  if negb opened then None
  else match flocked with Locked => Some true | WouldBlock => Some false | FlockFailed => None end.

(** ** A start *)

(** Where a start got to: an exit code, or the run. *)
Inductive Started := Exits (code : Z) | Runs (config : DaemonSettings_t.t).

Section host.
Context (getpwnam getgrnam : list Z -> option Z) (files : list Z -> option Opened_t) (Compiled : bool).

(** [main] up to [run].  [take] is [LockFile::take] on a path: [None] a throw,
    [Some false] a lock another process holds. *)
Definition start (euid : Z) (arguments : list (list Z)) (take : list Z -> option bool) : Started :=
  match loadDaemonConfig getpwnam getgrnam euid (files (readConfigPath arguments)) with
  | Some (inl config) =>
      if negb (failpoint.arm Compiled arguments failpoint.initial).1 then Exits 2
      else
        match take (DaemonSettings_t.lockPath config) with
        | None => Exits 1
        | Some false => Exits 3
        | Some true => Runs config
        end
  | _ => Exits 1
  end.

(** The processes of a host: the lock the kernel holds on each path, and what
    each process is running.  A path is held through one descriptor, and closing
    it, the kernel's own closing at a death too, gives the path up. *)
Record host_state := mkState { held : gmap (list Z) Z; running : gmap Z DaemonSettings_t.t; }.

Definition flock (s : host_state) (path : list Z) : Flocked :=
  match held s !! path with None => Locked | Some _ => WouldBlock end.

Inductive step (s : host_state) : host_state -> Prop :=
| step_start pid euid arguments opens config :
    running s !! pid = None ->
    start euid arguments (fun path => LockFile_take (opens path) (flock s path)) = Runs config ->
    step s (mkState (<[DaemonSettings_t.lockPath config := pid]> (held s)) (<[pid := config]> (running s)))
| step_refused pid euid arguments opens code :
    start euid arguments (fun path => LockFile_take (opens path) (flock s path)) = Exits code ->
    running s !! pid = None -> step s s
| step_ends pid config :
    running s !! pid = Some config ->
    step s (mkState (delete (DaemonSettings_t.lockPath config) (held s)) (delete pid (running s))).

(** Every process that runs holds the lock of its area, and nothing else does. *)
Definition locked (s : host_state) : Prop :=
  forall path pid, held s !! path = Some pid <->
    exists config, running s !! pid = Some config /\ DaemonSettings_t.lockPath config = path.

Lemma start_free euid arguments opens s config :
  start euid arguments (fun path => LockFile_take (opens path) (flock s path)) = Runs config ->
  held s !! DaemonSettings_t.lockPath config = None.
Proof.
  unfold start. destruct (loadDaemonConfig _ _ _ _) as [[c|]|]; [|done..]. destruct (negb _); [done|].
  unfold LockFile_take, flock. destruct (negb _); [done|].
  destruct (held s !! DaemonSettings_t.lockPath c) eqn:Hh; [done|]. by intros [= <-].
Qed.

Lemma locked_step s s' : locked s -> step s s' -> locked s'.
Proof.
  unfold locked. intros Hl Hs. destruct Hs as [pid euid arguments opens config Hp Hr|pid euid arguments opens code Hr Hp|pid config Hp]; [|done|].
  - apply start_free in Hr. intros path other. cbn. rewrite !lookup_insert_Some, Hl. split.
    + intros [[<- <-]|[Hne (c & Hc & Hpath)]]; [exists config; rewrite lookup_insert_eq; done|].
      exists c. rewrite lookup_insert_ne; [done|]. intros ->. congruence.
    + intros (c & [[-> ->]|[Hne Hc]]%lookup_insert_Some & Hpath); [by left|]. right. split; [|eauto].
      intros Heq. assert (held s !! DaemonSettings_t.lockPath config = Some other) as Hh by (apply Hl; exists c; split; congruence). congruence.
  - intros path other. cbn. rewrite lookup_delete_Some, Hl. split.
    + intros [Hne (c & Hc & Hpath)]. exists c. rewrite lookup_delete_ne; [done|]. intros ->. congruence.
    + intros (c & [Hne Hc]%lookup_delete_Some & Hpath). split; [|eauto]. intros Heq.
      assert (held s !! path = Some pid) as H1 by (apply Hl; eauto). assert (held s !! path = Some other) as H2 by (apply Hl; eauto). congruence.
Qed.

Lemma socketPath_lockPath c c' : DaemonSettings_t.socketPath c = DaemonSettings_t.socketPath c' ->
  DaemonSettings_t.lockPath c = DaemonSettings_t.lockPath c'.
Proof.
  unfold DaemonSettings_t.socketPath, DaemonSettings_t.lockPath, buildSocketPath. rewrite !app_assoc. by intros ->%(inj (.++ _)).
Qed.

(** C38: an area is served by one daemon.  However starts, refusals and deaths of
    daemons interleave on a host, no two that run ever bind one socket path, a
    start that finds the path taken exits without running, and a path whose
    daemon is gone is free for the next. *)
Theorem served_alone s s' :
  locked s -> rtc step s s' ->
  locked s' /\
  (forall pid pid' c c', running s' !! pid = Some c -> running s' !! pid' = Some c' ->
    DaemonSettings_t.socketPath c = DaemonSettings_t.socketPath c' -> pid = pid') /\
  (forall euid arguments opens config,
    start euid arguments (fun path => LockFile_take (opens path) (flock s' path)) = Runs config ->
    forall pid c, running s' !! pid = Some c -> DaemonSettings_t.socketPath c <> DaemonSettings_t.socketPath config) /\
  (forall path, (forall pid c, running s' !! pid = Some c -> DaemonSettings_t.lockPath c <> path) -> flock s' path = Locked).
Proof.
  intros Hl Hrtc. assert (locked s') as Hl' by (induction Hrtc; eauto using locked_step). split_and!; [done|..].
  - intros pid pid' c c' Hc Hc' Hsock%socketPath_lockPath.
    assert (held s' !! DaemonSettings_t.lockPath c = Some pid) as H1 by (apply Hl'; eauto).
    assert (held s' !! DaemonSettings_t.lockPath c = Some pid') as H2 by (apply Hl'; eauto). congruence.
  - intros euid arguments opens config Hr%start_free pid c Hc Hsock%socketPath_lockPath.
    assert (held s' !! DaemonSettings_t.lockPath c = Some pid) as H1 by (apply Hl'; eauto). congruence.
  - intros path Hf. unfold flock. destruct (held s' !! path) as [pid|] eqn:Hh; [|done].
    apply Hl' in Hh as (c & Hc & Hpath). by destruct (Hf pid c Hc).
Qed.

End host.

End cmed.
Import cmed.

(** ** The stop signal *)

Module StopSignal.

(** The thread that publishes the loop and turns it, and the signal handler, on
    whichever thread it runs. *)
Inductive Publisher := BeforeStore | BeforeLook | Turning | Ended.
Inductive Handler := Unsignalled | BeforeReach | Returned.

(** The two words, what each side has stored and not yet let out, and whether the
    loop's eventfd has been posted. *)
Record t := mk {
  handler_ : bool;
  asked_ : bool;
  handlerPending : bool;
  askedPending : bool;
  posted : bool;
  publisher : Publisher;
  signalled : Handler;
}.
Definition initial : t := mk false false false false false BeforeStore Unsignalled.

(** [buffered] is whether a store may still be on its way while its thread goes
    on to a load of another word, which release and acquire allow. *)
Inductive step (buffered : bool) : t -> t -> Prop :=
| publish_store h a hp ap p g :
    step buffered (mk h a hp ap p BeforeStore g)
      (if buffered then mk h a true ap p BeforeLook g else mk true a hp ap p BeforeLook g)
| publish_look h a hp ap p g : step buffered (mk h a hp ap p BeforeLook g) (mk h a hp ap (p || a) Turning g)
| stop_store h a hp ap p w :
    step buffered (mk h a hp ap p w Unsignalled)
      (if buffered then mk h a hp true p w BeforeReach else mk h true hp ap p w BeforeReach)
| stop_reach h a hp ap p w : step buffered (mk h a hp ap p w BeforeReach) (mk h a hp ap (p || h) w Returned)
| handler_lands h a ap p w g : step buffered (mk h a true ap p w g) (mk true a false ap p w g)
| asked_lands h a hp p w g : step buffered (mk h a hp true p w g) (mk h true hp false p w g)
| loop_ends h a hp ap g : step buffered (mk h a hp ap true Turning g) (mk false a hp ap true Ended g).

(** Where stores are seen in order: what each side has done, the words say. *)
Definition in_order (s : t) : Prop :=
  handlerPending s = false /\ askedPending s = false /\
  (publisher s = BeforeLook \/ publisher s = Turning -> handler_ s = true) /\
  (signalled s <> Unsignalled -> asked_ s = true) /\
  (publisher s = Ended -> posted s = true) /\
  (signalled s = Returned -> publisher s = Turning -> posted s = true).

Lemma in_order_step s s' : in_order s -> step false s s' -> in_order s'.
Proof.
  intros (Hh & Ha & Hp & Hs & He & Hr) Hst. unfold in_order in *. destruct Hst; cbn in *; try done.
  all: split_and!; try done; try naive_solver.
  - intros -> _. rewrite Hs by done. apply orb_true_r.
  - intros _ ->. rewrite Hp by auto. apply orb_true_r.
Qed.

(** In every order of the two sides' stores and loads, a stop whose handler has
    returned has reached the loop that is turning. *)
Theorem stop_reaches_loop s : rtc (step false) initial s -> signalled s = Returned -> publisher s = Turning -> posted s = true.
Proof.
  intros Hr. assert (in_order s) as (_ & _ & _ & _ & _ & H); [|exact H].
  assert (in_order initial) as Hi by (unfold in_order; cbn; naive_solver).
  induction Hr as [|s1 s2 s3 H12 _ IH]; [done|]. apply IH. by eapply in_order_step.
Qed.

(** With the orders the two words are declared at, each side may read the other's
    word before the other's store is seen.  The stop is then lost for good: both
    stores have landed, the handler has returned, the loop turns unposted, and
    no step is left to take. *)
Theorem stop_can_be_lost :
  exists s, rtc (step true) initial s /\ signalled s = Returned /\ publisher s = Turning /\ posted s = false /\
    asked_ s = true /\ handler_ s = true /\ forall s', ~ step true s s'.
Proof.
  exists (mk true true false false false Turning Returned).
  split; [|cbn; repeat split; intros s' Hst; inversion Hst].
  eapply rtc_l; [apply publish_store|]. eapply rtc_l; [apply stop_store|]. cbn.
  eapply rtc_l; [apply publish_look|]. eapply rtc_l; [apply stop_reach|]. cbn.
  eapply rtc_l; [apply handler_lands|]. eapply rtc_l; [apply asked_lands|]. apply rtc_refl.
Qed.

End StopSignal.

(** ** Examples *)

Lemma served_alone_witness :
  let files := fun path => if bool_decide (path = str "a.yaml") then deployed else None in
  let argv := [str "cmed"; str "--config"; str "a.yaml"] in
  exists s config, rtc (step passwd (fun _ => None) files false) (mkState ∅ ∅) s /\ running s !! 7 = Some config /\
    locked s /\
    (forall pid c, running s !! pid = Some c -> DaemonSettings_t.socketPath c = DaemonSettings_t.socketPath config -> pid = 7).
Proof.
  intros files argv.
  destruct (start passwd (fun _ => None) files false 990 argv (fun path => LockFile_take true (flock (mkState ∅ ∅) path))) as [code|config] eqn:Hs;
    [vm_compute in Hs; discriminate|].
  set (s := mkState (<[DaemonSettings_t.lockPath config := 7]> ∅) (<[7 := config]> ∅)).
  assert (rtc (step passwd (fun _ => None) files false) (mkState ∅ ∅) s) as Hr.
  { eapply rtc_once. apply (step_start passwd (fun _ => None) files false (mkState ∅ ∅) 7 990 argv (fun _ => true) config); [reflexivity|exact Hs]. }
  exists s, config.
  destruct (served_alone passwd (fun _ => None) files false (mkState ∅ ∅) s) as (Hl & Hu & _).
  { intros path pid. cbn. rewrite lookup_empty. split; [discriminate|]. intros (c & Hc & _). rewrite lookup_empty in Hc. discriminate. }
  { exact Hr. }
  split; [exact Hr|]. split; [reflexivity|]. split; [exact Hl|]. intros pid c Hc Hsock.
  apply (Hu pid 7 c config Hc); [reflexivity|exact Hsock].
Defined.
