(* ===== verification/Posix.v ===== *)
(** * Posix: sockets and sleeping words

    Models [src/daemon/shared/posix/socket.cpp] and [seqpacket_socket.cpp], the
    connection a daemon and a requester talk over, and [src/daemon/shared/util/
    futex.cpp], the word a thread sleeps on.

    What the kernel does with a message is a parameter; what is assumed of it is
    the record [Kernel]. *)

From stdpp Require Import strings.
From S2P Require Import Prelude Types KvConfig Settings.

(** ** Addresses *)

Module Address.
Definition sizeof_sun_path : Z := 108.
Definition offsetof_sun_path : Z := 2.

(** The bytes of [sun_path] the kernel reads, and the length it is told. *)
Record t := mk { sun_path : list Z; length_ : Z; }.

Definition make (path : list Z) : option t :=
  match path with
  | [] => None
  | front :: rest =>
      if sizeof_sun_path <=? Z.of_nat (length path) then None
      else
        let abstract := front =? 64 in
        let named := if abstract then 0 :: rest else path ++ [0] in
        Some (mk named (offsetof_sun_path + Z.of_nat (length path) + (if abstract then 0 else 1)))
  end.
End Address.

(** ** A socket and its name *)

Module Socket.
(** The descriptor, -1 for none, and the name it is bound at. *)
Record t := mk { held_ : Z; named_ : list Z; }.
Definition empty : t := mk (-1) [].
Definition adopt (held : Z) : t := mk held [].

Definition hasPathname (s : t) : bool :=
  match named_ s with [] => false | front :: _ => negb (front =? 64) end.

(** [names] is what is in the filesystem; [unlink] of a name that is not there
    fails and changes nothing. *)
Definition unlink (path : list Z) (names : gset (list Z)) : gset (list Z) := names ∖ {[ account.c_str path ]}.

Definition destroy (s : t) (names : gset (list Z)) : gset (list Z) :=
  if hasPathname s then unlink (named_ s) names else names.

(** The move: what is left of the source, and the target. *)
Definition move (other : t) : t * t := (other, mk (-1) []).
Definition assign (s other : t) (names : gset (list Z)) : t * t * gset (list Z) :=
  ((mk (held_ other) (named_ other)), mk (-1) [], if hasPathname s then unlink (named_ s) names else names).

(** [accepts] is whether the kernel takes the bind; a pathname then is in the
    filesystem. *)
Inductive SocketError := InvalidAddress | SystemError.
Definition bind (accepts : bool) (path : list Z) (s : t) (names : gset (list Z)) : (t + SocketError) * gset (list Z) :=
  match Address.make path with
  | None => (inr InvalidAddress, names)
  | Some _ =>
      let names := unlink path names in
      if negb accepts then (inr SystemError, names)
      else
        let s := mk (held_ s) path in
        (inl s, if hasPathname s then {[ account.c_str path ]} ∪ names else names)
  end.

Definition connect (accepts : bool) (path : list Z) : option SocketError :=
  match Address.make path with
  | None => Some InvalidAddress
  | Some _ => if accepts then None else Some SystemError
  end.
End Socket.

Lemma c_str_plain text : 0 ∉ text -> account.c_str text = text.
Proof.
  induction text as [|c text IH]; [done|]. intros [Hne Hin]%not_elem_of_cons. cbn.
  rewrite (proj2 (Z.eqb_neq c 0)) by done. by rewrite IH.
Qed.

(** A socket that bound a pathname takes it out of the filesystem when it goes,
    once: what it was moved from takes nothing, and what it was moved into takes
    its old name and later this one. *)
Theorem name_goes_with_socket path s names s' names' :
  0 ∉ path -> Socket.bind true path s names = (inl s', names') -> Socket.hasPathname s' = true ->
  path ∈ names' /\
  (path ∉ Socket.destroy s' names') /\
  Socket.destroy (Socket.move s').2 names' = names' /\
  (forall target, let '(target', source, after) := Socket.assign target s' names' in
    Socket.named_ target' = path /\ Socket.destroy source after = after /\
    (Socket.hasPathname target = false -> after = names') /\ path ∉ Socket.destroy target' after).
Proof.
  intros H0 Hb Hp. unfold Socket.bind in Hb. destruct (Address.make path); [|done]. cbn in Hb.
  injection Hb as <- <-. unfold Socket.destroy, Socket.assign, Socket.unlink in *. cbn [Socket.named_ Socket.held_] in *.
  rewrite Hp. rewrite c_str_plain by done. split_and!; [set_solver|set_solver|done|].
  intros target. split_and!; [done|done|by intros ->|set_solver].
Qed.

(** A bind to an abstract name removes the file of that spelling from the working
    directory, although the name is not in the filesystem. *)
Theorem abstract_bind_unlinks name s :
  0 ∉ name -> Z.of_nat (length (64 :: name)) < 108 ->
  (Socket.bind true (64 :: name) s {[ 64 :: name ]}).2 = ∅.
Proof.
  intros H0 Hl. unfold Socket.bind, Address.make. rewrite (proj2 (Z.leb_gt _ _)) by (unfold Address.sizeof_sun_path; lia).
  cbn [negb Socket.hasPathname Socket.named_ snd]. unfold Socket.unlink, Socket.hasPathname. cbn.
  rewrite c_str_plain by done. set_solver.
Qed.

(** ** Messages *)

Module SeqpacketSocket.

(** The kernel's own arithmetic on control headers: the header is two words, and
    what follows it is padded to a word. *)
Definition CMSG_ALIGN (bytes : Z) : Z := (bytes + 7) / 8 * 8.
Definition CMSG_LEN (bytes : Z) : Z := 16 + bytes.
Definition CMSG_SPACE (bytes : Z) : Z := 16 + CMSG_ALIGN bytes.

Definition sizeof_FileDesc : Z := 4.
Definition MostDescriptorsEver : Z := 8.
Definition readControlLength (descriptors : Z) : Z := CMSG_SPACE (descriptors * sizeof_FileDesc).

(** A control header: whether it is [SCM_RIGHTS] at [SOL_SOCKET], its length, and
    the descriptors its data holds. *)
Record ControlHeader := mkHeader { rights : bool; cmsg_len : Z; data : list Z; }.
Definition readCarriedCount (header : ControlHeader) : Z := u32 ((cmsg_len header - CMSG_LEN 0) / sizeof_FileDesc).
Definition hasDescriptors (header : ControlHeader) : bool := rights header.

Definition adoptDescriptors (headers : list ControlHeader) : list Z :=
  flat_map (fun header => if hasDescriptors header then take (Z.to_nat (readCarriedCount header)) (data header) else []) headers.

(** What [sendmsg] is handed: the bytes, the control headers and their space. *)
Record Message_t := mkMessage { bytes : list Z; control : list ControlHeader; controllen : Z; }.
(** What [recvmsg] leaves: how much it took and what, the headers, and whether it
    cut the bytes or the headers short. *)
Record Taken_t := mkTaken { got : Z; taken : list Z; headers : list ControlHeader; truncated : bool; ctruncated : bool; }.

Inductive ReceiveError := InvalidArgument | SystemError | TooLong.
Record Received_t := mkReceived { message : list Z; descriptors : list Z; }.

Definition compose (payload descriptors : list Z) : option Message_t :=
  if MostDescriptorsEver <? Z.of_nat (length descriptors) then None
  else Some (match descriptors with
    | [] => mkMessage payload [] 0
    | _ => mkMessage payload [mkHeader true (CMSG_LEN (Z.of_nat (length descriptors) * sizeof_FileDesc)) descriptors]
             (readControlLength (Z.of_nat (length descriptors)))
    end).
(** [None] throws; else whether the kernel took the whole. *)
Definition send (sendmsg : Message_t -> Z) (payload descriptors : list Z) : option bool :=
  match compose payload descriptors with
  | None => None
  | Some m => Some (sendmsg m =? Z.of_nat (length payload))
  end.

(** The bound [SO_RCVTIMEO] is given: zero seconds and zero microseconds is no
    deadline at all. *)
Definition receiveBound (waitFor : option Z) : Z * Z := timing.toTimeval (timing.Millis (default 0 waitFor)).

(** [recvmsg bound iov_len controllen] is the answer of the kernel; a
    non-positive [got] is a peer gone or a deadline past. *)
Definition receive (setsockopt : bool) (recvmsg : Z * Z -> Z -> Z -> Taken_t) (mostBytes mostDescriptors : Z) (waitFor : option Z) :
    option Received_t + ReceiveError :=
  if negb setsockopt then inr SystemError
  else if MostDescriptorsEver <? mostDescriptors then inr InvalidArgument
  else
    let t := recvmsg (receiveBound waitFor) mostBytes (readControlLength mostDescriptors) in
    if got t <=? 0 then inl None
    else if truncated t || ctruncated t then inr TooLong
    else inl (Some (mkReceived (take (Z.to_nat (got t)) (taken t)) (adoptDescriptors (headers t)))).

(** [errno]s that say nobody is there to take. *)
Inductive Accepted := Taken (descriptor : Z) | Nothing | Throws.
Definition accept (answer : Z) (transient : bool) : Accepted :=
  if 0 <=? answer then Taken answer else if transient then Nothing else Throws.

(** [polled] is what [poll] answers, [revents] the three bits that end a peer. *)
Definition isPeerGone (polled : Z) (revents : bool) : bool := if polled <=? 0 then false else revents.

(** [listen]: the calls in order, the first that fails throws and the bound name
    goes with the socket. *)
Definition listen (opens binds chmods listens : bool) (path : list Z) (names : gset (list Z)) :
    (Socket.t + Socket.SocketError) * gset (list Z) :=
  if negb opens then (inr Socket.SystemError, names)
  else
    match Socket.bind binds path (Socket.adopt 3) names with
    | (inr error, names) => (inr error, names)
    | (inl s, names) =>
        if negb chmods || negb listens then (inr Socket.SystemError, Socket.destroy s names) else (inl s, names)
    end.

End SeqpacketSocket.
Import SeqpacketSocket.

(** What the kernel does with a message, by [unix(7)] and [recvmsg(2)]: the bytes
    that fit and whether some did not; of the descriptors as many as the control
    space after one header has room for, and whether some did not. *)
Record Kernel (m : Message_t) (recvmsg : Z * Z -> Z -> Z -> Taken_t) : Prop := {
  kernel_bytes : forall bound iov space, 0 < iov ->
    got (recvmsg bound iov space) = Z.min (Z.of_nat (length (bytes m))) iov /\
    taken (recvmsg bound iov space) = take (Z.to_nat iov) (bytes m) /\
    truncated (recvmsg bound iov space) = (iov <? Z.of_nat (length (bytes m)));
  kernel_rights : forall bound iov space, 16 <= space ->
    let sent := flat_map data (control m) in
    let room := (space - 16) / 4 in
    headers (recvmsg bound iov space) =
      match take (Z.to_nat room) sent with [] => [] | fds => [mkHeader true (CMSG_LEN (Z.of_nat (length fds) * 4)) fds] end /\
    ctruncated (recvmsg bound iov space) = (room <? Z.of_nat (length sent));
}.

(** The descriptors a control buffer sized for [most] has room for. *)
Definition roomFor (most : Z) : Z := (most + 1) / 2 * 2.

Lemma room_readControlLength most : 0 <= most -> (readControlLength most - 16) / 4 = roomFor most.
Proof.
  intros Hm. unfold readControlLength, CMSG_SPACE, CMSG_ALIGN, sizeof_FileDesc, roomFor.
  replace (16 + (most * 4 + 7) / 8 * 8 - 16) with ((most * 4 + 7) / 8 * 2 * 4) by lia. rewrite Z.div_mul by done.
  f_equal. replace (most * 4 + 7) with ((most + 1) * 4 + 3) by lia.
  pose proof (Z.div_mod (most + 1) 2 ltac:(done)) as Hd. pose proof (Z.mod_pos_bound (most + 1) 2 ltac:(done)).
  symmetry. apply (Z.div_unique _ 8 _ ((most + 1) mod 2 * 4 + 3)); lia.
Qed.

Lemma adopt_one fds : Z.of_nat (length fds) < 2 ^ 29 ->
  adoptDescriptors (match fds with [] => [] | fd :: rest => [mkHeader true (CMSG_LEN (Z.of_nat (length (fd :: rest)) * 4)) (fd :: rest)] end) = fds.
Proof.
  intros Hl. destruct fds as [|fd fds]; [done|]. unfold adoptDescriptors. cbn [flat_map hasDescriptors rights data]. rewrite app_nil_r.
  unfold readCarriedCount, CMSG_LEN, sizeof_FileDesc. cbn [cmsg_len].
  replace (16 + Z.of_nat (length (fd :: fds)) * 4 - (16 + 0)) with (Z.of_nat (length (fd :: fds)) * 4) by lia.
  rewrite Z.div_mul by done. rewrite u32_small by (unfold in_u32; lia). rewrite Nat2Z.id. by apply take_ge.
Qed.

(** A message arrives whole or not at all.  Over a kernel that keeps its
    word, what one end sends the other receives byte for byte and descriptor for
    descriptor when it is within the receiver's limits; bytes past the limit are
    refused, and so are descriptors past it, rounded up to an even number since
    the control buffer is padded to a word: a limit that is odd lets one more
    through. *)
Theorem message_whole payload fds m recvmsg mostBytes mostDescriptors waitFor :
  compose payload fds = Some m -> Kernel m recvmsg -> payload <> [] -> 0 < mostBytes -> 0 <= mostDescriptors <= MostDescriptorsEver ->
  receive true recvmsg mostBytes mostDescriptors waitFor =
    if (Z.of_nat (length payload) <=? mostBytes) && (Z.of_nat (length fds) <=? roomFor mostDescriptors)
    then inl (Some (mkReceived payload fds)) else inr TooLong.
Proof.
  intros Hc [Hb Hr] Hp Hmb Hmd. unfold receive. cbn [negb]. rewrite (proj2 (Z.ltb_ge _ _)) by lia.
  assert (bytes m = payload /\ flat_map data (control m) = fds /\ Z.of_nat (length fds) <= 8) as (Hbytes & Hfds & Hlen).
  { unfold compose in Hc. destruct (Z.ltb_spec MostDescriptorsEver (Z.of_nat (length fds))) as [|Hl]; [done|].
    unfold MostDescriptorsEver in Hl. injection Hc as <-. destruct fds as [|fd fds]; [done|]. cbn. by rewrite app_nil_r. }
  assert (16 <= readControlLength mostDescriptors) as Hspace.
  { unfold readControlLength, CMSG_SPACE, CMSG_ALIGN, sizeof_FileDesc.
    pose proof (Z.div_pos (mostDescriptors * 4 + 7) 8 ltac:(lia) ltac:(lia)). lia. }
  destruct (Hb (receiveBound waitFor) mostBytes (readControlLength mostDescriptors) Hmb) as (Hg & Ht & Htr).
  destruct (Hr (receiveBound waitFor) mostBytes (readControlLength mostDescriptors) Hspace) as (Hh & Hct).
  rewrite Hfds in Hh, Hct. rewrite Hbytes in Hg, Ht, Htr. rewrite room_readControlLength in Hh, Hct by lia.
  cbv zeta. rewrite Hg, Ht, Htr, Hh, Hct.
  assert (0 < Z.of_nat (length payload)) by (destruct payload; cbn; [done|lia]).
  rewrite (proj2 (Z.leb_gt _ 0)) by lia.
  destruct (Z.ltb_spec mostBytes (Z.of_nat (length payload))), (Z.leb_spec (Z.of_nat (length payload)) mostBytes); try lia; cbn [orb andb]; [done|].
  destruct (Z.ltb_spec (roomFor mostDescriptors) (Z.of_nat (length fds))), (Z.leb_spec (Z.of_nat (length fds)) (roomFor mostDescriptors)); try lia; [done|].
  rewrite Z.min_l, Nat2Z.id, (take_ge fds) by lia. rewrite adopt_one by lia. rewrite take_take, take_ge by lia. done.
Qed.

(** A receiver that asks for at most one descriptor is handed two. *)
Theorem odd_limit_lets_one_more payload fd fd' m recvmsg mostBytes :
  compose payload [fd; fd'] = Some m -> Kernel m recvmsg -> payload <> [] -> Z.of_nat (length payload) <= mostBytes ->
  receive true recvmsg mostBytes 1 None = inl (Some (mkReceived payload [fd; fd'])).
Proof.
  intros Hc Hk Hp Hl. assert (0 < Z.of_nat (length payload)) by (destruct payload; cbn; [done|lia]).
  rewrite (message_whole payload [fd; fd'] m) by (done || lia || (unfold MostDescriptorsEver; lia)). by rewrite (proj2 (Z.leb_le _ _) Hl).
Qed.

(** A deadline of zero is no deadline: the kernel is given what it is given for a
    wait without end. *)
Theorem zero_deadline_waits : receiveBound (Some 0) = receiveBound None /\ receiveBound None = (0, 0).
Proof. done. Qed.

(** ** Sleeping on a word *)

Module futex.

(** How one [FUTEX_WAIT] ends. *)
Inductive Waited := Woken | Moved | TimedOut | Interrupted | Failed.

(** [moved n] is whether the n-th look finds the word moved on. *)
Definition spinOnWord (fuel : nat) (moved : nat -> bool) (clock : nat -> Z) (spin : Z) : option bool :=
  if spin <=? 0 then Some false
  else match waitUntil fuel moved clock (timing.Deadline.make (clock 0%nat) spin) 0 with
  | None => None
  | Some (answer, _) => Some answer
  end.

(** [waits n] is how the n-th wait of the loop ends, [clock n] what the n-th look
    at the time left reads. *)
Fixpoint sleepOnWord (fuel : nat) (waits : nat -> Waited) (clock : nat -> Z) (deadline : timing.Deadline.t) (turn : nat) : option bool :=
  match fuel with
  | O => None
  | S fuel =>
      match timing.Deadline.remaining 1 deadline (clock turn) with
      | None => Some false
      | Some _ =>
          match waits turn with
          | Woken | Moved | Failed => Some true
          | TimedOut => Some false
          | Interrupted => sleepOnWord fuel waits clock deadline (S turn)
          end
      end
  end.

Definition waitOnWord (fuel : nat) (moved : nat -> bool) (waits : nat -> Waited) (spinClock clock : nat -> Z) (timeout spin : Z) :
    option bool :=
  let deadline := timing.Deadline.make (spinClock 0%nat) timeout in
  match spinOnWord fuel moved spinClock spin with
  | None => None
  | Some true => Some true
  | Some false => sleepOnWord fuel waits clock deadline 0
  end.

(** The loop ends: interrupted waits cannot outlast the deadline, since each turn
    asks for the time that is left. *)
Lemma sleepOnWord_ends fuel waits clock deadline turn :
  (exists n, (turn <= n < turn + fuel)%nat /\ timing.Deadline.ends_ deadline <= clock n) ->
  is_Some (sleepOnWord fuel waits clock deadline turn).
Proof.
  revert turn. induction fuel as [|fuel IH]; intros turn (n & Hn & Hc); [lia|]. cbn [sleepOnWord].
  unfold timing.Deadline.remaining. rewrite Z.quot_1_r. destruct (Z.leb_spec (timing.Deadline.ends_ deadline - clock turn) 0) as [|Hleft]; [eauto|]. destruct (waits turn); eauto.
  apply IH. exists n. split; [|done]. destruct (decide (n = turn)) as [->|]; lia.
Qed.

(** *** The sleeper and the waker *)

(** One wait of a sleeper that records its sleep, and one move of the word by a
    waker that skips the wake when nobody is recorded: [assign] of the worker
    pool and [Parked_t]. *)
Inductive Sleeper := Spinning | Parking | Asleep | Awake | Gone.
Inductive Waker := BeforeMove | BeforeLook | BeforeWake | Finished.

Record t := mk {
  moved : bool;          (* the word is not what the sleeper expects *)
  parked : bool;
  movedPending : bool;   (* stores still on their way *)
  parkedPending : bool;
  sleeper : Sleeper;
  waker : Waker;
}.
Definition initial : t := mk false false false false Spinning BeforeMove.

(** [buffered] is whether a store may be passed by a later load of its thread,
    as orders weaker than sequential consistency allow.  The kernel's compare and
    the sleep are one step. *)
Inductive step (buffered : bool) : t -> t -> Prop :=
| park m p mp pp w :
    step buffered (mk m p mp pp Spinning w) (if buffered then mk m p mp true Parking w else mk m true mp pp Parking w)
| compare m p mp pp w : step buffered (mk m p mp pp Parking w) (mk m p mp pp (if m then Awake else Asleep) w)
| interrupted m p mp pp w : step buffered (mk m p mp pp Asleep w) (mk m p mp pp Parking w)
| unpark m p mp pp w : pp = false -> step buffered (mk m p mp pp Awake w) (mk m false mp pp Gone w)
| move m p mp pp z :
    step buffered (mk m p mp pp z BeforeMove) (if buffered then mk m p true pp z BeforeLook else mk true p mp pp z BeforeLook)
| look m p mp pp z : step buffered (mk m p mp pp z BeforeLook) (mk m p mp pp z (if p then BeforeWake else Finished))
| wake m p mp pp z : mp = false ->
    step buffered (mk m p mp pp z BeforeWake) (mk m p mp pp (match z with Asleep => Awake | z => z end) Finished)
| moved_lands m p pp z w : step buffered (mk m p true pp z w) (mk true p false pp z w)
| parked_lands m p mp z w : step buffered (mk m p mp true z w) (mk m true mp false z w).

Definition sound (s : t) : Prop :=
  movedPending s = false /\ parkedPending s = false /\
  (waker s <> BeforeMove -> moved s = true) /\
  (sleeper s = Parking \/ sleeper s = Asleep \/ sleeper s = Awake -> parked s = true) /\
  (sleeper s = Asleep -> waker s = Finished -> False).

Lemma sound_step s s' : sound s -> step false s s' -> sound s'.
Proof.
  intros (Hm & Hp & Hw & Hs & Hf) Hst. unfold sound in *. destruct Hst; cbn in *; try done; split_and!; try done; try naive_solver.
  all: destruct z; naive_solver.
Qed.

(** No wake is lost.  In every order of a sleeper's steps and a waker's, once the
    waker is done the sleeper does not sleep on a word that has moved: it was
    woken, or the kernel's compare turned it back. *)
Theorem no_lost_wake s : rtc (step false) initial s -> waker s = Finished -> sleeper s <> Asleep.
Proof.
  intros Hr Hw Hz. assert (sound s) as (_ & _ & _ & _ & H); [|by apply H].
  assert (sound initial) as Hi by (unfold sound; cbn; naive_solver).
  clear Hw Hz. induction Hr as [|s1 s2 s3 H12 _ IH]; [done|]. apply IH. by eapply sound_step.
Qed.

(** With weaker orders on the two words it would be: the sleeper's record and the
    waker's move may both still be on their way when each looks at the other's. *)
Theorem buffered_loses_wake :
  exists s, rtc (step true) initial s /\ waker s = Finished /\ sleeper s = Asleep /\ moved s = true /\ parked s = true.
Proof.
  exists (mk true true false false Asleep Finished). split; [|done].
  eapply rtc_l; [apply park|]. eapply rtc_l; [apply move|]. cbn.
  eapply rtc_l; [apply look|]. eapply rtc_l; [apply compare|]. cbn.
  eapply rtc_l; [apply moved_lands|]. eapply rtc_l; [apply parked_lands|]. apply rtc_refl.
Qed.

End futex.
