(* ===== verification/Returns.v ===== *)
(** * Returns: the daemon's handlers come back

    Every command [DomainManager] serves and every handler of the control loop
    returns: the wait of a delete ends at its deadline, the accept loop when the
    backlog runs dry, and nothing else in them loops.  What they rely on is named:
    the calls of the region session return, the clock passes the delete timeout
    within the turns of the model, and so does the backlog of the listener. *)

From S2P Require Import Prelude Effect Bitmap Types Wire Area Manager Turn Control.

(** What libcme promises the daemon about its calls: each returns, with an answer
    or a throw. *)
Class SessionReturns (S : Type) `{RegionSession S} : Prop := {
  createDomain_returns : forall name (s : S), is_Some (session_createDomain name s);
  joinDomain_returns : forall name (s : S), is_Some (session_joinDomain name s);
  leaveDomain_returns : forall name (s : S), is_Some (session_leaveDomain name s);
  deleteDomain_returns : forall name (s : S), is_Some (session_deleteDomain name s);
  unlock_returns : forall d (s : S), is_Some (session_unlock d s);
}.

Create HintDb returns.

(** Run from any state, it returns. *)
Definition returns {R S A} (E : R) (m : run R S A) : Prop := forall s, wp m E (fun _ _ => True) s.

Section rules.
Context {R S : Type} (E : R).

Lemma returns_ret {A} (a : A) : returns E (ret a : run R S A).
Proof. done. Qed.
Lemma returns_bind {A B} (m : run R S A) (k : A -> run R S B) : returns E m -> (forall a, returns E (k a)) -> returns E (bind m k).
Proof. intros Hm Hk s. apply wp_bind. eapply wp_mono; [apply Hm|]. intros a s' _. apply Hk. Qed.
Lemma returns_when b (m : run R S unit) : returns E m -> returns E (when b m).
Proof. intros Hm. by destruct b. Qed.
Lemma returns_forM {X} (l : list X) (body : X -> run R S unit) : (forall x, returns E (body x)) -> returns E (forM l body).
Proof. intros Hb. induction l as [|x l IH]; [done|]. by apply returns_bind. Qed.
End rules.
#[export] Hint Resolve returns_ret returns_when returns_forM : returns.

(** Through the binds and the branches, down to the calls. *)
Ltac returning :=
  repeat match goal with
  | |- returns _ (bind _ _) => apply returns_bind; [|intros ?]
  | |- returns _ (match ?x with _ => _ end) => destruct x
  | |- returns _ (when _ _) => apply returns_when
  end; auto with returns.

(** ** The manager *)

Section manager.
Context {S : Type} `{HS : SessionReturns S} (E : NodeEnv.t).
Local Abbreviation DS := (DomainManager.D (S := S)).

(** The clock passes the wait of a delete within the turns. *)
Definition clockPasses : Prop := forall n, exists m, (m <= NodeEnv.fuel E)%nat /\
  NodeEnv.clock E n + DaemonConfig_t.deleteWaitTimeout (NodeEnv.config E) <= NodeEnv.clock E (n + 1 + m).
Hypothesis Hclock : clockPasses.

Lemma returns_load {A} (f : SharedArea_t.t -> A) : returns E (load f : DS A).
Proof. done. Qed.
Lemma returns_store f : returns E (store f : DS unit).
Proof. done. Qed.
Lemma returns_onSession {A} (op : S -> option (A * S)) : (forall s, is_Some (op s)) -> returns E (DomainManager.onSession op).
Proof. intros Hop n. unfold wp, DomainManager.onSession. by destruct (Hop (Node.session n)) as [[a s] ->]. Qed.
Lemma returns_onEntry {A} d (f : LocalDomain.t -> A) : returns E (DomainManager.onEntry d f : DS A).
Proof. done. Qed.
Lemma returns_updateEntry d f : returns E (DomainManager.updateEntry d f : DS unit).
Proof. done. Qed.
Lemma returns_updateIds f : returns E (DomainManager.updateIds f : DS unit).
Proof. done. Qed.
Lemma returns_findId name : returns E (DomainManager.findId name : DS (option Z)).
Proof. done. Qed.
#[local] Hint Resolve returns_load returns_store returns_onEntry returns_updateEntry returns_updateIds returns_findId : returns.
#[local] Hint Extern 1 (returns _ (DomainManager.onSession _)) => apply returns_onSession; intros; apply HS : returns.
#[local] Hint Unfold loadSlot storeSlot : returns.

Lemma returns_markState d next : returns E (markState d next : DS unit).
Proof. apply returns_store. Qed.
Lemma returns_isExpectedState d expected : returns E (isExpectedState d expected : DS bool).
Proof. apply returns_load. Qed.
Lemma returns_unlock d : returns E (RobustLock_unlock d : DS unit).
Proof. apply returns_store. Qed.
#[local] Hint Resolve returns_markState returns_isExpectedState returns_unlock : returns.

(** A look at the mutex returns, and reads no clock. *)
Lemma tryLockIfIdle_steady d n :
  wp (tryLockIfIdle d : DS bool) E (fun _ n' => Node.clockReads n' = Node.clockReads n) n.
Proof.
  unfold wp, tryLockIfIdle, RobustLock_tryLock, recordAbandonment, getState, hasWaiters, RobustLock_unlock, loadSlot, storeSlot, when,
    bind, getThread, atomically, load, store, ret. cbn.
  destruct (Domain_t.lock _); cbn; [|done|]; destruct (bool_decide _); cbn; try done; by destruct (0 <? _).
Qed.
Lemma returns_tryLockIfIdle d : returns E (tryLockIfIdle d : DS bool).
Proof. intros n. by eapply wp_mono; [apply tryLockIfIdle_steady|]. Qed.
#[local] Hint Resolve returns_tryLockIfIdle : returns.

Lemma awaitIdle_ends turns d waiting n :
  (exists m, (m < turns)%nat /\ timing.Deadline.ends_ waiting <= NodeEnv.clock E (Node.clockReads n + m)) ->
  wp (DomainManager.awaitIdle_turns turns d waiting : DS bool) E (fun _ _ => True) n.
Proof.
  revert n. induction turns as [|turns IH]; intros n (m & Hm & Hends); [lia|]. cbn [DomainManager.awaitIdle_turns].
  apply wp_bind. eapply wp_mono; [apply tryLockIfIdle_steady|]. intros quiet n' Hn. destruct quiet; [done|].
  apply wp_bind. unfold wp at 1, steadyNow. cbn [clockOf tickClock NodeArea]. unfold timing.Deadline.expiredAt.
  destruct (Z.leb_spec (timing.Deadline.ends_ waiting) (NodeEnv.clock E (Node.clockReads n'))) as [|Hlt]; [done|].
  apply IH. destruct m as [|m]; [rewrite Hn, Nat.add_0_r in *; lia|]. exists m. split; [lia|]. cbn. rewrite Hn.
  by rewrite <- plus_n_Sm in Hends.
Qed.

Lemma returns_awaitIdle d : returns E (DomainManager.awaitIdle d : DS bool).
Proof.
  intros n. unfold DomainManager.awaitIdle. apply wp_bind. unfold wp at 1, DomainManager.config. apply wp_bind.
  unfold wp at 1, steadyNow. cbn [clockOf tickClock NodeArea]. apply wp_bind. unfold wp at 1, getTurns. cbn [waitTurns NodeArea].
  apply awaitIdle_ends. destruct (Hclock (Node.clockReads n)) as (m & Hm & Hc). exists m. split; [lia|]. cbn.
  by rewrite Nat.add_1_r in Hc.
Qed.
#[local] Hint Resolve returns_awaitIdle : returns.

Lemma returns_claim name h : returns E (DomainManager.claim name h : DS DomainAnswer).
Proof. unfold DomainManager.claim, isNamed, getName, setName, loadSlot, storeSlot. returning. Qed.
#[local] Hint Resolve returns_claim : returns.

Lemma returns_serveCommand asked asking : returns E (DomainManager.serveCommand asked asking : DS DomainAnswer).
Proof.
  unfold DomainManager.serveCommand. destruct (DomainName.make asking) as [name|]; [|done].
  destruct (asked =? _); [|destruct (asked =? _); [|destruct (asked =? _); [|destruct (asked =? _); [|done]]]].
  - unfold DomainManager.create. returning.
  - unfold DomainManager.remove, DomainManager.releaseTurn, DomainManager.retire, revokeTurn, clearName, storeSlot. returning.
  - unfold DomainManager.join. returning.
  - unfold DomainManager.leave, DomainManager.leaveByName. returning.
Qed.
End manager.

(** ** The control loop *)

Section control.
Import ControlHandler.
Context {S : Type} `{HS : SessionReturns S} (E : ControlEnv.t).
Local Abbreviation KS := (K (S := S)).
Hypothesis Hclock : clockPasses (ControlEnv.node E).

(** From any accept on, the backlog runs dry within the turns. *)
Definition backlogDrains : Prop := forall n, exists m, (m <= NodeEnv.fuel (ControlEnv.node E))%nat /\ ControlEnv.arrivals E (n + m) = Nobody.
Hypothesis Hdrains : backlogDrains.

Lemma returns_serveNamed asked name : returns E (served (DomainManager.serveCommand asked name) : KS DomainAnswer).
Proof.
  intros k. pose proof (returns_serveCommand (ControlEnv.node E) Hclock asked name (Desk.node k)) as Hr. unfold wp in *.
  unfold served. by destruct (DomainManager.serveCommand _ _ _ _) as [[a n]|].
Qed.
Lemma returns_find d : returns E (find d : KS (option Connection_t.t)).
Proof. done. Qed.
Lemma returns_update d f : returns E (update d f : KS unit).
Proof. done. Qed.
Lemma returns_erase d : returns E (erase d : KS unit).
Proof. done. Qed.
Lemma returns_receiveOne : returns E (receiveOne : KS Heard_t).
Proof. done. Qed.
Lemma returns_sendBack d answered carried : returns E (sendBack d answered carried : KS bool).
Proof. intros k. unfold wp, sendBack. destruct answered; [|done]. by destruct (ControlEnv.sendGoes _ _). Qed.
#[local] Hint Resolve returns_serveNamed returns_find returns_update returns_erase returns_receiveOne returns_sendBack : returns.

Lemma returns_reply d m : returns E (reply d m : KS (option (list Z))).
Proof. unfold reply. returning. Qed.
Lemma returns_dropConnection d : returns E (dropConnection d : KS unit).
Proof. unfold dropConnection, giveBack. returning. apply returns_forM. intros name. returning. Qed.
#[local] Hint Resolve returns_reply returns_dropConnection : returns.
Lemma returns_answer d c m : returns E (answer d c m : KS bool).
Proof. unfold answer. returning. Qed.
#[local] Hint Resolve returns_answer : returns.
Lemma returns_readMessage d : returns E (readMessage d : KS unit).
Proof. unfold readMessage. returning. Qed.

Lemma admitConnections_ends turns k :
  (exists m, (m < turns)%nat /\ ControlEnv.arrivals E (Desk.accepts k + m) = Nobody) ->
  wp (admitConnections_turns turns : KS unit) E (fun _ _ => True) k.
Proof.
  revert k. induction turns as [|turns IH]; intros k (m & Hm & Hdry); [lia|]. cbn [admitConnections_turns].
  assert (ControlEnv.arrivals E (Desk.accepts k) <> Nobody -> exists m', (m' < turns)%nat /\
    ControlEnv.arrivals E (Datatypes.S (Desk.accepts k) + m') = Nobody) as Hnext.
  { intros Hn. destruct m as [|m]; [by rewrite Nat.add_0_r in Hdry|]. exists m. split; [lia|].
    by replace (Datatypes.S (Desk.accepts k) + m)%nat with (Desk.accepts k + Datatypes.S m)%nat by lia. }
  apply wp_bind. unfold wp at 1, take. destruct (ControlEnv.arrivals E (Desk.accepts k)) as [| |descriptor uid gid] eqn:Ha; [done| |].
  - apply IH. by apply Hnext.
  - destruct (admits _ _ _ _); [|by apply IH, Hnext]. apply wp_bind. unfold wp at 1, crowded. apply wp_bind.
    destruct (_ <=? _); [by apply IH, Hnext|]. unfold wp at 1, emplace. apply IH. destruct (Desk.connected _ !! _); by apply Hnext.
Qed.
Lemma returns_admitConnections : returns E (admitConnections : KS unit).
Proof. intros k. apply admitConnections_ends. destruct (Hdrains (Desk.accepts k)) as (m & Hm & Hd). exists m. split; [lia|done]. Qed.
#[local] Hint Resolve returns_readMessage returns_admitConnections : returns.

Lemma returns_handle entry : returns E (handle entry : KS unit).
Proof. destruct entry; cbn [handle]; [by intros k|auto with returns|returning]. Qed.
End control.

#[export] Instance solo_returns : SessionReturns solo.t.
Proof. split; intros; cbn; repeat case_match; eauto. Qed.
