(* ===== verification/Loop.v ===== *)
(** * Loop: the control loop on its descriptors

    Models [ControlHandler::run] and [stop] of [src/daemon/daemon/control/
    handler.cpp] on [src/daemon/shared/posix/epoll.hpp] and [event_fd.hpp]: what
    a wait reports, how the loop tells its descriptors apart, and the counter a
    stop is posted through.  What each ready descriptor brings about is [handle]
    of [Control].  [src/daemon/shared/posix/datagram_socket.cpp] and
    [src/daemon/daemon/startup/service_notifier.cpp], which tell the service
    manager how the daemon is, follow. *)

From stdpp Require Import strings.
From S2P Require Import Prelude Effect Types KvConfig Settings Wire Area Manager Control Handshake Returns Posix.

(** ** A counter that wakes *)

Module EventFd.
(** [post] and [drain] on the counter: whether the call moved it, and the
    counter. *)
Definition MostPosted : Z := 2 ^ 64 - 2.
Definition create : Z := 0.
Definition post (counter : Z) : bool * Z := if counter =? MostPosted then (false, counter) else (true, counter + 1).
Definition drain (counter : Z) : bool * Z := if counter =? 0 then (false, 0) else (true, 0).
End EventFd.

(** ** Epoll *)

Module Epoll.
Definition Readable : Z := 0x001.
Definition PeerGone : Z := 0x2000.
Definition HungUp : Z := 0x010.
Definition Failed : Z := 0x008.

Definition hasEvent (reported asked : Z) : bool := negb (Z.land reported asked =? 0).

Record Ready_t := mk { descriptor : Z; events : Z; }.

(** What the kernel answers a wait. *)
Inductive Waited := Filled (entries : list Ready_t) | Interrupted | WaitFailed.

(** The pass a wait gives, at most [atOnce] of what is ready; [None] is a throw. *)
Definition wait (atOnce : nat) (waited : Waited) : option (list Ready_t) :=
  match waited with
  | Filled entries => Some (take atOnce entries)
  | Interrupted => Some []
  | WaitFailed => None
  end.

Lemma wait_bounded atOnce waited pass : wait atOnce waited = Some pass -> (length pass <= atOnce)%nat.
Proof. destruct waited; cbn; intros [= <-]; [rewrite length_take; lia|cbn; lia]. Qed.
End Epoll.
Import Epoll.

(** ** The loop *)

Module ControlLoop.
Import ControlHandler.
Definition ReadyAtOnce : nat := 32.
Definition Watched : Z := Z.lor Readable PeerGone.
Definition Gone : Z := Z.lor PeerGone (Z.lor HungUp Failed).

Section loop.
Context {S : Type} `{RegionSession S}.
(** The descriptors of the counter and of the listener, what the kernel answers
    the n-th wait when the counter stands as it does, and whether a stop is
    posted before it. *)
Context (E : ControlEnv.t) (stopSignal admitting : Z) (waits : nat -> Z -> Waited) (posts : nat -> bool).

Definition told (entry : Ready_t) : Ready :=
  if descriptor entry =? stopSignal then StopSignal
  else if descriptor entry =? admitting then Listening
  else Connected_ (descriptor entry) (hasEvent (events entry) Readable) (hasEvent (events entry) Gone).

(** One ready descriptor: the desk and the counter. *)
Definition serve (entry : Ready_t) (s : Desk.t S * Z) : option (Desk.t S * Z) :=
  match handle (told entry) E s.1 with
  | Some (_, k) => Some (k, if descriptor entry =? stopSignal then (EventFd.drain s.2).2 else s.2)
  | None => None
  end.
Fixpoint serveAll (entries : list Ready_t) (s : Desk.t S * Z) : option (Desk.t S * Z) :=
  match entries with
  | [] => Some s
  | entry :: entries => match serve entry s with Some s => serveAll entries s | None => None end
  end.

(** [stop], from a signal handler. *)
Definition stop (counter : Z) : Z := (EventFd.post counter).2.

(** How the loop ends: its condition fails, or a wait throws. *)
Inductive Outcome := Ended (k : Desk.t S) (waited : nat) | Threw (k : Desk.t S).

Fixpoint run (turns n : nat) (s : Desk.t S * Z) : option Outcome :=
  if Desk.running s.1 then
    match turns with
    | O => None
    | Datatypes.S turns =>
        let counter := if posts n then stop s.2 else s.2 in
        match wait ReadyAtOnce (waits n counter) with
        | None => Some (Threw s.1)
        | Some entries =>
            match serveAll entries (s.1, counter) with
            | Some s => run turns (Datatypes.S n) s
            | None => None
            end
        end
    end
  else Some (Ended s.1 n).

(** *** Only the stop signal ends it *)

Create HintDb running.
Local Abbreviation KS := (K (S := S)).
Definition keepsRunning {A} (m : KS A) : Prop := forall k a k', m E k = Some (a, k') -> Desk.running k' = Desk.running k.

Lemma running_ret {A} (a : A) : keepsRunning (ret a).
Proof. intros k b k' Hk. by injection Hk as _ <-. Qed.
Lemma running_bind {A B} (m : KS A) (f : A -> KS B) : keepsRunning m -> (forall a, keepsRunning (f a)) -> keepsRunning (bind m f).
Proof.
  intros Hm Hf k b k' Hk. unfold bind in Hk. destruct (m E k) as [[a k1]|] eqn:He; [|done]. rewrite (Hf a k1 b k' Hk). by eapply Hm.
Qed.
Lemma running_when b (m : KS unit) : keepsRunning m -> keepsRunning (when b m).
Proof. intros Hm. destruct b; [done|apply running_ret]. Qed.
Lemma running_forM {X} (l : list X) (body : X -> KS unit) : (forall x, keepsRunning (body x)) -> keepsRunning (forM l body).
Proof. intros Hb. induction l as [|x l IH]; [apply running_ret|]. apply running_bind; [apply Hb|intros []; apply IH]. Qed.
Lemma running_served {A} (m : DomainManager.D A) : keepsRunning (served m).
Proof. intros k a k' Hk. unfold served in Hk. destruct (m _ _) as [[b n]|]; [|done]. by injection Hk as _ <-. Qed.
Lemma running_find d : keepsRunning (find d).
Proof. intros k a k' Hk. by injection Hk as _ <-. Qed.
Lemma running_update d f : keepsRunning (update d f).
Proof. intros k a k' Hk. by injection Hk as _ <-. Qed.
Lemma running_sendBack d answered carried : keepsRunning (sendBack d answered carried).
Proof. intros k a k' Hk. unfold sendBack in Hk. destruct answered; [destruct (ControlEnv.sendGoes _ _)|]; by injection Hk as _ <-. Qed.
Lemma running_erase d : keepsRunning (erase d).
Proof. intros k a k' Hk. by injection Hk as _ <-. Qed.
Lemma running_emplace d : keepsRunning (emplace d).
Proof. intros k a k' Hk. unfold emplace in Hk. injection Hk as _ <-. by destruct (Desk.connected k !! d). Qed.
Lemma running_take : keepsRunning take.
Proof. intros k a k' Hk. by injection Hk as _ <-. Qed.
Lemma running_crowded : keepsRunning crowded.
Proof. intros k a k' Hk. by injection Hk as _ <-. Qed.
Lemma running_receiveOne : keepsRunning receiveOne.
Proof. intros k a k' Hk. by injection Hk as _ <-. Qed.
#[local] Hint Resolve running_ret running_bind running_when running_forM running_served running_find running_update running_sendBack
  running_erase running_emplace running_take running_crowded running_receiveOne : running.

Lemma running_reply d m : keepsRunning (reply d m).
Proof. unfold reply. destruct (DomainRequestMessage.read _ _); auto 8 with running. Qed.
Lemma running_dropConnection d : keepsRunning (dropConnection d).
Proof. unfold dropConnection, giveBack. apply running_bind; [auto with running|]. intros []; auto 8 with running. Qed.
#[local] Hint Resolve running_reply running_dropConnection : running.
Lemma running_answer d c m : keepsRunning (answer d c m).
Proof.
  unfold answer. repeat match goal with |- keepsRunning (if ?b then _ else _) => destruct b end; auto with running.
  all: apply running_bind; [auto with running|intros _].
  all: repeat match goal with |- keepsRunning (if ?b then _ else _) => destruct b end; auto with running.
  apply running_bind; [intros k a k' Hk; by injection Hk as _ <-|]. intros areaBytes. apply running_bind; [auto with running|].
  intros []; cbn [negb]; auto 8 with running.
Qed.
#[local] Hint Resolve running_answer : running.
Lemma running_readMessage d : keepsRunning (readMessage d).
Proof.
  unfold readMessage. apply running_bind; [auto with running|]. intros [c|]; [|auto with running].
  apply running_bind; [auto with running|]. intros heard. apply running_bind; [destruct heard; auto with running|auto with running].
Qed.
Lemma running_admitConnections : keepsRunning admitConnections.
Proof.
  unfold admitConnections. intros k. generalize (Datatypes.S (NodeEnv.fuel (ControlEnv.node E))) as turns. intros turns. revert k.
  change (keepsRunning (admitConnections_turns turns)). induction turns as [|turns IH]; [done|]. cbn [admitConnections_turns].
  apply running_bind; [auto with running|]. intros [| |]; [|auto with running..].
  apply running_bind; [auto with running|]. intros []; auto with running.
Qed.
#[local] Hint Resolve running_readMessage running_admitConnections : running.

Lemma serve_running entry s s' :
  serve entry s = Some s' -> Desk.running s'.1 = if descriptor entry =? stopSignal then false else Desk.running s.1.
Proof.
  unfold serve, told. destruct (handle _ E s.1) as [[[] k]|] eqn:Hh; [|done]. intros [= <-]. cbn.
  destruct (descriptor entry =? stopSignal); [by injection Hh as <-|].
  destruct (descriptor entry =? admitting); cbn [handle] in Hh; [by eapply running_admitConnections|].
  revert Hh. apply running_bind; auto with running.
Qed.

(** [told] of a pass with the stop signal in it, or without. *)
Definition stopsIn (entries : list Ready_t) : bool := existsb (fun entry => descriptor entry =? stopSignal) entries.

Lemma serveAll_running entries s s' :
  serveAll entries s = Some s' ->
  Desk.running s'.1 = Desk.running s.1 && negb (stopsIn entries) /\ s'.2 = if stopsIn entries then 0 else s.2.
Proof.
  revert s. induction entries as [|entry entries IH]; intros s; cbn; [intros [= <-]; by rewrite andb_true_r|].
  destruct (serve entry s) as [s1|] eqn:Hs; [|done]. intros Hr. apply IH in Hr as [-> ->]. rewrite (serve_running _ _ _ Hs).
  unfold serve in Hs. destruct (handle _ _ _) as [[? k]|]; [|done]. injection Hs as <-. cbn.
  destruct (descriptor entry =? stopSignal); cbn; [|done]. split; [by rewrite andb_false_r|].
  unfold EventFd.drain. by destruct (s.2 =? 0), (stopsIn entries).
Qed.

(** *** A stop ends it *)

(** What the loop relies on: its handlers return ([Returns]), and a counter that
    was posted is among what some one of [d] waits in a row reports. *)
Context `{!SessionReturns S}.
Hypothesis Hclock : clockPasses (ControlEnv.node E).
Hypothesis Hdrains : backlogDrains E.
Definition reported (n : nat) : Prop :=
  forall c, 0 < c -> exists entries, waits n c = Filled entries /\ stopsIn (List.firstn ReadyAtOnce entries) = true.
Definition posted (n : nat) (counter : Z) : Z := if posts n then stop counter else counter.

Lemma posted_pos n c : 0 < c -> 0 < posted n c.
Proof. unfold posted, stop, EventFd.post, EventFd.MostPosted. destruct (posts n); [|done]. destruct (Z.eqb_spec c (2 ^ 64 - 2)); cbn; lia. Qed.
Lemma posted_nonneg n c : 0 <= c -> 0 <= posted n c.
Proof. unfold posted, stop, EventFd.post, EventFd.MostPosted. destruct (posts n); [|done]. destruct (Z.eqb_spec c (2 ^ 64 - 2)); cbn; lia. Qed.

Lemma run_stopped turns n s : Desk.running s.1 = false -> run turns n s = Some (Ended s.1 n).
Proof. intros Hr. destruct turns; cbn; by rewrite Hr. Qed.

Lemma serveAll_returns entries s : is_Some (serveAll entries s).
Proof.
  revert s. induction entries as [|entry entries IH]; intros s; cbn; [done|]. unfold serve.
  pose proof (returns_handle E Hclock Hdrains (told entry) s.1) as Hh. unfold wp in Hh.
  destruct (handle (told entry) E s.1) as [[[] k]|]; [apply IH|done].
Qed.

(** One turn of a loop that runs. *)
Lemma run_turn turns n s :
  Desk.running s.1 = true ->
  (waits n (posted n s.2) = WaitFailed /\ run (Datatypes.S turns) n s = Some (Threw s.1)) \/
  exists entries k, wait ReadyAtOnce (waits n (posted n s.2)) = Some entries /\
    run (Datatypes.S turns) n s = run turns (Datatypes.S n) (k, if stopsIn entries then 0 else posted n s.2) /\
    Desk.running k = negb (stopsIn entries).
Proof.
  intros Hr. cbn. rewrite Hr. change (if posts n then stop s.2 else s.2) with (posted n s.2).
  destruct (wait ReadyAtOnce (waits n (posted n s.2))) as [entries|] eqn:Hw.
  - right. destruct (serveAll_returns entries (s.1, posted n s.2)) as [[k c] Hk]. exists entries, k. split; [done|].
    pose proof (serveAll_running _ _ _ Hk) as [Hrun Hc]. cbn in Hrun, Hc. rewrite Hr in Hrun. split; [|done].
    by rewrite Hk, Hc.
  - left. by destruct (waits n (posted n s.2)).
Qed.

(** Within [limit] waits: its condition failed, or a wait did. *)
Definition endsBy (limit : nat) (o : Outcome) : Prop :=
  match o with
  | Ended k w => Desk.running k = false /\ (w <= limit)%nat
  | Threw _ => exists n c, (n < limit)%nat /\ waits n c = WaitFailed
  end.

Lemma run_ended turns n s limit : Desk.running s.1 = false -> (n <= limit)%nat -> exists o, run turns n s = Some o /\ endsBy limit o.
Proof. intros Hr Hn. exists (Ended s.1 n). by rewrite run_stopped. Qed.

Lemma ends_posted m n s :
  0 < posted n s.2 -> reported (n + m) -> exists o, run (Datatypes.S m) n s = Some o /\ endsBy (n + m + 1) o.
Proof.
  revert n s. induction m as [|m IH]; intros n s Hc Hrep.
  all: destruct (Desk.running s.1) eqn:Hr; [|apply run_ended; [done|lia]].
  - destruct (run_turn 0 n s Hr) as [[Hf ->]|(entries & k & Hw & -> & Hk)]; [eexists; split; [done|]; eexists _, _; split; [|done]; lia|].
    rewrite Nat.add_0_r in Hrep. destruct (Hrep _ Hc) as (all & Hf & Hin).
    rewrite Hf in Hw. injection Hw as <-. rewrite Hin in *. apply run_ended; [done|lia].
  - destruct (run_turn (Datatypes.S m) n s Hr) as [[Hf ->]|(entries & k & Hw & -> & Hk)]; [eexists; split; [done|]; eexists _, _; split; [|done]; lia|].
    destruct (stopsIn entries) eqn:Hs; [apply run_ended; [done|lia]|].
    replace (n + Datatypes.S m)%nat with (Datatypes.S n + m)%nat in * by lia. apply IH; [by apply posted_pos|done].
Qed.

Lemma run_more turns more n s o : run turns n s = Some o -> run (turns + more) n s = Some o.
Proof.
  revert n s. induction turns as [|turns IH]; intros n s Ho.
  - cbn in Ho. destruct (Desk.running s.1) eqn:Hr; [done|]. rewrite run_stopped by done. done.
  - cbn in *. destruct (Desk.running s.1); [|done]. destruct (wait _ _); [|done]. destruct (serveAll _ _); [|done]. by apply IH.
Qed.

(** C37: a stop ends the control loop.  Take a session whose calls return, a
    clock that passes the delete timeout and a listener whose backlog runs dry
    within the turns of the model, so that every handler returns, whatever the
    connections say and however they come and go.  On a kernel that reports a
    posted counter within [d] further waits, the loop returns at most [d] waits
    after the one a stop was posted before, however often the waits are
    interrupted; it ends otherwise only where a wait itself failed. *)
Theorem stop_ends_loop n0 d k :
  posts n0 = true -> (exists m, (m <= d)%nat /\ reported (n0 + m)) ->
  exists o, run (Datatypes.S (n0 + d)) 0 (k, EventFd.create) = Some o /\ endsBy (n0 + d + 1) o.
Proof.
  intros Hp (m & Hm & Hrep).
  assert (forall j n s, (n + j = n0)%nat -> 0 <= s.2 -> exists o, run (j + Datatypes.S m) n s = Some o /\ endsBy (n0 + m + 1) o) as Hgo.
  { induction j as [|j IH]; intros n s Hn Hc.
    - rewrite Nat.add_0_r in Hn. subst n. apply ends_posted; [|done]. unfold posted, stop, EventFd.post, EventFd.MostPosted. rewrite Hp.
      destruct (Z.eqb_spec s.2 (2 ^ 64 - 2)); cbn; lia.
    - destruct (Desk.running s.1) eqn:Hr; [|apply run_ended; [done|lia]]. cbn [Nat.add].
      destruct (run_turn (j + Datatypes.S m) n s Hr) as [[Hf ->]|(entries & k1 & _ & Heq & _)];
        [eexists; split; [done|]; eexists _, _; split; [|done]; lia|].
      rewrite Heq. apply IH; [lia|]. cbn. destruct (stopsIn entries); [done|by apply posted_nonneg]. }
  destruct (Hgo n0 0%nat (k, EventFd.create)) as (o & Hrun & Ho); [lia|done|].
  exists o. split.
  - replace (Datatypes.S (n0 + d)) with (n0 + Datatypes.S m + (d - m))%nat by lia. by apply run_more.
  - destruct o as [k' w|k']; cbn in *; [split; [easy|lia]|]. destruct Ho as (n & c & Hn & Hf). exists n, c. split; [lia|done].
Qed.

(** On a kernel that reports no counter at zero, nothing else ends it. *)
Lemma ended_was_posted turns n s k w :
  (forall i entries, waits i 0 = Filled entries -> stopsIn entries = false) ->
  run turns n s = Some (Ended k w) -> Desk.running s.1 = true -> s.2 = 0 -> exists i, (n <= i < w)%nat /\ posts i = true.
Proof.
  intros Hz. revert n s. induction turns as [|turns IH]; intros n s Hrun Hr Hc; [cbn in Hrun; by rewrite Hr in Hrun|].
  destruct (run_turn turns n s Hr) as [[_ Hf]|(entries & k1 & Hw & Heq & Hk1)]; [by rewrite Hf in Hrun|]. rewrite Heq in Hrun.
  assert (Datatypes.S n <= w)%nat as Hle.
  { clear -Hrun. revert Hrun. generalize (Datatypes.S n). generalize (k1, if stopsIn entries then 0 else posted n s.2). clear.
    induction turns as [|turns IH]; intros s n; cbn; destruct (Desk.running s.1); try done; try (by intros [= _ <-]).
    destruct (wait _ _); [|done]. destruct (serveAll _ _) as [s'|]; [|done]. intros H0. apply IH in H0. lia. }
  destruct (posts n) eqn:Hp; [exists n; split; [lia|done]|].
  assert (posted n s.2 = 0) as Hp0 by (unfold posted; by rewrite Hp).
  assert (stopsIn entries = false) as Hno.
  { rewrite Hp0 in Hw. destruct (waits n 0) as [all| |] eqn:Hf; cbn in Hw; [|by injection Hw as <-|done]. injection Hw as <-.
    specialize (Hz n all Hf). unfold stopsIn in *. apply not_true_is_false. intros Ht. apply existsb_exists in Ht as (x & Hin & Hx).
    assert (existsb (fun entry => descriptor entry =? stopSignal) all = true) as Ha; [|congruence].
    apply existsb_exists. exists x. split; [|done]. rewrite <- (List.firstn_skipn ReadyAtOnce all). apply in_or_app. by left. }
  rewrite Hno in *. destruct (IH (Datatypes.S n) (k1, posted n s.2) Hrun Hk1 Hp0) as (i & Hi & Hpi). exists i. split; [lia|done].
Qed.
End loop.

(** ** Example *)

(** A requester connects and says its Hello, asks for a domain and goes, each in
    the pass of a wait; the stop is posted before the fourth, which a signal cuts,
    and the fifth reports it. *)
Definition busyThenStop (n : nat) (_ : Z) : Waited :=
  match n with
  | 0 => Filled [Epoll.mk 5 Readable]
  | 1 => Filled [Epoll.mk 7 Readable]
  | 2 => Filled [Epoll.mk 7 (Z.lor Readable PeerGone)]
  | 3 => Interrupted
  | _ => Filled [Epoll.mk 4 Readable]
  end%nat.
Definition prompt_env : ControlEnv.t :=
  ControlEnv.mk (NodeEnv.mk (fun n => Z.of_nat n * 1000000) (fun n => 1000 + Z.of_nat n) (fun _ a => a) 4
      (DaemonConfig_t.mk (timing.Millis 150) (timing.Millis 400) (timing.Millis 1000) (timing.Millis 3)))
    (ControlEnv.policy sample_control_env) (ControlEnv.euid sample_control_env) (ControlEnv.maxConnections sample_control_env)
    (ControlEnv.areaBytes sample_control_env) (ControlEnv.arrivals sample_control_env) (ControlEnv.heard sample_control_env)
    (ControlEnv.sendGoes sample_control_env).
Lemma stop_ends_loop_witness :
  exists k w, run prompt_env 4 5 busyThenStop (fun n => Nat.eqb n 3) 5 0 (sample_desk, EventFd.create) = Some (Ended k w) /\
    Desk.running k = false /\ (w <= 5)%nat /\ Desk.sends k = 2%nat.
Proof.
  destruct (stop_ends_loop prompt_env 4 5 busyThenStop (fun n => Nat.eqb n 3)) with (n0 := 3%nat) (d := 1%nat) (k := sample_desk) as (o & Hrun & Ho).
  - intros n. exists 2%nat. split; [cbn; lia|]. cbn. unfold timing.Millis. lia.
  - intros n. exists 1%nat. split; [cbn; lia|]. by rewrite Nat.add_1_r.
  - reflexivity.
  - exists 1%nat. split; [lia|]. intros c _. exists [Epoll.mk 4 Readable]. split; reflexivity.
  - destruct o as [k w|k]; [|exfalso; destruct Ho as ([|[|[|[|n]]]] & c & _ & Hf); discriminate Hf].
    exists k, w. destruct Ho as [Hr Hw]. split; [exact Hrun|]. split; [exact Hr|]. split; [exact Hw|].
    apply (f_equal (fun o => match o with Some (Ended k _) => Desk.sends k | _ => 0%nat end)) in Hrun.
    rewrite <- Hrun. vm_compute. reflexivity.
Defined.
End ControlLoop.

(** ** One datagram socket *)

Module DatagramSocket.
(** [opens] and [accepts] are whether the kernel gives the socket and takes the
    connect or the bind; [None] is a throw. *)
Definition sender (opens accepts : bool) (held : Z) (path : list Z) : option Socket.t :=
  if negb opens then None
  else match Socket.connect accepts path with Some _ => None | None => Some (Socket.adopt held) end.
Definition receiver (opens accepts : bool) (held : Z) (path : list Z) (names : gset (list Z)) : option Socket.t * gset (list Z) :=
  if negb opens then (None, names)
  else match Socket.bind accepts path (Socket.adopt held) names with (inl s, names) => (Some s, names) | (inr _, names) => (None, names) end.

(** [sent] is what the kernel took of the bytes. *)
Definition send (sent : Z) (bytes : list Z) : bool := sent =? Z.of_nat (length bytes).

(** What [recv] comes to: bytes of one datagram, nothing in time or a signal, or
    a failure. *)
Inductive Taken := Datagram (bytes : list Z) | Nothing | Broken.
Definition receive (setsockopt : bool) (recv : Taken) (most : Z) : option (option (list Z)) :=
  if negb setsockopt then None
  else match recv with Datagram bytes => Some (Some (take (Z.to_nat most) bytes)) | Nothing => Some None | Broken => None end.
End DatagramSocket.

(** ** The service manager *)

Module ServiceNotifier.
(** [NOTIFY_SOCKET], where it is an address the protocol defines. *)
Definition readAddress (named : option (list Z)) : list Z :=
  match named with
  | Some (c :: rest) => if (c =? 47) || (c =? 64) then c :: rest else []
  | _ => []
  end.

Record t := mk { sender_ : option Socket.t; }.
Definition make (named : option (list Z)) (opens accepts : bool) (held : Z) : t :=
  match readAddress named with
  | [] => mk None
  | address => mk (DatagramSocket.sender opens accepts held address)
  end.

(** The datagrams that went out, the last one first. *)
Definition send (n : t) (message : list Z) (sent : list (list Z)) : list (list Z) :=
  match sender_ n with None => sent | Some _ => message :: sent end.
Definition ready (status : list Z) : list Z := str "READY=1" ++ [10] ++ str "STATUS=" ++ status ++ [10].
Definition alive : list Z := str "WATCHDOG=1" ++ [10].
Definition notifyReady (n : t) (status : list Z) := send n (ready status).
Definition notifyAlive (n : t) := send n alive.

(** The assignments a manager reads in a message: its lines. *)
Fixpoint lines (message line : list Z) : list (list Z) :=
  match message with
  | [] => if bool_decide (line = []) then [] else [line]
  | c :: message => if c =? 10 then line :: lines message [] else lines message (line ++ [c])
  end.

Lemma lines_one part rest line : 10 ∉ part -> lines (part ++ 10 :: rest) line = (line ++ part) :: lines rest [].
Proof.
  revert line. induction part as [|c part IH]; intros line Hn; cbn; [by rewrite app_nil_r|].
  apply not_elem_of_cons in Hn as [Hc Hn]. rewrite (proj2 (Z.eqb_neq c 10)) by congruence. rewrite IH by done. by rewrite <- app_assoc.
Qed.

(** A status of one line is one assignment of its message, and no daemon that
    has no address, or none it could reach, says anything. *)
Theorem notified_as_meant named opens accepts held status sent :
  10 ∉ status ->
  lines (ready status) [] = [str "READY=1"; str "STATUS=" ++ status] /\
  (readAddress named = [] \/ opens = false \/ accepts = false ->
   notifyReady (make named opens accepts held) status sent = sent /\ notifyAlive (make named opens accepts held) sent = sent).
Proof.
  intros Hs. split.
  - unfold ready. change (str "READY=1" ++ [10] ++ ?r) with (str "READY=1" ++ 10 :: r).
    rewrite (lines_one (str "READY=1")) by (vm_compute; intros Hin; repeat (apply elem_of_cons in Hin as [Hin|Hin]; [done|]); by apply elem_of_nil in Hin).
    rewrite (app_assoc (str "STATUS=")), lines_one; [done|]. rewrite elem_of_app. intros [Hin|Hin]; [|done].
    revert Hin. vm_compute. intros Hin. repeat (apply elem_of_cons in Hin as [Hin|Hin]; [done|]); by apply elem_of_nil in Hin.
  - intros Hq. unfold notifyReady, notifyAlive, send, make. destruct (readAddress named) as [|c address] eqn:Ha; [done|].
    unfold DatagramSocket.sender, Socket.connect. destruct Hq as [|[-> | ->]]; [done|done|]. destruct opens; [|done]. cbn [negb].
    by destruct (Address.make _).
Qed.
End ServiceNotifier.
