(* ===== verification/Bindings.v ===== *)
(** * Bindings: the Python extension over a session

    Models [src/pybind11/cme.cpp]: the box a turn is held in, as [with] enters
    and leaves it, the calls that make a box, and what an interpreter can do with
    boxes in any order.  The box is a template over the two sessions, so the
    session is an interface: [lock] and [tryLock] give a guard or refuse, and a
    guard goes back by its destructor.  The calls that only forward to the
    session with the interpreter's lock given up are [Session]'s and
    [SharedSession]'s own, modelled there. *)

From stdpp Require Import strings.
From Stdlib Require Import QArith.
From S2P Require Import Prelude Types KvConfig KvParse.
Local Open Scope Z_scope.

Module bindings.
(** By name or by handle. *)
Inductive Key := Name (name : list Z) | Handle (id incarnation : Z).

(** What the box asks of a session, and that it counts its guards. *)
Class Turns (S : Type) := {
  Guard_ : Type;
  lock : Key -> S -> (Guard_ + Error) * S;
  tryLock : Key -> Z -> S -> (option Guard_ + Error) * S;
  unlock : Guard_ -> S -> S;
  out : S -> Z;
}.
Class TurnsLaws (S : Type) `{Turns S} : Prop := {
  lock_out k s : match lock k s with (inl _, s') => out s' = out s + 1 | (inr _, s') => out s' = out s end;
  tryLock_out k t s : match tryLock k t s with (inl (Some _), s') => out s' = out s + 1 | (_, s') => out s' = out s end;
  unlock_out g s : out (unlock g s) = out s - 1;
}.

Definition nameHandle (id : Z) : list Z := str "handle:" ++ digits 10 id.
Definition labelOf (k : Key) : list Z := match k with Name name => name | Handle id _ => nameHandle id end.

(** Seconds as the interpreter has them, cut to whole nanoseconds. *)
Definition readNanoseconds (seconds : Q) : Z := Z.quot (Qnum seconds * 10 ^ 9) (Zpos (Qden seconds)).

(** ** The box *)

Module HeldDomain.
(** [acquire_] is what a callable locks, [None] the empty callable of a box that
    was made holding. *)
Record t (G : Type) := mk { acquire_ : option Key; label_ : list Z; held_ : option G; }.
Arguments mk {G}.
Arguments acquire_ {G}.
Arguments label_ {G}.
Arguments held_ {G}.
End HeldDomain.
Import HeldDomain.

Section boxes.
Context {S : Type} `{Turns S}.

Local Abbreviation Box := (HeldDomain.t Guard_).

(** What a call raises: an error of the library, or [std::bad_function_call]. *)
Inductive Raised := CmeError (error : Error) | BadFunctionCall.

Definition isHeld (b : Box) : bool := match held_ b with Some _ => true | None => false end.

Definition takeTurn (b : Box) (s : S) : option Raised * Box * S :=
  match held_ b with
  | Some _ => (None, b, s)
  | None =>
      match acquire_ b with
      | None => (Some BadFunctionCall, b, s)
      | Some k =>
          match lock k s with
          | (inl g, s) => (None, HeldDomain.mk (acquire_ b) (label_ b) (Some g), s)
          | (inr error, s) => (Some (CmeError error), b, s)
          end
      end
  end.

Definition release (b : Box) (s : S) : Box * S :=
  match held_ b with
  | Some g => (HeldDomain.mk (acquire_ b) (label_ b) None, unlock g s)
  | None => (b, s)
  end.
Definition dropTurn := release.

(** [Session.lock], which acquires nothing, and [Session.try_lock]. *)
Definition makeLock (k : Key) : Box := HeldDomain.mk (Some k) (labelOf k) None.
Definition makeTryLock (k : Key) (timeout_seconds : Q) (s : S) : (option Box + Raised) * S :=
  match tryLock k (readNanoseconds timeout_seconds) s with
  | (inl None, s) => (inl None, s)
  | (inl (Some g), s) => (inl (Some (HeldDomain.mk None (labelOf k) (Some g))), s)
  | (inr error, s) => (inr (CmeError error), s)
  end.

(** [with box: body]: the body runs once the box was entered, and the box is left
    whether it returns or raises. *)
Definition with_ {A} (b : Box) (body : Box -> S -> A * Box * S) (s : S) : (A + Raised) * Box * S :=
  match takeTurn b s with
  | (Some raised, b, s) => (inr raised, b, s)
  | (None, b, s) => let '(a, b, s) := body b s in let '(b, s) := dropTurn b s in (inl a, b, s)
  end.

(** ** An interpreter *)

(** Its boxes by the name of their object, and the session. *)
Definition Interp : Type := gmap Z Box * S.
Inductive Call :=
| Lock_ (box : Z) (k : Key) | TryLock_ (box : Z) (k : Key) (timeout_seconds : Q)
| Enter (box : Z) | Exit (box : Z) | Release (box : Z) | Collect (box : Z).

(** [None] is a call the program cannot make: of an object it has not, or to
    make one it has. *)
Definition call (c : Call) (i : Interp) : option Interp :=
  let '(boxes, s) := i in
  match c with
  | Lock_ box k => match boxes !! box with None => Some (<[box := makeLock k]> boxes, s) | Some _ => None end
  | TryLock_ box k timeout =>
      match boxes !! box with
      | None => match makeTryLock k timeout s with (inl (Some b), s) => Some (<[box := b]> boxes, s) | (_, s) => Some (boxes, s) end
      | Some _ => None
      end
  | Enter box => match boxes !! box with Some b => let '(_, b, s) := takeTurn b s in Some (<[box := b]> boxes, s) | None => None end
  | Exit box | Release box => match boxes !! box with Some b => let '(b, s) := release b s in Some (<[box := b]> boxes, s) | None => None end
  | Collect box => match boxes !! box with Some b => let '(_, s) := release b s in Some (delete box boxes, s) | None => None end
  end.
Fixpoint calls (cs : list Call) (i : Interp) : option Interp :=
  match cs with [] => Some i | c :: cs => match call c i with Some i => calls cs i | None => None end end.

(** The boxes that hold a turn. *)
Definition turns (boxes : gmap Z Box) : Z := Z.of_nat (size (those isHeld boxes)).

Context `{!TurnsLaws S}.

Lemma release_counts b s : isHeld (release b s).1 = false /\ out (release b s).2 = out s - (if isHeld b then 1 else 0).
Proof. unfold release, isHeld. destruct (held_ b) as [g|] eqn:Hb; cbn; [|rewrite Hb; lia]. rewrite unlock_out. auto. Qed.

Lemma takeTurn_spec b s r b' s' :
  takeTurn b s = (r, b', s') ->
  out s' = out s + (if isHeld b' then 1 else 0) - (if isHeld b then 1 else 0) /\
  match r with
  | None => isHeld b' = true
  | Some BadFunctionCall => b' = b /\ s' = s /\ isHeld b = false /\ acquire_ b = None
  | Some (CmeError _) => b' = b /\ isHeld b = false
  end.
Proof.
  unfold takeTurn, isHeld. destruct (held_ b) as [g|] eqn:Hb; [intros [= <- <- <-]; rewrite Hb; lia|].
  destruct (acquire_ b) as [k|] eqn:Ha; [|intros [= <- <- <-]; rewrite Hb; split; [lia|done]].
  pose proof (lock_out k s) as Hl. destruct (lock k s) as [[g|e] s1]; intros [= <- <- <-]; cbn; rewrite ?Hb; split; try done; lia.
Qed.

Lemma turns_insert boxes box b :
  turns (<[box := b]> boxes) = turns boxes + (if isHeld b then 1 else 0) - (match boxes !! box with Some o => if isHeld o then 1 else 0 | None => 0 end).
Proof.
  unfold turns. rewrite (those_insert isHeld (makeLock (Name [])) eq_refl boxes box b). unfold standing. by destruct (boxes !! box).
Qed.

Lemma turns_delete boxes box b : boxes !! box = Some b -> turns (delete box boxes) = turns boxes - (if isHeld b then 1 else 0).
Proof.
  intros Hb. pose proof (turns_insert (delete box boxes) box b) as Hi. rewrite insert_delete_eq, insert_id, lookup_delete_eq in Hi by done. lia.
Qed.

(** Each call moves the guards out by what it moves the boxes that hold one. *)
Lemma call_counts c boxes s boxes' s' : call c (boxes, s) = Some (boxes', s') -> out s' - out s = turns boxes' - turns boxes.
Proof.
  destruct c as [box k|box k timeout|box|box|box|box]; cbn; destruct (boxes !! box) as [b|] eqn:Hb; try done.
  - intros [= <- <-]. rewrite turns_insert, Hb. cbn. lia.
  - unfold makeTryLock. pose proof (tryLock_out k (readNanoseconds timeout) s) as Ht.
    destruct (tryLock k _ s) as [[[g|]|e] s1]; intros [= <- <-]; rewrite ?turns_insert, ?Hb; cbn; lia.
  - destruct (takeTurn b s) as [[r b1] s1] eqn:Ht. intros [= <- <-]. apply takeTurn_spec in Ht as [Ht _]. rewrite turns_insert, Hb. lia.
  - pose proof (release_counts b s) as [Hr Ho]. destruct (release b s) as [b1 s1]. intros [= <- <-]. cbn in *. rewrite turns_insert, Hb, Hr. lia.
  - pose proof (release_counts b s) as [Hr Ho]. destruct (release b s) as [b1 s1]. intros [= <- <-]. cbn in *. rewrite turns_insert, Hb, Hr. lia.
  - pose proof (release_counts b s) as [Hr Ho]. destruct (release b s) as [b1 s1]. intros [= <- <-]. cbn in *. rewrite (turns_delete _ _ _ Hb). lia.
Qed.

(** No program strands a turn: whatever an interpreter does with its boxes, the
    session has out one guard for each box that holds one, so a program whose
    boxes are gone has given every turn back. *)
Theorem turns_owned cs boxes s boxes' s' :
  calls cs (boxes, s) = Some (boxes', s') -> out s' - out s = turns boxes' - turns boxes.
Proof.
  revert boxes s. induction cs as [|c cs IH]; intros boxes s; [intros [= <- <-]; lia|]. cbn [calls].
  destruct (call c (boxes, s)) as [[b1 s1]|] eqn:Hc; [|done]. intros Hr. apply call_counts in Hc. apply IH in Hr. lia.
Qed.

(** The body of a [with] starts in a held box, and the box is free when the
    statement is over, however the body used it. *)
Theorem with_brackets {A} (b : Box) (body : Box -> S -> A * Box * S) s :
  (forall b s, out (body b s).2 - out s = (if isHeld (body b s).1.2 then 1 else 0) - (if isHeld b then 1 else 0)) ->
  match with_ b body s with
  | (inl a, b', s') => (exists b1 s1, takeTurn b s = (None, b1, s1) /\ isHeld b1 = true /\ a = (body b1 s1).1.1) /\
                       isHeld b' = false /\ out s' = out s - (if isHeld b then 1 else 0)
  | (inr _, b', s') => b' = b /\ isHeld b = false /\ out s' = out s
  end.
Proof.
  intros Hbody. unfold with_. destruct (takeTurn b s) as [[[r|] b1] s1] eqn:Ht; apply takeTurn_spec in Ht as Hs; destruct Hs as [Ho Hr].
  - destruct r; destruct Hr as (-> & Hr); [split_and!; [done|done|lia]|]. destruct Hr as (-> & Hh & _). done.
  - specialize (Hbody b1 s1). destruct (body b1 s1) as [[a b2] s2] eqn:Hb. cbn in Hbody. unfold dropTurn.
    pose proof (release_counts b2 s2) as [Hf Hou]. destruct (release b2 s2) as [b3 s3]. cbn in *. split_and!; [|done|].
    + exists b1, s1. by rewrite Hb.
    + rewrite Hr in *. lia.
Qed.

(** A box a [try_lock] made cannot be entered again once it was left: it has
    nothing to call. *)
Theorem retried_box_throws k timeout s b s1 :
  makeTryLock k timeout s = (inl (Some b), s1) ->
  forall s2, takeTurn (release b s1).1 s2 = (Some BadFunctionCall, (release b s1).1, s2).
Proof.
  unfold makeTryLock. destruct (tryLock k _ s) as [[[g|]|e] s']; [|done..]. intros [= <- <-] s2. done.
Qed.

(** A [with] inside a [with] on one box gives the turn back at the inner end: the
    rest of the outer body runs without it. *)
Theorem nested_with_releases k s g s1 :
  lock k s = (inl g, s1) ->
  exists b, with_ (makeLock k) (fun b s => let '(_, b, s) := with_ b (fun b s => (isHeld b, b, s)) s in (isHeld b, b, s)) s = (inl false, b, unlock g s1).
Proof.
  intros Hl. unfold with_, takeTurn, makeLock. cbn. rewrite Hl. eexists. reflexivity.
Qed.
End boxes.

(** ** A session for the examples *)

(** It has one turn to give per key and keeps count. *)
#[global] Instance counting_turns : Turns Z := {|
  Guard_ := unit;
  lock k s := (inl tt, s + 1);
  tryLock k t s := if t <=? 0 then (inl None, s) else (inl (Some tt), s + 1);
  unlock _ s := s - 1;
  out s := s;
|}.
#[global] Instance counting_laws : TurnsLaws Z.
Proof. split; [intros k s; cbn; lia|intros k limit s; cbn; destruct (limit <=? 0); cbn; lia|intros g s; cbn; lia]. Qed.

Example turns_owned_run :
  calls [Lock_ 1 (Name [114]); Enter 1; TryLock_ 2 (Handle 3 1) (5 # 1); Exit 1; Collect 2; Collect 1] (∅, 0) = Some (∅, 0).
Proof. by vm_compute. Qed.
End bindings.
