(* ===== verification/Telemetry.v ===== *)
(** * Telemetry: what a peer and a daemon count

    Models [src/src/observe/telemetry.hpp] and [stats.cpp], the counters of a
    peer and the snapshot taken of them, [latency.hpp] and [latency.cpp], the
    spans its threads record, and [src/daemon/daemon/observe/counters.hpp], the
    counts and spans of a daemon.  The counters are relaxed words: each bump is
    one step, so a run of the threads is a sequence of events in the order the
    words took them.  The report that prints a lane is the list of its lines. *)

From stdpp Require Import strings.
From S2P Require Import Prelude Types KvConfig Words.

Definition add64 (delta word : Z) : Z := (ordered.add 64 delta word).2.

Lemma add64_u64 delta word : add64 delta word = u64 (word + delta).
Proof. reflexivity. Qed.
#[local] Arguments add64 : simpl never.
#[local] Arguments u64 : simpl never.

(** ** A daemon's counts *)

Module EventCounts.
(** One word per event of an enumeration, by its number. *)
Definition initial : gmap Z Z := ∅.
Definition read (which : Z) (c : gmap Z Z) : Z := default 0 (c !! which).
Definition bump (which : Z) (c : gmap Z Z) : gmap Z Z := <[which := add64 1 (read which c)]> c.

Lemma read_bump which other c : read other (bump which c) = if which =? other then u64 (read other c + 1) else read other c.
Proof.
  unfold read, bump. destruct (Z.eqb_spec which other) as [->|Hne]; [by rewrite lookup_insert_eq|by rewrite lookup_insert_ne].
Qed.

(** Whatever order the threads bump in, a word counts its own event, modulo the
    word. *)
Theorem counts_events (events : list Z) which :
  read which (foldl (fun c e => bump e c) initial events) = u64 (Z.of_nat (length (filter (fun e => e = which) events))).
Proof.
  induction events as [|e events IH] using rev_ind; [done|]. rewrite foldl_app, filter_app, length_app. cbn [foldl]. rewrite read_bump, IH.
  destruct (Z.eqb_spec e which) as [->|Hne].
  - rewrite filter_cons_True by done. cbn [length]. rewrite filter_nil. cbn [length]. unfold u64. rewrite Z.add_mod_idemp_l by lia. f_equal. lia.
  - rewrite filter_cons_False, filter_nil by done. f_equal. cbn. lia.
Qed.
End EventCounts.

Module SpanSums.
Record t := mk { nanos_ : gmap Z Z; times_ : gmap Z Z; }.
Definition initial : t := mk ∅ ∅.
Definition readNanos (which : Z) (s : t) : Z := default 0 (nanos_ s !! which).
Definition readTimes (which : Z) (s : t) : Z := default 0 (times_ s !! which).
(** A span already past is zero. *)
Definition add (which spent : Z) (s : t) : t :=
  let taken := if 0 <? spent then u64 spent else 0 in
  mk (<[which := add64 taken (readNanos which s)]> (nanos_ s)) (<[which := add64 1 (readTimes which s)]> (times_ s)).
Definition readMeanNanos (which : Z) (s : t) : Z :=
  let times := readTimes which s in if times =? 0 then 0 else readNanos which s / times.

(** The spans of one event, as long as their sum fits the word. *)
Definition sumOf (spans : list Z) : Z := foldr (fun spent sum => Z.max 0 spent + sum) 0 spans.

Lemma sumOf_cons x spans : sumOf (x :: spans) = Z.max 0 x + sumOf spans.
Proof. reflexivity. Qed.
Lemma sumOf_nonneg spans : 0 <= sumOf spans.
Proof. induction spans as [|x spans IH]; [done|]. rewrite sumOf_cons. lia. Qed.
Lemma sumOf_app xs ys : sumOf (xs ++ ys) = sumOf xs + sumOf ys.
Proof. induction xs as [|x xs IH]; [done|]. rewrite <- app_comm_cons, !sumOf_cons. lia. Qed.

Lemma sums_spans which spans s :
  s = foldl (fun s spent => add which spent s) initial spans -> sumOf spans < 2 ^ 64 -> Z.of_nat (length spans) < 2 ^ 64 ->
  readNanos which s = sumOf spans /\ readTimes which s = Z.of_nat (length spans).
Proof.
  revert s. induction spans as [|x spans IH] using rev_ind; intros s -> Hsum Hlen; [done|].
  rewrite sumOf_app, sumOf_cons in *. change (sumOf []) with 0 in *. rewrite length_app in *. change (length [x]) with 1%nat in *.
  pose proof (sumOf_nonneg spans).
  rewrite foldl_app. cbn [foldl]. destruct (IH _ eq_refl) as [Hn Ht]; [lia|lia|]. set (s := foldl _ initial spans) in *.
  unfold readNanos at 1, readTimes at 1, add. cbn [nanos_ times_]. rewrite !lookup_insert_eq. cbn [default from_option]. unfold id. rewrite Hn, Ht, !add64_u64. split; [|rewrite u64_small; unfold in_u64; lia].
  destruct (Z.ltb_spec 0 x); rewrite ?(u64_small x) by (unfold in_u64; lia); rewrite u64_small; unfold in_u64; lia.
Qed.

(** The mean lies between the shortest and the longest span. *)
Theorem mean_between which spans s lo hi :
  s = foldl (fun s spent => add which spent s) initial spans -> sumOf spans < 2 ^ 64 -> Z.of_nat (length spans) < 2 ^ 64 ->
  spans <> [] -> Forall (fun x => lo <= Z.max 0 x <= hi) spans -> lo <= readMeanNanos which s <= hi.
Proof.
  intros Hs Hsum Hlen Hne Hall. destruct (sums_spans which spans s Hs Hsum Hlen) as [Hn Ht]. unfold readMeanNanos. rewrite Hn, Ht.
  assert (0 < Z.of_nat (length spans)) as Hpos by (destruct spans; [done|cbn; lia]).
  assert (lo * Z.of_nat (length spans) <= sumOf spans <= hi * Z.of_nat (length spans)) as Hb.
  { clear -Hall. induction Hall as [|x spans Hx _ IH]; [cbn; lia|]. rewrite sumOf_cons. cbn [length]. lia. }
  rewrite (proj2 (Z.eqb_neq _ 0)) by lia. split; [apply Z.div_le_lower_bound; lia|apply Z.div_le_upper_bound; lia].
Qed.
End SpanSums.

(** ** A peer's counters *)

Module PeerTelemetry_t.
Record t := mk {
  requested : gmap Z Z;
  alreadyHave : Z; arrivedSpin : Z; arrivedSleep : Z; notArrived : Z; transferable : Z; transferOnRelease : Z; transferOnPoll : Z;
  wait : Z; spin : Z; held : Z;
  takeover : Z; completed : Z; rejoined : Z;
  latCycles : gmap Z Z; latCount : gmap Z Z;
}.
Definition zero : t := mk ∅ 0 0 0 0 0 0 0 0 0 0 0 0 0 ∅ ∅.
End PeerTelemetry_t.
Import PeerTelemetry_t.

Module stats.
(** The events with what they carry: a wait has the wall and the processor time
    it took, a hold its length. *)
Inductive Event :=
| OwnershipRequested (domainId : Z) | OwnershipAlreadyHave | OwnershipArrived (wallElapsed cpuElapsed : Z) (isSpin : bool)
| OwnershipNotArrived (wallElapsed cpuElapsed : Z) | OwnershipTransferable (held : Z)
| OwnershipTransferOnRelease | OwnershipTransferOnPoll
| RecoveryClaimStarted | RecoveryClaimed | RecoveryTakeover | RecoveryCompleted.

Definition bumpAt (index delta : Z) (words : gmap Z Z) : gmap Z Z := <[index := add64 delta (default 0 (words !! index))]> words.

Definition recordWaitCommon (wallElapsed cpuElapsed : Z) (p : PeerTelemetry_t.t) : PeerTelemetry_t.t :=
  let cpuElapsed := if wallElapsed <? cpuElapsed then wallElapsed else cpuElapsed in
  mk (requested p) (alreadyHave p) (arrivedSpin p) (arrivedSleep p) (notArrived p) (transferable p) (transferOnRelease p) (transferOnPoll p)
    (add64 (u64 wallElapsed) (wait p)) (add64 (u64 cpuElapsed) (spin p)) (held p) (takeover p) (completed p) (rejoined p) (latCycles p) (latCount p).

Definition emit (CME_STATS : bool) (e : Event) (p : PeerTelemetry_t.t) : PeerTelemetry_t.t :=
  let count (have spin_ sleep not_ release poll take done_ : Z) (q : PeerTelemetry_t.t) :=
    mk (requested q) (add64 have (alreadyHave q)) (add64 spin_ (arrivedSpin q)) (add64 sleep (arrivedSleep q)) (add64 not_ (notArrived q))
      (transferable q) (add64 release (transferOnRelease q)) (add64 poll (transferOnPoll q)) (wait q) (spin q) (held q)
      (add64 take (takeover q)) (add64 done_ (completed q)) (rejoined q) (latCycles q) (latCount q) in
  if negb CME_STATS then p
  else match e with
  | OwnershipRequested domainId =>
      mk (bumpAt (Z.min domainId (MaxDomains - 1)) 1 (requested p)) (alreadyHave p) (arrivedSpin p) (arrivedSleep p) (notArrived p) (transferable p)
        (transferOnRelease p) (transferOnPoll p) (wait p) (spin p) (held p) (takeover p) (completed p) (rejoined p) (latCycles p) (latCount p)
  | OwnershipAlreadyHave => count 1 0 0 0 0 0 0 0 p
  | OwnershipArrived wall cpu isSpin => (if isSpin then count 0 1 0 0 0 0 0 0 else count 0 0 1 0 0 0 0 0) (recordWaitCommon wall cpu p)
  | OwnershipNotArrived wall cpu => count 0 0 0 1 0 0 0 0 (recordWaitCommon wall cpu p)
  | OwnershipTransferable took =>
      mk (requested p) (alreadyHave p) (arrivedSpin p) (arrivedSleep p) (notArrived p) (add64 1 (transferable p)) (transferOnRelease p) (transferOnPoll p)
        (wait p) (spin p) (add64 (u64 took) (held p)) (takeover p) (completed p) (rejoined p) (latCycles p) (latCount p)
  | OwnershipTransferOnRelease => count 0 0 0 0 1 0 0 0 p
  | OwnershipTransferOnPoll => count 0 0 0 0 0 1 0 0 p
  | RecoveryTakeover => count 0 0 0 0 0 0 1 0 p
  | RecoveryCompleted => count 0 0 0 0 0 0 0 1 p
  | RecoveryClaimStarted | RecoveryClaimed => p
  end.

(** [CME_LAT_ADD], where the build has it. *)
Definition latAdd (stage deltaCycles : Z) (p : PeerTelemetry_t.t) : PeerTelemetry_t.t :=
  mk (requested p) (alreadyHave p) (arrivedSpin p) (arrivedSleep p) (notArrived p) (transferable p) (transferOnRelease p) (transferOnPoll p)
    (wait p) (spin p) (held p) (takeover p) (completed p) (rejoined p) (bumpAt stage deltaCycles (latCycles p)) (bumpAt stage 1 (latCount p)).

Record TelemetrySnapshot_t := mkSnapshot {
  waitCount : Z; waitTime : Z; spinTime : Z; lockHoldCount : Z; lockHoldTime : Z;
  perDomainAcquire : list Z; onRelease : Z; onPoll : Z;
  snapTakeover : Z; snapCompleted : Z; snapRejoined : Z; countersLive : bool;
}.
Definition getTelemetrySnapshot (CME_STATS : bool) (p : PeerTelemetry_t.t) : TelemetrySnapshot_t :=
  mkSnapshot (u64 (arrivedSpin p + arrivedSleep p + notArrived p)) (wait p) (spin p) (transferable p) (held p)
    (map (fun domainId => default 0 (requested p !! domainId)) (zrange 0 MaxDomains)) (transferOnRelease p) (transferOnPoll p)
    (takeover p) (completed p) (rejoined p) CME_STATS.

Definition wallOf (e : Event) : Z := match e with OwnershipArrived wall _ _ | OwnershipNotArrived wall _ => wall | _ => 0 end.
Definition isWait (e : Event) : bool := match e with OwnershipArrived _ _ _ | OwnershipNotArrived _ _ => true | _ => false end.
(** Clocks that do not run backwards. *)
Definition sane (e : Event) : Prop :=
  match e with OwnershipArrived wall cpu _ | OwnershipNotArrived wall cpu => 0 <= wall /\ 0 <= cpu | _ => True end.
Definition total (events : list Event) : Z := foldr (fun e sum => wallOf e + sum) 0 events.
Definition played (events : list Event) : PeerTelemetry_t.t := foldl (fun p e => emit true e p) PeerTelemetry_t.zero events.

Lemma total_app xs ys : total (xs ++ ys) = total xs + total ys.
Proof. unfold total. induction xs as [|x xs IH]; cbn; [done|]. rewrite IH. lia. Qed.
Lemma total_nonneg events : Forall sane events -> 0 <= total events.
Proof. induction 1 as [|e events He _ IH]; [done|]. unfold total in *. cbn. destruct e; cbn in *; lia. Qed.

Lemma emit_times e p :
  sane e -> wait p + wallOf e < 2 ^ 64 -> 0 <= spin p <= wait p ->
  wait (emit true e p) = wait p + wallOf e /\ 0 <= spin (emit true e p) <= wait (emit true e p).
Proof.
  intros Hs Hw Hp. destruct e as [d| |w c spin_|w c|h| | | | | |]; cbn in *; try lia; [destruct spin_; cbn|..].
  all: destruct Hs as [Hw0 Hc0]; rewrite !add64_u64.
  all: rewrite (u64_small w) by (unfold in_u64; lia); rewrite (u64_small (wait p + w)) by (unfold in_u64; lia).
  all: assert (0 <= (if w <? c then w else c) <= w) as Hc' by (destruct (Z.ltb_spec w c); lia).
  all: set (c' := if w <? c then w else c) in *.
  all: rewrite (u64_small c') by (unfold in_u64; lia); rewrite (u64_small (spin p + c')) by (unfold in_u64; lia); lia.
Qed.

Definition waits (p : PeerTelemetry_t.t) : Z := arrivedSpin p + arrivedSleep p + notArrived p.
Lemma emit_waits e p : waits (emit true e p) mod 2 ^ 64 = (waits p + (if isWait e then 1 else 0)) mod 2 ^ 64.
Proof.
  assert (forall x y z a b c, ((x + a) mod 2 ^ 64 + (y + b) mod 2 ^ 64 + (z + c) mod 2 ^ 64) mod 2 ^ 64 = (x + y + z + (a + b + c)) mod 2 ^ 64) as Hm.
  { intros. rewrite Zplus_mod_idemp_r, <- Z.add_assoc, Zplus_mod_idemp_l, Z.add_assoc, (Z.add_comm (x + a)), <- Z.add_assoc, Zplus_mod_idemp_l.
    f_equal. lia. }
  unfold waits. destruct e as [d| |w c []|w c|h| | | | | |]; cbn; try (by rewrite Z.add_0_r); rewrite !add64_u64; unfold u64.
  all: rewrite Hm; f_equal; lia.
Qed.

(** What a snapshot shows of any run of a build with counters: the processor
    time of the waits is never more than their wall time, a wait is counted once
    however it ended, and the rejoined counter is zero. *)
Theorem snapshot_consistent events :
  Forall sane events -> total events < 2 ^ 64 ->
  let shown := getTelemetrySnapshot true (played events) in
  waitTime shown = total events /\ 0 <= spinTime shown <= waitTime shown /\
  waitCount shown = u64 (Z.of_nat (length (filter (fun e => isWait e = true) events))) /\ snapRejoined shown = 0.
Proof.
  intros Hs Ht. cbn.
  assert (wait (played events) = total events /\ 0 <= spin (played events) <= wait (played events) /\
    waits (played events) mod 2 ^ 64 = Z.of_nat (length (filter (fun e => isWait e = true) events)) mod 2 ^ 64 /\ rejoined (played events) = 0)
    as (Hw & Hsp & Hc & Hr); [|split_and!; [done|lia|lia|exact Hc|done]].
  unfold played. induction events as [|e events IH] using rev_ind; [done|].
  apply Forall_app in Hs as [Hs He]. rewrite Forall_singleton in He. rewrite total_app in *. change (total [e]) with (wallOf e + 0) in *.
  rewrite foldl_app. cbn [foldl]. set (p := foldl _ _ events) in *.
  assert (0 <= wallOf e) as Hwe by (clear -He; destruct e; cbn in He |- *; lia). destruct IH as (Hw & Hsp & Hc & Hr); [done|lia|].
  destruct (emit_times e p He) as [Hw' Hsp']; [lia|lia|]. split_and!; [lia|lia|lia| |].
  - rewrite emit_waits, filter_app, length_app, <- Z.add_mod_idemp_l, Hc, Z.add_mod_idemp_l, Nat2Z.inj_add by lia. f_equal. f_equal.
    destruct (isWait e) eqn:Hi; [by rewrite filter_cons_True|]. by rewrite filter_cons_False by congruence.
  - by destruct e as [d| |w c []|w c|h| | | | | |].
Qed.

(** A build without counters leaves every one of them at zero. *)
Lemma played_off events : foldl (fun p e => emit false e p) PeerTelemetry_t.zero events = PeerTelemetry_t.zero.
Proof. induction events as [|e events IH]; [done|exact IH]. Qed.
End stats.

(** ** The spans of the threads *)

Module trace.
Definition LatencyNames : list (list Z) :=
  map str ["Hold"; "Raise"; "Scan"; "ClimbAnnounce"; "ClimbSpin"; "Release"; "Unlock"; "Fence"; "Spin"; "AdoptLocal"; "Clear"; "Resident";
    "Takeover"; "SpinPoll"; "Acquire"]%string.
Definition getLatencyName (stage : Z) : list Z := nth (Z.to_nat stage) LatencyNames (str "?").

Record SpanRecord_t := mkSpan { tscBegin : Z; tscEnd : Z; domain : Z; stageCode : Z; measured : bool; }.
Record Lane_t := mkLane { lanePeer : Z; laneRole : Z; laneThread : Z; laneRecords : list SpanRecord_t; }.

Module Buffer.
Record t := mk { records : list SpanRecord_t; peerId : Z; roleCode : Z; threadId : Z; isTagged : bool; }.
Definition initial : t := mk [] 0 0 0 false.
End Buffer.
Import Buffer.

(** The lanes of the process, the next thread id, and the buffer and the flag of
    each thread. *)
Module State.
Record t := mk { lanes : list Lane_t; nextThreadId : Z; buffers : gmap Z Buffer.t; measuring : gmap Z bool; }.
Definition initial : t := mk [] 0 ∅ ∅.
End State.
Import State.

Definition bufferOf (s : State.t) (thread : Z) : Buffer.t := default Buffer.initial (buffers s !! thread).

Definition tag (laneOwner laneRole : Z) (thread : Z) (s : State.t) : State.t :=
  let b := bufferOf s thread in
  if isTagged b then s
  else State.mk (lanes s) (u32 (nextThreadId s + 1))
         (<[thread := Buffer.mk (records b) laneOwner laneRole (nextThreadId s) true]> (buffers s)) (measuring s).

Definition flush (thread : Z) (s : State.t) : State.t :=
  let b := bufferOf s thread in
  match records b with
  | [] => s
  | taken => State.mk (lanes s ++ [mkLane (peerId b) (roleCode b) (threadId b) taken]) (nextThreadId s)
               (<[thread := Buffer.mk [] (peerId b) (roleCode b) (threadId b) (isTagged b)]> (buffers s)) (measuring s)
  end.

Definition setMeasuring (thread : Z) (on : bool) (s : State.t) : State.t :=
  State.mk (lanes s) (nextThreadId s) (buffers s) (<[thread := on]> (measuring s)).

Definition pushSpan (thread peer stage dom begin_ end_ : Z) (s : State.t) : State.t :=
  let s := tag peer 0 thread s in
  let b := bufferOf s thread in
  let r := mkSpan begin_ end_ dom stage (default false (measuring s !! thread)) in
  State.mk (lanes s) (nextThreadId s)
    (<[thread := Buffer.mk (records b ++ [r]) (peerId b) (roleCode b) (threadId b) (isTagged b)]> (buffers s)) (measuring s).

(** A thread ends, and its buffer goes with it. *)
Definition exit (thread : Z) (s : State.t) : State.t :=
  let s := flush thread s in State.mk (lanes s) (nextThreadId s) (delete thread (buffers s)) (delete thread (measuring s)).

(** A line of the report: the lane and the record it shows. *)
Record Line_t := mkLine { linePeer : Z; lineRole : Z; lineThread : Z; lineStage : list Z; lineRecord : SpanRecord_t; }.
Definition linesOf (lane : Lane_t) : list Line_t :=
  map (fun r => mkLine (lanePeer lane) (laneRole lane) (laneThread lane) (getLatencyName (stageCode r)) r) (laneRecords lane).
Definition writeJsonl (thread : Z) (s : State.t) : list Line_t * State.t :=
  let s := flush thread s in (concat (map linesOf (lanes s)), s).

Inductive Act :=
| Push (thread peer stage dom begin_ end_ : Z) | Measure (thread : Z) (on : bool) | Exit_ (thread : Z) | Write (thread : Z).
Definition act (a : Act) (s : State.t) : State.t :=
  match a with
  | Push thread peer stage dom b e => pushSpan thread peer stage dom b e s
  | Measure thread on => setMeasuring thread on s
  | Exit_ thread => exit thread s
  | Write thread => (writeJsonl thread s).2
  end.

(** *** No span is lost *)

(** The spans recorded so far, in lanes and in buffers. *)
Definition inBuffers (m : gmap Z Buffer.t) : list SpanRecord_t := concat (map (fun e => records e.2) (map_to_list m)).
Definition kept (s : State.t) : list SpanRecord_t := concat (map laneRecords (lanes s)) ++ inBuffers (buffers s).

Lemma inBuffers_delete m thread : inBuffers m ≡ₚ records (default Buffer.initial (m !! thread)) ++ inBuffers (delete thread m).
Proof.
  destruct (m !! thread) as [b|] eqn:Hb; [|by rewrite delete_id by done].
  unfold inBuffers. rewrite <- (map_to_list_delete m thread b Hb). cbn. done.
Qed.
Lemma inBuffers_insert m thread b : inBuffers (<[thread := b]> m) ≡ₚ records b ++ inBuffers (delete thread m).
Proof. rewrite (inBuffers_delete _ thread), lookup_insert_eq. cbn. by rewrite delete_insert_eq. Qed.

(** What a step pushes. *)
Definition pushed (a : Act) (s : State.t) : list SpanRecord_t :=
  match a with Push thread _ stage dom b e => [mkSpan b e dom stage (default false (measuring s !! thread))] | _ => [] end.

Lemma flush_kept thread s : kept (flush thread s) ≡ₚ kept s.
Proof.
  unfold flush, kept. destruct (records (bufferOf s thread)) as [|r rest] eqn:Hr; [done|]. cbn [lanes buffers].
  rewrite inBuffers_insert, (inBuffers_delete (buffers s) thread). fold (bufferOf s thread). rewrite Hr, map_app, concat_app. cbn [records map concat laneRecords].
  rewrite app_nil_r, app_nil_l, <- app_assoc. done.
Qed.

Lemma act_kept a s : kept (act a s) ≡ₚ kept s ++ pushed a s.
Proof.
  destruct a as [thread peer stage dom b e|thread on|thread|thread]; cbn [act pushed].
  - assert (records (bufferOf (tag peer 0 thread s) thread) = records (bufferOf s thread) /\ measuring (tag peer 0 thread s) = measuring s /\
      lanes (tag peer 0 thread s) = lanes s /\ delete thread (buffers (tag peer 0 thread s)) = delete thread (buffers s)) as (Hr & Hm & Hl & Hd).
    { unfold tag. destruct (isTagged (bufferOf s thread)); [done|]. cbn. unfold bufferOf. cbn. rewrite lookup_insert_eq, delete_insert_eq. done. }
    unfold pushSpan, kept. cbn [lanes buffers]. rewrite inBuffers_insert, (inBuffers_delete (buffers s) thread), Hl, Hd. cbn [records]. rewrite Hr, Hm.
    fold (bufferOf s thread). rewrite <- !app_assoc. do 2 apply Permutation_app_head. apply Permutation_app_comm.
  - by rewrite app_nil_r.
  - rewrite app_nil_r. unfold exit. rewrite <- (flush_kept thread s). unfold kept. cbn [lanes buffers]. apply Permutation_app_head.
    rewrite (inBuffers_delete (buffers (flush thread s)) thread).
    assert (records (default Buffer.initial (buffers (flush thread s) !! thread)) = []) as ->; [|done].
    unfold flush. destruct (records (bufferOf s thread)) as [|r rest] eqn:Hr; [exact Hr|]. cbn. by rewrite lookup_insert_eq.
  - rewrite app_nil_r. apply flush_kept.
Qed.

Fixpoint playAll (acts : list Act) (s : State.t) : State.t := match acts with [] => s | a :: acts => playAll acts (act a s) end.
Fixpoint allPushed (acts : list Act) (s : State.t) : list SpanRecord_t := match acts with [] => [] | a :: acts => pushed a s ++ allPushed acts (act a s) end.

Lemma playAll_kept acts s : kept (playAll acts s) ≡ₚ kept s ++ allPushed acts s.
Proof.
  revert s. induction acts as [|a acts IH]; intros s; cbn; [by rewrite app_nil_r|]. rewrite IH, act_kept. by rewrite <- app_assoc.
Qed.

(** However the threads of a process interleave, a report written when the other
    threads are gone shows every span that was pushed, once. *)
Theorem report_complete acts thread :
  dom (buffers (playAll acts State.initial)) ⊆ {[ thread ]} ->
  map lineRecord (writeJsonl thread (playAll acts State.initial)).1 ≡ₚ allPushed acts State.initial.
Proof.
  intros Hdom. set (s := playAll acts State.initial) in *.
  assert (map lineRecord (writeJsonl thread s).1 = concat (map laneRecords (lanes (flush thread s)))) as ->.
  { unfold writeJsonl. cbn [fst]. induction (lanes (flush thread s)) as [|l ls IH]; [done|]. cbn. rewrite map_app, IH. f_equal.
    unfold linesOf. rewrite map_map. cbn. apply map_id. }
  transitivity (kept (flush thread s)).
  - unfold kept. assert (inBuffers (buffers (flush thread s)) ≡ₚ []) as ->; [|by rewrite app_nil_r].
    rewrite (inBuffers_delete _ thread).
    assert (delete thread (buffers (flush thread s)) = ∅) as ->.
    { assert (delete thread (buffers s) = ∅) as Hs.
      { apply map_eq. intros i. rewrite lookup_empty. destruct (decide (i = thread)) as [->|Hne]; [apply lookup_delete_eq|].
        rewrite lookup_delete_ne by done. apply not_elem_of_dom. set_solver. }
      unfold flush. destruct (records (bufferOf s thread)); [done|]. cbn. by rewrite delete_insert_eq. }
    assert (records (default Buffer.initial (buffers (flush thread s) !! thread)) = []) as ->; [|done].
    unfold flush. destruct (records (bufferOf s thread)) as [|r rest] eqn:Hr; [exact Hr|]. cbn. by rewrite lookup_insert_eq.
  - rewrite flush_kept. apply playAll_kept.
Qed.

(** A thread's lane carries the first peer the thread recorded for: its spans for
    another peer are reported as that one's. *)
Theorem lane_keeps_first_peer :
  map linePeer (writeJsonl 9 (playAll [Push 9 1 0 0 10 20; Push 9 2 0 0 30 40] State.initial)).1 = [1; 1].
Proof. by vm_compute. Qed.
End trace.
